(* ===== verification/_CoqProject ===== *)
-Q . S2P
Prelude.v
GoInt.v
Sliceutil.v
Expression.v
Operator.v
Ccl.v
Graph.v
GraphBuilder.v
BuilderSpec.v
Algorithm.v
StatusConverter.v
Dag.v
Isolated.v
DagSpec.v
Schedule.v
ScheduleSpec.v
Codec.v
Stringutil.v
Strconv.v
Overflow.v
Mytime.v
LogicalNode.v
Preprocess.v
BuildCcl.v
BuildCclSpec.v
Translator.v
BuildNode.v
PlanLogic.v
PlanOps.v
PlanNodes.v
PlanBuild.v
TranslateSpec.v
Optimizer.v
OptimizerSpec.v
OptimizerBatched.v
Graphviz.v
Interpreter.v
InterpreterSpec.v
