(* ===== verification/Prelude.v ===== *)
(** * SCQL: a verified model of the query compiler

    SCQL compiles a SQL query over the tables of several parties into a graph of
    operators that the parties run together.  Every column of every table has a
    column control list (CCL) that says, per party, what the party may learn of the
    column; the compiler must not produce a graph that shows a party more.  This
    development models the part of the Go sources that decides this (under
    src/pkg/interpreter), from the logical plan to the messages the parties get,
    together with the data layer it stands on (src/pkg/types, src/pkg/util), and proves
    what makes it correct.

    ** From a query to the plans of the parties

    [Compile] takes a logical plan from the planner and finds the participants.
    [compileCore] then composes the parts of the compiler.  The preprocessor puts the
    threshold on groups into the plan.  [Translate] wraps the plan into logical nodes
    ([logicalNodeBuilder.build]), computes the CCL of every column of every node
    ([buildCCL], which infers the CCL of expressions), refuses the query unless the
    receivers may see its result, and emits execution nodes.  For each operator an
    algorithm is chosen among those whose placement of tensors (private to a party,
    shared, or public) the CCLs admit; the status converter brings the inputs into the
    statuses the algorithm asks for; the graph builder checks each node against the
    signature of its operator.  [Build] connects the nodes into a graph of pipelines.
    The optimizer folds casts of constants, the checker looks at the owners of private
    tensors, the scheduler deals the sorted nodes to the parties, and the plans are
    written as messages, with a checksum of the printed graph.

    ** Files

    - Prelude: outcomes of Go functions ([res]: value, error or panic), state passing
      that keeps the state of a failed call ([M]), Hoare triples, loops, and the
      interface [GoRange] for the unspecified order in which Go visits a map.  Every
      definition that ranges over a map takes the order from this interface, so the
      theorems hold for all orders.
    - GoInt: 64-bit integers as [Z] with wrap-around, bytes, big-endian words.
      Strconv: the conversions between numbers and strings of the standard library.
    - Sliceutil: pkg/util/sliceutil.
    - Expression: the expression trees and schemas of pkg/expression the interpreter
      reads.
    - Operator: interpreter/operator, the registry of operator signatures.
    - Ccl: interpreter/ccl, levels, CCL objects, inference, the column tracer.
    - Graph: interpreter/graph tensors, attributes, nodes, participants; tables and
      their rewriting (planner/core/rewrite.go).
    - GraphBuilder, BuilderSpec: graph_builder.go.  The state is the record
      [GraphBuilder], one definition per method; a tensor is its position in the list
      of tensors, so that aliasing is explicit.  Plans reachable by any sequence of
      calls are an inductive relation.
    - Algorithm: translator/algorithm.go, the enumeration of placements.
    - StatusConverter: translator/tensor_status_conversion.go.
    - Dag, DagSpec: the end of graph_builder.go ([Build], [FillPipeline]), graph.go
      and graph_checker.go.  Isolated: the removal of isolated nodes and edges.
    - Schedule, ScheduleSpec: interpreter/optimizer, the partitioner and the mapper.
    - LogicalNode: translator/logical_node.go and logical_node_builder.go.
    - Preprocess: translator/logical_plan_pre_process.go, with [MarkAggCountFunc] and
      [AddSelection] of the planner.
    - BuildCcl, BuildCclSpec: translator/build_ccl.go and the checks of
      translator.go.  CCL objects live in a heap, because nodes share them and a join
      changes a shared one.
    - Translator, BuildNode: translator.go and build_execution_node.go, the emission of
      execution nodes for expressions, logical nodes and results, and [Translate].
      PlanLogic is a program logic for plans ([runs]: from a sound plan, an operation
      extends it to a sound plan, on every outcome); PlanOps, PlanNodes and PlanBuild
      specify the operations in it; TranslateSpec has the theorems.
    - Optimizer: graph_optimizer.go and the dates of pkg/util/stringutil.  OptimizerSpec
      is about plans without batches, OptimizerBatched about batched ones.
    - Graphviz: the texts of nodes, graphs and plans (graph.go, execution_node.go,
      tensor.go, attribute.go).
    - Interpreter, InterpreterSpec: interpreter.go.
    - Codec: pkg/util/codec, the memory-comparable encoding of values.
    - Stringutil: LIKE patterns and date formats of pkg/util/stringutil.
    - Overflow, Mytime: pkg/types/overflow.go and mytime.go.

    ** What is proved

    - Privacy of plans: a query that [Translate] accepts shows its receivers no
      column that is computed from a column hidden from them, through all kinds of
      nodes; inference of expressions is sound, total, and refines a specification
      party by party; a node is attributed to exactly the owners of its tables.
    - Privacy of graphs: a node of a translated plan that hands a value over (Copy,
      MakePrivate, MakePublic and the like) hands it only to parties that may see it,
      and results leave only at a receiver who owns them; no algorithm that is offered
      places a tensor where its CCL hides it; the graph checker accepts exactly the
      graphs whose private tensors are visible to their owners.
    - Groups: in a marked and preprocessed plan every grouping aggregation below the
      root stands under a selection on its count, and preprocessing changes nothing
      else in the meaning of the plan.
    - Translation: whatever the query and whether or not it succeeds, the plan is
      reached by checked builder steps and every tensor is made once, before it is
      taken; once the nodes are emitted the graph is built and can be sorted.
    - Well-formedness: every node of a reachable plan satisfies the signature of its
      operator, and the check of a signature is characterised exactly; each builder
      operation has exactly its effect, on success and on failure; pipelines are
      homogeneous and alternate.
    - Progress: conversions that the CCLs admit succeed, an algorithm on shares is
      always offered, a plan whose tensors are produced before they are consumed is
      built and sorted.
    - Graphs: [Build] makes exactly the edges from producers to consumers and panics
      exactly on plans with a missing producer; the topological sort returns a
      permutation that respects the edges, or the error exactly when there is a
      cycle; what pipelines exchange is computed exactly; edges between pipelines do
      not matter for the sort; the printed text is the same for all map orders.
    - Optimization: without batches, folding casts keeps every value that the remaining
      nodes compute, for any engine whose casts of constants agree with the optimizer.
    - Compilation: the participants of a compiled plan are exactly the owners of the
      tables, the receivers and the issuer who asked to take part; every participant
      gets the message of exactly its part of the optimized graph, in order.
    - Data: encoded keys compare as their values, decoding inverts encoding; the
      matcher of LIKE patterns decides their meaning; checked arithmetic is exact or
      reports overflow; day numbers and dates correspond.
    - Defects: theorems also state where the code does not do what it means to, such
      as the check of join keys that is never made, CCLs that a join changes in the
      node of its child, a count whose visibility depends on the order of a map, casts
      that the optimizer strands in batched plans or folds in one map order and not in
      another, a second attempt to compile that is as batched as the first, an
      overflow that goes unnoticed, a conversion that is priced but impossible.

    ** Bounds and fuel

    Recursion is structural except where noted.  [topo_loop] takes one unit of fuel
    per node it emits and gets the number of nodes; the sort theorem shows that this
    is enough.  The loops of the codec take the length of their input, the matcher of
    LIKE patterns a bound on its backtracking, the calendar loops a bound on years and
    months; each comes with a theorem that the result is reached.  Integers keep their
    width where overflow matters (Codec, Overflow, Mytime, Strconv); identifiers and
    sizes are unbounded.

    ** Not modelled

    The SQL text of the sub-queries that run at one party, the serialized options of
    Arrow functions, the length of date intervals and the parsing of dates and floating
    point numbers are parameters of the translator and the optimizer; the text of a
    floating point number, the text of a message and its hash are parameters of the
    printer and the interpreter.  The SQL parser (generated), the information schema
    and the planner (derived from TiDB) but for the two functions named above: they
    are one parameter of [Compile], and what a failed first attempt leaves of a plan
    is another.  The evaluation of built-in functions; decimals, parsing and printing
    of times, JSON.  Functions of the scheduler that only tests call.  Services,
    storage and command line tools (broker, scdb, agent), which are I/O, and the C++
    engine.  Error messages are kept without the values formatted into them. *)
From stdpp Require Export prelude gmap strings list sorting pretty.

(** ** Outcomes of Go functions

    A Go function that returns [(T, error)] either returns a value, returns an
    error, or panics (index out of range, nil dereference).  Error values carry
    the constant part of the message the source formats. *)
Inductive res (A : Type) : Type :=
| Ok (a : A)
| Err (e : string)
| Panic.
Arguments Ok {A} a.
Arguments Err {A} e.
Arguments Panic {A}.

Global Instance res_ret : MRet res := λ A a, Ok a.
Global Instance res_bind : MBind res := λ A B f m,
  match m with Ok a => f a | Err e => Err e | Panic => Panic end.

Definition is_ok {A} (r : res A) : bool :=
  match r with Ok _ => true | _ => false end.

Definition res_of_option {A} (r : res A) (o : option A) : res A :=
  match o with Some a => Ok a | None => r end.

(** ** Stateful code

    State passing that keeps the state reached when an error is returned: Go
    does not roll a mutation back. *)
Definition M (S A : Type) : Type := S → S * res A.

Global Instance M_ret {S} : MRet (M S) := λ A a s, (s, Ok a).
Global Instance M_bind {S} : MBind (M S) := λ A B f m s,
  match m s with
  | (s', Ok a) => f a s'
  | (s', Err e) => (s', Err e)
  | (s', Panic) => (s', Panic)
  end.

Definition get {S} : M S S := λ s, (s, Ok s).
Definition gets {S A} (f : S → A) : M S A := λ s, (s, Ok (f s)).
Definition put {S} (s : S) : M S () := λ _, (s, Ok tt).
Definition modify {S} (f : S → S) : M S () := λ s, (f s, Ok tt).
Definition fail {S A} (e : string) : M S A := λ s, (s, Err e).
Definition panic {S A} : M S A := λ s, (s, Panic).
Definition lift {S A} (r : res A) : M S A := λ s, (s, r).

(** [fmt.Errorf("prefix: %v", err)] *)
Definition wrapErr {S A} (prefix : string) (m : M S A) : M S A := λ s,
  match m s with
  | (s', Err e) => (s', Err (prefix +:+ e))
  | r => r
  end.

(** [l[0]] *)
Definition index0 {S A} (l : list A) : M S A :=
  match l with [] => panic | x :: _ => mret x end.

(** [l[i]] *)
Definition index {S A} (l : list A) (i : nat) : M S A :=
  match l !! i with Some x => mret x | None => panic end.

(** A call whose error the caller looks at instead of returning it. *)
Definition attempt {S A} (m : M S A) : M S (option A) := λ s,
  match m s with
  | (s', Ok a) => (s', Ok (Some a))
  | (s', Err _) => (s', Ok None)
  | (s', Panic) => (s', Panic)
  end.

(** [for _, x := range l { acc = f(acc, x) }] with an early return on error. *)
Section folds.
Context {F : Type → Type} `{MRet F, MBind F} {A B : Type}.

Fixpoint foldlM (f : A → B → F A) (acc : A) (l : list B) : F A :=
  match l with
  | [] => mret acc
  | x :: l => acc' ← f acc x; foldlM f acc' l
  end.

Fixpoint forM (f : B → F ()) (l : list B) : F () :=
  match l with
  | [] => mret tt
  | x :: l => _ ← f x; forM f l
  end.
End folds.

(** ** Ranging over a Go map

    The order in which [for k, v := range m] visits a map is unspecified: every
    definition that ranges over a map takes the order from this interface, and
    every theorem holds for all of its instances. *)
Class GoRange := {
  go_range {K V : Type} `{Countable K} (m : gmap K V) : list (K * V);
  go_range_perm {K V : Type} `{Countable K} (m : gmap K V) :
    go_range m ≡ₚ map_to_list m;
}.

Section go_range.
Context `{GoRange} {K V : Type} `{Countable K}.
Implicit Types m : gmap K V.

Lemma elem_of_go_range m k v : (k, v) ∈ go_range m ↔ m !! k = Some v.
Proof. rewrite (go_range_perm m). apply elem_of_map_to_list. Qed.

Lemma NoDup_fst_go_range m : NoDup (go_range m).*1.
Proof. rewrite (go_range_perm m). apply NoDup_fst_map_to_list. Qed.

Lemma elem_of_keys_go_range m k : k ∈ (go_range m).*1 ↔ is_Some (m !! k).
Proof.
  rewrite list_elem_of_fmap. split.
  - intros ([k' v] & -> & Hin). apply elem_of_go_range in Hin. eauto.
  - intros [v Hv]. exists (k, v). split; [done|]. by apply elem_of_go_range.
Qed.

Lemma elem_of_vals_go_range m v : v ∈ (go_range m).*2 ↔ ∃ k, m !! k = Some v.
Proof.
  rewrite list_elem_of_fmap. split.
  - intros ([k' v'] & -> & Hin). exists k'. by apply elem_of_go_range.
  - intros [k Hk]. exists (k, v). split; [done|]. by apply elem_of_go_range.
Qed.
End go_range.

(** The order [map_to_list] gives is one of them; witnesses evaluate with it.  It is
    not an instance, so that no definition fixes the order by accident. *)
Program Definition go_range_list : GoRange := {|
  go_range K V _ _ m := map_to_list m;
|}.
Next Obligation. done. Qed.

(** Its reverse is another. *)
Program Definition go_range_rev : GoRange := {|
  go_range K V _ _ m := reverse (map_to_list m);
|}.
Next Obligation. intros. apply reverse_Permutation. Qed.

(** ** Go's [cmp.Ordered] constraint *)
Class CmpOrdered (K : Type) := {
  cmp_le : relation K;
  cmp_le_dec :: RelDecision cmp_le;
  cmp_le_trans :: Transitive cmp_le;
  cmp_le_antisym :: AntiSymm (=) cmp_le;
  cmp_le_total :: Total cmp_le;
}.

#[global] Program Instance cmp_ordered_string : CmpOrdered string :=
  {| cmp_le := String.le |}.
#[global] Program Instance cmp_ordered_Z : CmpOrdered Z :=
  {| cmp_le := Z.le |}.
#[global] Program Instance cmp_ordered_nat : CmpOrdered nat :=
  {| cmp_le := Nat.le |}.

(** [slices.Sort] and [sort.Strings] *)
Definition go_sort {K} `{CmpOrdered K} (l : list K) : list K := merge_sort cmp_le l.

Section go_sort.
Context {K : Type} `{CmpOrdered K}.
Implicit Types l : list K.

Lemma go_sort_perm l : go_sort l ≡ₚ l.
Proof. apply merge_sort_Permutation. Qed.

Lemma elem_of_go_sort l x : x ∈ go_sort l ↔ x ∈ l.
Proof. by rewrite go_sort_perm. Qed.

Lemma go_sort_sorted l : StronglySorted cmp_le (go_sort l).
Proof. apply (StronglySorted_merge_sort _). Qed.

Lemma go_sort_proper l1 l2 : l1 ≡ₚ l2 → go_sort l1 = go_sort l2.
Proof.
  intros Hp. apply (StronglySorted_unique cmp_le); [apply go_sort_sorted..|].
  by rewrite !go_sort_perm.
Qed.
End go_sort.

(** Boolean search through a slice. *)
Lemma existsb_elem_of {A} (f : A → bool) l : existsb f l ↔ ∃ x, x ∈ l ∧ f x.
Proof.
  induction l as [|x l IH]; simpl; [set_solver|].
  destruct (f x) eqn:E; simpl; [|rewrite IH]; split.
  - intros _. exists x. rewrite E. set_solver.
  - done.
  - set_solver.
  - intros (y & [->|?]%elem_of_cons & Hy); [by rewrite E in Hy|eauto].
Qed.

(** ** Inversion of the two monads *)
Section monad_laws.
Context {A B : Type}.

Lemma res_bind_Ok (m : res A) (f : A → res B) b :
  m ≫= f = Ok b ↔ ∃ a, m = Ok a ∧ f a = Ok b.
Proof. destruct m; simpl; naive_solver. Qed.

Lemma M_bind_Ok {S} (m : M S A) (f : A → M S B) s s' b :
  (m ≫= f) s = (s', Ok b) ↔ ∃ a s1, m s = (s1, Ok a) ∧ f a s1 = (s', Ok b).
Proof. unfold mbind, M_bind. destruct (m s) as [s1 [a| |]]; naive_solver. Qed.

Lemma M_bind_run {S} (m : M S A) (f : A → M S B) s s' a :
  m s = (s', Ok a) → (m ≫= f) s = f a s'.
Proof. intros Hm. unfold mbind, M_bind. by rewrite Hm. Qed.

Lemma M_ret_Ok {S} (a b : A) (s s' : S) :
  (mret a : M S A) s = (s', Ok b) ↔ s = s' ∧ a = b.
Proof. unfold mret, M_ret. naive_solver. Qed.
End monad_laws.

Lemma lift_Ok {S A} (r : res A) (s s' : S) a :
  lift r s = (s', Ok a) ↔ s = s' ∧ r = Ok a.
Proof. unfold lift. naive_solver. Qed.

Lemma mapM_res_Ok {A B} (f : A → res B) l k :
  mapM f l = Ok k ↔ Forall2 (λ x y, f x = Ok y) l k.
Proof.
  split.
  - revert k. induction l as [|x l IH]; intros k Hk; simpl in Hk.
    + injection Hk as <-. constructor.
    + apply res_bind_Ok in Hk as (y & Hy & Hk). apply res_bind_Ok in Hk as (k' & Hk' & Hk).
      injection Hk as <-. constructor; auto.
  - induction 1 as [|x y l k Hy _ IH]; simpl; [done|]. by rewrite Hy, IH.
Qed.

Lemma wrapErr_Ok {S A} prefix (m : M S A) s s' a :
  wrapErr prefix m s = (s', Ok a) ↔ m s = (s', Ok a).
Proof. unfold wrapErr. destruct (m s) as [s1 [b| |]]; naive_solver. Qed.

(** [m_inv] inverts a successful run of a monadic block into the runs of its
    parts. *)
Ltac m_inv_all :=
  repeat match goal with
  | H : (_ ≫= _) _ = (_, Ok _) |- _ =>
      apply M_bind_Ok in H as (? & ? & ? & ?)
  | H : (_ ≫= _) = Ok _ |- _ => apply res_bind_Ok in H as (? & ? & ?)
  | H : mret _ _ = (_, Ok _) |- _ => apply M_ret_Ok in H as [? ?]
  | H : lift _ _ = (_, Ok _) |- _ => apply lift_Ok in H as [? ?]
  | H : wrapErr _ _ _ = (_, Ok _) |- _ => apply wrapErr_Ok in H
  | H : index0 ?l _ = (_, Ok _) |- _ => destruct l; [discriminate H|cbn [index0] in H]
  | H : (fail _) _ = (_, Ok _) |- _ => discriminate H
  | H : panic _ = (_, Ok _) |- _ => discriminate H
  | H : mret _ = Ok _ |- _ => injection H as H
  | H : get _ = (_, Ok _) |- _ => injection H as ? ?
  | H : gets _ _ = (_, Ok _) |- _ => injection H as ? ?
  | H : modify _ _ = (_, Ok _) |- _ => injection H as ?
  | H : Err _ = Ok _ |- _ => discriminate H
  | H : Panic = Ok _ |- _ => discriminate H
  | H : Ok _ = Ok _ |- _ => injection H as H
  end.
Ltac m_inv := m_inv_all; simplify_eq.

(** The first part of a run, with its value and the state after it. *)
Tactic Notation "run_bind" hyp(H) simple_intropattern(a) simple_intropattern(s)
    simple_intropattern(Ha) :=
  apply M_bind_Ok in H as (a & s & Ha & H).

(** ** Hoare triples

    [triple P m Q E]: from a state in [P], [m] returns a value and a state in [Q],
    or stops with an error or a panic in a state in [E]. *)
Definition triple {S A} (P : S → Prop) (m : M S A) (Q : A → S → Prop) (E : S → Prop) : Prop :=
  ∀ s, P s → match m s with (s', Ok a) => Q a s' | (s', _) => E s' end.

Section triple.
Context {S : Type}.
Implicit Types P E : S → Prop.

Lemma triple_conseq {A} P P' (m : M S A) (Q Q' : A → S → Prop) E :
  triple P' m Q' E → (∀ s, P s → P' s) → (∀ a s, Q' a s → Q a s) → triple P m Q E.
Proof.
  intros Hm HP HQ s Hs. specialize (Hm s (HP s Hs)).
  destruct (m s) as [s' [a| |]]; auto.
Qed.
Lemma triple_bind {A B} P (m : M S A) (f : A → M S B) R Q E :
  triple P m R E → (∀ a, triple (R a) (f a) Q E) → triple P (m ≫= f) Q E.
Proof.
  intros Hm Hf s Hs. specialize (Hm s Hs).
  unfold mbind, M_bind. destruct (m s) as [s1 [a| |]]; simpl in *; [|done..].
  by apply Hf.
Qed.
Lemma triple_ret {A} P (a : A) (Q : A → S → Prop) E :
  (∀ s, P s → Q a s) → triple P (mret a) Q E.
Proof. intros HQ s Hs. by apply HQ. Qed.
Lemma triple_fail {A} P e (Q : A → S → Prop) E : (∀ s, P s → E s) → triple P (fail e) Q E.
Proof. intros HE s Hs. by apply HE. Qed.
Lemma triple_panic {A} P (Q : A → S → Prop) E : (∀ s, P s → E s) → triple P panic Q E.
Proof. intros HE s Hs. by apply HE. Qed.
Lemma triple_lift {A} P (r : res A) (Q : A → S → Prop) E :
  (∀ s, P s → E s) → (∀ a s, r = Ok a → P s → Q a s) → triple P (lift r) Q E.
Proof. intros HE HQ s Hs. unfold lift. destruct r; auto. Qed.
Lemma triple_get P E : triple P get (λ a s, a = s ∧ P s) E.
Proof. by intros s Hs. Qed.
Lemma triple_modify P f (Q : () → S → Prop) E :
  (∀ s, P s → Q tt (f s)) → triple P (modify f) Q E.
Proof. intros HQ s Hs. by apply HQ. Qed.
Lemma triple_wrapErr {A} P prefix (m : M S A) Q E :
  triple P m Q E → triple P (wrapErr prefix m) Q E.
Proof.
  intros Hm s Hs. specialize (Hm s Hs). unfold wrapErr.
  by destruct (m s) as [s1 [a| |]].
Qed.
Lemma triple_index0 {A} P (l : list A) E :
  (∀ s, P s → E s) → triple P (index0 l) (λ a s, head l = Some a ∧ P s) E.
Proof. intros HE s Hs. destruct l; simpl; auto. Qed.

Lemma triple_forM {B} P (f : B → M S ()) l E :
  (∀ x, x ∈ l → triple P (f x) (λ _, P) E) → triple P (forM f l) (λ _, P) E.
Proof.
  induction l as [|x l IH]; intros Hf; [by apply triple_ret|].
  apply (triple_bind _ _ _ (λ _, P)); [apply Hf; left|].
  intros _. apply IH. intros y Hy. apply Hf. by right.
Qed.
Lemma triple_foldlM {A B} (P : A → S → Prop) (f : A → B → M S A) l a E :
  (∀ a x, x ∈ l → triple (P a) (f a x) P E) → triple (P a) (foldlM f a l) P E.
Proof.
  revert a. induction l as [|x l IH]; intros a Hf; [by apply triple_ret|].
  apply (triple_bind _ _ _ P); [apply Hf; left|].
  intros a'. apply IH. intros b y Hy. apply Hf. by right.
Qed.
Lemma triple_mapM {A B} P (f : B → M S A) l E :
  (∀ x, x ∈ l → triple P (f x) (λ _, P) E) → triple P (mapM f l) (λ _, P) E.
Proof.
  induction l as [|x l IH]; intros Hf; [by apply triple_ret|].
  apply (triple_bind _ _ _ (λ _, P)); [apply Hf; left|]. intros b.
  apply (triple_bind _ _ _ (λ _, P)); [apply IH; intros y Hy; apply Hf; by right|].
  intros ?. by apply triple_ret.
Qed.
End triple.

Create HintDb go discriminated.
