(* ===== verification/GoInt.v ===== *)
(** * Machine integers and bytes

    Go's fixed-width integers as [Z]: the conversions that wrap, the complement,
    big-endian bytes, and the lexicographic order of byte slices
    ([bytes.Compare]). *)
From S2P Require Import Prelude.
Open Scope Z_scope.

(** ** Definitions *)
Definition MaxUint64 : Z := 18446744073709551615.
Definition MaxInt64 : Z := 9223372036854775807.
Definition MinInt64 : Z := -9223372036854775808.

(** [uint64(x)], [int64(x)] and [byte(x)]. *)
Definition u64 (x : Z) : Z := x `mod` 18446744073709551616.
Definition i64 (x : Z) : Z :=
  (x + 9223372036854775808) `mod` 18446744073709551616 - 9223372036854775808.
Definition byte_of (x : Z) : Z := x `mod` 256.

(** [^x] on uint64 and on a byte. *)
Definition not64 (x : Z) : Z := u64 (Z.lnot x).
Definition not8 (x : Z) : Z := byte_of (Z.lnot x).

Definition is_u64 (x : Z) : Prop := 0 ≤ x ≤ MaxUint64.
Definition is_i64 (x : Z) : Prop := MinInt64 ≤ x ≤ MaxInt64.
Definition is_byte (x : Z) : Prop := 0 ≤ x < 256.
Definition is_bytes (l : list Z) : Prop := Forall is_byte l.

(** The low [n] bytes of [x], most significant first, and their value:
    [binary.BigEndian] for [n = 8]. *)
Fixpoint be_bytes (n : nat) (x : Z) : list Z :=
  match n with
  | 0%nat => []
  | S n => byte_of (Z.shiftr x (8 * Z.of_nat n)) :: be_bytes n x
  end.
Definition be_step (v c : Z) : Z := Z.lor (Z.shiftl v 8) c.
Definition be_value (l : list Z) : Z := foldl be_step 0 l.

Fixpoint bytes_cmp (a b : list Z) : comparison :=
  match a, b with
  | [], [] => Eq
  | [], _ => Lt
  | _, [] => Gt
  | x :: a, y :: b => match x ?= y with Eq => bytes_cmp a b | c => c end
  end.

(** Comparing first by [c], then by [d]. *)
Definition then_cmp (c d : comparison) : comparison :=
  match c with Eq => d | _ => c end.

(** ** Conversions *)
Ltac int_range := unfold is_u64, is_i64, is_byte, MaxUint64, MaxInt64, MinInt64 in *.

Lemma u64_range x : is_u64 (u64 x).
Proof. unfold u64. int_range. pose proof (Z.mod_pos_bound x 18446744073709551616). lia. Qed.
Lemma i64_range x : is_i64 (i64 x).
Proof.
  unfold i64. int_range.
  pose proof (Z.mod_pos_bound (x + 9223372036854775808) 18446744073709551616). lia.
Qed.
Lemma byte_of_range x : is_byte (byte_of x).
Proof. unfold byte_of, is_byte. pose proof (Z.mod_pos_bound x 256). lia. Qed.
Lemma u64_small x : is_u64 x → u64 x = x.
Proof. int_range. unfold u64. intros. apply Z.mod_small. lia. Qed.
Lemma i64_small x : is_i64 x → i64 x = x.
Proof. int_range. unfold i64. intros. rewrite Z.mod_small; lia. Qed.
Lemma byte_of_small x : is_byte x → byte_of x = x.
Proof. unfold is_byte, byte_of. apply Z.mod_small. Qed.
Lemma u64_cases x :
  is_i64 x → u64 x = if x <? 0 then x + 18446744073709551616 else x.
Proof.
  int_range. intros. unfold u64. destruct (Z.ltb_spec x 0); [|apply Z.mod_small; lia].
  rewrite <- (Z_mod_plus_full x 1), Z.mul_1_l. apply Z.mod_small. lia.
Qed.
Lemma i64_cases x :
  is_u64 x → i64 x = if x <? 9223372036854775808 then x else x - 18446744073709551616.
Proof.
  int_range. intros. unfold i64. destruct (Z.ltb_spec x 9223372036854775808).
  - rewrite Z.mod_small; lia.
  - rewrite <- (Z_mod_plus_full _ (-1)), Z.mod_small; lia.
Qed.
Lemma i64_u64 x : is_i64 x → i64 (u64 x) = x.
Proof.
  intros Hx. rewrite i64_cases by apply u64_range. rewrite (u64_cases x Hx). int_range.
  destruct (Z.ltb_spec x 0); case_match; lia.
Qed.
Lemma u64_i64 x : is_u64 x → u64 (i64 x) = x.
Proof.
  intros Hx. rewrite u64_cases by apply i64_range. rewrite (i64_cases x Hx). int_range.
  destruct (Z.ltb_spec x 9223372036854775808); case_match; lia.
Qed.
Lemma not64_spec x : is_u64 x → not64 x = MaxUint64 - x.
Proof.
  int_range. intros. unfold not64, u64, Z.lnot.
  rewrite <- (Z_mod_plus_full _ 1), Z.mod_small; lia.
Qed.
Lemma not8_spec x : is_byte x → not8 x = 255 - x.
Proof.
  unfold is_byte. intros. unfold not8, byte_of, Z.lnot.
  rewrite <- (Z_mod_plus_full _ 1), Z.mod_small; lia.
Qed.

(** Wrapping once is enough. *)
Lemma u64_add_l x y : u64 (u64 x + y) = u64 (x + y).
Proof. apply Z.add_mod_idemp_l. lia. Qed.
Lemma u64_add_r x y : u64 (x + u64 y) = u64 (x + y).
Proof. apply Z.add_mod_idemp_r. lia. Qed.
Lemma u64_sub_l x y : u64 (u64 x - y) = u64 (x - y).
Proof. apply Zminus_mod_idemp_l. Qed.
Lemma u64_sub_r x y : u64 (x - u64 y) = u64 (x - y).
Proof. apply Zminus_mod_idemp_r. Qed.
Lemma u64_mul_r x y : u64 (x * u64 y) = u64 (x * y).
Proof. apply Z.mul_mod_idemp_r. lia. Qed.
Create Rewrite HintDb u64_wrap.
#[export] Hint Rewrite u64_add_l u64_add_r u64_sub_l u64_sub_r u64_mul_r : u64_wrap.

(** ** Bits *)
Lemma land_shifted v c k : 0 ≤ k → 0 ≤ c < 2 ^ k → Z.land (v * 2 ^ k) c = 0.
Proof.
  intros Hk Hc. apply Z.bits_inj'. intros i Hi. rewrite Z.land_spec, Z.bits_0.
  destruct (Z.lt_ge_cases i k) as [Hik|Hik].
  - by rewrite Z.mul_pow2_bits_low.
  - rewrite <- (Z.mod_small c (2 ^ k)) by done.
    by rewrite Z.mod_pow2_bits_high, andb_false_r by lia.
Qed.

Lemma be_step_spec v c : is_byte c → be_step v c = v * 256 + c.
Proof.
  unfold is_byte, be_step. intros. rewrite Z.shiftl_mul_pow2 by lia.
  symmetry. apply Z.add_nocarry_lor, (land_shifted v c 8); lia.
Qed.

Lemma lor_top x : 0 ≤ x < 9223372036854775808 →
  Z.lor x 9223372036854775808 = x + 9223372036854775808.
Proof.
  intros. symmetry. apply Z.add_nocarry_lor. rewrite Z.land_comm.
  apply (land_shifted 1 x 63); lia.
Qed.

Lemma lxor_top x : is_u64 x →
  Z.lxor x 9223372036854775808
  = if x <? 9223372036854775808 then x + 9223372036854775808 else x - 9223372036854775808.
Proof.
  intros Hx.
  assert (∀ y, 0 ≤ y < 9223372036854775808 →
            Z.lxor y 9223372036854775808 = y + 9223372036854775808) as Hlow.
  { intros y Hy. symmetry. apply Z.add_nocarry_lxor. rewrite Z.land_comm.
    apply (land_shifted 1 y 63); lia. }
  int_range. destruct (Z.ltb_spec x 9223372036854775808); [apply Hlow; lia|].
  replace x with (Z.lxor (x - 9223372036854775808) 9223372036854775808) at 1
    by (rewrite Hlow; lia).
  by rewrite Z.lxor_assoc, Z.lxor_nilpotent, Z.lxor_0_r.
Qed.

(** ** Big-endian bytes *)
Lemma length_be_bytes n x : length (be_bytes n x) = n.
Proof. induction n; simpl; auto. Qed.

Lemma be_bytes_bytes n x : is_bytes (be_bytes n x).
Proof. induction n; simpl; constructor; auto. apply byte_of_range. Qed.

Lemma pow256_succ n : 256 ^ Z.of_nat (S n) = 256 * 256 ^ Z.of_nat n.
Proof. rewrite Nat2Z.inj_succ, Z.pow_succ_r; lia. Qed.

Lemma pow256_pos n : 0 < 256 ^ Z.of_nat n.
Proof. apply Z.pow_pos_nonneg; lia. Qed.

Lemma be_head n x : Z.shiftr x (8 * Z.of_nat n) = x / 256 ^ Z.of_nat n.
Proof.
  rewrite Z.shiftr_div_pow2 by lia. f_equal. change 256 with (2 ^ 8). by rewrite <- Z.pow_mul_r by lia.
Qed.

Lemma be_split n x :
  x `mod` 256 ^ Z.of_nat (S n)
  = byte_of (x / 256 ^ Z.of_nat n) * 256 ^ Z.of_nat n + x `mod` 256 ^ Z.of_nat n.
Proof.
  pose proof (pow256_pos n) as Hp. rewrite pow256_succ, (Z.mul_comm 256), Z.rem_mul_r by lia.
  unfold byte_of. lia.
Qed.

Lemma foldl_be_step l v :
  is_bytes l → foldl be_step v l = v * 256 ^ Z.of_nat (length l) + be_value l.
Proof.
  unfold be_value. revert v. induction l as [|c l IH]; intros v Hl; cbn [foldl length]; [lia|].
  apply Forall_cons in Hl as [Hc Hl]. rewrite (IH _ Hl), (IH (be_step 0 c) Hl).
  rewrite !be_step_spec by done. rewrite pow256_succ. lia.
Qed.

Lemma be_value_cons c l :
  is_byte c → is_bytes l → be_value (c :: l) = c * 256 ^ Z.of_nat (length l) + be_value l.
Proof.
  intros Hc Hl. unfold be_value at 1. cbn [foldl]. rewrite foldl_be_step, be_step_spec by done. lia.
Qed.

Lemma be_value_bytes n x : be_value (be_bytes n x) = x `mod` 256 ^ Z.of_nat n.
Proof.
  induction n as [|n IH]; [by rewrite Z.mod_1_r|]. cbn [be_bytes].
  rewrite be_value_cons, length_be_bytes, be_head, be_split, IH
    by (apply byte_of_range || apply be_bytes_bytes).
  done.
Qed.

Lemma be_value_range l : is_bytes l → 0 ≤ be_value l < 256 ^ Z.of_nat (length l).
Proof.
  induction 1 as [|c l Hc Hl IH]; [unfold be_value; simpl; lia|].
  rewrite be_value_cons by done. cbn [length]. rewrite pow256_succ. unfold is_byte in Hc. nia.
Qed.

Lemma be_bytes_value l : is_bytes l → be_bytes (length l) (be_value l) = l.
Proof.
  induction 1 as [|c l Hc Hl IH]; [done|]. cbn [length be_bytes].
  pose proof (be_value_range l Hl) as Hr. pose proof (pow256_pos (length l)).
  assert (∀ n, (n ≤ length l)%nat → be_bytes n (be_value (c :: l)) = be_bytes n (be_value l)) as Htl.
  { induction n as [|n IHn]; intros Hn; [done|]. cbn [be_bytes]. f_equal; [|apply IHn; lia].
    rewrite be_value_cons by done. rewrite !be_head. unfold byte_of.
    replace (256 ^ Z.of_nat (length l))
      with (256 ^ Z.of_nat (length l - S n) * 256 * 256 ^ Z.of_nat n).
    - rewrite !Z.mul_assoc, Z.add_comm, Z_div_plus by (pose proof (pow256_pos n); lia).
      apply Z_mod_plus_full.
    - rewrite <- Z.mul_assoc, <- pow256_succ, <- Z.pow_add_r by lia. f_equal. lia. }
  rewrite Htl, IH by done. f_equal. rewrite be_value_cons, be_head, Z.add_comm by done.
  rewrite Z_div_plus, Z.div_small by lia. by apply byte_of_small.
Qed.

(** ** The order of byte slices *)
Lemma bytes_cmp_refl a : bytes_cmp a a = Eq.
Proof. induction a as [|x a IH]; simpl; [done|]. by rewrite Z.compare_refl. Qed.

Lemma bytes_cmp_eq a b : bytes_cmp a b = Eq → a = b.
Proof.
  revert b. induction a as [|x a IH]; intros [|y b]; simpl; try done.
  destruct (Z.compare_spec x y); try done. intros ->%IH. by subst.
Qed.

Lemma bytes_cmp_app a b ra rb :
  length a = length b → bytes_cmp (a ++ ra) (b ++ rb) = then_cmp (bytes_cmp a b) (bytes_cmp ra rb).
Proof.
  revert b. induction a as [|x a IH]; intros [|y b] Hl; simplify_eq/=; [done|].
  destruct (x ?= y); [|done..]. by apply IH.
Qed.

Lemma be_bytes_cmp n x y :
  0 ≤ x < 256 ^ Z.of_nat n → 0 ≤ y < 256 ^ Z.of_nat n →
  bytes_cmp (be_bytes n x) (be_bytes n y) = (x ?= y).
Proof.
  assert (∀ n, bytes_cmp (be_bytes n x) (be_bytes n y)
               = (x `mod` 256 ^ Z.of_nat n ?= y `mod` 256 ^ Z.of_nat n)) as Hgen.
  { clear. induction n as [|n IH]; [by rewrite !Z.mod_1_r|]. cbn [be_bytes bytes_cmp].
    rewrite IH, !be_split, !be_head. pose proof (pow256_pos n) as Hp.
    pose proof (Z.mod_pos_bound x _ Hp) as Hx. pose proof (Z.mod_pos_bound y _ Hp) as Hy.
    destruct (Z.compare_spec (byte_of (x / 256 ^ Z.of_nat n)) (byte_of (y / 256 ^ Z.of_nat n)))
      as [->|Hlt|Hgt].
    - destruct (Z.compare_spec (x `mod` 256 ^ Z.of_nat n) (y `mod` 256 ^ Z.of_nat n));
        symmetry; [apply Z.compare_eq_iff|apply Z.compare_lt_iff|apply Z.compare_gt_iff]; lia.
    - symmetry. apply Z.compare_lt_iff. nia.
    - symmetry. apply Z.compare_gt_iff. nia. }
  intros Hx Hy. rewrite Hgen. by rewrite !Z.mod_small.
Qed.

(** Complementing two slices that differ before either ends reverses their order. *)
Lemma bytes_cmp_not a b c :
  is_bytes a → is_bytes b → c ≠ Eq → (∀ ra rb, bytes_cmp (a ++ ra) (b ++ rb) = c) →
  ∀ ra rb, bytes_cmp ((not8 <$> a) ++ ra) ((not8 <$> b) ++ rb) = CompOpp c.
Proof.
  intros Ha. revert b. induction Ha as [|x a Hx Ha IH]; intros b Hb Hc Hall ra rb.
  { exfalso. destruct Hb as [|y b _ _]; [by apply Hc; rewrite <- (Hall [] [])|].
    pose proof (Hall [] []) as H1. pose proof (Hall [y + 1] []) as H2. simpl in H1, H2.
    destruct (Z.compare_spec (y + 1) y); [lia..|]. congruence. }
  destruct Hb as [|y b Hy Hb].
  { exfalso. pose proof (Hall [] []) as H1. pose proof (Hall [] [x + 1]) as H2. simpl in H1, H2.
    destruct (Z.compare_spec x (x + 1)); [lia| |lia]. congruence. }
  simpl in *. rewrite !not8_spec by done.
  destruct (Z.compare_spec x y) as [->|Hlt|Hgt].
  - rewrite Z.compare_refl. by apply IH.
  - rewrite <- (Hall [] []). by rewrite (proj2 (Z.compare_gt_iff _ _)) by lia.
  - rewrite <- (Hall [] []). by rewrite (proj2 (Z.compare_lt_iff _ _)) by lia.
Qed.
