(* ===== verification/Sliceutil.v ===== *)
(** * Slices and maps (pkg/util/sliceutil/slice_util.go)

    The generic helpers of [sliceutil]: de-duplication, filters, masks and the
    iteration over a map in sorted key order that the interpreter uses to keep
    its output deterministic. *)
From S2P Require Import Prelude.

(** [slices.Compact]: drop adjacent repetitions. *)
Fixpoint Compact {E} `{EqDecision E} (s : list E) : list E :=
  match s with
  | x :: (y :: _) as s' =>
      if decide (x = y) then Compact s' else x :: Compact s'
  | _ => s
  end.

Definition SliceDeDup {E} `{EqDecision E, CmpOrdered E} (s : list E) : list E :=
  Compact (go_sort s).

Fixpoint AllOf {E} (slice : list E) (predicate : E → bool) : bool :=
  match slice with
  | [] => true
  | element :: slice =>
      if negb (predicate element) then false else AllOf slice predicate
  end.

Fixpoint Filter {T} (slice : list T) (predicate : T → bool) : list T :=
  match slice with
  | [] => []
  | item :: slice =>
      if predicate item then item :: Filter slice predicate
      else Filter slice predicate
  end.

(** [slices.Contains] *)
Definition Contains {E} `{EqDecision E} (s : list E) (v : E) : bool :=
  bool_decide (v ∈ s).

Definition ContainsAll {E} `{EqDecision E} (super sub : list E) : bool :=
  AllOf sub (λ element, Contains super element).

Definition Subtraction {E} `{EqDecision E} (a b : list E) : list E :=
  Filter a (λ element, negb (Contains b element)).

Definition Exclude {E} `{EqDecision E} (set : list E) (excludeElement : E) : list E :=
  Filter set (λ element, negb (bool_decide (element = excludeElement))).

(** [Take] reads [predicate[i]] for every element: a mask that is too short
    panics. *)
Fixpoint Take {T} (slice : list T) (predicate : list bool) : res (list T) :=
  match slice, predicate with
  | [], _ => Ok []
  | _ :: _, [] => Panic
  | item :: slice, b :: predicate =>
      result ← Take slice predicate;
      mret (if b : bool then item :: result else result)
  end.

(** [InplaceTake] keeps two cursors in one slice; [newIndex] never passes
    [oldIndex].  The final [clear] only resets the tail that is cut off. *)
Definition InplaceTake_step {T} (predicate : list bool)
    (st : list T * nat) (oldIndex : nat) : res (list T * nat) :=
  let '(slice, newIndex) := st in
  b ← res_of_option Panic (predicate !! oldIndex);
  if b : bool then
    x ← res_of_option Panic (slice !! oldIndex);
    mret (<[newIndex:=x]> slice, S newIndex)
  else mret (slice, newIndex).

Definition InplaceTake {T} (slice : list T) (predicate : list bool) : res (list T) :=
  '(slice', newIndex) ←
    foldlM (InplaceTake_step predicate) (slice, 0) (seq 0 (length slice));
  mret (take newIndex slice').

Section sorted_maps.
Context `{GoRange} {k v : Type} `{Countable k, CmpOrdered k}.

Definition SortMapKeyForDeterminism (m : gmap k v) : list k :=
  go_sort (go_range m).*1.

(** The pairs [SortedMap] yields, in order. *)
Definition SortedMap (m : gmap k v) : list (k * v) :=
  omap (λ key, pair key <$> m !! key) (SortMapKeyForDeterminism m).

Definition ValueSortedByMapKey (m : gmap k v) : list v :=
  omap (λ key, m !! key) (SortMapKeyForDeterminism m).
End sorted_maps.

Definition UnOrderedSliceEqual {E} `{EqDecision E, CmpOrdered E} (s1 s2 : list E) : bool :=
  bool_decide (go_sort s1 = go_sort s2).

(** ** De-duplication *)
Section dedup.
Context {E : Type} `{EqDecision E, CmpOrdered E}.
Implicit Types s : list E.

Lemma Compact_cons_cons s a b :
  Compact (a :: b :: s) =
    if decide (a = b) then Compact (b :: s) else a :: Compact (b :: s).
Proof. done. Qed.

Lemma elem_of_Compact s x : x ∈ Compact s ↔ x ∈ s.
Proof.
  induction s as [|a s IH]; [done|].
  destruct s as [|b s]; [done|]. rewrite Compact_cons_cons. case_decide; set_solver.
Qed.

Lemma Compact_sorted s :
  StronglySorted cmp_le s → StronglySorted cmp_le (Compact s) ∧ NoDup (Compact s).
Proof.
  induction s as [|a s IH]; [by repeat constructor|].
  intros [Ha Hs]%StronglySorted_cons. destruct s as [|b s].
  { repeat constructor; set_solver. }
  destruct (IH Hs) as [IH1 IH2]. rewrite Compact_cons_cons. case_decide as Hab; [done|].
  rewrite Forall_forall in Ha. split.
  - constructor; [done|]. apply Forall_forall. intros x. rewrite elem_of_Compact. by apply Ha.
  - constructor; [|done]. rewrite elem_of_Compact. intros Hin.
    apply StronglySorted_cons in Hs as [Hb _]. rewrite Forall_forall in Hb.
    apply elem_of_cons in Hin as [->|Hin]; [done|].
    apply Hab, (anti_symm cmp_le); [apply Ha; left|by apply Hb].
Qed.

Lemma elem_of_SliceDeDup s x : x ∈ SliceDeDup s ↔ x ∈ s.
Proof. unfold SliceDeDup. by rewrite elem_of_Compact, elem_of_go_sort. Qed.

Lemma SliceDeDup_NoDup s : NoDup (SliceDeDup s).
Proof. apply Compact_sorted, go_sort_sorted. Qed.

Lemma SliceDeDup_sorted s : StronglySorted cmp_le (SliceDeDup s).
Proof. apply Compact_sorted, go_sort_sorted. Qed.

(** A strictly sorted slice is determined by its elements. *)
Lemma sorted_set_unique s1 s2 :
  StronglySorted cmp_le s1 → NoDup s1 → StronglySorted cmp_le s2 → NoDup s2 →
  (∀ x, x ∈ s1 ↔ x ∈ s2) → s1 = s2.
Proof.
  intros ????. intros Heq. apply (StronglySorted_unique cmp_le); try done.
  by apply NoDup_Permutation.
Qed.

Lemma SliceDeDup_ext s1 s2 :
  (∀ x, x ∈ s1 ↔ x ∈ s2) → SliceDeDup s1 = SliceDeDup s2.
Proof.
  intros Heq. apply sorted_set_unique;
    auto using SliceDeDup_sorted, SliceDeDup_NoDup.
  intros x. by rewrite !elem_of_SliceDeDup.
Qed.
End dedup.

(** ** Filters and masks *)
Section filters.
Context {T : Type}.
Implicit Types slice : list T.

Lemma Filter_filter slice (f : T → bool) : Filter slice f = filter (λ x, Is_true (f x)) slice.
Proof.
  induction slice as [|x slice IH]; [done|]. simpl. rewrite filter_cons, IH.
  by destruct (f x) eqn:E; case_decide.
Qed.

Lemma elem_of_Filter slice f x : x ∈ Filter slice f ↔ x ∈ slice ∧ f x.
Proof. rewrite Filter_filter, list_elem_of_filter. naive_solver. Qed.

Lemma AllOf_true slice f : AllOf slice f ↔ ∀ x, x ∈ slice → f x.
Proof.
  induction slice as [|x slice IH]; simpl; [set_solver|].
  destruct (f x) eqn:E; simpl; [rewrite IH; set_solver|].
  split; [done|]. intros Hall. specialize (Hall x). rewrite E in Hall. set_solver.
Qed.

(** One kept element: the slot at [length kept] takes [x], and the slots up to
    the cursor hold elements that were moved or dropped. *)
Lemma InplaceTake_keep (kept junk rest : list T) (x : T) :
  ∃ junk', length junk' = length junk ∧
    <[length kept:=x]> (kept ++ junk ++ x :: rest) = (kept ++ [x]) ++ junk' ++ rest.
Proof.
  rewrite insert_app_r_alt by lia. rewrite Nat.sub_diag.
  destruct junk as [|y junk]; simpl.
  - exists []. split; [done|]. by rewrite <- app_assoc.
  - exists (junk ++ [x]). rewrite length_app. simpl. split; [lia|].
    by rewrite <- !app_assoc.
Qed.

(** The loop of [InplaceTake] when the slice is [kept ++ junk ++ rest], with
    [rest] not yet visited. *)
Lemma InplaceTake_loop (kept junk rest : list T) (seen mask : list bool) :
  length seen = length kept + length junk →
  ('(slice', n) ← foldlM (InplaceTake_step (seen ++ mask))
      (kept ++ junk ++ rest, length kept)
      (seq (length kept + length junk) (length rest));
   Ok (take n slice')) =
  (r ← Take rest mask; Ok (kept ++ r)).
Proof.
  revert kept junk seen mask. induction rest as [|x rest IH];
    intros kept junk seen mask Hlen; simpl.
  { by rewrite take_app_length, app_nil_r. }
  rewrite (lookup_app_r seen) by lia.
  replace (length kept + length junk - length seen) with 0 by lia.
  destruct mask as [|b mask]; [done|]. cbn [lookup list_lookup res_of_option mbind res_bind].
  rewrite cons_middle, (app_assoc seen). destruct b.
  - rewrite (app_assoc kept), <- length_app, list_lookup_middle by done. simpl.
    rewrite <- (app_assoc kept).
    destruct (InplaceTake_keep kept junk rest x) as (junk' & Hj & ->).
    specialize (IH (kept ++ [x]) junk' (seen ++ [true]) mask).
    rewrite !length_app in *. simpl in *. rewrite <- !Nat.add_assoc in *. simpl in *.
    rewrite Hj in IH. rewrite !Nat.add_1_r, Nat.add_succ_r in IH.
    rewrite IH by lia. by destruct (Take rest mask); simpl; rewrite <- ?app_assoc.
  - specialize (IH kept (junk ++ [x]) (seen ++ [false]) mask).
    rewrite !length_app in IH. simpl in IH. rewrite <- (app_assoc junk) in IH.
    replace (length kept + (length junk + 1))
      with (S (length kept + length junk)) in IH by lia.
    simpl in *. rewrite IH by lia. by destruct (Take rest mask).
Qed.

Lemma InplaceTake_Take slice mask : InplaceTake slice mask = Take slice mask.
Proof.
  pose proof (InplaceTake_loop [] [] slice [] mask eq_refl) as Hl.
  unfold InplaceTake. simpl in Hl. etrans; [exact Hl|].
  by destruct (Take slice mask).
Qed.

Lemma Take_length_ok slice mask :
  length slice ≤ length mask → ∃ r, Take slice mask = Ok r ∧
    r = (filter (λ p, p.2 = true) (zip slice mask)).*1.
Proof.
  revert mask. induction slice as [|x slice IH]; intros [|b mask] Hl; simpl in *;
    try lia; [by eauto..|].
  destruct (IH mask) as (r & -> & ->); [lia|]. simpl. rewrite filter_cons.
  by destruct b; eexists.
Qed.
End filters.

(** ** Sorted map iteration does not depend on the range order *)
Section sorted_maps_facts.
Context {k v : Type} `{Countable k, CmpOrdered k}.

Lemma SortMapKey_canonical (G1 G2 : GoRange) (m : gmap k v) :
  @SortMapKeyForDeterminism G1 k v _ _ _ m = @SortMapKeyForDeterminism G2 k v _ _ _ m.
Proof.
  unfold SortMapKeyForDeterminism. apply go_sort_proper.
  by rewrite (@go_range_perm G1), (@go_range_perm G2).
Qed.

Context `{GoRange}.
Implicit Types m : gmap k v.

Lemma elem_of_SortMapKey m x : x ∈ SortMapKeyForDeterminism m ↔ is_Some (m !! x).
Proof.
  unfold SortMapKeyForDeterminism. by rewrite elem_of_go_sort, elem_of_keys_go_range.
Qed.

Lemma SortMapKey_NoDup m : NoDup (SortMapKeyForDeterminism m).
Proof.
  unfold SortMapKeyForDeterminism. rewrite go_sort_perm. apply NoDup_fst_go_range.
Qed.

Lemma elem_of_SortedMap m x y : (x, y) ∈ SortedMap m ↔ m !! x = Some y.
Proof.
  unfold SortedMap. rewrite list_elem_of_omap. split.
  - intros (z & _ & Hz). by destruct (m !! z) eqn:E; simplify_eq/=.
  - intros Hx. exists x. rewrite elem_of_SortMapKey, Hx. naive_solver.
Qed.

Lemma elem_of_ValueSorted m y : y ∈ ValueSortedByMapKey m ↔ ∃ x, m !! x = Some y.
Proof.
  unfold ValueSortedByMapKey. rewrite list_elem_of_omap. split; [naive_solver|].
  intros [x Hx]. exists x. rewrite elem_of_SortMapKey, Hx. naive_solver.
Qed.

Lemma SortedMap_keys m : (SortedMap m).*1 = SortMapKeyForDeterminism m.
Proof.
  unfold SortedMap.
  assert (∀ l : list k, (∀ x, x ∈ l → is_Some (m !! x)) →
    (omap (λ key, pair key <$> m !! key) l).*1 = l) as Hl.
  { induction l as [|x l IH]; intros Hin; [done|]. simpl.
    destruct (Hin x) as [y ->]; [left|]. simpl. f_equal. apply IH. set_solver. }
  apply Hl. intros x. apply elem_of_SortMapKey.
Qed.
End sorted_maps_facts.
