(* ===== verification/Expression.v ===== *)
(** * Planner expressions (pkg/expression, pkg/parser/ast)

    The part of the planner's expression trees the interpreter reads: columns,
    constants, scalar functions, schemas, and the functions that extract
    columns.  Evaluation of expressions over rows is not modelled here. *)
From Stdlib Require Import SpecFloat.
From S2P Require Import Prelude.

(** Function names (pkg/parser/ast/functions.go) *)
Module ast.
Definition LogicAnd : string := "and".
Definition LogicOr : string := "or".
Definition GE : string := "ge".
Definition LE : string := "le".
Definition EQ : string := "eq".
Definition NE : string := "ne".
Definition LT : string := "lt".
Definition GT : string := "gt".
Definition Plus : string := "plus".
Definition Minus : string := "minus".
Definition Mul : string := "mul".
Definition Div : string := "div".
Definition IntDiv : string := "intdiv".
Definition Mod : string := "mod".
Definition Pow : string := "pow".
Definition UnaryNot : string := "not".
Definition UnaryPlus : string := "unaryplus".
Definition UnaryMinus : string := "unaryminus".
Definition IsNull : string := "isnull".
Definition Ifnull : string := "ifnull".
Definition Coalesce : string := "coalesce".
Definition Case : string := "case".
Definition If : string := "if".
Definition Greatest : string := "greatest".
Definition Least : string := "least".
Definition Cast : string := "cast".
Definition Concat : string := "concat".
Definition Substr : string := "substr".
Definition Substring : string := "substring".
Definition Now : string := "now".
Definition Curdate : string := "curdate".
Definition AddDate : string := "adddate".
Definition SubDate : string := "subdate".
Definition DateDiff : string := "datediff".
Definition StrToDate : string := "str_to_date".
Definition Sin : string := "sin".
Definition Cos : string := "cos".
Definition Acos : string := "acos".
Definition Asin : string := "asin".
Definition Tan : string := "tan".
Definition Cot : string := "cot".
Definition Atan : string := "atan".
Definition Atan2 : string := "atan2".
Definition Abs : string := "abs".
Definition Ceil : string := "ceil".
Definition Floor : string := "floor".
Definition Round : string := "round".
Definition Degrees : string := "degrees".
Definition Radians : string := "radians".
Definition Ln : string := "ln".
Definition Log2 : string := "log2".
Definition Log10 : string := "log10".
Definition Sqrt : string := "sqrt".
Definition Exp : string := "exp".
Definition Lower : string := "lower".
Definition Trim : string := "trim".
Definition Upper : string := "upper".
Definition GeoDist : string := "geodist".
Definition AggFuncCount : string := "count".
Definition AggFuncSum : string := "sum".
Definition AggFuncAvg : string := "avg".
Definition AggFuncFirstRow : string := "firstrow".
Definition AggFuncMax : string := "max".
Definition AggFuncMin : string := "min".
Definition AggFuncMedian : string := "median".
Definition AggPercentileDisc : string := "percentile_disc".
Definition WindowFuncRowNumber : string := "row_number".
Definition WindowFuncRank : string := "rank".
Definition WindowFuncPercentRank : string := "percent_rank".
End ast.

(** [types.FieldType]: the MySQL type code and the column flags. *)
Record FieldType := mkFieldType {
  Tp : Z;
  Flag : Z;
}.

(** Type codes and flags (pkg/parser/mysql/type.go) *)
Module mysql.
Definition TypeTiny : Z := 1.
Definition TypeShort : Z := 2.
Definition TypeLong : Z := 3.
Definition TypeFloat : Z := 4.
Definition TypeDouble : Z := 5.
Definition TypeTimestamp : Z := 7.
Definition TypeLonglong : Z := 8.
Definition TypeInt24 : Z := 9.
Definition TypeDate : Z := 10.
Definition TypeDuration : Z := 11.
Definition TypeDatetime : Z := 12.
Definition TypeYear : Z := 13.
Definition TypeVarchar : Z := 15.
Definition TypeBit : Z := 16.
Definition TypeJSON : Z := 245.
Definition TypeNewDecimal : Z := 246.
Definition TypeVarString : Z := 253.
Definition TypeString : Z := 254.
Definition IsBooleanFlag : Z := Z.shiftl 1 19.

Definition HasIsBooleanFlag (flag : Z) : bool := bool_decide (0 < Z.land flag IsBooleanFlag)%Z.
End mysql.

Inductive EvalTypes := ETInt | ETReal | ETDecimal | ETString | ETDatetime | ETTimestamp
| ETDuration | ETJson.

#[global] Instance EvalTypes_eq_dec : EqDecision EvalTypes.
Proof. solve_decision. Defined.

(** [FieldType.EvalType] (pkg/parser/types/field_type.go) *)
Definition EvalType (ft : FieldType) : EvalTypes :=
  if bool_decide (Tp ft ∈ [mysql.TypeTiny; mysql.TypeShort; mysql.TypeInt24; mysql.TypeLong;
       mysql.TypeLonglong; mysql.TypeBit; mysql.TypeYear]) then ETInt
  else if bool_decide (Tp ft ∈ [mysql.TypeFloat; mysql.TypeDouble]) then ETReal
  else if bool_decide (Tp ft = mysql.TypeNewDecimal) then ETDecimal
  else if bool_decide (Tp ft ∈ [mysql.TypeDate; mysql.TypeDatetime]) then ETDatetime
  else if bool_decide (Tp ft = mysql.TypeTimestamp) then ETTimestamp
  else if bool_decide (Tp ft = mysql.TypeDuration) then ETDuration
  else if bool_decide (Tp ft = mysql.TypeJSON) then ETJson
  else ETString.

Record Column := mkColumn {
  RetType : FieldType;
  UniqueID : Z;
  OrigName : string;
  UseAsThreshold : bool;
}.

(** [Column.String] *)
Definition Column_String (col : Column) : string :=
  if bool_decide (OrigName col ≠ "") then OrigName col
  else "Column#" +:+ pretty (UniqueID col).

(** [types.Datum]: its kind, the integer and the bytes it holds, and the object of
    the other kinds.  Of a decimal and of a time the interpreter only reads the number
    they convert to, which stands for them. *)
Inductive DatumX :=
| XNone
| XMysqlDecimal (ToFloat64 : res spec_float)
| XMysqlTime (ToUnixTimestamp : Z).

Record Datum := mkDatum {
  datum_k : Z;
  GetInt64 : Z;
  GetString : string;
  GetInterface : DatumX;
}.

(** Kinds (pkg/types/datum.go) *)
Module types.
Definition KindNull : Z := 0.
Definition KindInt64 : Z := 1.
Definition KindFloat32 : Z := 3.
Definition KindFloat64 : Z := 4.
Definition KindString : Z := 5.
Definition KindMysqlDecimal : Z := 8.
Definition KindMysqlTime : Z := 13.
End types.

Definition NewIntDatum (i : Z) : Datum := mkDatum types.KindInt64 i "" XNone.
Definition NewStringDatum (s : string) : Datum := mkDatum types.KindString 0 s XNone.
(** A float is kept as its IEEE bits. *)
Definition NewFloat64Datum (bits : Z) : Datum := mkDatum types.KindFloat64 bits "" XNone.
Definition NewTimeDatum (unix : Z) : Datum := mkDatum types.KindMysqlTime 0 "" (XMysqlTime unix).

(** The implementations of the [Expression] interface. *)
Inductive Expr :=
| EConstant (Value : Datum) (ret : FieldType)
| EColumn (c : Column)
| EScalarFunction (FuncName : string) (args : list Expr) (ret : FieldType)
| ECorrelatedColumn (c : Column).

(** [Expression.GetType]; a correlated column embeds the column's. *)
Definition GetType (e : Expr) : FieldType :=
  match e with
  | EConstant _ ret | EScalarFunction _ _ ret => ret
  | EColumn c | ECorrelatedColumn c => RetType c
  end.

(** Induction through the argument lists. *)
Section expr_ind.
Context (P : Expr → Prop).
Context (Pconst : ∀ v ret, P (EConstant v ret)).
Context (Pcol : ∀ c, P (EColumn c)).
Context (Pfun : ∀ f args ret, Forall P args → P (EScalarFunction f args ret)).
Context (Pcor : ∀ c, P (ECorrelatedColumn c)).

Fixpoint Expr_nested_ind (e : Expr) : P e :=
  match e with
  | EConstant v ret => Pconst v ret
  | EColumn c => Pcol c
  | EScalarFunction f args ret =>
      Pfun f args ret
        ((fix go (l : list Expr) : Forall P l :=
            match l with
            | [] => Forall_nil_2 _
            | x :: l => Forall_cons_2 _ _ _ (Expr_nested_ind x) (go l)
            end) args)
  | ECorrelatedColumn c => Pcor c
  end.
End expr_ind.

(** [extractColumns] with its accumulator; the interpreter passes no filter. *)
Fixpoint extractColumns (result : list Column) (expr : Expr) : list Column :=
  match expr with
  | EColumn v => result ++ [v]
  | EScalarFunction _ args _ =>
      (fix loop (result : list Column) (args : list Expr) : list Column :=
         match args with
         | [] => result
         | arg :: args => loop (extractColumns result arg) args
         end) result args
  | EConstant _ _ | ECorrelatedColumn _ => result
  end.

Definition ExtractColumns (expr : Expr) : list Column := extractColumns [] expr.

(** [expression.Schema]; unique keys are not used by the interpreter. *)
Record Schema := mkSchema { Columns : list Column }.

Fixpoint ColumnIndex_from (i : nat) (cols : list Column) (col : Column) : option nat :=
  match cols with
  | [] => None
  | c :: cols =>
      if decide (UniqueID c = UniqueID col) then Some i
      else ColumnIndex_from (S i) cols col
  end.

(** [None] stands for the [-1] of the source. *)
Definition ColumnIndex (s : Schema) (col : Column) : option nat :=
  ColumnIndex_from 0 (Columns s) col.

Definition Schema_Contains (s : Schema) (col : Column) : bool :=
  match ColumnIndex s col with Some _ => true | None => false end.

(** [core.GetUsedList] (pkg/planner/core/util.go) *)
Definition GetUsedList (usedCols : list Column) (schema : Schema) : list bool :=
  let tmpSchema := mkSchema usedCols in
  Schema_Contains tmpSchema <$> Columns schema.

(** ** Lemmas *)

(** The columns of an expression, as a structural function. *)
Fixpoint expr_cols (e : Expr) : list Column :=
  match e with
  | EColumn c => [c]
  | EScalarFunction _ args _ => concat (expr_cols <$> args)
  | _ => []
  end.

Lemma elem_of_fun_cols c f args ret :
  c ∈ expr_cols (EScalarFunction f args ret) ↔ ∃ a, a ∈ args ∧ c ∈ expr_cols a.
Proof.
  simpl. induction args as [|a args IH]; simpl; [set_solver|].
  rewrite elem_of_app, IH. set_solver.
Qed.

Lemma extractColumns_app result e : extractColumns result e = result ++ expr_cols e.
Proof.
  revert result. induction e as [v ret|c|f args ret IH|c] using Expr_nested_ind;
    intros result; simpl; [by rewrite app_nil_r|done| |by rewrite app_nil_r].
  revert result. induction IH as [|e args He _ IHargs]; intros result; simpl.
  - by rewrite app_nil_r.
  - by rewrite He, IHargs, app_assoc.
Qed.

Lemma ExtractColumns_cols e : ExtractColumns e = expr_cols e.
Proof. apply extractColumns_app. Qed.

Lemma Schema_Contains_spec s col :
  Schema_Contains s col ↔ ∃ c, c ∈ Columns s ∧ UniqueID c = UniqueID col.
Proof.
  unfold Schema_Contains, ColumnIndex. generalize 0.
  induction (Columns s) as [|c cols IH]; intros i; simpl; [set_solver|].
  case_decide; [|rewrite IH]; set_solver.
Qed.

Lemma length_GetUsedList used s : length (GetUsedList used s) = length (Columns s).
Proof. apply length_fmap. Qed.
