(* ===== verification/Operator.v ===== *)
(** * Operators of the execution graph (pkg/interpreter/operator)

    Tensor statuses and data types, the operator signatures with the methods
    that build them (operator_def.go), the operator names and attribute names
    (constant.go), and the registry of every operator the interpreter may put in
    a graph (operator_registration.go).  Documentation strings of operators and
    parameters are not modelled. *)
From Stdlib Require Import SpecFloat.
From S2P Require Import Prelude.

(** ** Enumerations of the protobuf schema (pkg/proto-gen/scql/core.pb.go) *)
Inductive TensorStatus :=
| TENSORSTATUS_UNKNOWN
| TENSORSTATUS_PRIVATE
| TENSORSTATUS_SECRET
| TENSORSTATUS_CIPHER
| TENSORSTATUS_PUBLIC.

#[global] Instance TensorStatus_eq_dec : EqDecision TensorStatus.
Proof. solve_decision. Defined.

(** The number [%d] prints for a status. *)
Definition TensorStatus_number (s : TensorStatus) : N :=
  match s with
  | TENSORSTATUS_UNKNOWN => 0
  | TENSORSTATUS_PRIVATE => 1
  | TENSORSTATUS_SECRET => 2
  | TENSORSTATUS_CIPHER => 3
  | TENSORSTATUS_PUBLIC => 4
  end.

Inductive PrimitiveDataType :=
| UNDEFINED
| INT8
| INT16
| INT32
| INT64
| FLOAT32
| FLOAT64
| BOOL
| STRING
| DATETIME
| TIMESTAMP.

#[global] Instance PrimitiveDataType_eq_dec : EqDecision PrimitiveDataType.
Proof. solve_decision. Defined.

Inductive TensorOptions :=
| VALUE
| REFERENCE
| VARIABLE.

#[global] Instance TensorOptions_eq_dec : EqDecision TensorOptions.
Proof. solve_decision. Defined.

Inductive FormalParameterOptions :=
| SINGLE
| OPTIONAL
| VARIADIC.

#[global] Instance FormalParameterOptions_eq_dec : EqDecision FormalParameterOptions.
Proof. solve_decision. Defined.

(** [proto.Tensor]: the fields the interpreter writes and reads. *)
Record pbTensor := mkpbTensor {
  pbName : string;
  pbElemType : PrimitiveDataType;
  pbOption : TensorOptions;
  pbStatus : option TensorStatus;
  pbShape : option (list Z);
  pbRefNum : Z;
  pbInt32Data : list Z;
  pbInt64Data : list Z;
  pbFloatData : list spec_float;
  pbDoubleData : list spec_float;
  pbBoolData : list bool;
  pbStringData : list string;
}.

Definition pbTensor_zero : pbTensor :=
  mkpbTensor "" UNDEFINED VALUE None None 0 [] [] [] [] [] [].

(** ** Operator signatures (operator_def.go) *)
Inductive StreamingOpType := SinkOp | StreamingOp.

#[global] Instance StreamingOpType_eq_dec : EqDecision StreamingOpType.
Proof. solve_decision. Defined.

Record FormalParameter := mkFormalParameter {
  ParamName : string;
  Option : FormalParameterOptions;
  ParameterStatusConstraintName : string;
}.

Record OperatorDef := mkOperatorDef {
  Name : string;
  InputParams : list FormalParameter;
  OutputParams : list FormalParameter;
  AttributeParams : list string;
  DefaultAttributeValues : gmap string pbTensor;
  ParamStatusConstraints : gmap string (list TensorStatus);
  err : option string;
  opStreamingType : StreamingOpType;
}.

(** [&OperatorDef{}]: the zero value; the zero of [StreamingOpType] is [SinkOp]. *)
Definition OperatorDef_zero : OperatorDef :=
  mkOperatorDef "" [] [] [] ∅ ∅ None SinkOp.

Definition SetName (name : string) (op : OperatorDef) : OperatorDef :=
  mkOperatorDef name (InputParams op) (OutputParams op) (AttributeParams op)
    (DefaultAttributeValues op) (ParamStatusConstraints op) (err op) (opStreamingType op).

Definition SetStreamingType (typ : StreamingOpType) (op : OperatorDef) : OperatorDef :=
  mkOperatorDef (Name op) (InputParams op) (OutputParams op) (AttributeParams op)
    (DefaultAttributeValues op) (ParamStatusConstraints op) (err op) typ.

Definition AddInput (name : string) (option : FormalParameterOptions)
    (statusConstraintName : string) (op : OperatorDef) : OperatorDef :=
  match err op with
  | Some _ => op
  | None =>
      mkOperatorDef (Name op)
        (InputParams op ++ [mkFormalParameter name option statusConstraintName])
        (OutputParams op) (AttributeParams op)
        (DefaultAttributeValues op) (ParamStatusConstraints op) (err op) (opStreamingType op)
  end.

Definition AddOutput (name : string) (option : FormalParameterOptions)
    (statusConstraintName : string) (op : OperatorDef) : OperatorDef :=
  match err op with
  | Some _ => op
  | None =>
      mkOperatorDef (Name op) (InputParams op)
        (OutputParams op ++ [mkFormalParameter name option statusConstraintName])
        (AttributeParams op)
        (DefaultAttributeValues op) (ParamStatusConstraints op) (err op) (opStreamingType op)
  end.

Definition AddAttribute (name : string) (op : OperatorDef) : OperatorDef :=
  match err op with
  | Some _ => op
  | None =>
      mkOperatorDef (Name op) (InputParams op) (OutputParams op)
        (AttributeParams op ++ [name])
        (DefaultAttributeValues op) (ParamStatusConstraints op) (err op) (opStreamingType op)
  end.

Definition AddDefaultAttributeValue (name : string) (attr : pbTensor) (op : OperatorDef)
    : OperatorDef :=
  match err op with
  | Some _ => op
  | None =>
      mkOperatorDef (Name op) (InputParams op) (OutputParams op) (AttributeParams op)
        (<[name:=attr]> (DefaultAttributeValues op))
        (ParamStatusConstraints op) (err op) (opStreamingType op)
  end.

Definition CreateIntAttribute (data : Z) : pbTensor :=
  mkpbTensor "" INT64 VALUE None None 0 [] [data] [] [] [] [].
Definition CreateIntsAttribute (datas : list Z) : pbTensor :=
  mkpbTensor "" INT64 VALUE None (Some [Z.of_nat (length datas)]) 0 [] datas [] [] [] [].
Definition CreateFloatAttribute (data : spec_float) : pbTensor :=
  mkpbTensor "" FLOAT32 VALUE None None 0 [] [] [data] [] [] [].
Definition CreateBoolAttribute (data : bool) : pbTensor :=
  mkpbTensor "" BOOL VALUE None None 0 [] [] [] [] [data] [].
Definition CreateStringAttribute (str : string) : pbTensor :=
  mkpbTensor "" STRING VALUE None None 0 [] [] [] [] [] [str].

Definition SetParamTypeConstraint (constraintName : string) (status : list TensorStatus)
    (op : OperatorDef) : OperatorDef :=
  match err op with
  | Some _ => op
  | None =>
      mkOperatorDef (Name op) (InputParams op) (OutputParams op) (AttributeParams op)
        (DefaultAttributeValues op)
        (<[constraintName:=status]> (ParamStatusConstraints op)) (err op) (opStreamingType op)
  end.

(** ** Names (constant.go) *)
Definition OpNameConstant : string := "Constant".
Definition OpNameMakePrivate : string := "MakePrivate".
Definition OpNameMakeShare : string := "MakeShare".
Definition OpNameMakePublic : string := "MakePublic".
Definition OpNameFilterByIndex : string := "FilterByIndex".
Definition OpNameBucket : string := "Bucket".
Definition OpNameJoin : string := "Join".
Definition OpNameSecretJoin : string := "SecretJoin".
Definition OpNameRunSQL : string := "RunSQL".
Definition OpNamePublish : string := "Publish".
Definition OpNameDumpFile : string := "DumpFile".
Definition OpNameInsertTable : string := "InsertTable".
Definition OpNameCopy : string := "Copy".
Definition OpNameFilter : string := "Filter".
Definition OpNameGreatest : string := "Greatest".
Definition OpNameLeast : string := "Least".
Definition OpNameIn : string := "In".
Definition OpNameReplicate : string := "Replicate".
Definition OpNameBroadcastTo : string := "BroadcastTo".
Definition OpNameCast : string := "Cast".
Definition OpNameLimit : string := "Limit".
Definition OpNameIsNull : string := "IsNull".
Definition OpNameArrowFunc : string := "ArrowFunc".
Definition OpNameLess : string := "Less".
Definition OpNameLessEqual : string := "LessEqual".
Definition OpNameGreater : string := "Greater".
Definition OpNameGreaterEqual : string := "GreaterEqual".
Definition OpNameEqual : string := "Equal".
Definition OpNameNotEqual : string := "NotEqual".
Definition OpNameLogicalAnd : string := "LogicalAnd".
Definition OpNameLogicalOr : string := "LogicalOr".
Definition OpNamePow : string := "Pow".
Definition OpNameAdd : string := "Add".
Definition OpNameMinus : string := "Minus".
Definition OpNameMul : string := "Mul".
Definition OpNameDiv : string := "Div".
Definition OpNameIntDiv : string := "IntDiv".
Definition OpNameMod : string := "Mod".
Definition OpNameNot : string := "Not".
Definition OpNameSin : string := "Sin".
Definition OpNameCos : string := "Cos".
Definition OpNameACos : string := "ACos".
Definition OpNameASin : string := "ASin".
Definition OpNameTan : string := "Tan".
Definition OpNameCot : string := "Cot".
Definition OpNameATan : string := "ATan".
Definition OpNameATan2 : string := "ATan2".
Definition OpNameReduceSum : string := "ReduceSum".
Definition OpNameReduceMax : string := "ReduceMax".
Definition OpNameReduceMin : string := "ReduceMin".
Definition OpNameReduceAvg : string := "ReduceAvg".
Definition OpNameReduceCount : string := "ReduceCount".
Definition OpNameReducePercentileDisc : string := "ReducePercentileDisc".
Definition OpNameGroup : string := "Group".
Definition OpNameGroupSum : string := "GroupSum".
Definition OpNameGroupCount : string := "GroupCount".
Definition OpNameGroupCountDistinct : string := "GroupCountDistinct".
Definition OpNameGroupAvg : string := "GroupAvg".
Definition OpNameGroupMin : string := "GroupMin".
Definition OpNameGroupMax : string := "GroupMax".
Definition OpNameGroupFirstOf : string := "GroupFirstOf".
Definition OpNameGroupHeSum : string := "GroupHeSum".
Definition OpNameGroupPercentileDisc : string := "GroupPercentileDisc".
Definition OpNameUnique : string := "Unique".
Definition OpNameShape : string := "Shape".
Definition OpNameSort : string := "Sort".
Definition OpNameObliviousGroupMark : string := "ObliviousGroupMark".
Definition OpNameObliviousGroupCount : string := "ObliviousGroupCount".
Definition OpNameObliviousGroupSum : string := "ObliviousGroupSum".
Definition OpNameObliviousGroupMax : string := "ObliviousGroupMax".
Definition OpNameObliviousGroupMin : string := "ObliviousGroupMin".
Definition OpNameObliviousGroupAvg : string := "ObliviousGroupAvg".
Definition OpNameObliviousPercentRank : string := "ObliviousPercentRank".
Definition OpNameObliviousPercentileDisc : string := "ObliviousPercentileDisc".
Definition OpNameObliviousRank : string := "ObliviousRank".
Definition OpNameShuffle : string := "Shuffle".
Definition OpNameConcat : string := "Concat".
Definition OpNameCaseWhen : string := "CaseWhen".
Definition OpNameIf : string := "If".
Definition OpNameIfNull : string := "IfNull".
Definition OpNameCoalesce : string := "Coalesce".
Definition OpNameRowNumber : string := "RowNumber".
Definition OpNamePercentRank : string := "PercentRank".
Definition OpNameRank : string := "Rank".
Definition OpNameAbs : string := "Abs".
Definition OpNameCeil : string := "Ceil".
Definition OpNameFloor : string := "Floor".
Definition OpNameRound : string := "Round".
Definition OpNameDegrees : string := "Degrees".
Definition OpNameRadians : string := "Radians".
Definition OpNameLn : string := "Ln".
Definition OpNameLog10 : string := "Log10".
Definition OpNameLog2 : string := "Log2".
Definition OpNameSqrt : string := "Sqrt".
Definition OpNameExp : string := "Exp".

Definition RevealToAttr : string := "reveal_to".
Definition InputPartyCodesAttr : string := "input_party_codes".
Definition OutputPartyCodesAttr : string := "output_party_codes".
Definition LimitCountAttr : string := "count".
Definition LimitOffsetAttr : string := "offset".
Definition TableNameAttr : string := "table_name".
Definition ColumnNamesAttr : string := "column_names".
Definition PsiAlgorithmAttr : string := "psi_algorithm".
Definition InTypeAttr : string := "in_type".
Definition JoinTypeAttr : string := "join_type".
Definition SqlAttr : string := "sql".
Definition TableRefsAttr : string := "table_refs".
Definition ScalarAttr : string := "scalar".
Definition ToStatusAttr : string := "to_status".
Definition FilePathAttr : string := "file_path".
Definition FieldDeliminatorAttr : string := "field_deliminator".
Definition QuotingStyleAttr : string := "quoting_style".
Definition LineTerminatorAttr : string := "line_terminator".
Definition AxisAttr : string := "axis".
Definition ReverseAttr : string := "reverse".
Definition FuncNameAttr : string := "func_name".
Definition FuncOptAttr : string := "func_options".
Definition FuncOptTypeAttr : string := "func_opt_type".
Definition PsiIn : Z := 0.

(** ** The registry (operator_registration.go) *)
Definition BinaryOps : list string :=
  [OpNameLess; OpNameLessEqual; OpNameGreater; OpNameGreaterEqual; OpNameEqual;
   OpNameNotEqual; OpNameLogicalAnd; OpNameLogicalOr; OpNameAdd; OpNameMinus; OpNameMul;
   OpNameDiv; OpNameIntDiv; OpNameMod; OpNameATan2; OpNamePow].
Definition UnaryOps : list string := [OpNameNot].

Definition statusPrivate : list TensorStatus := [TENSORSTATUS_PRIVATE].
Definition statusSecret : list TensorStatus := [TENSORSTATUS_SECRET].
Definition statusPublic : list TensorStatus := [TENSORSTATUS_PUBLIC].
Definition statusPrivateOrPublic : list TensorStatus :=
  [TENSORSTATUS_PUBLIC; TENSORSTATUS_PRIVATE].
Definition statusPrivateOrSecret : list TensorStatus :=
  [TENSORSTATUS_PRIVATE; TENSORSTATUS_SECRET].
Definition statusSecretOrPublic : list TensorStatus :=
  [TENSORSTATUS_SECRET; TENSORSTATUS_PUBLIC].
Definition statusPrivateOrSecretOrPublic : list TensorStatus :=
  [TENSORSTATUS_PUBLIC; TENSORSTATUS_PRIVATE; TENSORSTATUS_SECRET].

(** [op |> f] is the next statement of a registration block. *)
Declare Scope op_scope.
Notation "op |> f" := (f op) (at level 61, left associativity, only parsing) : op_scope.
Local Open Scope op_scope.

Definition opDef_RunSQL : OperatorDef :=
  OperatorDef_zero
  |> SetName OpNameRunSQL
  |> SetStreamingType SinkOp
  |> AddOutput "Out" VARIADIC "T"
  |> AddAttribute SqlAttr
  |> AddAttribute TableRefsAttr
  |> SetParamTypeConstraint "T" statusPrivate.

Definition opDef_Publish : OperatorDef :=
  OperatorDef_zero
  |> SetName OpNamePublish
  |> SetStreamingType SinkOp
  |> AddInput "In" VARIADIC "T"
  |> AddOutput "Out" VARIADIC "T"
  |> SetParamTypeConstraint "T" statusPrivate.

Definition opDef_Binary (opName : string) : OperatorDef :=
  OperatorDef_zero
  |> SetName opName
  |> SetStreamingType StreamingOp
  |> AddInput "Left" VARIADIC "T"
  |> AddInput "Right" VARIADIC "T1"
  |> AddOutput "Out" VARIADIC "T2"
  |> SetParamTypeConstraint "T" statusPrivateOrSecretOrPublic
  |> SetParamTypeConstraint "T1" statusPrivateOrSecretOrPublic
  |> SetParamTypeConstraint "T2" statusPrivateOrSecret.

Definition opDef_MakePublic : OperatorDef :=
  OperatorDef_zero
  |> SetName OpNameMakePublic
  |> SetStreamingType StreamingOp
  |> AddInput "In" VARIADIC "T1"
  |> AddOutput "Out" VARIADIC "T2"
  |> SetParamTypeConstraint "T1" statusPrivateOrSecret
  |> SetParamTypeConstraint "T2" statusPublic.

Definition opDef_MakePrivate : OperatorDef :=
  OperatorDef_zero
  |> SetName OpNameMakePrivate
  |> SetStreamingType StreamingOp
  |> AddInput "In" VARIADIC "T1"
  |> AddOutput "Out" VARIADIC "T2"
  |> AddAttribute RevealToAttr
  |> SetParamTypeConstraint "T1" statusSecretOrPublic
  |> SetParamTypeConstraint "T2" statusPrivate.

Definition opDef_MakeShare : OperatorDef :=
  OperatorDef_zero
  |> SetName OpNameMakeShare
  |> SetStreamingType StreamingOp
  |> AddInput "In" VARIADIC "T1"
  |> AddOutput "Out" VARIADIC "T2"
  |> SetParamTypeConstraint "T1" statusPrivate
  |> SetParamTypeConstraint "T2" statusSecret.

Definition opDef_Join : OperatorDef :=
  OperatorDef_zero
  |> SetName OpNameJoin
  |> SetStreamingType SinkOp
  |> AddInput "Left" SINGLE "T1"
  |> AddInput "Right" SINGLE "T1"
  |> AddOutput "LeftJoinIndex" OPTIONAL "T2"
  |> AddOutput "RightJoinIndex" OPTIONAL "T2"
  |> AddAttribute InputPartyCodesAttr
  |> AddAttribute JoinTypeAttr
  |> AddDefaultAttributeValue JoinTypeAttr (CreateIntAttribute 0)
  |> AddAttribute PsiAlgorithmAttr
  |> AddDefaultAttributeValue PsiAlgorithmAttr (CreateIntAttribute 0)
  |> SetParamTypeConstraint "T1" statusPrivate
  |> SetParamTypeConstraint "T2" statusPrivate.

Definition opDef_FilterByIndex : OperatorDef :=
  OperatorDef_zero
  |> SetName OpNameFilterByIndex
  |> SetStreamingType StreamingOp
  |> AddInput "RowsIndexFilter" SINGLE "T"
  |> AddInput "Data" VARIADIC "T"
  |> AddOutput "Out" VARIADIC "T"
  |> SetParamTypeConstraint "T" statusPrivate.

Definition opDef_Copy : OperatorDef :=
  OperatorDef_zero
  |> SetName OpNameCopy
  |> SetStreamingType StreamingOp
  |> AddInput "In" SINGLE "T1"
  |> AddOutput "Out" SINGLE "T1"
  |> AddAttribute InputPartyCodesAttr
  |> AddAttribute OutputPartyCodesAttr
  |> SetParamTypeConstraint "T1" statusPrivate.

Definition opDef_Filter : OperatorDef :=
  OperatorDef_zero
  |> SetName OpNameFilter
  |> SetStreamingType StreamingOp
  |> AddInput "Filter" SINGLE "T1"
  |> AddInput "In" VARIADIC "T"
  |> AddOutput "Out" VARIADIC "T"
  |> SetParamTypeConstraint "T1" statusPrivateOrPublic
  |> SetParamTypeConstraint "T" statusPrivateOrSecret.

Definition opDef_Constant : OperatorDef :=
  OperatorDef_zero
  |> SetName OpNameConstant
  |> SetStreamingType SinkOp
  |> AddOutput "Out" SINGLE "T"
  |> AddAttribute ScalarAttr
  |> SetParamTypeConstraint "T" statusPrivateOrPublic.

Definition opDef_DumpFile : OperatorDef :=
  OperatorDef_zero
  |> SetName OpNameDumpFile
  |> SetStreamingType SinkOp
  |> AddInput "In" VARIADIC "T"
  |> AddOutput "Out" VARIADIC "T"
  |> AddAttribute FilePathAttr
  |> AddAttribute FieldDeliminatorAttr
  |> AddDefaultAttributeValue FieldDeliminatorAttr (CreateStringAttribute "\t")
  |> AddAttribute QuotingStyleAttr
  |> AddDefaultAttributeValue QuotingStyleAttr (CreateIntAttribute 0)
  |> AddAttribute LineTerminatorAttr
  |> AddDefaultAttributeValue LineTerminatorAttr (CreateStringAttribute "\n")
  |> SetParamTypeConstraint "T" statusPrivate.

Definition opDef_InsertTable : OperatorDef :=
  OperatorDef_zero
  |> SetName OpNameInsertTable
  |> AddInput "In" VARIADIC "T"
  |> AddOutput "Out" VARIADIC "T"
  |> AddAttribute TableNameAttr
  |> AddAttribute ColumnNamesAttr
  |> SetParamTypeConstraint "T" statusPrivate.

Definition opDef_In : OperatorDef :=
  OperatorDef_zero
  |> SetName OpNameIn
  |> SetStreamingType StreamingOp
  |> AddInput "Left" SINGLE "T"
  |> AddInput "Right" SINGLE "T1"
  |> AddOutput "Out" SINGLE "T"
  |> AddAttribute InTypeAttr
  |> AddDefaultAttributeValue InTypeAttr (CreateIntAttribute PsiIn)
  |> AddAttribute PsiAlgorithmAttr
  |> AddDefaultAttributeValue PsiAlgorithmAttr (CreateIntAttribute 0)
  |> AddAttribute InputPartyCodesAttr
  |> AddAttribute RevealToAttr
  |> SetParamTypeConstraint "T" statusPrivate
  |> SetParamTypeConstraint "T1" statusPrivate.

Definition opDef_ReduceSum : OperatorDef :=
  OperatorDef_zero
  |> SetName OpNameReduceSum
  |> SetStreamingType SinkOp
  |> AddInput "In" SINGLE "T"
  |> AddOutput "Out" SINGLE "T"
  |> SetParamTypeConstraint "T" statusPrivateOrSecret.

Definition opDef_ReduceCount : OperatorDef :=
  OperatorDef_zero
  |> SetName OpNameReduceCount
  |> SetStreamingType SinkOp
  |> AddInput "In" SINGLE "T"
  |> AddOutput "Out" SINGLE "T"
  |> SetParamTypeConstraint "T" statusPrivateOrSecret.

Definition opDef_ReduceMax : OperatorDef :=
  OperatorDef_zero
  |> SetName OpNameReduceMax
  |> SetStreamingType SinkOp
  |> AddInput "In" SINGLE "T"
  |> AddOutput "Out" SINGLE "T"
  |> SetParamTypeConstraint "T" statusPrivateOrSecret.

Definition opDef_ReduceMin : OperatorDef :=
  OperatorDef_zero
  |> SetName OpNameReduceMin
  |> SetStreamingType SinkOp
  |> AddInput "In" SINGLE "T"
  |> AddOutput "Out" SINGLE "T"
  |> SetParamTypeConstraint "T" statusPrivateOrSecret.

Definition opDef_ReduceAvg : OperatorDef :=
  OperatorDef_zero
  |> SetName OpNameReduceAvg
  |> SetStreamingType SinkOp
  |> AddInput "In" SINGLE "T"
  |> AddOutput "Out" SINGLE "T"
  |> SetParamTypeConstraint "T" statusPrivateOrSecret.

Definition opDef_ReducePercentileDisc : OperatorDef :=
  OperatorDef_zero
  |> SetName OpNameReducePercentileDisc
  |> SetStreamingType SinkOp
  |> AddInput "In" SINGLE "T"
  |> AddOutput "Out" SINGLE "T"
  |> SetParamTypeConstraint "T" statusPrivateOrSecret
  |> AddAttribute "percent".

Definition opDef_Shape : OperatorDef :=
  OperatorDef_zero
  |> SetName OpNameShape
  |> SetStreamingType SinkOp
  |> AddInput "In" VARIADIC "T"
  |> AddOutput "Out" VARIADIC "T1"
  |> AddAttribute AxisAttr
  |> AddDefaultAttributeValue AxisAttr (CreateIntAttribute (-1))
  |> SetParamTypeConstraint "T" statusPrivateOrSecretOrPublic
  |> SetParamTypeConstraint "T1" statusPrivate.

Definition opDef_Unique : OperatorDef :=
  OperatorDef_zero
  |> SetName OpNameUnique
  |> SetStreamingType SinkOp
  |> AddInput "Key" SINGLE "T"
  |> AddOutput "UniqueKey" SINGLE "T"
  |> SetParamTypeConstraint "T" statusPrivate.

Definition opDef_Sort : OperatorDef :=
  OperatorDef_zero
  |> SetName OpNameSort
  |> SetStreamingType SinkOp
  |> AddInput "Key" VARIADIC "T"
  |> AddInput "In" VARIADIC "T"
  |> AddOutput "Out" VARIADIC "T"
  |> AddAttribute ReverseAttr
  |> AddDefaultAttributeValue ReverseAttr (CreateBoolAttribute false)
  |> SetParamTypeConstraint "T" statusPrivateOrSecret.

Definition opDef_ObliviousGroupMark : OperatorDef :=
  OperatorDef_zero
  |> SetName OpNameObliviousGroupMark
  |> SetStreamingType SinkOp
  |> AddInput "Key" VARIADIC "T"
  |> AddOutput "Group" SINGLE "T"
  |> SetParamTypeConstraint "T" statusPrivateOrSecret.

Definition ObliviousGroupAggOps : list string :=
  [OpNameObliviousGroupSum;
   OpNameObliviousGroupCount;
   OpNameObliviousGroupMax;
   OpNameObliviousGroupMin;
   OpNameObliviousGroupAvg;
   OpNameObliviousPercentRank;
   OpNameObliviousRank].

Definition opDef_ObliviousGroupAgg (opName : string) : OperatorDef :=
  OperatorDef_zero
  |> SetName opName
  |> SetStreamingType SinkOp
  |> AddInput "Group" SINGLE "T"
  |> AddInput "In" VARIADIC "T"
  |> AddOutput "Out" VARIADIC "T"
  |> SetParamTypeConstraint "T" statusSecret.

Definition opDef_ObliviousPercentileDisc : OperatorDef :=
  OperatorDef_zero
  |> SetName OpNameObliviousPercentileDisc
  |> SetStreamingType SinkOp
  |> AddInput "Group" SINGLE "T"
  |> AddInput "In" VARIADIC "T"
  |> AddOutput "Out" VARIADIC "T"
  |> SetParamTypeConstraint "T" statusSecret
  |> AddAttribute "percent".

Definition opDef_Shuffle : OperatorDef :=
  OperatorDef_zero
  |> SetName OpNameShuffle
  |> SetStreamingType SinkOp
  |> AddInput "In" VARIADIC "T"
  |> AddOutput "Out" VARIADIC "T"
  |> SetParamTypeConstraint "T" statusSecret.

Definition opDef_BroadcastTo : OperatorDef :=
  OperatorDef_zero
  |> SetName OpNameBroadcastTo
  |> SetStreamingType StreamingOp
  |> AddInput "In" VARIADIC "T"
  |> AddInput "ShapeRefTensor" SINGLE "T1"
  |> AddOutput "Out" VARIADIC "T2"
  |> SetParamTypeConstraint "T" statusPublic
  |> SetParamTypeConstraint "T1" statusPrivateOrSecretOrPublic
  |> SetParamTypeConstraint "T2" statusPrivateOrPublic.

Definition opDef_Unary (opName : string) : OperatorDef :=
  OperatorDef_zero
  |> SetName opName
  |> SetStreamingType StreamingOp
  |> AddInput "In" SINGLE "T"
  |> AddOutput "Out" SINGLE "T"
  |> SetParamTypeConstraint "T" statusPrivateOrSecretOrPublic.

Definition opDef_Concat : OperatorDef :=
  OperatorDef_zero
  |> SetName OpNameConcat
  |> SetStreamingType SinkOp
  |> AddInput "In" VARIADIC "T"
  |> AddOutput "Out" SINGLE "T"
  |> AddAttribute "axis"
  |> AddDefaultAttributeValue "axis" (CreateIntAttribute 0)
  |> SetParamTypeConstraint "T" statusSecret.

Definition opDef_Group : OperatorDef :=
  OperatorDef_zero
  |> SetName OpNameGroup
  |> SetStreamingType SinkOp
  |> AddInput "Key" VARIADIC "T"
  |> AddOutput "GroupId" SINGLE "T"
  |> AddOutput "GroupNum" SINGLE "T"
  |> SetParamTypeConstraint "T" statusPrivate.

Definition opDef_If : OperatorDef :=
  OperatorDef_zero
  |> SetName OpNameIf
  |> SetStreamingType StreamingOp
  |> AddInput "Condition" SINGLE "T"
  |> AddInput "ValueIfTrue" SINGLE "T1"
  |> AddInput "ValueIfFalse" SINGLE "T2"
  |> AddOutput "Out" SINGLE "T3"
  |> SetParamTypeConstraint "T" statusPrivateOrSecretOrPublic
  |> SetParamTypeConstraint "T1" statusPrivateOrSecretOrPublic
  |> SetParamTypeConstraint "T2" statusPrivateOrSecretOrPublic
  |> SetParamTypeConstraint "T3" statusPrivateOrSecretOrPublic.

Definition opDef_CaseWhen : OperatorDef :=
  OperatorDef_zero
  |> SetName OpNameCaseWhen
  |> SetStreamingType StreamingOp
  |> AddInput "Condition" VARIADIC "T"
  |> AddInput "Value" VARIADIC "T1"
  |> AddInput "ValueElse" SINGLE "T2"
  |> AddOutput "Out" SINGLE "T3"
  |> SetParamTypeConstraint "T" statusPrivateOrSecretOrPublic
  |> SetParamTypeConstraint "T1" statusPrivateOrSecretOrPublic
  |> SetParamTypeConstraint "T2" statusPrivateOrSecretOrPublic
  |> SetParamTypeConstraint "T3" statusPrivateOrSecretOrPublic.

Definition GroupAggOps : list string :=
  [OpNameGroupFirstOf;
   OpNameGroupCount;
   OpNameGroupCountDistinct;
   OpNameGroupSum;
   OpNameGroupAvg;
   OpNameGroupMin;
   OpNameGroupMax].

Definition opDef_GroupAgg (opName : string) : OperatorDef :=
  OperatorDef_zero
  |> SetName opName
  |> SetStreamingType SinkOp
  |> AddInput "GroupId" SINGLE "T"
  |> AddInput "GroupNum" SINGLE "T"
  |> AddInput "In" VARIADIC "T"
  |> AddOutput "Out" VARIADIC "T"
  |> SetParamTypeConstraint "T" statusPrivate.

Definition opDef_GroupPercentileDisc : OperatorDef :=
  OperatorDef_zero
  |> SetName OpNameGroupPercentileDisc
  |> SetStreamingType SinkOp
  |> AddInput "GroupId" SINGLE "T"
  |> AddInput "GroupNum" SINGLE "T"
  |> AddInput "In" VARIADIC "T"
  |> AddOutput "Out" VARIADIC "T"
  |> SetParamTypeConstraint "T" statusPrivate
  |> AddAttribute "percent".

Definition opDef_GroupHeSum : OperatorDef :=
  OperatorDef_zero
  |> SetName OpNameGroupHeSum
  |> SetStreamingType SinkOp
  |> AddInput "GroupId" SINGLE "T"
  |> AddInput "GroupNum" SINGLE "T"
  |> AddInput "In" SINGLE "T"
  |> AddOutput "Out" SINGLE "T"
  |> AddAttribute InputPartyCodesAttr
  |> SetParamTypeConstraint "T" statusPrivate.

Definition opDef_Cast : OperatorDef :=
  OperatorDef_zero
  |> SetName OpNameCast
  |> SetStreamingType StreamingOp
  |> AddInput "In" SINGLE "T"
  |> AddOutput "Out" SINGLE "T"
  |> SetParamTypeConstraint "T" statusPrivateOrSecretOrPublic.

Definition opDef_Limit : OperatorDef :=
  OperatorDef_zero
  |> SetName OpNameLimit
  |> SetStreamingType SinkOp
  |> AddInput "In" VARIADIC "T"
  |> AddOutput "Out" VARIADIC "T"
  |> AddAttribute LimitOffsetAttr
  |> AddAttribute LimitCountAttr
  |> SetParamTypeConstraint "T" statusPrivateOrSecretOrPublic.

Definition opDef_IsNull : OperatorDef :=
  OperatorDef_zero
  |> SetName OpNameIsNull
  |> SetStreamingType StreamingOp
  |> AddInput "In" SINGLE "T"
  |> AddOutput "Out" SINGLE "T"
  |> SetParamTypeConstraint "T" statusPrivate.

Definition opDef_IfNull : OperatorDef :=
  OperatorDef_zero
  |> SetName OpNameIfNull
  |> SetStreamingType StreamingOp
  |> AddInput "Expr" SINGLE "T"
  |> AddInput "AltValue" SINGLE "T"
  |> AddOutput "Out" SINGLE "T"
  |> SetParamTypeConstraint "T" statusPrivate.

Definition opDef_Coalesce : OperatorDef :=
  OperatorDef_zero
  |> SetName OpNameCoalesce
  |> SetStreamingType StreamingOp
  |> AddInput "Exprs" VARIADIC "T"
  |> AddOutput "Out" SINGLE "T"
  |> SetParamTypeConstraint "T" statusPrivate.

Definition opDef_Bucket : OperatorDef :=
  OperatorDef_zero
  |> SetName OpNameBucket
  |> SetStreamingType SinkOp
  |> AddInput "Key" VARIADIC "T"
  |> AddInput "In" VARIADIC "T"
  |> AddOutput "Out" VARIADIC "T"
  |> AddAttribute InputPartyCodesAttr
  |> SetParamTypeConstraint "T" statusPrivate.

Definition TrigonometricOps : list string :=
  [OpNameCos;
   OpNameSin;
   OpNameTan;
   OpNameCot;
   OpNameACos;
   OpNameASin;
   OpNameATan].

Definition opDef_Trigonometric (opName : string) : OperatorDef :=
  OperatorDef_zero
  |> SetName opName
  |> SetStreamingType StreamingOp
  |> AddInput "In" SINGLE "T"
  |> AddOutput "Out" SINGLE "T"
  |> SetParamTypeConstraint "T" statusPrivateOrSecretOrPublic.

Definition RankWindowOps : list string :=
  [OpNameRowNumber;
   OpNamePercentRank;
   OpNameRank].

Definition opDef_RankWindow (opName : string) : OperatorDef :=
  OperatorDef_zero
  |> SetName opName
  |> SetStreamingType SinkOp
  |> AddInput "Key" VARIADIC "T"
  |> AddInput "PartitionId" SINGLE "T"
  |> AddInput "PartitionNum" SINGLE "T"
  |> AddOutput "Out" SINGLE "T"
  |> AddAttribute ReverseAttr
  |> SetParamTypeConstraint "T" statusPrivate.

Definition opDef_SecretJoin : OperatorDef :=
  OperatorDef_zero
  |> SetName OpNameSecretJoin
  |> SetStreamingType SinkOp
  |> AddInput "LeftKey" VARIADIC "T"
  |> AddInput "RightKey" VARIADIC "T"
  |> AddInput "Left" VARIADIC "T"
  |> AddInput "Right" VARIADIC "T"
  |> AddOutput "LeftOutput" VARIADIC "T"
  |> AddOutput "RightOutput" VARIADIC "T"
  |> SetParamTypeConstraint "T" statusSecret.

Definition UnaryNumericOps : list string :=
  [OpNameAbs;
   OpNameCeil;
   OpNameFloor;
   OpNameRound;
   OpNameRadians;
   OpNameDegrees;
   OpNameLn;
   OpNameLog10;
   OpNameLog2;
   OpNameSqrt;
   OpNameExp].

Definition opDef_UnaryNumeric (opName : string) : OperatorDef :=
  OperatorDef_zero
  |> SetName opName
  |> SetStreamingType SinkOp
  |> AddInput "In" SINGLE "T"
  |> AddOutput "Out" SINGLE "T"
  |> SetParamTypeConstraint "T" statusPrivateOrSecretOrPublic.

Definition opDef_Greatest : OperatorDef :=
  OperatorDef_zero
  |> SetName OpNameGreatest
  |> SetStreamingType StreamingOp
  |> AddInput "In" VARIADIC "T"
  |> AddOutput "Out" VARIADIC "T"
  |> SetParamTypeConstraint "T" statusPrivateOrSecretOrPublic.

Definition opDef_Least : OperatorDef :=
  OperatorDef_zero
  |> SetName OpNameLeast
  |> SetStreamingType StreamingOp
  |> AddInput "In" VARIADIC "T"
  |> AddOutput "Out" VARIADIC "T"
  |> SetParamTypeConstraint "T" statusPrivateOrSecretOrPublic.

Definition opDef_ArrowFunc : OperatorDef :=
  OperatorDef_zero
  |> SetName OpNameArrowFunc
  |> SetStreamingType StreamingOp
  |> AddInput "In" VARIADIC "T"
  |> AddAttribute FuncNameAttr
  |> AddOutput "Out" VARIADIC "T"
  |> SetParamTypeConstraint "T" statusPrivate.

Definition opDef_Replicate : OperatorDef :=
  OperatorDef_zero
  |> SetName OpNameReplicate
  |> SetStreamingType SinkOp
  |> AddInput "Left" VARIADIC "T"
  |> AddInput "Right" VARIADIC "T"
  |> AddOutput "LeftOut" VARIADIC "T"
  |> AddOutput "RightOut" VARIADIC "T"
  |> AddAttribute InputPartyCodesAttr
  |> SetParamTypeConstraint "T" statusPrivate.

(** [registerAllOpDef] appends the blocks in this order.  Three blocks range over
    a Go map, so the order inside them is unspecified; no lookup depends on it,
    because the names are distinct ([AllOpDef_names]). *)
Definition AllOpDef : list OperatorDef :=
  [opDef_RunSQL] ++
  [opDef_Publish] ++
  (opDef_Binary <$> BinaryOps) ++
  [opDef_MakePublic] ++
  [opDef_MakePrivate] ++
  [opDef_MakeShare] ++
  [opDef_Join] ++
  [opDef_FilterByIndex] ++
  [opDef_Copy] ++
  [opDef_Filter] ++
  [opDef_Constant] ++
  [opDef_DumpFile] ++
  [opDef_InsertTable] ++
  [opDef_In] ++
  [opDef_ReduceSum] ++
  [opDef_ReduceCount] ++
  [opDef_ReduceMax] ++
  [opDef_ReduceMin] ++
  [opDef_ReduceAvg] ++
  [opDef_ReducePercentileDisc] ++
  [opDef_Shape] ++
  [opDef_Unique] ++
  [opDef_Sort] ++
  [opDef_ObliviousGroupMark] ++
  (opDef_ObliviousGroupAgg <$> ObliviousGroupAggOps) ++
  [opDef_ObliviousPercentileDisc] ++
  [opDef_Shuffle] ++
  [opDef_BroadcastTo] ++
  (opDef_Unary <$> UnaryOps) ++
  [opDef_Concat] ++
  [opDef_Group] ++
  [opDef_If] ++
  [opDef_CaseWhen] ++
  (opDef_GroupAgg <$> GroupAggOps) ++
  [opDef_GroupPercentileDisc] ++
  [opDef_GroupHeSum] ++
  [opDef_Cast] ++
  [opDef_Limit] ++
  [opDef_IsNull] ++
  [opDef_IfNull] ++
  [opDef_Coalesce] ++
  [opDef_Bucket] ++
  (opDef_Trigonometric <$> TrigonometricOps) ++
  (opDef_RankWindow <$> RankWindowOps) ++
  [opDef_SecretJoin] ++
  (opDef_UnaryNumeric <$> UnaryNumericOps) ++
  [opDef_Greatest] ++
  [opDef_Least] ++
  [opDef_ArrowFunc] ++
  [opDef_Replicate].

Fixpoint FindOpDef_in (ops : list OperatorDef) (opType : string) : res OperatorDef :=
  match ops with
  | [] => Err "findOpDef: failed to find opType"
  | op :: ops => if decide (opType = Name op) then Ok op else FindOpDef_in ops opType
  end.

Definition FindOpDef (opType : string) : res OperatorDef := FindOpDef_in AllOpDef opType.

(** ** Well-formedness of the registry *)

(** Every parameter names a declared, non-empty status constraint; parameter names
    do not repeat; every default belongs to a declared attribute; no block left an
    error. *)
Definition op_wf (op : OperatorDef) : bool :=
  bool_decide (err op = None) &&
  bool_decide (NoDup (ParamName <$> InputParams op)) &&
  bool_decide (NoDup (ParamName <$> OutputParams op)) &&
  forallb (λ param,
      match ParamStatusConstraints op !! ParameterStatusConstraintName param with
      | Some (_ :: _) => true
      | _ => false
      end) (InputParams op ++ OutputParams op) &&
  forallb (λ '(k, _), bool_decide (k ∈ AttributeParams op))
    (map_to_list (DefaultAttributeValues op)).

Lemma AllOpDef_names : NoDup (Name <$> AllOpDef).
Proof. apply (bool_decide_unpack _). vm_compute. exact I. Qed.

Lemma AllOpDef_wf : forallb op_wf AllOpDef = true.
Proof. vm_compute. reflexivity. Qed.

Lemma FindOpDef_in_Ok ops opType op :
  NoDup (Name <$> ops) →
  FindOpDef_in ops opType = Ok op ↔ op ∈ ops ∧ Name op = opType.
Proof.
  induction ops as [|op' ops IH]; simpl; intros Hnd; [set_solver|].
  apply NoDup_cons in Hnd as [Hni Hnd]. case_decide as Hop.
  - split; [intros [= <-]; set_solver|]. intros [[->|Hin]%elem_of_cons Hname]; [done|].
    exfalso. apply Hni, list_elem_of_fmap. exists op. split; congruence.
  - rewrite IH by done. split; [set_solver|].
    intros [[->|Hin]%elem_of_cons Hname]; [congruence|done].
Qed.

Lemma FindOpDef_in_not_Panic ops opType : FindOpDef_in ops opType ≠ Panic.
Proof. induction ops as [|op ops IH]; simpl; [done|]. by case_decide. Qed.

#[global] Opaque AllOpDef.

Lemma FindOpDef_Ok opType op :
  FindOpDef opType = Ok op ↔ op ∈ AllOpDef ∧ Name op = opType.
Proof. exact (FindOpDef_in_Ok AllOpDef opType op AllOpDef_names). Qed.

Lemma FindOpDef_not_Panic opType : FindOpDef opType ≠ Panic.
Proof. apply FindOpDef_in_not_Panic. Qed.

Lemma AllOpDef_op_wf op : op ∈ AllOpDef → op_wf op.
Proof.
  pose proof AllOpDef_wf as Hwf. revert op. apply Forall_forall.
  apply forallb_True. by rewrite Hwf.
Qed.

(** ** Properties *)

(** lookup in the operator registry is exact: [FindOpDef] returns an operator
    for a name precisely when one of that name is registered, the operator is
    unique, and every registered operator has a well-formed signature (each
    parameter has a non-empty declared status constraint). *)
Theorem registry_lookup_exact opType op :
  (FindOpDef opType = Ok op ↔ op ∈ AllOpDef ∧ Name op = opType) ∧
  (op ∈ AllOpDef → op_wf op).
Proof. split; [apply FindOpDef_Ok|apply AllOpDef_op_wf]. Qed.
