(* ===== verification/Ccl.v ===== *)
(** * Column control lists (pkg/interpreter/ccl)

    A column control list (CCL) gives, per party, the level at which the party
    may see a column.  This file models the levels, the [CCL] object and its
    methods, the inference of the CCL of an expression from the CCLs of its
    columns, and the column tracer; it proves that inference never makes an
    expression more visible than the levels of its columns allow. *)
From S2P Require Import Prelude Sliceutil Expression Operator.

(** ** Levels (constant.go) *)
Inductive CCLLevel :=
| Unknown
| Plain
| Encrypt
| Join
| GroupBy
| Compare
| Aggregate
| AsJoinPayload
| Rank.

#[global] Instance CCLLevel_eq_dec : EqDecision CCLLevel.
Proof. solve_decision. Defined.

(** [CCLLevel.String]: the names of the protobuf enumeration. *)
Definition CCLLevel_String (level : CCLLevel) : string :=
  match level with
  | Unknown => "UNKNOWN"
  | Plain => "PLAINTEXT"
  | Encrypt => "ENCRYPTED_ONLY"
  | Join => "PLAINTEXT_AFTER_JOIN"
  | GroupBy => "PLAINTEXT_AFTER_GROUP_BY"
  | Compare => "PLAINTEXT_AFTER_COMPARE"
  | Aggregate => "PLAINTEXT_AFTER_AGGREGATE"
  | AsJoinPayload => "PLAINTEXT_AS_JOIN_PAYLOAD"
  | Rank => "REVEAL_RANK"
  end.

(** The three name tables; a Go map read of an absent key gives [false]. *)
Definition isCompareOpMap (opType : string) : bool :=
  bool_decide (opType ∈
    [OpNameGreater; OpNameGreaterEqual; OpNameLess; OpNameLessEqual; OpNameEqual;
     OpNameNotEqual]).

Definition isCompareAstFuncMap (name : string) : bool :=
  bool_decide (name ∈
    [ast.GT; ast.GE; ast.LT; ast.LE; ast.EQ; ast.NE; ast.GeoDist]).

Definition isRankWindowFuncMap (name : string) : bool :=
  bool_decide (name ∈
    [ast.WindowFuncRowNumber; ast.WindowFuncPercentRank; ast.WindowFuncRank]).

(** ** The CCL object (ccl.go) *)
Record CCL := mkCCL { partyLevels : gmap string CCLLevel }.

Definition NewCCL : CCL := mkCCL ∅.

(** [Clone] returns a new object with the same entries; as a value it is the
    identity (object identity is modelled where it matters, in BuildCcl.v). *)
Definition Clone (cc : CCL) : CCL := mkCCL (partyLevels cc).

Definition LevelFor (cc : CCL) (party : string) : CCLLevel :=
  match partyLevels cc !! party with
  | None => Unknown
  | Some vis => vis
  end.

Definition SetLevelForParty (cc : CCL) (party : string) (level : CCLLevel) : CCL :=
  mkCCL (<[party:=level]> (partyLevels cc)).

Definition IsVisibleFor (cc : CCL) (party : string) : bool :=
  match partyLevels cc !! party with
  | Some vis => bool_decide (vis = Plain)
  | None => false
  end.

Fixpoint IsVisibleForParties (cc : CCL) (parties : list string) : bool :=
  match parties with
  | [] => true
  | party :: parties =>
      match partyLevels cc !! party with
      | Some vis => if bool_decide (vis = Plain) then IsVisibleForParties cc parties else false
      | None => false
      end
  end.

Definition CreateAllPlainCCL (parties : list string) : CCL :=
  foldl (λ newCc p, SetLevelForParty newCc p Plain) NewCCL parties.

(** ** Combining levels (ccl_infer.go) *)
Definition LookUpVis (left right : CCLLevel) : CCLLevel :=
  if bool_decide (left = Encrypt ∨ right = Encrypt) then Encrypt
  else if bool_decide (left = Plain) then right
  else if bool_decide (right = Plain) then left
  else if bool_decide (left = right) then left
  else Unknown.

Definition inferCompareFuncCCL (left right : CCLLevel) : CCLLevel :=
  if bool_decide ((left = Compare ∨ left = Plain) ∧ (right = Compare ∨ right = Plain))
  then Plain else LookUpVis left right.

(** The function names are lower-case ASCII; [strings.ToLower] is modelled on
    ASCII letters. *)
Definition ToLower_ascii (a : Ascii.ascii) : Ascii.ascii :=
  let n := Ascii.N_of_ascii a in
  if bool_decide (65 ≤ n ∧ n ≤ 90)%N then Ascii.ascii_of_N (n + 32) else a.
Fixpoint ToLower (s : string) : string :=
  match s with
  | EmptyString => EmptyString
  | String a s => String (ToLower_ascii a) (ToLower s)
  end.

Definition IsRankWindowFunc (name : string) : bool := isRankWindowFuncMap (ToLower name).

(** [IsCompareOp] fails on anything that is not a scalar function. *)
Definition IsCompareOp (expr : Expr) : res bool :=
  match expr with
  | EScalarFunction f _ _ => Ok (isCompareAstFuncMap f)
  | _ => Err "assert failed, expected: *ScalarFunction"
  end.

Section ccl.
Context `{GoRange}.

Definition Parties (cc : CCL) : list string := (go_range (partyLevels cc)).*1.

Definition GetVisibleParties (cc : CCL) : list string :=
  Filter (Parties cc) (λ party, IsVisibleFor cc party).

Definition CCL_String (cc : CCL) : string :=
  let levelString :=
    foldl (λ acc '(p, level), acc +:+ p +:+ "->" +:+ CCLLevel_String level +:+ ",")
      "" (SortedMap (partyLevels cc)) in
  "{ccl level: " +:+ levelString +:+ "}".

Definition ExtractPartyCodes (inp : list CCL) : list string :=
  let partiesMap : gmap string bool :=
    foldl (λ m cc, foldl (λ m p, <[p:=true]> m) m (Parties cc)) ∅ inp in
  go_sort (go_range partiesMap).*1.

Definition UpdateMoreRestrictedCCLFrom (cc other : CCL) : CCL :=
  foldl (λ cc p, SetLevelForParty cc p (LookUpVis (LevelFor cc p) (LevelFor other p)))
    cc (ExtractPartyCodes [cc; other]).

Definition InferCompareFuncCCL (left right : CCL) : CCL :=
  foldl (λ left p,
      SetLevelForParty left p (inferCompareFuncCCL (LevelFor left p) (LevelFor right p)))
    left (ExtractPartyCodes [left; right]).

Definition InferScalarFuncCCLUsingArgCCL (sf : Expr) (argCCL : list CCL) : res CCL :=
  isCompare ← match IsCompareOp sf with
              | Err e => Err ("inferExpressionCCL: " +:+ e)
              | r => r
              end;
  match argCCL with
  | [] => Panic
  | resultCC :: argCCL =>
      mret (foldl (λ resultCC argCCL,
          if isCompare : bool then InferCompareFuncCCL resultCC argCCL
          else UpdateMoreRestrictedCCLFrom resultCC argCCL)
        (Clone resultCC) argCCL)
  end.

Fixpoint InferExpressionCCL (expr : Expr) (ccl : gmap Z CCL) : res CCL :=
  let parties := ExtractPartyCodes (go_range ccl).*2 in
  match expr with
  | EConstant _ _ =>
      if bool_decide (length parties = 0)
      then Err "inferExpressionCCL: empty input party codes"
      else Ok (CreateAllPlainCCL parties)
  | EColumn x =>
      match ccl !! UniqueID x with
      | None => Err "inferExpressionCCL: unable to find col"
      | Some cc => Ok (Clone cc)
      end
  | EScalarFunction f args _ =>
      if bool_decide (length args = 0) then
        if bool_decide (length parties = 0)
        then Err "inferExpressionCCL: empty input party codes"
        else Ok (CreateAllPlainCCL parties)
      else
        argCCL ← mapM (λ arg, InferExpressionCCL arg ccl) args;
        InferScalarFuncCCLUsingArgCCL expr argCCL
  | ECorrelatedColumn _ => Err "inferExpressionCCL: unsupported expression"
  end.

Definition InferBinaryOpOutputVisibility (opType : string) (left right : CCL) : res CCL :=
  let cc := Clone left in
  if isCompareOpMap opType then Ok (InferCompareFuncCCL cc right)
  else Ok (UpdateMoreRestrictedCCLFrom cc right).
End ccl.

(** ** The column tracer (column_tracer.go) *)
Record Context := mkContext {
  GroupByThreshold : N;
  PsiType : Z;
}.

Record ColumnTracer := mkColumnTracer {
  colToSourceParties : gmap Z (list string);
  rootArgMap : gmap Z Z;
}.

Definition NewColumnTracer : ColumnTracer := mkColumnTracer ∅ ∅.

Definition GetRootArg (t : ColumnTracer) (x : Z) : Z :=
  match rootArgMap t !! x with None => x | Some p => p end.

Definition SetRootArg (t : ColumnTracer) (x root : Z) : ColumnTracer :=
  mkColumnTracer (colToSourceParties t) (<[x:=root]> (rootArgMap t)).

(** Reading an absent key gives the nil slice. *)
Definition FindSourceParties (t : ColumnTracer) (uniqueID : Z) : list string :=
  default [] (colToSourceParties t !! uniqueID).

Definition AddSourceParties (t : ColumnTracer) (uniqueID : Z) (parties : list string)
    : ColumnTracer :=
  let m := match colToSourceParties t !! uniqueID with
           | None => <[uniqueID:=[]]> (colToSourceParties t)
           | Some _ => colToSourceParties t
           end in
  let m := <[uniqueID:=default [] (m !! uniqueID) ++ parties]> m in
  let m := <[uniqueID:=SliceDeDup (default [] (m !! uniqueID))]> m in
  mkColumnTracer m (rootArgMap t).

Definition SetSourcePartiesFromExpr (t : ColumnTracer) (uniqueID : Z) (expr : Expr)
    : ColumnTracer :=
  let dataSourceParties :=
    foldl (λ acc col, acc ++ FindSourceParties t (UniqueID col)) [] (ExtractColumns expr) in
  AddSourceParties t uniqueID dataSourceParties.

(** ** Lemmas on the CCL object *)
Lemma Clone_id cc : Clone cc = cc.
Proof. by destruct cc. Qed.

Lemma LevelFor_Set cc p q l :
  LevelFor (SetLevelForParty cc p l) q = if decide (p = q) then l else LevelFor cc q.
Proof.
  unfold LevelFor, SetLevelForParty. simpl. rewrite lookup_insert. by case_decide.
Qed.

Lemma IsVisibleFor_LevelFor cc p : IsVisibleFor cc p ↔ LevelFor cc p = Plain.
Proof.
  unfold IsVisibleFor, LevelFor.
  destruct (partyLevels cc !! p); [by rewrite bool_decide_spec|done].
Qed.

Lemma IsVisibleForParties_spec cc ps :
  IsVisibleForParties cc ps ↔ ∀ p, p ∈ ps → IsVisibleFor cc p.
Proof.
  induction ps as [|p ps IH]; simpl; [set_solver|].
  transitivity (IsVisibleFor cc p ∧ IsVisibleForParties cc ps); [|rewrite IH; set_solver].
  unfold IsVisibleFor. destruct (partyLevels cc !! p); [|naive_solver].
  case_bool_decide; naive_solver.
Qed.

Lemma LevelFor_CreateAllPlain ps p :
  LevelFor (CreateAllPlainCCL ps) p = if decide (p ∈ ps) then Plain else Unknown.
Proof.
  unfold CreateAllPlainCCL.
  assert (∀ cc, LevelFor (foldl (λ c q, SetLevelForParty c q Plain) cc ps) p =
    if decide (p ∈ ps) then Plain else LevelFor cc p) as ->; [|done].
  induction ps as [|q ps IH]; intros cc; simpl; [done|].
  rewrite IH, LevelFor_Set. repeat case_decide; set_solver.
Qed.

(** A loop that sets each party of a duplicate-free list from its old level. *)
Lemma LevelFor_foldl_Set (f : CCLLevel → string → CCLLevel) ps cc p :
  NoDup ps →
  LevelFor (foldl (λ c q, SetLevelForParty c q (f (LevelFor c q) q)) cc ps) p =
    if decide (p ∈ ps) then f (LevelFor cc p) p else LevelFor cc p.
Proof.
  intros Hnd. revert cc. induction Hnd as [|q ps Hq _ IH]; intros cc; simpl; [done|].
  rewrite IH, LevelFor_Set. repeat case_decide; set_solver.
Qed.

Section ccl_facts.
Context `{GoRange}.

Lemma elem_of_Parties cc p : p ∈ Parties cc ↔ is_Some (partyLevels cc !! p).
Proof. apply elem_of_keys_go_range. Qed.

Lemma NoDup_Parties cc : NoDup (Parties cc).
Proof. apply NoDup_fst_go_range. Qed.

Lemma not_elem_of_Parties cc p : p ∉ Parties cc → LevelFor cc p = Unknown.
Proof.
  rewrite elem_of_Parties. unfold LevelFor.
  destruct (partyLevels cc !! p) eqn:E; [|done]. intros []. eauto.
Qed.

Lemma partiesMap_lookup (inp : list CCL) (m : gmap string bool) p :
  is_Some (foldl (λ m cc, foldl (λ m p, <[p:=true]> m) m (Parties cc)) m inp !! p) ↔
  is_Some (m !! p) ∨ ∃ cc, cc ∈ inp ∧ p ∈ Parties cc.
Proof.
  assert (∀ l (m : gmap string bool),
    is_Some (foldl (λ m p, <[p:=true]> m) m l !! p) ↔ is_Some (m !! p) ∨ p ∈ l) as Hl.
  { induction l as [|q l IH]; intros m'; simpl; [set_solver|].
    rewrite IH, lookup_insert_is_Some'. set_solver. }
  revert m. induction inp as [|cc inp IH]; intros m; simpl; [set_solver|].
  rewrite IH, Hl. set_solver.
Qed.

Lemma elem_of_ExtractPartyCodes inp p :
  p ∈ ExtractPartyCodes inp ↔ ∃ cc, cc ∈ inp ∧ p ∈ Parties cc.
Proof.
  unfold ExtractPartyCodes.
  rewrite elem_of_go_sort, elem_of_keys_go_range, partiesMap_lookup.
  rewrite lookup_empty. split; [|auto]. intros [[? [=]]|?]; done.
Qed.

Lemma not_elem_of_ExtractPartyCodes inp p cc :
  p ∉ ExtractPartyCodes inp → cc ∈ inp → LevelFor cc p = Unknown.
Proof.
  rewrite elem_of_ExtractPartyCodes. intros Hp Hcc. apply not_elem_of_Parties.
  intros ?. apply Hp. eauto.
Qed.

Lemma NoDup_ExtractPartyCodes inp : NoDup (ExtractPartyCodes inp).
Proof. unfold ExtractPartyCodes. rewrite go_sort_perm. apply NoDup_fst_go_range. Qed.

Lemma sorted_ExtractPartyCodes inp : StronglySorted cmp_le (ExtractPartyCodes inp).
Proof. apply go_sort_sorted. Qed.

Lemma LevelFor_UpdateMoreRestricted cc other p :
  LevelFor (UpdateMoreRestrictedCCLFrom cc other) p =
    LookUpVis (LevelFor cc p) (LevelFor other p).
Proof.
  unfold UpdateMoreRestrictedCCLFrom.
  rewrite (LevelFor_foldl_Set (λ l q, LookUpVis l (LevelFor other q)))
    by apply NoDup_ExtractPartyCodes.
  case_decide as Hp; [done|].
  by rewrite !(not_elem_of_ExtractPartyCodes _ _ _ Hp) by set_solver.
Qed.

Lemma LevelFor_InferCompare left right p :
  LevelFor (InferCompareFuncCCL left right) p =
    inferCompareFuncCCL (LevelFor left p) (LevelFor right p).
Proof.
  unfold InferCompareFuncCCL.
  rewrite (LevelFor_foldl_Set (λ l q, inferCompareFuncCCL l (LevelFor right q)))
    by apply NoDup_ExtractPartyCodes.
  case_decide as Hp; [done|].
  by rewrite !(not_elem_of_ExtractPartyCodes _ _ _ Hp) by set_solver.
Qed.
End ccl_facts.

(** ** The lattice of levels

    [more_restricted a b]: level [a] gives a party no more than level [b].
    [Encrypt] is the bottom, [Plain] the top, [Unknown] sits below the
    incomparable conditional levels. *)
Definition more_restricted (a b : CCLLevel) : bool :=
  bool_decide (a = Encrypt ∨ b = Plain ∨ a = b ∨ (a = Unknown ∧ b ≠ Encrypt)).

(** Decide a closed statement on levels by running through all of them. *)
Ltac levels :=
  repeat match goal with l : CCLLevel |- _ => destruct l end;
  vm_compute; naive_solver.

#[global] Instance more_restricted_po : PartialOrder more_restricted.
Proof.
  split; [split|].
  - intros a. levels.
  - intros a b c. levels.
  - intros a b. levels.
Qed.

Lemma LookUpVis_Plain a b : LookUpVis a b = Plain ↔ a = Plain ∧ b = Plain.
Proof. levels. Qed.
Lemma LookUpVis_Encrypt a b : LookUpVis a b = Encrypt ↔ a = Encrypt ∨ b = Encrypt.
Proof. levels. Qed.
Lemma LookUpVis_comm a b : LookUpVis a b = LookUpVis b a.
Proof. levels. Qed.
Lemma LookUpVis_assoc a b c : LookUpVis a (LookUpVis b c) = LookUpVis (LookUpVis a b) c.
Proof. levels. Qed.
Lemma LookUpVis_idemp a : LookUpVis a a = a.
Proof. levels. Qed.
Lemma inferCompare_Plain a b :
  inferCompareFuncCCL a b = Plain →
  (a = Plain ∨ a = Compare) ∧ (b = Plain ∨ b = Compare).
Proof. levels. Qed.
Lemma inferCompare_Encrypt a b :
  inferCompareFuncCCL a b = Encrypt ↔ a = Encrypt ∨ b = Encrypt.
Proof. levels. Qed.

(** ** The level of an expression for one party

    The specification of inference: the level of an expression for one party is
    computed from the levels of its columns for that party alone. *)
Definition combine_levels (isCompare : bool) : CCLLevel → CCLLevel → CCLLevel :=
  if isCompare then inferCompareFuncCCL else LookUpVis.

Fixpoint expr_level (lv : Z → CCLLevel) (e : Expr) : CCLLevel :=
  match e with
  | EConstant _ _ => Plain
  | EColumn c => lv (UniqueID c)
  | EScalarFunction f args _ =>
      match expr_level lv <$> args with
      | [] => Plain
      | l :: ls => foldl (combine_levels (isCompareAstFuncMap f)) l ls
      end
  | ECorrelatedColumn _ => Unknown
  end.

(** No comparison function occurs in the expression. *)
Fixpoint no_compare (e : Expr) : bool :=
  match e with
  | EScalarFunction f args _ => negb (isCompareAstFuncMap f) && forallb no_compare args
  | _ => true
  end.

Definition has_const (e : Expr) : bool :=
  match e with
  | EConstant _ _ => true
  | EScalarFunction _ args _ => bool_decide (args = [])
  | _ => false
  end.

Lemma combine_levels_visible b l x :
  combine_levels b l x = Plain ∨ combine_levels b l x = Compare →
  (l = Plain ∨ l = Compare) ∧ (x = Plain ∨ x = Compare).
Proof. destruct b; levels. Qed.

Lemma combine_levels_Encrypt b l x :
  combine_levels b l x = Encrypt ↔ l = Encrypt ∨ x = Encrypt.
Proof. destruct b; levels. Qed.

Lemma foldl_combine_visible b l ls :
  foldl (combine_levels b) l ls = Plain ∨ foldl (combine_levels b) l ls = Compare →
  Forall (λ x, x = Plain ∨ x = Compare) (l :: ls).
Proof.
  revert l. induction ls as [|x ls IH]; intros l; simpl; intros Hp;
    [by apply Forall_singleton|].
  apply IH in Hp. inversion_clear Hp as [|?? Hhd Htl].
  apply combine_levels_visible in Hhd as [??]. by do 2 (apply Forall_cons_2; [done|]).
Qed.

Lemma foldl_LookUpVis_Plain l ls :
  foldl LookUpVis l ls = Plain ↔ Forall (eq Plain) (l :: ls).
Proof.
  revert l. induction ls as [|x ls IH]; intros l; simpl.
  - rewrite Forall_singleton. naive_solver.
  - rewrite IH, !Forall_cons. pose proof (LookUpVis_Plain l x). naive_solver.
Qed.

Lemma foldl_combine_Encrypt b l ls :
  foldl (combine_levels b) l ls = Encrypt ↔ Encrypt ∈ l :: ls.
Proof.
  revert l. induction ls as [|x ls IH]; intros l; simpl; [set_solver|].
  rewrite IH, !elem_of_cons. pose proof (combine_levels_Encrypt b l x). naive_solver.
Qed.

(** ** Inference computes the specification *)
Section infer.
Context `{GoRange}.
Implicit Types ccl : gmap Z CCL.

(** The level of a column for a party, as the environment gives it. *)
Definition env_level ccl (p : string) (id : Z) : CCLLevel :=
  from_option (λ cc, LevelFor cc p) Unknown (ccl !! id).

(** The parties that occur in the environment. *)
Definition env_parties ccl : list string := ExtractPartyCodes (go_range ccl).*2.

(** When inference answers: every column has an entry, correlated columns do not
    occur, and a constant needs at least one party. *)
Fixpoint inferable ccl (e : Expr) : bool :=
  match e with
  | EConstant _ _ => bool_decide (env_parties ccl ≠ [])
  | EColumn c => bool_decide (is_Some (ccl !! UniqueID c))
  | EScalarFunction _ args _ =>
      if bool_decide (args = []) then bool_decide (env_parties ccl ≠ [])
      else forallb (inferable ccl) args
  | ECorrelatedColumn _ => false
  end.

Lemma elem_of_env_parties ccl id cc p l :
  ccl !! id = Some cc → LevelFor cc p = l → l ≠ Unknown → p ∈ env_parties ccl.
Proof.
  intros Hcc Hl Hn. apply elem_of_ExtractPartyCodes. exists cc. split.
  - apply elem_of_vals_go_range. eauto.
  - apply dec_stable. intros ?%not_elem_of_Parties. congruence.
Qed.

Lemma infer_fun f args ret ccl cc :
  args ≠ [] →
  InferExpressionCCL (EScalarFunction f args ret) ccl = Ok cc ↔
  ∃ cc0 ccs, Forall2 (λ arg c, InferExpressionCCL arg ccl = Ok c) args (cc0 :: ccs) ∧
    cc = foldl (λ a b, if isCompareAstFuncMap f then InferCompareFuncCCL a b
                       else UpdateMoreRestrictedCCLFrom a b) (Clone cc0) ccs.
Proof.
  intros Hne. simpl. rewrite bool_decide_eq_false_2 by by destruct args.
  rewrite res_bind_Ok. setoid_rewrite mapM_res_Ok. split.
  - intros ([|cc0 ccs] & Hargs & Hcc); [done|].
    exists cc0, ccs. by injection Hcc as <-.
  - intros (cc0 & ccs & Hargs & ->). eauto.
Qed.

Lemma LevelFor_foldl_infer b cc ccs p :
  LevelFor (foldl (λ a c, if b : bool then InferCompareFuncCCL a c
                          else UpdateMoreRestrictedCCLFrom a c) cc ccs) p =
  foldl (combine_levels b) (LevelFor cc p) ((λ c, LevelFor c p) <$> ccs).
Proof.
  revert cc. induction ccs as [|c ccs IH]; intros cc; simpl; [done|].
  rewrite IH. f_equal. destruct b; simpl;
    [apply LevelFor_InferCompare|apply LevelFor_UpdateMoreRestricted].
Qed.

Lemma infer_level e ccl cc p :
  InferExpressionCCL e ccl = Ok cc → p ∈ env_parties ccl →
  LevelFor cc p = expr_level (env_level ccl p) e.
Proof.
  intros Hinf Hp. revert cc Hinf.
  assert (LevelFor (CreateAllPlainCCL (env_parties ccl)) p = Plain) as Hplain.
  { rewrite LevelFor_CreateAllPlain. by case_decide. }
  induction e as [v ret|c|f args ret IH|c] using Expr_nested_ind; intros cc Hinf.
  - simpl in Hinf. case_bool_decide; simplify_eq/=. done.
  - simpl in *. unfold env_level. destruct (ccl !! UniqueID c); by simplify_eq/=.
  - destruct (decide (args = [])) as [->|Hne].
    { simpl in Hinf. case_bool_decide; by simplify_eq/=. }
    apply infer_fun in Hinf as (cc0 & ccs & Hargs & ->); [|done].
    rewrite LevelFor_foldl_infer. simpl.
    assert (expr_level (env_level ccl p) <$> args = LevelFor cc0 p :: ((λ c, LevelFor c p) <$> ccs))
      as ->; [|done].
    change (_ :: _) with ((λ c, LevelFor c p) <$> cc0 :: ccs).
    clear Hne. induction Hargs as [|a c args' ccs' Ha _ IHargs]; simpl; [done|].
    inversion_clear IH as [|?? IHa IHrest].
    f_equal; [symmetry; by apply IHa|by apply IHargs].
  - done.
Qed.

Lemma infer_level_outside e ccl cc p :
  InferExpressionCCL e ccl = Ok cc → p ∉ env_parties ccl → LevelFor cc p = Unknown.
Proof.
  intros Hinf Hp. revert cc Hinf.
  assert (LevelFor (CreateAllPlainCCL (env_parties ccl)) p = Unknown) as Hout.
  { rewrite LevelFor_CreateAllPlain. by case_decide. }
  induction e as [v ret|c|f args ret IH|c] using Expr_nested_ind; intros cc Hinf.
  - simpl in Hinf. case_bool_decide; by simplify_eq/=.
  - simpl in Hinf. destruct (ccl !! UniqueID c) as [cc'|] eqn:Hc; simplify_eq/=.
    rewrite Clone_id. apply (not_elem_of_ExtractPartyCodes _ _ _ Hp).
    apply elem_of_vals_go_range. by exists (UniqueID c).
  - destruct (decide (args = [])) as [->|Hne].
    { simpl in Hinf. case_bool_decide; by simplify_eq/=. }
    apply infer_fun in Hinf as (cc0 & ccs & Hargs & ->); [|done].
    rewrite LevelFor_foldl_infer.
    assert (Forall (λ c, LevelFor c p = Unknown) (cc0 :: ccs)) as Hall.
    { clear Hne. induction Hargs as [|a c args' ccs' Ha _ IHargs]; [constructor|].
      inversion_clear IH as [|?? IHa IHrest]. constructor; auto. }
    inversion_clear Hall as [|?? Hcc0 Hccs]. rewrite Clone_id, Hcc0. clear Hargs.
    induction Hccs as [|c ccs Hc _ IHc]; simpl; [done|]. rewrite Hc.
    by destruct (isCompareAstFuncMap f).
  - done.
Qed.

Lemma infer_columns e ccl cc c :
  InferExpressionCCL e ccl = Ok cc → c ∈ expr_cols e → is_Some (ccl !! UniqueID c).
Proof.
  revert cc. induction e as [v ret|c'|f args ret IH|c'] using Expr_nested_ind; intros cc Hinf Hc;
    try (simpl in Hc; set_solver).
  - apply list_elem_of_singleton in Hc as ->. simpl in Hinf.
    by destruct (ccl !! UniqueID c').
  - destruct (decide (args = [])) as [->|Hne]; [set_solver|].
    apply infer_fun in Hinf as (cc0 & ccs & Hargs & _); [|done].
    apply (elem_of_fun_cols _ f _ ret) in Hc as (a & Ha & Hc).
    apply list_elem_of_lookup in Ha as [i Hi].
    destruct (Forall2_lookup_l _ _ _ _ _ Hargs Hi) as (ca & _ & Hca).
    rewrite Forall_lookup in IH. eauto.
Qed.

Lemma infer_outcome e ccl :
  match InferExpressionCCL e ccl with
  | Ok _ => inferable ccl e = true
  | Err _ => inferable ccl e = false
  | Panic => False
  end.
Proof.
  induction e as [v ret|c|f args ret IH|c] using Expr_nested_ind; simpl; [| | |done].
  - fold (env_parties ccl). destruct (env_parties ccl); done.
  - destruct (ccl !! UniqueID c); [done|]. apply bool_decide_eq_false_2. by intros [].
  - fold (env_parties ccl). destruct args as [|a args]; [by destruct (env_parties ccl)|].
    simpl in *. 
    assert (match mapM (λ arg, InferExpressionCCL arg ccl) (a :: args) with
            | Ok ccs => length ccs = length (a :: args) ∧ forallb (inferable ccl) (a :: args) = true
            | Err _ => forallb (inferable ccl) (a :: args) = false
            | Panic => False
            end) as Hm.
    { induction IH as [|e es He _ IHes]; [done|]. simpl.
      destruct (InferExpressionCCL e ccl); simpl; [|by rewrite He|done]. rewrite He. simpl.
      destruct (mapM _ es) as [ccs| |]; simpl in *; [|done..]. naive_solver. }
    simpl in Hm. destruct (InferExpressionCCL a ccl); simpl in *; [|done..].
    destruct (mapM _ args) as [ccs| |]; simpl in *; [|done..]. naive_solver.
Qed.

Lemma expr_level_visible lv e :
  expr_level lv e = Plain ∨ expr_level lv e = Compare →
  ∀ c, c ∈ expr_cols e → lv (UniqueID c) = Plain ∨ lv (UniqueID c) = Compare.
Proof.
  induction e as [v ret|c'|f args ret IH|c'] using Expr_nested_ind; simpl; intros Hl c Hc;
    [set_solver|by apply list_elem_of_singleton in Hc as ->| |set_solver].
  apply (elem_of_fun_cols _ f _ ret) in Hc as (a & Ha & Hc).
  rewrite Forall_forall in IH. apply (IH a Ha); [|done].
  destruct (expr_level lv <$> args) as [|x xs] eqn:Hargs;
    [destruct args; [set_solver|done]|].
  apply foldl_combine_visible in Hl. rewrite <- Hargs, Forall_fmap, Forall_forall in Hl.
  by apply Hl.
Qed.

Lemma expr_level_plain lv e :
  no_compare e → expr_level lv e = Plain → ∀ c, c ∈ expr_cols e → lv (UniqueID c) = Plain.
Proof.
  induction e as [v ret|c'|f args ret IH|c'] using Expr_nested_ind; simpl; intros Hnc Hl c Hc;
    [set_solver|by apply list_elem_of_singleton in Hc as ->| |set_solver].
  apply andb_prop_elim in Hnc as [Hf Hargs'].
  apply (elem_of_fun_cols _ f _ ret) in Hc as (a & Ha & Hc).
  rewrite Forall_forall in IH. apply (IH a Ha); [| |done].
  { apply forallb_True in Hargs'. rewrite Forall_forall in Hargs'. by apply Hargs'. }
  destruct (isCompareAstFuncMap f); [done|].
  destruct (expr_level lv <$> args) as [|x xs] eqn:Hargs;
    [destruct args; [set_solver|done]|].
  apply foldl_LookUpVis_Plain in Hl. rewrite <- Hargs, Forall_fmap, Forall_forall in Hl.
  symmetry. by apply Hl.
Qed.

Lemma expr_level_encrypt lv e c :
  c ∈ expr_cols e → lv (UniqueID c) = Encrypt → expr_level lv e = Encrypt.
Proof.
  induction e as [v ret|c'|f args ret IH|c'] using Expr_nested_ind; simpl; intros Hc Hl;
    [set_solver|by apply list_elem_of_singleton in Hc as ->| |set_solver].
  apply (elem_of_fun_cols _ f _ ret) in Hc as (a & Ha & Hc).
  rewrite Forall_forall in IH. specialize (IH a Ha Hc Hl).
  assert (Encrypt ∈ expr_level lv <$> args) as Hin.
  { apply list_elem_of_fmap. by exists a. }
  destruct (expr_level lv <$> args) as [|x xs]; [set_solver|].
  by apply foldl_combine_Encrypt.
Qed.
End infer.

(** ** Properties *)
Section ccl_properties.
Context `{GoRange}.

(** [LookUpVis] combines two levels into the greatest level that is at most
    as permissive as both: it is the meet of the restriction order, so combining
    columns never widens what a party may see and loses no more than needed. *)
Theorem LookUpVis_meet a b :
  more_restricted (LookUpVis a b) a ∧ more_restricted (LookUpVis a b) b ∧
  ∀ c, more_restricted c a ∧ more_restricted c b → more_restricted c (LookUpVis a b).
Proof. split; [|split]; [| |intros c]; levels. Qed.

(** [UpdateMoreRestrictedCCLFrom] acts on every party by the meet, parties
    without an entry included, whatever the order in which Go ranges over the
    two maps; in particular the result is visible for a party exactly when both
    operands are. *)
Theorem update_more_restricted_pointwise cc other p :
  LevelFor (UpdateMoreRestrictedCCLFrom cc other) p =
    LookUpVis (LevelFor cc p) (LevelFor other p) ∧
  (IsVisibleFor (UpdateMoreRestrictedCCLFrom cc other) p ↔
    IsVisibleFor cc p ∧ IsVisibleFor other p).
Proof.
  rewrite !IsVisibleFor_LevelFor, LevelFor_UpdateMoreRestricted.
  split; [done|apply LookUpVis_Plain].
Qed.

(** C28: [InferExpressionCCL] implements the per-party specification: for every
    party that occurs in the environment, the inferred level is the level the
    specification computes from the column levels of that party alone. *)
Theorem infer_expression_refines e ccl cc p :
  InferExpressionCCL e ccl = Ok cc → p ∈ env_parties ccl →
  LevelFor cc p = expr_level (env_level ccl p) e.
Proof. apply infer_level. Qed.

(** C19: an inferred CCL that is visible for a party only mentions columns the
    party may see in plain text or after a comparison, and only plain-text
    columns when no comparison occurs in the expression; a column encrypted for
    the party makes the whole expression encrypted. *)
Theorem infer_expression_sound e ccl cc p c :
  InferExpressionCCL e ccl = Ok cc → c ∈ ExtractColumns e →
  (IsVisibleFor cc p →
    (env_level ccl p (UniqueID c) = Plain ∨ env_level ccl p (UniqueID c) = Compare) ∧
    (no_compare e → env_level ccl p (UniqueID c) = Plain)) ∧
  (env_level ccl p (UniqueID c) = Encrypt → LevelFor cc p = Encrypt).
Proof.
  rewrite ExtractColumns_cols, IsVisibleFor_LevelFor. intros Hinf Hc.
  destruct (decide (p ∈ env_parties ccl)) as [Hp|Hp].
  - rewrite (infer_level _ _ _ _ Hinf Hp).
    split; [split|]; eauto using expr_level_visible, expr_level_plain, expr_level_encrypt.
  - rewrite (infer_level_outside _ _ _ _ Hinf Hp). split; [done|]. intros Henc.
    destruct (infer_columns _ _ _ _ Hinf Hc) as [cc' Hcc'].
    unfold env_level in Henc. rewrite Hcc' in Henc. simpl in Henc.
    exfalso. by eapply Hp, elem_of_env_parties.
Qed.

(** [InferExpressionCCL] never panics, and it returns a CCL exactly for the
    expressions whose columns all have an entry, that contain no correlated
    column, and whose constants have a party to be visible to. *)
Theorem infer_expression_total e ccl :
  match InferExpressionCCL e ccl with
  | Ok _ => inferable ccl e = true
  | Err _ => inferable ccl e = false
  | Panic => False
  end.
Proof. apply infer_outcome. Qed.
End ccl_properties.

(** ** Witnesses

    [ta.age > tb.age]: both columns may be compared by the other party. *)
#[local] Existing Instance go_range_list.
Definition ex_column (id : Z) : Column := mkColumn (mkFieldType 8 0) id "" false.
Definition ex_env : gmap Z CCL :=
  {[ 1%Z := mkCCL {[ "alice" := Plain; "bob" := Compare ]};
     2%Z := mkCCL {[ "alice" := Compare; "bob" := Plain ]} ]}.
Definition ex_greater : Expr :=
  EScalarFunction ast.GT [EColumn (ex_column 1); EColumn (ex_column 2)] (mkFieldType 8 0).
Definition ex_greater_ccl : CCL := mkCCL {[ "alice" := Plain; "bob" := Plain ]}.

Lemma infer_expression_refines_witness :
  LevelFor ex_greater_ccl "bob" = expr_level (env_level ex_env "bob") ex_greater.
Proof.
  apply (infer_expression_refines ex_greater ex_env ex_greater_ccl "bob").
  - vm_compute. reflexivity.
  - apply (bool_decide_unpack _). vm_compute. exact I.
Defined.

Lemma infer_expression_sound_witness :
  env_level ex_env "bob" 1 = Plain ∨ env_level ex_env "bob" 1 = Compare.
Proof.
  apply (infer_expression_sound ex_greater ex_env ex_greater_ccl "bob" (ex_column 1)).
  - vm_compute. reflexivity.
  - vm_compute. left.
  - vm_compute. exact I.
Defined.
