(* ===== verification/Graph.v ===== *)
(** * Data of the execution graph (pkg/interpreter/graph)

    Tensors and their wire form (tensor.go), attributes (attribute.go),
    execution nodes (execution_node.go), the participants of a query
    (engine_info.go) and the tables they own (planner/core/rewrite.go), and the
    data type predicates of pkg/util/type.

    A tensor is named by its ID: the graph builder hands out consecutive IDs and
    keeps every tensor in a slice, so a [*Tensor] is an index of that slice and
    nodes that share a tensor share the index. *)
From Stdlib Require Import Ascii SpecFloat.
From S2P Require Import Prelude Sliceutil Operator Ccl.

(** ** strings.Split and strings.Join for a one byte separator *)
Fixpoint Split (sep : Ascii.ascii) (s : string) : list string :=
  match s with
  | EmptyString => [""]
  | String c s' =>
      if Ascii.eqb c sep then "" :: Split sep s'
      else match Split sep s' with
           | [] => [String c ""]
           | x :: xs => String c x :: xs
           end
  end.

Fixpoint Join (ss : list string) (sep : string) : string :=
  match ss with
  | [] => ""
  | [s] => s
  | s :: ss' => s +:+ sep +:+ Join ss' sep
  end.

(** Conversion of an [int] to an [int32]. *)
Definition to_int32 (v : Z) : Z := (v + 2 ^ 31) `mod` 2 ^ 32 - 2 ^ 31.

(** ** Data types (pkg/util/type/util.go) *)
Definition IsIntegerType (dtype : PrimitiveDataType) : bool :=
  match dtype with INT8 | INT16 | INT32 | INT64 => true | _ => false end.
Definition IsFloatType (dtype : PrimitiveDataType) : bool :=
  match dtype with FLOAT32 | FLOAT64 => true | _ => false end.
Definition IsNumericDtype (dtype : PrimitiveDataType) : bool :=
  match dtype with
  | INT8 | INT16 | INT32 | INT64 | FLOAT32 | FLOAT64 => true
  | _ => false
  end.
Definition IsTimeType (dtype : PrimitiveDataType) : bool :=
  bool_decide (dtype = TIMESTAMP) || bool_decide (dtype = DATETIME).

(** A missing key of [dataTypeIndexMap] reads as zero. *)
Definition dataTypeIndexMap (dtype : PrimitiveDataType) : nat :=
  match dtype with
  | INT8 => 0 | INT16 => 1 | INT32 => 2 | INT64 => 3
  | FLOAT32 => 4 | FLOAT64 => 5
  | _ => 0
  end.

Definition GetWiderType (dtype1 dtype2 : PrimitiveDataType) : res PrimitiveDataType :=
  if negb (IsNumericDtype dtype1) then Err "is not numeric type"
  else if negb (IsNumericDtype dtype2) then Err "is not numeric type"
  else if IsIntegerType dtype1 && IsIntegerType dtype2 then
    if bool_decide (dataTypeIndexMap dtype2 < dataTypeIndexMap dtype1)%nat
    then Ok dtype1 else Ok dtype2
  else if IsFloatType dtype1 && IsFloatType dtype2 then
    if bool_decide (dataTypeIndexMap dtype2 < dataTypeIndexMap dtype1)%nat
    then Ok dtype1 else Ok dtype2
  else if bool_decide (dtype1 = FLOAT64) || bool_decide (dtype2 = FLOAT64) then Ok FLOAT64
  else if bool_decide (dtype1 = INT64) || bool_decide (dtype2 = INT64) then Ok FLOAT64
  else Ok FLOAT32.

(** ** Tensors (tensor.go) *)
Record Tensor := mkTensor {
  ID : nat;
  tensor_Name : string;
  tensor_Option : TensorOptions;
  DType : PrimitiveDataType;
  tensor_status : TensorStatus;
  Shape : list Z;
  StringS : option (list string);
  FloatS : option (list spec_float);
  DoubleS : option (list spec_float);
  Int32S : option (list Z);
  Int64S : option (list Z);
  BooleanS : option (list bool);
  CC : CCL;
  SkipDTypeCheck : bool;
  OwnerPartyCode : string;
  SecretStringOwners : list string;
  IsConstScalar : bool;
  RefNum : Z;
}.

(** [&Tensor{}]; attribute values are built from it and never carry a CCL. *)
Definition Tensor_zero : Tensor :=
  mkTensor 0 "" VALUE UNDEFINED TENSORSTATUS_UNKNOWN [] None None None None None None
    NewCCL false "" [] false 0.

#[global] Instance Tensor_inhabited : Inhabited Tensor := populate Tensor_zero.

Definition SetStatus (v : TensorStatus) (t : Tensor) : Tensor :=
  mkTensor (ID t) (tensor_Name t) (tensor_Option t) (DType t) v (Shape t) (StringS
    t) (FloatS t) (DoubleS t) (Int32S t) (Int64S t) (BooleanS t) (CC t)
    (SkipDTypeCheck t) (OwnerPartyCode t) (SecretStringOwners t) (IsConstScalar t)
    (RefNum t).
Definition set_Name (v : string) (t : Tensor) : Tensor :=
  mkTensor (ID t) v (tensor_Option t) (DType t) (tensor_status t) (Shape t) (StringS
    t) (FloatS t) (DoubleS t) (Int32S t) (Int64S t) (BooleanS t) (CC t)
    (SkipDTypeCheck t) (OwnerPartyCode t) (SecretStringOwners t) (IsConstScalar t)
    (RefNum t).
Definition set_Option (v : TensorOptions) (t : Tensor) : Tensor :=
  mkTensor (ID t) (tensor_Name t) v (DType t) (tensor_status t) (Shape t) (StringS
    t) (FloatS t) (DoubleS t) (Int32S t) (Int64S t) (BooleanS t) (CC t)
    (SkipDTypeCheck t) (OwnerPartyCode t) (SecretStringOwners t) (IsConstScalar t)
    (RefNum t).
Definition set_DType (v : PrimitiveDataType) (t : Tensor) : Tensor :=
  mkTensor (ID t) (tensor_Name t) (tensor_Option t) v (tensor_status t) (Shape t)
    (StringS t) (FloatS t) (DoubleS t) (Int32S t) (Int64S t) (BooleanS t) (CC t)
    (SkipDTypeCheck t) (OwnerPartyCode t) (SecretStringOwners t) (IsConstScalar t)
    (RefNum t).
Definition set_CC (v : CCL) (t : Tensor) : Tensor :=
  mkTensor (ID t) (tensor_Name t) (tensor_Option t) (DType t) (tensor_status t)
    (Shape t) (StringS t) (FloatS t) (DoubleS t) (Int32S t) (Int64S t) (BooleanS t)
    v (SkipDTypeCheck t) (OwnerPartyCode t) (SecretStringOwners t) (IsConstScalar t)
    (RefNum t).
Definition set_SkipDTypeCheck (v : bool) (t : Tensor) : Tensor :=
  mkTensor (ID t) (tensor_Name t) (tensor_Option t) (DType t) (tensor_status t)
    (Shape t) (StringS t) (FloatS t) (DoubleS t) (Int32S t) (Int64S t) (BooleanS t)
    (CC t) v (OwnerPartyCode t) (SecretStringOwners t) (IsConstScalar t) (RefNum t).
Definition set_OwnerPartyCode (v : string) (t : Tensor) : Tensor :=
  mkTensor (ID t) (tensor_Name t) (tensor_Option t) (DType t) (tensor_status t)
    (Shape t) (StringS t) (FloatS t) (DoubleS t) (Int32S t) (Int64S t) (BooleanS t)
    (CC t) (SkipDTypeCheck t) v (SecretStringOwners t) (IsConstScalar t) (RefNum t).
Definition set_SecretStringOwners (v : list string) (t : Tensor) : Tensor :=
  mkTensor (ID t) (tensor_Name t) (tensor_Option t) (DType t) (tensor_status t)
    (Shape t) (StringS t) (FloatS t) (DoubleS t) (Int32S t) (Int64S t) (BooleanS t)
    (CC t) (SkipDTypeCheck t) (OwnerPartyCode t) v (IsConstScalar t) (RefNum t).
Definition set_IsConstScalar (v : bool) (t : Tensor) : Tensor :=
  mkTensor (ID t) (tensor_Name t) (tensor_Option t) (DType t) (tensor_status t)
    (Shape t) (StringS t) (FloatS t) (DoubleS t) (Int32S t) (Int64S t) (BooleanS t)
    (CC t) (SkipDTypeCheck t) (OwnerPartyCode t) (SecretStringOwners t) v (RefNum t).
Definition set_RefNum (v : Z) (t : Tensor) : Tensor :=
  mkTensor (ID t) (tensor_Name t) (tensor_Option t) (DType t) (tensor_status t)
    (Shape t) (StringS t) (FloatS t) (DoubleS t) (Int32S t) (Int64S t) (BooleanS t)
    (CC t) (SkipDTypeCheck t) (OwnerPartyCode t) (SecretStringOwners t)
    (IsConstScalar t) v.

Definition set_StringS (v : option (list string)) (t : Tensor) : Tensor :=
  mkTensor (ID t) (tensor_Name t) (tensor_Option t) (DType t) (tensor_status t)
    (Shape t) v (FloatS t) (DoubleS t) (Int32S t) (Int64S t) (BooleanS t) (CC t)
    (SkipDTypeCheck t) (OwnerPartyCode t) (SecretStringOwners t) (IsConstScalar t)
    (RefNum t).

Definition NewTensor (id : nat) (name : string) : Tensor :=
  mkTensor id name VALUE UNDEFINED TENSORSTATUS_UNKNOWN [] None None None None None None
    NewCCL false "" [] false 0.

Definition UniqueName (t : Tensor) : string := tensor_Name t +:+ "." +:+ pretty (ID t).

(** [ss[:len(ss)-1]]: [strings.Split] never returns an empty slice. *)
Definition TensorNameFromUniqueName (uniqName : string) : string :=
  let ss := Split "."%char uniqName in
  Join (take (length ss - 1) ss) ".".

Definition shortName (name : string) : string := List.last (Split "."%char name) "".

Definition ShortStatus (status : string) : string := List.last (Split "_"%char status) "".

Definition newTensorFromProto (pb : pbTensor) : Tensor :=
  let when (b : bool) {A} (l : list A) := if b then Some l else None in
  let tp := pbElemType pb in
  mkTensor 0 (pbName pb) (pbOption pb) tp
    (default TENSORSTATUS_UNKNOWN (pbStatus pb))
    (default [] (pbShape pb))
    (when (bool_decide (tp = STRING)) (pbStringData pb))
    (when (bool_decide (tp = FLOAT32)) (pbFloatData pb))
    (when (bool_decide (tp = FLOAT64)) (pbDoubleData pb))
    (when (bool_decide (tp ∈ [INT8; INT16; INT32])) (pbInt32Data pb))
    (when (bool_decide (tp = INT64)) (pbInt64Data pb))
    (when (bool_decide (tp = BOOL)) (pbBoolData pb))
    NewCCL false "" [] false (pbRefNum pb).

(** [Tensor.ToProto]; a nil slice and an empty one serialize alike. *)
Definition ToProto (t : Tensor) : pbTensor :=
  mkpbTensor (UniqueName t) (DType t) (tensor_Option t)
    (if bool_decide (tensor_status t = TENSORSTATUS_UNKNOWN) then None
     else Some (tensor_status t))
    (match Shape t with [] => None | shape => Some shape end)
    (RefNum t)
    (default [] (Int32S t)) (default [] (Int64S t)) (default [] (FloatS t))
    (default [] (DoubleS t)) (default [] (BooleanS t)) (default [] (StringS t)).

(** ** Attributes (attribute.go) *)
Record Attribute := mkAttribute { TensorValue : option Tensor }.

Definition attr_tensor (dtype : PrimitiveDataType) (shape : list Z)
    (ss : option (list string)) (fs ds : option (list spec_float))
    (i32 i64 : option (list Z)) (bs : option (list bool)) : Attribute :=
  mkAttribute (Some (mkTensor 0 "" VALUE dtype TENSORSTATUS_UNKNOWN shape
    ss fs ds i32 i64 bs NewCCL false "" [] false 0)).

Definition SetStrings (v : list string) : Attribute :=
  attr_tensor STRING [Z.of_nat (length v)] (Some v) None None None None None.
Definition SetString (v : string) : Attribute :=
  attr_tensor STRING [] (Some [v]) None None None None None.
Definition SetInt (v : Z) : Attribute :=
  attr_tensor INT64 [] None None None (Some [to_int32 v]) None None.
Definition SetInt64 (v : Z) : Attribute :=
  attr_tensor INT64 [] None None None None (Some [v]) None.
Definition SetFloat (v : spec_float) : Attribute :=
  attr_tensor FLOAT32 [] None (Some [v]) None None None None.
Definition SetDouble (v : spec_float) : Attribute :=
  attr_tensor FLOAT64 [] None None (Some [v]) None None None.
Definition SetBool (v : bool) : Attribute :=
  attr_tensor BOOL [] None None None None None (Some [v]).

Definition GetStrings (attr : Attribute) : res (list string) :=
  match TensorValue attr with
  | None => Err "getString: invalid attribute"
  | Some t =>
      match StringS t with
      | None | Some [] => Err "getString: invalid attribute"
      | Some ss => Ok ss
      end
  end.

(** The dynamic value [GetAttrValue] returns. *)
Inductive AttrValue :=
| AVnil
| AVstring (v : string) | AVstrings (v : list string)
| AVbool (v : bool) | AVbools (v : list bool)
| AVint32 (v : Z) | AVint32s (v : list Z)
| AVint64 (v : Z) | AVint64s (v : list Z)
| AVfloat (v : spec_float) | AVfloats (v : list spec_float)
| AVdouble (v : spec_float) | AVdoubles (v : list spec_float).

Definition scalar_or {A B} (shape : list Z) (one : A → B) (many : list A → B)
    (l : list A) : B :=
  match shape, l with
  | [], [x] => one x
  | _, _ => many l
  end.

Definition GetAttrValue (attr : Attribute) : AttrValue :=
  match TensorValue attr with
  | None => AVnil
  | Some t =>
      match StringS t, BooleanS t, Int32S t, Int64S t, FloatS t, DoubleS t with
      | Some l, _, _, _, _, _ => scalar_or (Shape t) AVstring AVstrings l
      | _, Some l, _, _, _, _ => scalar_or (Shape t) AVbool AVbools l
      | _, _, Some l, _, _, _ => scalar_or (Shape t) AVint32 AVint32s l
      | _, _, _, Some l, _, _ => scalar_or (Shape t) AVint64 AVint64s l
      | _, _, _, _, Some l, _ => scalar_or (Shape t) AVfloat AVfloats l
      | _, _, _, _, _, Some l => scalar_or (Shape t) AVdouble AVdoubles l
      | _, _, _, _, _, _ => AVnil
      end
  end.

(** [Attribute.ToProto]: serializing an attribute that was never set
    dereferences a nil tensor. *)
Definition Attribute_ToProto (attr : Attribute) : res pbTensor :=
  match TensorValue attr with None => Panic | Some t => Ok (ToProto t) end.

(** ** Execution nodes (execution_node.go) and the graph (graph.go) *)
Record Edge := mkEdge { From : nat; To : nat; edge_Value : nat }.

#[global] Instance Edge_eq_dec : EqDecision Edge.
Proof. solve_decision. Defined.

Record ExecutionNode := mkExecutionNode {
  node_ID : nat;
  node_Name : string;
  OpType : string;
  Inputs : gmap string (list nat);
  Outputs : gmap string (list nat);
  Attributes : gmap string Attribute;
  Edges : list Edge;
  Parties : list string;
}.

Definition set_node_ID (v : nat) (n : ExecutionNode) : ExecutionNode :=
  mkExecutionNode v (node_Name n) (OpType n) (Inputs n) (Outputs n) (Attributes n)
    (Edges n) (Parties n).
Definition set_Edges (v : list Edge) (n : ExecutionNode) : ExecutionNode :=
  mkExecutionNode (node_ID n) (node_Name n) (OpType n) (Inputs n) (Outputs n)
    (Attributes n) v (Parties n).

Definition GetAttrStrings (node : ExecutionNode) (name : string) : res (list string) :=
  match Attributes node !! name with
  | Some attr => GetStrings attr
  | None => Err "getAttrStrings: attribute doesn't exists"
  end.

(** Positions of tensor [id] in a slice of arguments, and the slice with
    [newTensor] at these positions. *)
Definition positions_of (id : nat) (ts : list nat) : list nat :=
  omap (λ p, if bool_decide (p.2 = id) then Some p.1 else None) (imap pair ts).

Definition replace_at (newTensor : nat) (ts ids : list nat) : list nat :=
  foldl (λ ts i, <[i:=newTensor]> ts) ts ids.

Definition UpdateInput (id newTensor : nat) (node : ExecutionNode) : ExecutionNode :=
  mkExecutionNode (node_ID node) (node_Name node) (OpType node)
    ((λ ts, replace_at newTensor ts (positions_of id ts)) <$> Inputs node)
    (Outputs node) (Attributes node) (Edges node) (Parties node).

Definition UpdateOutput (id newTensor : nat) (node : ExecutionNode) : ExecutionNode :=
  mkExecutionNode (node_ID node) (node_Name node) (OpType node) (Inputs node)
    ((λ ts, replace_at newTensor ts (positions_of id ts)) <$> Outputs node)
    (Attributes node) (Edges node) (Parties node).

(** ** Participants (engine_info.go) *)
Record Participant := mkParticipant {
  PartyCode : string;
  Endpoints : list string;
  Token : string;
  PubKey : string;
}.

Record PartyInfo := mkPartyInfo { participants : list Participant }.

Definition GetParties (pi : PartyInfo) : list string := PartyCode <$> participants pi.

(** The first participant with the code asked for. *)
Fixpoint find_party (party : string) (ps : list Participant) : option Participant :=
  match ps with
  | [] => None
  | p :: ps => if bool_decide (PartyCode p = party) then Some p else find_party party ps
  end.

Definition GetCredentialByParty (pi : PartyInfo) (party : string) : res string :=
  match find_party party (participants pi) with
  | Some p => Ok (Token p)
  | None => Err "no party named"
  end.

(** [p.Endpoints[0]] panics for a participant without an endpoint. *)
Definition GetUrlByParty (pi : PartyInfo) (party : string) : res string :=
  match find_party party (participants pi) with
  | Some p => match Endpoints p with [] => Panic | url :: _ => Ok url end
  | None => Err "no party named"
  end.

Definition GetCredentials (pi : PartyInfo) : list string := Token <$> participants pi.

Definition GetUrls (pi : PartyInfo) : res (list string) :=
  mapM (λ p, match Endpoints p with [] => Panic | url :: _ => Ok url end) (participants pi).

(** Tables (planner/core/rewrite.go); [dbType] is the index of the [DBType]
    enumeration, 0 being [DBTypeUnknown] and 1 [DBTypeMySQL]. *)
Record DbTable := mkDbTable { dbName : string; tableName : string; dbType : nat }.

#[global] Instance DbTable_eq_dec : EqDecision DbTable.
Proof. solve_decision. Defined.
#[global] Instance DbTable_countable : Countable DbTable.
Proof.
  apply (inj_countable' (λ t, (dbName t, tableName t, dbType t))
    (λ p, mkDbTable p.1.1 p.1.2 p.2)). by intros [].
Defined.

Definition DbTable_String (dt : DbTable) : string :=
  if bool_decide (dbName dt = "") then tableName dt
  else dbName dt +:+ "." +:+ tableName dt.

Definition NewDbTable (db table : string) : DbTable := mkDbTable db table 0.

Definition NewDbTableFromString (dbTableName : string) : res DbTable :=
  match Split "."%char dbTableName with
  | [t] => Ok (mkDbTable "" t 0)
  | [d; t] => Ok (mkDbTable d t 0)
  | _ => Err "NewDbTableFromString: invalid dbTableName"
  end.

Definition RewriteTableRefs_step (m : gmap DbTable DbTable) (acc : list string * nat)
    (dbTableName : string) : res (list string * nat) :=
  let '(newTableRefs, tp) := acc in
  key ← NewDbTableFromString dbTableName;
  match m !! key with
  | None => Err "table not found"
  | Some dbTable =>
      let newTableRefs := newTableRefs ++ [DbTable_String dbTable] in
      if bool_decide (dbType dbTable = 0%nat) then Ok (newTableRefs, tp)
      else if bool_decide (tp ≠ 0%nat) && bool_decide (dbType dbTable ≠ tp) then
        Err "table has wrong db type"
      else Ok (newTableRefs, dbType dbTable)
  end.

Definition RewriteTableRefsAndGetDBType (m : gmap DbTable DbTable)
    (tableRefs : list string) : res (list string * nat) :=
  '(newTableRefs, tp) ← foldlM (RewriteTableRefs_step m) ([], 0%nat) tableRefs;
  Ok (newTableRefs, if bool_decide (tp = 0%nat) then 1%nat else tp).

Record EnginesInfo := mkEnginesInfo {
  partyInfo : PartyInfo;
  partyToTables : gmap string (list DbTable);
  tableToParty : gmap DbTable string;
  tableToRefs : gmap DbTable DbTable;
}.

Section engines_info.
Context `{GoRange}.

Definition NewEnginesInfo (p : PartyInfo) (party2Tables : gmap string (list DbTable))
    : EnginesInfo :=
  mkEnginesInfo p party2Tables
    (foldl (λ m '(p, tables), foldl (λ m dt, <[dt:=p]> m) m tables) ∅
       (go_range party2Tables))
    ∅.

Definition UpdateTableToRefs (refs : gmap DbTable DbTable) (h : EnginesInfo) : EnginesInfo :=
  mkEnginesInfo (partyInfo h) (partyToTables h) (tableToParty h)
    (foldl (λ m '(table, ref), <[table:=ref]> m) (tableToRefs h) (go_range refs)).
End engines_info.

(** A missing key reads as the zero value. *)
Definition GetTablesByParty (h : EnginesInfo) (party : string) : list DbTable :=
  default [] (partyToTables h !! party).
Definition GetPartyByTable (h : EnginesInfo) (t : DbTable) : string :=
  default "" (tableToParty h !! t).
Definition GetRefTableName (h : EnginesInfo) (tableName : string) : res DbTable :=
  dt ← NewDbTableFromString tableName;
  Ok (default (mkDbTable "" "" 0) (tableToRefs h !! dt)).

(** ** Names on the wire *)
Fixpoint no_sep (sep : Ascii.ascii) (s : string) : bool :=
  match s with
  | EmptyString => true
  | String c s' => negb (Ascii.eqb c sep) && no_sep sep s'
  end.

Lemma Split_nonempty sep s : Split sep s ≠ [].
Proof.
  destruct s as [|c s]; [done|]. simpl.
  destruct (Ascii.eqb c sep); [done|]. by destruct (Split sep s).
Qed.

Lemma Split_no_sep sep s : no_sep sep s = true → Split sep s = [s].
Proof.
  induction s as [|c s IH]; [done|]. simpl. intros [Hc Hs]%andb_prop.
  apply negb_true_iff in Hc. by rewrite Hc, IH.
Qed.

Lemma Split_app sep s d :
  no_sep sep d = true → Split sep (s +:+ String sep d) = Split sep s ++ [d].
Proof.
  intros Hd. induction s as [|c s IH]; simpl.
  - by rewrite Ascii.eqb_refl, Split_no_sep.
  - destruct (Ascii.eqb c sep); [by rewrite IH|]. rewrite IH.
    pose proof (Split_nonempty sep s). by destruct (Split sep s).
Qed.

Lemma Join_cons s ss sep :
  ss ≠ [] → Join (s :: ss) sep = s +:+ sep +:+ Join ss sep.
Proof. by destruct ss. Qed.

Lemma Join_Split sep s : Join (Split sep s) (String sep "") = s.
Proof.
  induction s as [|c s IH]; [done|]. simpl.
  pose proof (Split_nonempty sep s) as Hne.
  destruct (Ascii.eqb_spec c sep) as [->|].
  - rewrite Join_cons, IH by done. done.
  - destruct (Split sep s) as [|x [|y ys]]; [done|simpl in *; by rewrite IH|].
    rewrite Join_cons in IH |- * by done. by rewrite <- IH.
Qed.

Lemma no_sep_pretty_N_char x : no_sep "."%char (String (pretty_N_char x) "") = true.
Proof. unfold pretty_N_char. by repeat case_match. Qed.

Lemma no_sep_pretty_N_go x s :
  no_sep "."%char s = true → no_sep "."%char (pretty_N_go x s) = true.
Proof.
  revert s. induction (N.lt_wf_0 x) as [x _ IH]. intros s Hs.
  destruct (decide (x = 0%N)) as [->|Hx]; [by rewrite pretty_N_go_0|].
  rewrite pretty_N_go_step by lia. apply IH; [apply N.div_lt; lia|].
  pose proof (no_sep_pretty_N_char (x `mod` 10)) as Hc. simpl in Hc |- *.
  rewrite andb_true_r in Hc. by rewrite Hc.
Qed.

Lemma no_sep_pretty (n : nat) : no_sep "."%char (pretty n) = true.
Proof.
  unfold pretty, pretty_nat, pretty, pretty_N. case_decide; [done|].
  by apply no_sep_pretty_N_go.
Qed.

Lemma Split_UniqueName t :
  Split "."%char (UniqueName t) = Split "."%char (tensor_Name t) ++ [pretty (ID t)].
Proof. apply Split_app, no_sep_pretty. Qed.

(** The name a tensor has on the wire ([UniqueName]) can be undone and is
    unambiguous: [TensorNameFromUniqueName] recovers the tensor's name, dots in it
    included, and two tensors with the same unique name have the same ID. *)
Theorem unique_name_roundtrip (t1 t2 : Tensor) :
  TensorNameFromUniqueName (UniqueName t1) = tensor_Name t1
  ∧ (UniqueName t1 = UniqueName t2 ↔ tensor_Name t1 = tensor_Name t2 ∧ ID t1 = ID t2).
Proof.
  split.
  - unfold TensorNameFromUniqueName. rewrite Split_UniqueName, length_app. simpl.
    rewrite Nat.add_sub, take_app_length. apply Join_Split.
  - split; [|unfold UniqueName; intros [-> ->]; done]. intros Heq.
    apply (f_equal (Split "."%char)) in Heq. rewrite !Split_UniqueName in Heq.
    apply app_inj_tail in Heq as [Hn Hid]. split; [|by apply (inj pretty) in Hid].
    by rewrite <- (Join_Split "."%char (tensor_Name t1)), Hn, Join_Split.
Qed.

(** A table name read back from its printed form. *)
Lemma DbTable_String_roundtrip d t :
  no_sep "."%char d = true → no_sep "."%char t = true →
  NewDbTableFromString (DbTable_String (NewDbTable d t)) = Ok (NewDbTable d t).
Proof.
  intros Hd Ht. unfold NewDbTableFromString, DbTable_String, NewDbTable. simpl.
  case_bool_decide as Hempty; subst.
  - by rewrite (Split_no_sep _ t).
  - assert (Split "."%char (d +:+ "." +:+ t) = [d; t]) as ->; [|done].
    etrans; [by apply Split_app|]. by rewrite Split_no_sep.
Qed.

(** ** Attributes on the wire

    What the receiver of a serialized attribute reads. *)
Definition wire_value (attr : Attribute) : res AttrValue :=
  pb ← Attribute_ToProto attr;
  Ok (GetAttrValue (mkAttribute (Some (newTensorFromProto pb)))).

(** Every setter of [Attribute] but [SetInt] survives serialization: the
    value read back from the wire form is the value that was set. *)
Theorem attribute_wire_roundtrip (s : string) (ss : list string) (i : Z)
    (f d : spec_float) (b : bool) :
  wire_value (SetString s) = Ok (AVstring s)
  ∧ wire_value (SetStrings ss) = Ok (AVstrings ss)
  ∧ wire_value (SetInt64 i) = Ok (AVint64 i)
  ∧ wire_value (SetFloat f) = Ok (AVfloat f)
  ∧ wire_value (SetDouble d) = Ok (AVdouble d)
  ∧ wire_value (SetBool b) = Ok (AVbool b).
Proof. done. Qed.

(** [SetInt] declares an INT64 element type but stores the value in the
    int32 data: the value set is readable from the attribute (truncated to 32
    bits) and is lost on the wire, where the receiver sees an empty INT64
    tensor. *)
Theorem set_int_lost_on_wire (v : Z) :
  GetAttrValue (SetInt v) = AVint32 (to_int32 v)
  ∧ wire_value (SetInt v) = Ok (AVint64s [])
  ∧ (- 2 ^ 31 ≤ v < 2 ^ 31 → to_int32 v = v)%Z.
Proof.
  split_and!; [done..|]. intros Hv. unfold to_int32.
  rewrite Z.mod_small by lia. lia.
Qed.

(** ** Replacing a tensor in a node *)
Lemma replace_at_cons new t ts ids :
  replace_at new (t :: ts) (S <$> ids) = t :: replace_at new ts ids.
Proof.
  revert ts. induction ids as [|i ids IH]; intros ts; [done|].
  change (replace_at new (t :: <[i:=new]> ts) (S <$> ids)
          = t :: replace_at new (<[i:=new]> ts) ids). apply IH.
Qed.

Lemma positions_of_cons id t ts :
  positions_of id (t :: ts)
  = (if bool_decide (t = id) then [0%nat] else []) ++ (S <$> positions_of id ts).
Proof.
  unfold positions_of. simpl.
  assert (∀ l : list (nat * nat),
    omap (λ p, if bool_decide (p.2 = id) then Some p.1 else None)
      ((λ p, (S p.1, p.2)) <$> l)
    = S <$> omap (λ p, if bool_decide (p.2 = id) then Some p.1 else None) l) as Hshift.
  { induction l as [|[i x] l IH]; csimpl; [done|]. case_bool_decide; csimpl; by rewrite IH. }
  assert (imap (pair ∘ S) ts = (λ p, (S p.1, p.2)) <$> imap pair ts) as ->.
  { rewrite fmap_imap. done. }
  rewrite Hshift. by case_bool_decide.
Qed.

Lemma replace_at_positions id new ts :
  replace_at new ts (positions_of id ts)
  = (λ t, if bool_decide (t = id) then new else t) <$> ts.
Proof.
  induction ts as [|t ts IH]; [done|]. rewrite positions_of_cons, fmap_cons, <- IH.
  case_bool_decide; simpl; [|apply replace_at_cons].
  rewrite <- replace_at_cons. done.
Qed.

(** [UpdateInput] and [UpdateOutput], which collect positions and then
    overwrite them, substitute the new tensor for every occurrence of the old one
    in every argument and change nothing else. *)
Theorem update_io_substitutes (id new : nat) (node : ExecutionNode) (k : string) :
  let subst ts := (λ t : nat, if bool_decide (t = id) then new else t) <$> ts in
  Inputs (UpdateInput id new node) !! k = subst <$> (Inputs node !! k)
  ∧ Outputs (UpdateInput id new node) = Outputs node
  ∧ Outputs (UpdateOutput id new node) !! k = subst <$> (Outputs node !! k)
  ∧ Inputs (UpdateOutput id new node) = Inputs node.
Proof.
  simpl. split_and!; [|done| |done]; rewrite lookup_fmap;
    (destruct (_ !! k); [|done]); simpl; by rewrite replace_at_positions.
Qed.

(** ** Owners of tables *)
Section owners.
Context `{GoRange}.
Implicit Types m : gmap DbTable string.

Lemma foldl_insert_owner p tables m dt :
  foldl (λ m dt, <[dt:=p]> m) m tables !! dt
  = if bool_decide (dt ∈ tables) then Some p else m !! dt.
Proof.
  revert m. induction tables as [|t tables IH]; intros m; [done|]. simpl.
  rewrite IH. destruct (decide (dt ∈ tables)) as [Hin|Hin].
  - rewrite !bool_decide_true; [done|set_solver..].
  - rewrite (bool_decide_false _ Hin). destruct (decide (dt = t)) as [->|].
    + by rewrite lookup_insert_eq, bool_decide_true by set_solver.
    + by rewrite lookup_insert_ne, bool_decide_false by set_solver.
Qed.

Lemma foldl_owners l m dt :
  match foldl (λ m '(p, tables), foldl (λ m dt, <[dt:=p]> m) m tables) m l !! dt with
  | Some q => (∃ ts, (q, ts) ∈ l ∧ dt ∈ ts) ∨ m !! dt = Some q
  | None => (∀ q ts, (q, ts) ∈ l → dt ∉ ts) ∧ m !! dt = None
  end.
Proof.
  revert m. induction l as [|[p tables] l IH]; intros m; simpl.
  { destruct (m !! dt); [by right|]. split; [set_solver|done]. }
  specialize (IH (foldl (λ m dt, <[dt:=p]> m) m tables)).
  rewrite foldl_insert_owner in IH. destruct (foldl _ _ l !! dt) as [q|].
  - destruct IH as [(ts & ? & ?)|IH]; [left; exists ts; set_solver|].
    case_bool_decide; [|by right]. simplify_eq. left. exists tables. set_solver.
  - destruct IH as [Hl Hm]. case_bool_decide; [done|]. split; [|done].
    intros q ts [?|?]%elem_of_cons; simplify_eq; eauto.
Qed.

(** [NewEnginesInfo] inverts the ownership map whatever order Go visits it
    in: a table is mapped to a party that lists it, and to none exactly when no
    party does. *)
Theorem engines_info_owner (pi : PartyInfo) (owned : gmap string (list DbTable))
    (dt : DbTable) :
  match tableToParty (NewEnginesInfo pi owned) !! dt with
  | Some q => ∃ ts, owned !! q = Some ts ∧ dt ∈ ts
  | None => ∀ q ts, owned !! q = Some ts → dt ∉ ts
  end.
Proof.
  pose proof (foldl_owners (go_range owned) ∅ dt) as Hf. simpl.
  destruct (foldl _ _ _ !! dt) as [q|].
  - destruct Hf as [(ts & Hin & ?)|Hf]; [|by rewrite lookup_empty in Hf].
    exists ts. split; [by apply elem_of_go_range|done].
  - destruct Hf as [Hf _]. intros q ts Hq. eapply Hf. by apply elem_of_go_range.
Qed.
End owners.

(** ** Rewriting of table references *)
Definition rewrite_one (m : gmap DbTable DbTable) (name : string) : option DbTable :=
  match NewDbTableFromString name with Ok key => m !! key | _ => None end.

Lemma rewrite_fold m names refs tp refs' tp' :
  foldlM (RewriteTableRefs_step m) (refs, tp) names = Ok (refs', tp') ↔
  ∃ ts, Forall2 (λ n t, rewrite_one m n = Some t) names ts
    ∧ refs' = refs ++ (DbTable_String <$> ts)
    ∧ (∀ t, t ∈ ts → dbType t = 0%nat ∨ dbType t = tp')
    ∧ (tp ≠ 0%nat → tp' = tp)
    ∧ (tp = 0%nat → tp' ≠ 0%nat → ∃ t, t ∈ ts ∧ dbType t = tp').
Proof.
  revert refs tp. induction names as [|n names IH]; intros refs tp; simpl.
  { split.
    - intros [= -> ->]. exists []. rewrite app_nil_r. set_solver.
    - intros (ts & Hts & -> & _ & H1 & H2). inversion Hts; subst. simpl.
      rewrite app_nil_r. destruct (decide (tp = 0%nat)) as [->|]; [|by rewrite H1].
      destruct (decide (tp' = 0%nat)) as [->|Hn]; [done|].
      destruct (H2 eq_refl Hn) as (t & ? & _). set_solver. }
  rewrite res_bind_Ok. split.
  - intros ([refs1 tp1] & Hstep & Hrest). apply IH in Hrest
      as (ts & Hts & -> & Htp & H1 & H2).
    unfold RewriteTableRefs_step in Hstep.
    apply res_bind_Ok in Hstep as (key & Hkey & Hstep).
    destruct (m !! key) as [dbt|] eqn:Hm; [|done].
    exists (dbt :: ts). split.
    { constructor; [|done]. unfold rewrite_one. by rewrite Hkey. }
    repeat case_bool_decide; simplify_eq/=; rewrite <- (assoc_L (++)); simpl;
      split_and!; try done; try (intros; apply H1; congruence || lia);
      set_solver by eauto with lia congruence.
  - intros (ts & Hts & -> & Htp & H1 & H2).
    inversion Hts as [|? dbt ? ts' Hone Hts']; subst. clear Hts.
    unfold rewrite_one in Hone. unfold RewriteTableRefs_step.
    destruct (NewDbTableFromString n) as [key| |]; [|done..]. simpl. rewrite Hone.
    exists (refs ++ [DbTable_String dbt],
            if bool_decide (dbType dbt = 0%nat) then tp else dbType dbt).
    assert (dbType dbt = 0%nat ∨ dbType dbt = tp') as Hd by (apply Htp; set_solver).
    split.
    + repeat case_bool_decide; simpl; try done. exfalso. destruct Hd; [done|].
      rewrite H1 in * by done. done.
    + apply IH. exists ts'. rewrite <- (assoc_L (++)). split_and!; try done.
      * set_solver.
      * case_bool_decide; [done|]. naive_solver.
      * case_bool_decide; [|lia]. intros Ht Ht'. destruct (H2 Ht Ht') as (t & Hin & ?).
        exists t. split; [|done]. apply elem_of_cons in Hin as [->|]; [congruence|done].
Qed.

(** [RewriteTableRefsAndGetDBType] succeeds exactly when every reference
    resolves and the resolved tables agree on their known database type; it
    returns the resolved names in order and that type, MySQL when none is
    known. *)
Theorem rewrite_table_refs_spec (m : gmap DbTable DbTable) (names refs : list string)
    (tp : nat) :
  RewriteTableRefsAndGetDBType m names = Ok (refs, tp) ↔
  ∃ ts, Forall2 (λ n t, rewrite_one m n = Some t) names ts
    ∧ refs = DbTable_String <$> ts
    ∧ (∀ t, t ∈ ts → dbType t = 0%nat ∨ dbType t = tp)
    ∧ (tp = 1%nat ∨ tp ≠ 0%nat ∧ ∃ t, t ∈ ts ∧ dbType t = tp).
Proof.
  unfold RewriteTableRefsAndGetDBType. rewrite res_bind_Ok. split.
  - intros ([refs1 tp1] & Hf & [= <- <-]).
    apply rewrite_fold in Hf as (ts & Hts & -> & Htp & _ & H2).
    exists ts. split_and!; [done..| |]; case_bool_decide; subst; naive_solver.
  - intros (ts & Hts & -> & Htp & H1).
    destruct (decide (Exists (λ t, dbType t = tp) ts)) as [Hex|Hex].
    + apply Exists_exists in Hex as (t & Hin & Ht). exists (DbTable_String <$> ts, tp).
      rewrite bool_decide_false by (intros ->; by destruct H1 as [?|[? _]]). split; [|done].
      apply rewrite_fold. exists ts. split_and!; try done. naive_solver.
    + rewrite Exists_exists in Hex. exists (DbTable_String <$> ts, 0%nat).
      destruct H1 as [->|(_ & t & ? & ?)]; [|naive_solver]. split; [|done].
      apply rewrite_fold. exists ts. split_and!; try done.
      intros t Hin. destruct (Htp t Hin) as [|Ht]; [by left|]. destruct Hex. by exists t.
Qed.
