(* ===== verification/BuilderSpec.v ===== *)
(** * What the graph builder guarantees

    Every [Add...Node] operation of [GraphBuilder.v] is shown to leave the tensors
    and nodes that exist alone and to append one checked node or none.  A plan
    under construction is then a state machine: its steps are the builder's
    operations, raw calls of [AddExecutionNode] for operators that do not reveal
    data, and changes of tensors: any change while no node refers to the tensor, and
    later those that keep its status and its owner, such as a new CCL.  The invariants
    of its reachable states are proved by induction on the steps. *)
From S2P Require Import Prelude Sliceutil Expression Operator Ccl Graph GraphBuilder.

(** ** Definitions *)

(** Tensor IDs are their positions. *)
Definition builder_wf (plan : GraphBuilder) : Prop :=
  tensorNum plan = length (Tensors plan) ∧
  ∀ i t, Tensors plan !! i = Some t → ID t = i.

Definition all_nodes (plan : GraphBuilder) : list ExecutionNode :=
  PipelineExeNodes plan ≫= ExecutionNodes.

(** [plan'] keeps every tensor of [plan]; [quiet]: and every node; [adds]: and has
    one node more, which passed the check of its operator. *)
Record grows (plan plan' : GraphBuilder) : Prop := {
  grows_wf : builder_wf plan';
  grows_num : (tensorNum plan ≤ tensorNum plan')%nat;
  grows_tensors i : (i < tensorNum plan)%nat → Tensors plan' !! i = Tensors plan !! i;
  grows_info : plan_partyInfo plan' = plan_partyInfo plan;
  grows_batched : batched plan' = batched plan;
}.

Definition quiet (plan plan' : GraphBuilder) : Prop :=
  grows plan plan' ∧ PipelineExeNodes plan' = PipelineExeNodes plan
  ∧ preOpStreamingType plan' = preOpStreamingType plan.

Definition node_checked (plan : GraphBuilder) (n : ExecutionNode) : Prop :=
  ∃ opDef, FindOpDef (OpType n) = Ok opDef
    ∧ CheckParamStatusConstraint (status_of plan) opDef (Inputs n) (Outputs n) = Ok tt.

Definition adds (plan : GraphBuilder) (n : ExecutionNode) (plan' : GraphBuilder) : Prop :=
  ∃ plan1 opDef, quiet plan plan1 ∧ FindOpDef (OpType n) = Ok opDef
    ∧ CheckParamStatusConstraint (status_of plan1) opDef (Inputs n) (Outputs n) = Ok tt
    ∧ plan' = place_node (opStreamingType opDef) n plan1.

(** The tensor an operation has just allocated: at or above [n0], and absent from
    the nodes. *)
Definition fresh (plan0 : GraphBuilder) (o : nat) (plan : GraphBuilder) : Prop :=
  quiet plan0 plan ∧ (tensorNum plan0 ≤ o < tensorNum plan)%nat.

(** ** Frame lemmas *)
Lemma quiet_refl plan : builder_wf plan → quiet plan plan.
Proof. intros Hwf. split; [by split|done]. Qed.

Lemma quiet_upd plan0 plan o f :
  fresh plan0 o plan → (∀ t, ID (f t) = ID t) →
  fresh plan0 o (upd_tensor o f plan).1.
Proof.
  intros [[[Hwf Hnum Hts Hpi Hb] Hq] Ho] Hf. split; [|exact Ho]. split; [|exact Hq].
  destruct Hwf as [Hlen Hid]. split; simpl; [|done| |done|done].
  - split; simpl; [by rewrite length_alter|].
    intros i t Hi. destruct (decide (i = o)) as [->|].
    + rewrite list_lookup_alter_eq in Hi. destruct (Tensors plan !! o) eqn:E; [|done].
      simplify_eq/=. rewrite Hf. by apply Hid.
    + rewrite list_lookup_alter_ne in Hi by done. by apply Hid.
  - intros i Hi. rewrite list_lookup_alter_ne by lia. by apply Hts.
Qed.

Lemma triple_upd plan0 o f :
  (∀ t, ID (f t) = ID t) →
  triple (fresh plan0 o) (upd_tensor o f) (λ _, fresh plan0 o) (quiet plan0).
Proof. intros Hf s Hs. by apply (quiet_upd _ s). Qed.

Lemma triple_tensor_at plan0 (P : GraphBuilder → Prop) t :
  (∀ s, P s → quiet plan0 s) →
  triple P (tensor_at t) (λ x s, Tensors s !! t = Some x ∧ P s) (quiet plan0).
Proof. intros HP s Hs. unfold tensor_at. destruct (Tensors s !! t) eqn:E; auto. Qed.

Lemma quiet_AddTensor plan0 plan name :
  quiet plan0 plan →
  fresh plan0 (tensorNum plan) (AddTensor name plan).1
  ∧ Tensors (AddTensor name plan).1 !! tensorNum plan = Some (NewTensor (tensorNum plan) name).
Proof.
  intros [[[Hlen Hid] Hnum Hts Hpi Hb] Hq]. simpl. split.
  - split; [|simpl; lia]. split; [|done]. split; simpl; [|lia| |done|done].
    + split; simpl; [rewrite length_app; simpl; lia|].
      intros i t [?|[? Hl]]%lookup_app_Some; [by apply Hid|].
      apply list_lookup_singleton_Some in Hl as [? <-]. simpl. lia.
    + intros i Hi. rewrite lookup_app_l by lia. by apply Hts.
  - rewrite lookup_app_r by lia. by rewrite Hlen, Nat.sub_diag.
Qed.

(** The tensor [AddTensorAs] makes from [it]. *)
Definition tensor_as (n : nat) (it : Tensor) : Tensor :=
  copy_fields it (NewTensor n (tensor_Name it)).

Lemma AddTensorAs_spec plan0 plan it t :
  quiet plan0 plan → Tensors plan !! it = Some t →
  ∃ plan', AddTensorAs it plan = (plan', Ok (tensorNum plan))
    ∧ fresh plan0 (tensorNum plan) plan'
    ∧ (∀ i, (i < tensorNum plan)%nat → Tensors plan' !! i = Tensors plan !! i)
    ∧ Tensors plan' !! tensorNum plan = Some (tensor_as (tensorNum plan) t).
Proof.
  intros Hq Ht. pose proof (quiet_AddTensor _ _ (tensor_Name t) Hq) as [Hf Hn].
  pose proof (quiet_upd _ _ _ (copy_fields t) Hf ltac:(done)) as Hf'.
  unfold AddTensorAs, mbind, M_bind, tensor_at. rewrite Ht. simpl.
  eexists. split; [done|]. split; [exact Hf'|]. simpl in *. split.
  - intros i Hi. rewrite list_lookup_alter_ne by lia. apply lookup_app_l.
    destruct Hq as [[[Hl _]] _]. lia.
  - by rewrite list_lookup_alter_eq, Hn.
Qed.

Lemma triple_AddTensorAs plan0 it :
  triple (quiet plan0) (AddTensorAs it) (fresh plan0) (quiet plan0).
Proof.
  intros s Hs. destruct (Tensors s !! it) as [t|] eqn:Ht.
  - destruct (AddTensorAs_spec _ _ _ _ Hs Ht) as (s' & -> & Hf & _). done.
  - unfold AddTensorAs, mbind, M_bind, tensor_at. by rewrite Ht.
Qed.

Lemma triple_AddExecutionNode plan0 name opType ins outs attrs parties :
  triple (quiet plan0) (AddExecutionNode name opType ins outs attrs parties)
    (λ n s, adds plan0 n s ∧ node_Name n = name ∧ OpType n = opType
            ∧ Inputs n = ins ∧ Outputs n = outs ∧ Parties n = parties
            ∧ attrs ⊆ Attributes n)
    (quiet plan0).
Proof.
  intros s Hs. unfold AddExecutionNode, mbind, M_bind, wrapErr, lift.
  destruct (FindOpDef opType) as [op| |] eqn:Hop; [|done..]. simpl.
  destruct (CheckParamStatusConstraint _ op ins outs) as [[]| |] eqn:Hc; [|done..]. simpl.
  split_and!; [|done..|by apply map_union_subseteq_l].
  by exists s, op.
Qed.


Lemma AddExecutionNode_Ok name opType ins outs attrs parties s s' n :
  AddExecutionNode name opType ins outs attrs parties s = (s', Ok n) →
  ∃ opDef, FindOpDef opType = Ok opDef
    ∧ CheckParamStatusConstraint (status_of s) opDef ins outs = Ok tt
    ∧ n = mkExecutionNode 0 name opType ins outs (attrs ∪ default_attributes opDef) [] parties
    ∧ s' = place_node (opStreamingType opDef) n s.
Proof.
  intros H. unfold AddExecutionNode, mbind, M_bind, wrapErr, lift in H.
  destruct (FindOpDef opType) as [op| |] eqn:Hop; [|discriminate..].
  cbn [get] in H. exists op.
  destruct (CheckParamStatusConstraint _ op ins outs) as [[]| |] eqn:Hc; [|discriminate..].
  unfold get, modify, mret, M_ret in H. injection H as <- <-. split_and!; reflexivity.
Qed.

#[local] Opaque AddExecutionNode FindOpDef CheckParamStatusConstraint.

(** [op_run] walks through the body of a builder operation: a fresh tensor may be
    changed, everything else is kept, and the one [AddExecutionNode] ends it. *)
Ltac weaken :=
  intros; destruct_and?;
  first [ assumption
        | match goal with H : fresh _ _ _ |- quiet _ _ => exact (proj1 H) end ].

Ltac op_run1 :=
  match goal with
  | |- triple _ (_ ≫= _) _ _ => eapply triple_bind
  | |- triple _ (wrapErr _ _) _ _ => apply triple_wrapErr
  | |- triple _ (if ?b then _ else _) _ _ => destruct b
  | |- triple _ (match ?x with _ => _ end) _ _ => destruct x
  | |- triple _ (fail _) _ _ => apply triple_fail; weaken
  | |- triple _ panic _ _ => apply triple_panic; weaken
  | |- triple ?P (mret _) ?Q _ =>
      is_evar Q; apply (triple_ret _ _ (λ _, P)); intros ? HP; exact HP
  | |- triple _ get _ _ => apply triple_get
  | |- triple _ (lift _) _ _ =>
      eapply triple_lift; [weaken|intros ? ? _ HP; exact HP]
  | |- triple _ (index0 _) _ _ => apply triple_index0; weaken
  | |- triple _ (tensor_at _) _ _ => apply triple_tensor_at; weaken
  | |- triple _ (AddTensorAs _) _ _ =>
      eapply triple_conseq; [apply triple_AddTensorAs|weaken|intros ? ? HQ; exact HQ]
  | |- triple _ (upd_tensor ?o _) _ _ =>
      eapply triple_conseq;
        [apply (triple_upd _ o); intros ?; reflexivity|weaken|intros ? ? HQ; exact HQ]
  | |- triple _ (AddExecutionNode _ _ _ _ _ _) _ _ =>
      eapply triple_conseq; [apply triple_AddExecutionNode|weaken|intros ? ? HQ; exact HQ]
  | |- ∀ _, triple _ _ _ _ => intro; cbv beta
  end.
Ltac op_run := repeat op_run1.
Ltac op_done := apply triple_ret; intros; destruct_and?; eauto.
Ltac op_loop P := eapply triple_bind;
  [eapply (triple_conseq _ P);
    [first [apply triple_mapM|apply triple_forM|apply triple_foldlM]|weaken
    |intros ? ? HQ; exact HQ]|].

Section effects.
Context (plan0 : GraphBuilder).

Definition op_effect {A} (op : string) (m : MB A) : Prop :=
  triple (quiet plan0) m (λ _ s, ∃ n, adds plan0 n s ∧ OpType n = op) (quiet plan0).

Lemma effect_RunSQL name output sql refs p :
  op_effect OpNameRunSQL (AddRunSQLNode name output sql refs p).
Proof. unfold op_effect, AddRunSQLNode. op_run. op_done. Qed.

Lemma effect_Publish name i o ps : op_effect OpNamePublish (AddPublishNode name i o ps).
Proof. unfold op_effect, AddPublishNode. op_run. op_done. Qed.

Lemma effect_InsertTable name i o p opt :
  op_effect OpNameInsertTable (AddInsertTableNode name i o p opt).
Proof. unfold op_effect, AddInsertTableNode. op_run. op_done. Qed.

Lemma effect_DumpFile name i o opt pf :
  op_effect OpNameDumpFile (AddDumpFileNodeForParty name i o opt pf).
Proof.
  unfold op_effect, AddDumpFileNodeForParty.
  apply (triple_bind _ _ _ (λ _, quiet plan0)).
  - op_run; by apply triple_ret.
  - op_run. op_done.
Qed.

Lemma effect_Copy name i p q : op_effect OpNameCopy (AddCopyNode name i p q).
Proof. unfold op_effect, AddCopyNode. op_run. op_done. Qed.

Lemma effect_MakePrivate name i p ps : op_effect OpNameMakePrivate (AddMakePrivateNode name i p ps).
Proof. unfold op_effect, AddMakePrivateNode. op_run. op_done. Qed.

Lemma effect_MakeShare name i ps : op_effect OpNameMakeShare (AddMakeShareNode name i ps).
Proof.
  unfold op_effect, AddMakeShareNode. eapply triple_bind; [op_run|]. intros o.
  eapply triple_bind; [op_run|]. intros t. eapply triple_bind; [op_run|]. intros ?.
  apply (triple_bind _ _ _ (λ _, fresh plan0 o)); [op_run; op_done|].
  op_run. op_done.
Qed.

Lemma effect_MakePublic name i ps : op_effect OpNameMakePublic (AddMakePublicNode name i ps).
Proof.
  unfold op_effect, AddMakePublicNode. eapply triple_bind; [op_run|]. intros t.
  op_loop (quiet plan0). { intros p _. op_run. op_done. }
  op_run. op_done.
Qed.

Lemma triple_join_index has keys a i :
  triple (quiet plan0) (join_index has keys a i) (λ _, quiet plan0) (quiet plan0).
Proof. unfold join_index. op_run; apply triple_ret; weaken. Qed.

Lemma effect_Join name l r a : op_effect OpNameJoin (AddJoinNode name l r a).
Proof.
  unfold op_effect, AddJoinNode.
  eapply triple_bind; [apply triple_join_index|]. intros lo.
  eapply triple_bind; [apply triple_join_index|]. intros ro.
  op_run. op_done.
Qed.

Lemma triple_AddTensorAs_all l :
  triple (quiet plan0) (mapM AddTensorAs l) (λ _, quiet plan0) (quiet plan0).
Proof.
  apply triple_mapM. intros x _.
  eapply triple_conseq; [apply triple_AddTensorAs|done|weaken].
Qed.

Lemma effect_SecretJoin name lk rk lp rp ps :
  op_effect OpNameSecretJoin (AddSecretJoinNode name lk rk lp rp ps).
Proof.
  unfold op_effect, AddSecretJoinNode.
  eapply triple_bind; [apply triple_AddTensorAs_all|]. intros lo.
  eapply triple_bind; [apply triple_AddTensorAs_all|]. intros ro.
  op_run. op_done.
Qed.

Lemma effect_FilterByIndex name f ts p :
  op_effect OpNameFilterByIndex (AddFilterByIndexNode name f ts p).
Proof.
  unfold op_effect, AddFilterByIndexNode. eapply triple_bind; [op_run|]. intros t.
  op_run1; [op_run|]. op_loop (quiet plan0).
  { intros x _. op_run. apply triple_ret. weaken. }
  op_run. op_done.
Qed.

Lemma effect_Filter name i mask ps : op_effect OpNameFilter (AddFilterNode name i mask ps).
Proof.
  unfold op_effect, AddFilterNode.
  eapply triple_bind; [apply triple_AddTensorAs_all|]. intros o. op_run. op_done.
Qed.

Lemma effect_VariadicCompare `{GoRange} name op is_ ps :
  op_effect op (AddVariadicCompareNode name op is_ ps).
Proof.
  unfold op_effect, AddVariadicCompareNode.
  eapply triple_bind; [op_run|]. intros x. eapply triple_bind; [op_run|]. intros o.
  eapply triple_bind; [op_run|]. intros ?. eapply triple_bind; [op_run|]. intros t.
  op_loop (fresh plan0 o).
  { intros y _. unfold variadic_compare_step. op_run; try (apply triple_ret; weaken). }
  op_run. op_done.
Qed.

Lemma triple_AddColumn name st opt tp :
  triple (quiet plan0) (AddColumn name st opt tp) (fresh plan0) (quiet plan0).
Proof.
  intros s Hs. destruct (quiet_AddTensor plan0 s name Hs) as [Hf _].
  by apply (quiet_upd _ _ _ (λ x, set_DType tp (set_Option opt (SetStatus st x))) Hf).
Qed.

Lemma effect_Constant name v ps : op_effect OpNameConstant (AddConstantNode name v ps).
Proof.
  unfold op_effect, AddConstantNode. eapply triple_bind; [op_run|]. intros [tp attr].
  eapply triple_bind; [apply triple_AddColumn|]. op_run. op_done.
Qed.

Lemma effect_unary name op i f attrs ps :
  (∀ t, ID (f t) = ID t) → op_effect op (unary_node name op i f attrs ps).
Proof.
  intros Hf. unfold op_effect, unary_node. eapply triple_bind; [op_run|]. intros o.
  eapply triple_bind; [by apply triple_upd|]. op_run. op_done.
Qed.

(** Operations that look at their input before [unary_node]. *)
Lemma effect_tensor_at {A} op i (k : Tensor → MB A) :
  (∀ t, op_effect op (k t)) → op_effect op (t ← tensor_at i; k t).
Proof.
  intros Hk. unfold op_effect. eapply triple_bind; [op_run|]. intros t.
  eapply triple_conseq; [apply Hk|weaken|done].
Qed.
Lemma effect_fail {A} op e : op_effect op (fail e : MB A).
Proof. by apply triple_fail. Qed.

Lemma effect_Not name i ps : op_effect OpNameNot (AddNotNode name i ps).
Proof. by apply effect_unary. Qed.
Lemma effect_IsNull name i : op_effect OpNameIsNull (AddIsNullNode name i).
Proof. apply effect_tensor_at. intros t. by apply effect_unary. Qed.
Lemma effect_Trigonometric name op i ps : op_effect op (AddTrigonometricFunction name op i ps).
Proof.
  apply effect_tensor_at. intros t.
  destruct (negb _); [apply effect_fail|by apply effect_unary].
Qed.
Lemma effect_UnaryNumeric name op i tp ps : op_effect op (AddUnaryNumericNode name op i tp ps).
Proof.
  apply effect_tensor_at. intros t.
  destruct (negb _); [apply effect_fail|by apply effect_unary].
Qed.
Lemma effect_Cast name tp i ps : op_effect OpNameCast (AddCastNode name tp i ps).
Proof.
  apply effect_tensor_at. intros t.
  destruct (_ && _); [apply effect_fail|by apply effect_unary].
Qed.
Lemma effect_Shape name i axis p : op_effect OpNameShape (AddShapeNode name i axis p).
Proof. apply triple_wrapErr. by apply effect_unary. Qed.

Lemma effect_IfNull name e a : op_effect OpNameIfNull (AddIfNullNode name e a).
Proof. unfold op_effect, AddIfNullNode. op_run. op_done. Qed.

Lemma triple_same_private who o l :
  triple (quiet plan0) (check_same_private who o l) (λ _, quiet plan0) (quiet plan0).
Proof.
  revert o. induction l as [|i l IH]; intros o; [op_done|]. cbn [check_same_private].
  eapply triple_bind; [op_run|]. intros t.
  op_run1; [op_run|]. destruct o as [o|]; [op_run1; [op_run|]|];
    (eapply triple_conseq; [apply IH|weaken|done]).
Qed.

Lemma effect_Coalesce name l : op_effect OpNameCoalesce (AddCoalesceNode name l).
Proof.
  unfold op_effect, AddCoalesceNode. eapply triple_bind; [apply triple_same_private|].
  intros ?. eapply triple_bind; [op_run|]. intros x. eapply triple_bind; [op_run|]. intros o.
  eapply triple_bind; [op_run|]. intros t. eapply triple_bind; [op_run|]. intros ?.
  apply (triple_bind _ _ _ (λ _, fresh plan0 o)); [op_run; op_done|].
  op_run. op_done.
Qed.

Lemma effect_ArrowFunc {F} (tn : F → string) ser name f opt l tp :
  op_effect OpNameArrowFunc (AddArrowFuncNode tn ser name f opt l tp).
Proof.
  unfold op_effect, AddArrowFuncNode. eapply triple_bind; [apply triple_same_private|].
  op_run. op_done.
Qed.

Lemma effect_Limit name l off cnt ps : op_effect OpNameLimit (AddLimitNode name l off cnt ps).
Proof.
  unfold op_effect, AddLimitNode.
  eapply triple_bind; [apply triple_AddTensorAs_all|]. intros o. op_run. op_done.
Qed.

Lemma effect_BroadcastTo name l r : op_effect OpNameBroadcastTo (AddBroadcastToNode name l r).
Proof.
  unfold op_effect, AddBroadcastToNode. eapply triple_bind; [op_run|]. intros s.
  eapply triple_bind.
  { eapply (triple_conseq _ (quiet plan0));
      [apply (triple_foldlM (λ _, quiet plan0))|weaken|intros ? ? HQ; exact HQ].
    intros a x _. unfold broadcast_step. op_run; apply triple_ret; weaken. }
  op_run. op_done.
Qed.

Lemma effect_Replicate name l r lo ro attr ps :
  op_effect OpNameReplicate (AddReplicateNode name l r lo ro attr ps).
Proof.
  unfold op_effect, AddReplicateNode. destruct l as [|x l]; [op_run|].
  destruct r as [|y r]; [op_run|]. op_run1; [op_run|].
  eapply triple_bind; [op_run|]. intros tx.
  apply (triple_bind _ _ _ (λ _, quiet plan0)); [op_run; apply triple_ret; weaken|].
  intros ?. op_loop (quiet plan0).
  { intros z _. unfold check_replicate. op_run. apply triple_ret. weaken. }
  intros ?. eapply triple_bind; [op_run|]. intros ty. op_loop (quiet plan0).
  { intros z _. unfold check_replicate. op_run. apply triple_ret. weaken. }
  intros ?. eapply triple_conseq; [apply triple_AddExecutionNode|weaken|].
  intros n s. naive_solver.
Qed.

Lemma effect_ReduceAgg agg i attr :
  match ReduceAggOp !! agg with
  | Some op => op_effect op (AddReduceAggNode agg i attr)
  | None => True
  end.
Proof.
  unfold op_effect, AddReduceAggNode. destruct (ReduceAggOp !! agg) as [op|]; [|done].
  op_run. op_done.
Qed.
End effects.

(** ** Results of the operations that hand a value to a party *)
Lemma as_node_spec s i t s2 o f s3 u name op attrs ps s4 n :
  builder_wf s → Tensors s !! i = Some t → AddTensorAs i s = (s2, Ok o) →
  upd_tensor o f s2 = (s3, Ok u) → (∀ x, ID (f x) = ID x) →
  AddExecutionNode name op {[ In := [i] ]} {[ Out := [o] ]} attrs ps s3 = (s4, Ok n) →
  adds s n s4 ∧ OpType n = op ∧ Inputs n = {[ In := [i] ]} ∧ Outputs n = {[ Out := [o] ]}
  ∧ Parties n = ps ∧ attrs ⊆ Attributes n ∧ o = tensorNum s
  ∧ Tensors s4 !! i = Some t ∧ Tensors s4 !! o = Some (f (tensor_as o t)).
Proof.
  intros Hwf Ht Has Hupd Hf Hn. injection Hupd as <- _.
  destruct (AddTensorAs_spec s s i t (quiet_refl s Hwf) Ht) as (s2' & Has' & Hfr & Hold & Hnew).
  rewrite Has in Has'. simplify_eq.
  pose proof (quiet_upd _ _ _ f Hfr Hf) as [Hq _].
  pose proof (triple_AddExecutionNode s name op {[ In := [i] ]} {[ Out := [tensorNum s] ]}
    attrs ps _ Hq) as Hspec. cbn [upd_tensor modify fst] in Hspec. rewrite Hn in Hspec.
  destruct Hspec as (Hadds & _ & ? & ? & ? & ? & ?).
  assert (Tensors s4 = alter f (tensorNum s) (Tensors s2')) as Hts.
  { by apply AddExecutionNode_Ok in Hn as (opDef & _ & _ & _ & ->). }
  assert (i < tensorNum s)%nat as Hi.
  { destruct Hwf as [-> _]. by eapply lookup_lt_Some. }
  split_and!; try done.
  - rewrite Hts, list_lookup_alter_ne, Hold by lia. done.
  - by rewrite Hts, list_lookup_alter_eq, Hnew.
Qed.

Definition reveal_node (s s' : GraphBuilder) (i o : nat) (t t' : Tensor)
    (n : ExecutionNode) : Prop :=
  adds s n s' ∧ Inputs n = {[ In := [i] ]} ∧ Outputs n = {[ Out := [o] ]}
  ∧ o = tensorNum s ∧ Tensors s !! i = Some t ∧ Tensors s' !! i = Some t
  ∧ Tensors s' !! o = Some t'.

Lemma tensor_at_Ok t s s' x : tensor_at t s = (s', Ok x) ↔ s' = s ∧ Tensors s !! t = Some x.
Proof. unfold tensor_at. destruct (Tensors s !! t); naive_solver. Qed.

Ltac reveal_inv H :=
  m_inv_all; subst;
  eapply as_node_spec in H as (? & ? & ? & ? & ? & Hat & ? & ? & ?);
    [|eassumption..|by intros []].

Lemma AddCopyNode_Ok name i p q s s' o :
  builder_wf s → AddCopyNode name i p q s = (s', Ok o) →
  ∃ t n, reveal_node s s' i o t (set_OwnerPartyCode q (tensor_as o t)) n
    ∧ OpType n = OpNameCopy ∧ IsVisibleFor (CC t) q = true ∧ Parties n = [p; q]
    ∧ Attributes n !! OutputPartyCodesAttr = Some (SetString q).
Proof.
  intros Hwf H. unfold AddCopyNode in H. apply M_bind_Ok in H as (t & s1 & Ht & H).
  apply tensor_at_Ok in Ht as [-> Ht].
  destruct (IsVisibleFor (CC t) q) eqn:Hvis; [|discriminate]. cbn [negb] in H.
  reveal_inv H1. exists t, x3. split; [done|]. split_and!; try done.
  eapply lookup_weaken; [|exact Hat]. reflexivity.
Qed.

Lemma AddMakePrivateNode_Ok name i p ps s s' o :
  builder_wf s → AddMakePrivateNode name i p ps s = (s', Ok o) →
  ∃ t n, reveal_node s s' i o t
      (set_SecretStringOwners [] (set_OwnerPartyCode p
         (SetStatus TENSORSTATUS_PRIVATE (tensor_as o t)))) n
    ∧ OpType n = OpNameMakePrivate ∧ IsVisibleFor (CC t) p = true ∧ Parties n = ps
    ∧ Attributes n !! RevealToAttr = Some (SetString p).
Proof.
  intros Hwf H. unfold AddMakePrivateNode in H. apply M_bind_Ok in H as (t & s1 & Ht & H).
  apply tensor_at_Ok in Ht as [-> Ht].
  destruct (IsVisibleFor (CC t) p) eqn:Hvis; [|discriminate]. cbn [negb] in H.
  reveal_inv H1. exists t, x3. split; [done|]. split_and!; try done.
  eapply lookup_weaken; [|exact Hat]. reflexivity.
Qed.

Lemma forM_check {A} (f : A → bool) e l (s s' : GraphBuilder) u :
  forM (λ p, if negb (f p) then fail e else mret tt) l s = (s', Ok u) →
  s' = s ∧ ∀ p, p ∈ l → f p = true.
Proof.
  revert s. induction l as [|x l IH]; intros s H.
  { injection H as <- _. split; [done|set_solver]. }
  cbn [forM] in H. apply M_bind_Ok in H as ([] & s1 & Hx & H).
  destruct (f x) eqn:Hf; [|discriminate]. injection Hx as <-.
  apply IH in H as [-> Hl]. split; [done|]. set_solver.
Qed.

Lemma AddMakePublicNode_Ok name i ps s s' o :
  builder_wf s → AddMakePublicNode name i ps s = (s', Ok o) →
  ∃ t n, reveal_node s s' i o t (SetStatus TENSORSTATUS_PUBLIC (tensor_as o t)) n
    ∧ OpType n = OpNameMakePublic ∧ Parties n = ps
    ∧ ∀ p, p ∈ ps → IsVisibleFor (CC t) p = true.
Proof.
  intros Hwf H. unfold AddMakePublicNode in H. apply M_bind_Ok in H as (t & s1 & Ht & H).
  apply tensor_at_Ok in Ht as [-> Ht].
  apply M_bind_Ok in H as (u & s2 & Hvis & H). apply forM_check in Hvis as [-> Hvis].
  reveal_inv H1. exists t, x3. split; [done|]. split_and!; done.
Qed.

Lemma upd_tensor_compose o f g s :
  (upd_tensor o g (upd_tensor o f s).1) = upd_tensor o (g ∘ f) s.
Proof.
  unfold upd_tensor, modify. simpl.
  assert (alter g o (alter f o (Tensors s)) = alter (g ∘ f) o (Tensors s)) as ->; [|done].
  apply list_eq. intros j. destruct (decide (j = o)) as [->|].
  - rewrite !list_lookup_alter_eq. by destruct (Tensors s !! o).
  - by rewrite !list_lookup_alter_ne by done.
Qed.

Lemma AddMakeShareNode_Ok name i ps s s' o :
  builder_wf s → AddMakeShareNode name i ps s = (s', Ok o) →
  ∃ t t' n, reveal_node s s' i o t t' n ∧ OpType n = OpNameMakeShare ∧ Parties n = ps
    ∧ t' = set_SecretStringOwners
             (if bool_decide (DType t = STRING) then [OwnerPartyCode t]
              else SecretStringOwners t)
             (set_OwnerPartyCode "" (SetStatus TENSORSTATUS_SECRET (tensor_as o t))).
Proof.
  intros Hwf H. unfold AddMakeShareNode in H.
  apply M_bind_Ok in H as (o' & s2 & Has & H). apply M_bind_Ok in H as (t & s3 & Ht & H).
  apply tensor_at_Ok in Ht as [-> Ht].
  assert (Tensors s !! i = Some t) as Ht0.
  { destruct (Tensors s !! i) as [t0|] eqn:Ht0.
    - destruct (AddTensorAs_spec s s i t0 (quiet_refl s Hwf) Ht0) as (s2' & E & _ & Hold & _).
      rewrite Has in E. injection E as -> ->. rewrite <- Hold in Ht0; [congruence|].
      destruct Hwf as [-> _]. by eapply lookup_lt_Some.
    - unfold AddTensorAs, mbind, M_bind, tensor_at in Has. by rewrite Ht0 in Has. }
  apply M_bind_Ok in H as ([] & s3 & Hu1 & H). injection Hu1 as <-.
  apply M_bind_Ok in H as ([] & s4 & Hu2 & H).
  apply M_bind_Ok in H as (n & s5 & Hn & H). apply M_ret_Ok in H as [-> ->].
  destruct (bool_decide (DType t = STRING)) eqn:Hd.
  - change (upd_tensor o (set_SecretStringOwners [OwnerPartyCode t])
      (upd_tensor o (λ o, set_OwnerPartyCode "" (SetStatus TENSORSTATUS_SECRET o)) s2).1
      = (s4, Ok ())) in Hu2. rewrite upd_tensor_compose in Hu2.
    eapply as_node_spec in Hn as (? & ? & ? & ? & ? & _ & ? & ? & ?); [|eassumption..|by intros []].
    exists t. eexists. exists n.
    split; [do 6 (split; [eassumption|]); eassumption|]. by rewrite H0, H3, Hd.
  - injection Hu2 as <-.
    eapply as_node_spec in Hn as (? & ? & ? & ? & ? & _ & ? & ? & ?);
      [|eassumption..|reflexivity|by intros []].
    exists t. eexists. exists n.
    split; [do 6 (split; [eassumption|]); eassumption|]. rewrite H0, H3, Hd. by destruct t.
Qed.

(** ** The plan as a state machine *)
Section machine.
Context `{GoRange} {F : Type} (TypeName : F → string) (SerializeOptions : F → res (list Z)).

(** One constructor per [Add...Node] operation of the builder. *)
Inductive builder_op :=
| RunSQL (name : string) (output : list nat) (sql : string) (refs : list string) (p : string)
| Publish (name : string) (i o : list nat) (ps : list string)
| InsertTable (name : string) (i o : list nat) (p : string) (opt : InsertTableOption)
| DumpFile (name : string) (i o : list nat) (opt : SelectIntoOption) (pf : PartyFile)
| Copy (name : string) (i : nat) (p q : string)
| MakePrivate (name : string) (i : nat) (p : string) (ps : list string)
| MakeShare (name : string) (i : nat) (ps : list string)
| MakePublic (name : string) (i : nat) (ps : list string)
| Join_ (name : string) (l r : list nat) (a : JoinNodeArgs)
| SecretJoin (name : string) (lk rk lp rp : list nat) (ps : list string)
| FilterByIndex (name : string) (f : nat) (ts : list nat) (p : string)
| Filter_ (name : string) (i : list nat) (mask : nat) (ps : list string)
| VariadicCompare (name op : string) (i : list nat) (ps : list string)
| Constant_ (name : string) (value : Datum) (ps : list string)
| Not_ (name : string) (i : nat) (ps : list string)
| IsNull (name : string) (i : nat)
| Trigonometric (name op : string) (i : nat) (ps : list string)
| UnaryNumeric (name op : string) (i : nat) (tp : PrimitiveDataType) (ps : list string)
| Cast_ (name : string) (tp : PrimitiveDataType) (i : nat) (ps : list string)
| IfNull (name : string) (e a : nat)
| Coalesce (name : string) (i : list nat)
| ArrowFunc (name f : string) (opt : option F) (i : list nat) (tp : PrimitiveDataType)
| ReduceAgg (agg : string) (i : nat) (attr : gmap string Attribute)
| Shape_ (name : string) (i : nat) (axis : Z) (p : string)
| BroadcastTo (name : string) (i : list nat) (r : nat)
| Limit (name : string) (i : list nat) (off cnt : Z) (ps : list string)
| Replicate (name : string) (l r lo ro : list nat) (attr : gmap string Attribute)
    (ps : list string).

Definition discard {A} (m : MB A) : MB () := _ ← m; mret tt.

Definition run_op (o : builder_op) : MB () :=
  match o with
  | RunSQL name output sql refs p => discard (AddRunSQLNode name output sql refs p)
  | Publish name i o ps => discard (AddPublishNode name i o ps)
  | InsertTable name i o p opt => discard (AddInsertTableNode name i o p opt)
  | DumpFile name i o opt pf => discard (AddDumpFileNodeForParty name i o opt pf)
  | Copy name i p q => discard (AddCopyNode name i p q)
  | MakePrivate name i p ps => discard (AddMakePrivateNode name i p ps)
  | MakeShare name i ps => discard (AddMakeShareNode name i ps)
  | MakePublic name i ps => discard (AddMakePublicNode name i ps)
  | Join_ name l r a => discard (AddJoinNode name l r a)
  | SecretJoin name lk rk lp rp ps => discard (AddSecretJoinNode name lk rk lp rp ps)
  | FilterByIndex name f ts p => discard (AddFilterByIndexNode name f ts p)
  | Filter_ name i mask ps => discard (AddFilterNode name i mask ps)
  | VariadicCompare name op i ps => discard (AddVariadicCompareNode name op i ps)
  | Constant_ name value ps => discard (AddConstantNode name value ps)
  | Not_ name i ps => discard (AddNotNode name i ps)
  | IsNull name i => discard (AddIsNullNode name i)
  | Trigonometric name op i ps => discard (AddTrigonometricFunction name op i ps)
  | UnaryNumeric name op i tp ps => discard (AddUnaryNumericNode name op i tp ps)
  | Cast_ name tp i ps => discard (AddCastNode name tp i ps)
  | IfNull name e a => discard (AddIfNullNode name e a)
  | Coalesce name i => discard (AddCoalesceNode name i)
  | ArrowFunc name f opt i tp =>
      discard (AddArrowFuncNode TypeName SerializeOptions name f opt i tp)
  | ReduceAgg agg i attr => discard (AddReduceAggNode agg i attr)
  | Shape_ name i axis p => discard (AddShapeNode name i axis p)
  | BroadcastTo name i r => discard (AddBroadcastToNode name i r)
  | Limit name i off cnt ps => discard (AddLimitNode name i off cnt ps)
  | Replicate name l r lo ro attr ps => discard (AddReplicateNode name l r lo ro attr ps)
  end.

(** The operator of the node an operation adds. *)
Definition op_type (o : builder_op) : string :=
  match o with
  | RunSQL _ _ _ _ _ => OpNameRunSQL
  | Publish _ _ _ _ => OpNamePublish
  | InsertTable _ _ _ _ _ => OpNameInsertTable
  | DumpFile _ _ _ _ _ => OpNameDumpFile
  | Copy _ _ _ _ => OpNameCopy
  | MakePrivate _ _ _ _ => OpNameMakePrivate
  | MakeShare _ _ _ => OpNameMakeShare
  | MakePublic _ _ _ => OpNameMakePublic
  | Join_ _ _ _ _ => OpNameJoin
  | SecretJoin _ _ _ _ _ _ => OpNameSecretJoin
  | FilterByIndex _ _ _ _ => OpNameFilterByIndex
  | Filter_ _ _ _ _ => OpNameFilter
  | VariadicCompare _ op _ _ => op
  | Constant_ _ _ _ => OpNameConstant
  | Not_ _ _ _ => OpNameNot
  | IsNull _ _ => OpNameIsNull
  | Trigonometric _ op _ _ => op
  | UnaryNumeric _ op _ _ _ => op
  | Cast_ _ _ _ _ => OpNameCast
  | IfNull _ _ _ => OpNameIfNull
  | Coalesce _ _ => OpNameCoalesce
  | ArrowFunc _ _ _ _ _ => OpNameArrowFunc
  | ReduceAgg agg _ _ => default "" (ReduceAggOp !! agg)
  | Shape_ _ _ _ _ => OpNameShape
  | BroadcastTo _ _ _ => OpNameBroadcastTo
  | Limit _ _ _ _ _ => OpNameLimit
  | Replicate _ _ _ _ _ _ _ => OpNameReplicate
  end.

Lemma effect_discard {A} s op (m : MB A) : op_effect s op m → op_effect s op (discard m).
Proof.
  intros Hm. unfold op_effect, discard. eapply triple_bind; [exact Hm|].
  intros a. by apply triple_ret.
Qed.

Lemma run_op_effect s o : op_effect s (op_type o) (run_op o).
Proof.
  destruct o; cbn [run_op op_type]; apply effect_discard.
  - apply effect_RunSQL.
  - apply effect_Publish.
  - apply effect_InsertTable.
  - apply effect_DumpFile.
  - apply effect_Copy.
  - apply effect_MakePrivate.
  - apply effect_MakeShare.
  - apply effect_MakePublic.
  - apply effect_Join.
  - apply effect_SecretJoin.
  - apply effect_FilterByIndex.
  - apply effect_Filter.
  - apply effect_VariadicCompare.
  - apply effect_Constant.
  - apply effect_Not.
  - apply effect_IsNull.
  - apply effect_Trigonometric.
  - apply effect_UnaryNumeric.
  - apply effect_Cast.
  - apply effect_IfNull.
  - apply effect_Coalesce.
  - apply effect_ArrowFunc.
  - pose proof (effect_ReduceAgg s agg i attr) as Hr. unfold AddReduceAggNode in *.
    destruct (ReduceAggOp !! agg); [done|apply effect_fail].
  - apply effect_Shape.
  - apply effect_BroadcastTo.
  - apply effect_Limit.
  - apply effect_Replicate.
Qed.

(** A step of the translation: an operation of the builder, a new tensor, a write
    to a tensor, the names of the output, or a node of an operator that does not
    reveal data.  Nodes of the operators that the optimizer of graphs folds are also
    left to the operations of the builder.  The status and the owner of a tensor change only while no node
    refers to it; its CCL, for one, is replaced later when the tensor becomes a column
    of a result. *)
Definition revealing : list string := [OpNameCopy; OpNameMakePrivate; OpNameMakePublic].

Definition folded : list string := [OpNameConstant; OpNameBroadcastTo; OpNameCast].
Definition reserved : list string := revealing ++ folded.

Definition guarded (o : builder_op) : Prop :=
  match o with
  | VariadicCompare _ op _ _ | Trigonometric _ op _ _ | UnaryNumeric _ op _ _ _ =>
      op ∉ reserved
  | _ => True
  end.

Definition refers (n : ExecutionNode) (t : nat) : Prop :=
  ∃ k l, (Inputs n !! k = Some l ∨ Outputs n !! k = Some l) ∧ t ∈ l.

Definition sealed_write (f : Tensor → Tensor) : Prop :=
  ∀ x, tensor_status (f x) = tensor_status x ∧ OwnerPartyCode (f x) = OwnerPartyCode x.

Inductive plan_step (plan : GraphBuilder) : GraphBuilder → Prop :=
| step_op o : guarded o → plan_step plan (run_op o plan).1
| step_AddTensor name : plan_step plan (AddTensor name plan).1
| step_AddTensorAs t : plan_step plan (AddTensorAs t plan).1
| step_AddColumn name st opt tp : plan_step plan (AddColumn name st opt tp plan).1
| step_write t f :
    (∀ x, ID (f x) = ID x) →
    (∀ n, n ∈ all_nodes plan → ¬ refers n t) ∨ sealed_write f →
    plan_step plan (upd_tensor t f plan).1
| step_output names : plan_step plan (set_OutputName names plan)
| step_exec name op ins outs attrs ps :
    op ∉ reserved → plan_step plan (AddExecutionNode name op ins outs attrs ps plan).1.

Inductive reachable (pi : PartyInfo) (b : bool) : GraphBuilder → Prop :=
| reachable_new : reachable pi b (NewGraphBuilder pi b)
| reachable_step plan plan' :
    reachable pi b plan → plan_step plan plan' → reachable pi b plan'.
End machine.

(** ** Invariants of a plan *)

(** Who receives the value a revealing node moves. *)
Definition receivers (n : ExecutionNode) (out : Tensor) : list string :=
  if bool_decide (OpType n = OpNameMakePublic) then Parties n else [OwnerPartyCode out].

Definition receiver_attr (n : ExecutionNode) (out : Tensor) : Prop :=
  (OpType n = OpNameCopy →
     Attributes n !! OutputPartyCodesAttr = Some (SetString (OwnerPartyCode out)))
  ∧ (OpType n = OpNameMakePrivate →
     Attributes n !! RevealToAttr = Some (SetString (OwnerPartyCode out))).

(** A revealing node has one input and one output with the same CCL, and every
    party that receives the value may see it. *)
Definition reveal_ok (plan : GraphBuilder) (n : ExecutionNode) : Prop :=
  OpType n ∈ revealing →
  ∃ i o t t', Inputs n = {[ In := [i] ]} ∧ Outputs n = {[ Out := [o] ]}
    ∧ Tensors plan !! i = Some t ∧ Tensors plan !! o = Some t' ∧ CC t' = CC t
    ∧ receiver_attr n t'
    ∧ ∀ p, p ∈ receivers n t' → IsVisibleFor (CC t) p = true.

(** The arguments of the nodes the optimizer folds: a constant makes one tensor, a cast
    takes one and makes one, a broadcast makes one per tensor it takes besides the one it
    takes its shape from. *)
Definition shape_ok (n : ExecutionNode) : Prop :=
  (OpType n = OpNameConstant → Inputs n = ∅ ∧ ∃ o, Outputs n = {[ Out := [o] ]})
  ∧ (OpType n = OpNameCast → ∃ i o, Inputs n = {[ In := [i] ]} ∧ Outputs n = {[ Out := [o] ]})
  ∧ (OpType n = OpNameBroadcastTo → ∃ ins r outs, length outs = length ins
     ∧ Inputs n = {[ In := ins; "ShapeRefTensor" := [r] ]} ∧ Outputs n = {[ Out := outs ]}).

Definition node_streaming (st : StreamingOpType) (n : ExecutionNode) : Prop :=
  ∃ opDef, FindOpDef (OpType n) = Ok opDef ∧ opStreamingType opDef = st.

(** A pipeline of a batched plan: its nodes have one streaming type, which the
    flag records. *)
Definition pipeline_of (st : StreamingOpType) (p : PipelineExecNode) : Prop :=
  ExecutionNodes p ≠ [] ∧ Forall (node_streaming st) (ExecutionNodes p)
  ∧ Batched p = bool_decide (st = StreamingOp).

(** Neighbouring pipelines of a batched plan alternate between the two streaming
    types and the last one has the type of the last node; a plan that is not
    batched has at most one pipeline. *)
Fixpoint alternate (sts : list StreamingOpType) : Prop :=
  match sts with
  | st1 :: (st2 :: _) as sts' => st1 ≠ st2 ∧ alternate sts'
  | _ => True
  end.

Definition pipelines_ok (plan : GraphBuilder) : Prop :=
  if batched plan then
    ∃ sts, Forall2 pipeline_of sts (PipelineExeNodes plan) ∧ alternate sts
      ∧ ∀ st, last sts = Some st → preOpStreamingType plan = st
  else
    PipelineExeNodes plan = [] ∨ ∃ nodes, PipelineExeNodes plan = [mkPipelineExecNode false nodes]
      ∧ nodes ≠ [].

Lemma place_node_pipelines st n s :
  (PipelineExeNodes (place_node st n s)
     = PipelineExeNodes s
         ++ [mkPipelineExecNode (batched s && bool_decide (st = StreamingOp)) [n]]
   ∧ (PipelineExeNodes s = [] ∨ batched s = true ∧ preOpStreamingType s ≠ st))
  ∨ (∃ ps p, PipelineExeNodes s = ps ++ [p]
     ∧ PipelineExeNodes (place_node st n s)
       = ps ++ [mkPipelineExecNode
                  (if batched s && bool_decide (ExecutionNodes p = [])
                   then bool_decide (st = StreamingOp) else Batched p)
                  (ExecutionNodes p ++ [n])]
     ∧ (batched s = false ∨ ExecutionNodes p = [] ∨ preOpStreamingType s = st)).
Proof.
  unfold place_node. cbn [PipelineExeNodes].
  assert (∀ (f : PipelineExecNode → PipelineExecNode) ps p,
    alter f (length (ps ++ [p]) - 1)%nat (ps ++ [p]) = ps ++ [f p]) as Halter.
  { intros f ps p. rewrite length_app, Nat.add_sub.
    replace (length ps) with (length ps + 0)%nat by lia. by rewrite alter_app_r. }
  destruct (PipelineExeNodes s) as [|p ps _] eqn:Hps using rev_ind.
  { left. split; [|by left]. by destruct (batched s). }
  rewrite last_snoc. rewrite (bool_decide_false (length (ps ++ [p]) = 0%nat))
    by (rewrite length_app; simpl; lia). cbn [orb].
  destruct (batched s && _ && _) eqn:Hnew.
  - left. rewrite Halter. apply andb_prop in Hnew as [Hnew Hst]. apply andb_prop in Hnew as [Hb _].
    rewrite Hb. split; [done|]. right. split; [done|]. by apply bool_decide_eq_true_1 in Hst.
  - right. exists ps, p. rewrite Halter. split; [done|]. split.
    + do 4 f_equal. destruct (batched s); [|done]. cbn [andb]. rewrite length_app.
      destruct (ExecutionNodes p); [done|]. rewrite !bool_decide_false; simpl; [done..|lia].
    + destruct (batched s); [|by left]. right. cbn [andb] in Hnew.
      destruct (ExecutionNodes p); [by left|]. right. cbn [length] in Hnew.
      rewrite bool_decide_true in Hnew by lia. cbn [andb] in Hnew.
      by apply bool_decide_eq_false_1, dec_stable in Hnew.
Qed.

Lemma all_nodes_place st n s : all_nodes (place_node st n s) = all_nodes s ++ [n].
Proof.
  unfold all_nodes. destruct (place_node_pipelines st n s) as [[-> _]|(ps & p & -> & -> & _)].
  - by rewrite bind_app.
  - rewrite !bind_app. simpl. by rewrite !app_nil_r, (assoc_L (++)).
Qed.

Lemma alternate_snoc sts st :
  alternate sts → (∀ st', last sts = Some st' → st' ≠ st) → alternate (sts ++ [st]).
Proof.
  induction sts as [|st1 [|st2 sts] IH]; simpl; [done| |].
  - intros _ H. split; [by apply H|done].
  - intros [Hne Ha] H. split; [done|]. by apply IH.
Qed.

Lemma pipelines_ok_place opDef n s :
  FindOpDef (OpType n) = Ok opDef → pipelines_ok s →
  pipelines_ok (place_node (opStreamingType opDef) n s).
Proof.
  intros Hop Hok. set (st := opStreamingType opDef). unfold pipelines_ok in *.
  assert (node_streaming st n) as Hst by (by exists opDef).
  change (batched (place_node st n s)) with (batched s).
  change (preOpStreamingType (place_node st n s)) with st.
  destruct (place_node_pipelines st n s) as [[-> Hnew]|(ps & p & Hps & -> & Hold)].
  - destruct (batched s).
    + destruct Hok as (sts & Hf & Halt & Hlast). exists (sts ++ [st]). split_and!.
      * apply Forall2_app; [done|]. constructor; [|done]. split; [done|].
        split; [by constructor|done].
      * apply alternate_snoc; [done|]. intros st' Hl.
        destruct Hnew as [Hps|[_ ?]]; [|by apply Hlast in Hl as <-].
        rewrite Hps in Hf. apply Forall2_nil_inv_r in Hf as ->. done.
      * intros st'. rewrite last_snoc. congruence.
    + destruct Hnew as [Hnew|[? _]]; [|done]. right. exists [n]. by rewrite Hnew.
  - rewrite Hps in Hok. destruct (batched s).
    + destruct Hok as (sts & Hf & Halt & Hlast).
      apply Forall2_app_inv_r in Hf as (sts' & l & Hf & Hp & ->).
      inversion Hp as [|st' ? ? ? Hp' Hnil]; subst. inversion Hnil; subst. clear Hp Hnil.
      destruct Hp' as (Hne & Hall & Hb).
      assert (st' = st) as ->.
      { destruct Hold as [?|[?|Hold]]; [done..|]. rewrite <- Hold. symmetry. apply Hlast.
        by rewrite last_snoc. }
      exists (sts' ++ [st]). split_and!; [|done|intros st'; rewrite last_snoc; congruence].
      apply Forall2_app; [done|]. constructor; [|done]. split_and!; simpl.
      * by destruct (ExecutionNodes p).
      * apply Forall_app. split; [done|by constructor].
      * by rewrite bool_decide_false.
    + destruct Hok as [Hok|(nodes & Hok & Hne)]; [by destruct ps|].
      destruct ps as [|? [|]]; [|done..]. simpl in Hok. injection Hok as ->. right.
      exists (nodes ++ [n]). split; [done|]. by destruct nodes.
Qed.

(** The check of a node depends only on the statuses of its tensors. *)
Definition keeps (n : ExecutionNode) (s s' : GraphBuilder) : Prop :=
  ∀ t x, refers n t → Tensors s !! t = Some x →
    ∃ y, Tensors s' !! t = Some y ∧ tensor_status y = tensor_status x.

Lemma param_ok_mono {T} (S1 S2 : T → res TensorStatus) cs σ arguments param :
  (∀ l a st, arguments !! ParamName param = Some l → a ∈ l → S1 a = Ok st → S2 a = Ok st) →
  param_ok S1 cs σ arguments param → param_ok S2 cs σ arguments param.
Proof.
  intros HS. unfold param_ok. destruct (arguments !! ParamName param) as [[|a l]|]; [done| |done].
  intros [Ha Hc]. split; [|done]. eapply HS; [done|set_solver|done].
Qed.

Lemma node_checked_keep s s' n : keeps n s s' → node_checked s n → node_checked s' n.
Proof.
  intros Hk (op & Hop & Hc). exists op. split; [done|].
  apply check_status_iff in Hc as (Hi & Ho & σ & H1 & H2).
  apply check_status_iff. split; [done|]. split; [done|]. exists σ.
  assert (∀ t st, refers n t → status_of s t = Ok st → status_of s' t = Ok st) as Hst.
  { intros t st Hr Hs. unfold status_of in *. destruct (Tensors s !! t) eqn:Ht; [|done].
    destruct (Hk t _ Hr Ht) as (y & -> & ->). done. }
  split; (eapply Forall_impl; [eassumption|]); intros param; apply param_ok_mono;
    intros l a st Hl Ha; apply Hst; unfold refers; eauto.
Qed.

Lemma grows_keeps s s' n : builder_wf s → grows s s' → keeps n s s'.
Proof.
  intros [Hlen _] Hg t x _ Ht. exists x. rewrite (grows_tensors _ _ Hg); [done|].
  rewrite Hlen. by eapply lookup_lt_Some.
Qed.

Record plan_inv (plan : GraphBuilder) : Prop := {
  inv_wf : builder_wf plan;
  inv_pipelines : pipelines_ok plan;
  inv_checked : Forall (node_checked plan) (all_nodes plan);
}.

Lemma plan_inv_new pi b : plan_inv (NewGraphBuilder pi b).
Proof.
  split; [split; [done|]; set_solver| |constructor].
  unfold pipelines_ok. destruct b; [|by left]. by exists [].
Qed.

Lemma plan_inv_quiet s s' : plan_inv s → quiet s s' → plan_inv s'.
Proof.
  intros [Hwf Hp Hc] [Hg [Hps Hpre]].
  assert (all_nodes s' = all_nodes s) as Hall by (unfold all_nodes; by rewrite Hps).
  split.
  - by destruct Hg.
  - unfold pipelines_ok in *. by rewrite Hps, Hpre, (grows_batched _ _ Hg).
  - rewrite Hall. eapply Forall_impl; [exact Hc|]. intros n. by apply node_checked_keep, grows_keeps.
Qed.

Lemma plan_inv_adds s n s' : plan_inv s → adds s n s' → plan_inv s'.
Proof.
  intros Hinv (s1 & op & Hq & Hop & Hc & ->).
  apply (plan_inv_quiet _ _ Hinv) in Hq. destruct Hq as [Hwf Hp Hall].
  split; [exact Hwf|by apply pipelines_ok_place|]; rewrite all_nodes_place.
  apply Forall_app. split; [exact Hall|]. constructor; [|constructor].
  exists op. split; [exact Hop|exact Hc].
Qed.

Lemma adds_nodes s n s' : adds s n s' → all_nodes s' = all_nodes s ++ [n].
Proof.
  intros (s1 & op & (_ & Hps & _) & _ & _ & ->). rewrite all_nodes_place.
  unfold all_nodes. by rewrite Hps.
Qed.

Lemma ReduceAggOp_plain agg : default "" (ReduceAggOp !! agg) ∉ reserved.
Proof.
  destruct (ReduceAggOp !! agg) as [op|] eqn:Hop; cbn [default].
  - revert agg op Hop. change (map_Forall (λ _ op, op ∉ reserved) ReduceAggOp).
    apply (bool_decide_unpack _). vm_compute. exact I.
  - apply (bool_decide_unpack _). vm_compute. exact I.
Qed.

Lemma not_reserved op : (op ∉ reserved) ↔ (op ∉ revealing) ∧ (op ∉ folded).
Proof. apply not_elem_of_app. Qed.

Lemma reveal_node_ok s s' i o t t' n :
  reveal_node s s' i o t t' n → CC t' = CC t → receiver_attr n t' →
  (∀ p, p ∈ receivers n t' → IsVisibleFor (CC t) p = true) → reveal_ok s' n.
Proof.
  intros (_ & ? & ? & _ & _ & ? & ?) ? ? ? _. exists i, o, t, t'. split_and!; done.
Qed.

Lemma tensor_as_CC o t : CC (tensor_as o t) = CC t.
Proof. unfold tensor_as, copy_fields. simpl. apply Clone_id. Qed.
Lemma CC_set_OwnerPartyCode v t : CC (set_OwnerPartyCode v t) = CC t.
Proof. reflexivity. Qed.
Lemma CC_SetStatus v t : CC (SetStatus v t) = CC t.
Proof. reflexivity. Qed.
Lemma CC_set_SecretStringOwners v t : CC (set_SecretStringOwners v t) = CC t.
Proof. reflexivity. Qed.
Create Rewrite HintDb tensor_cc.
#[export] Hint Rewrite tensor_as_CC CC_set_OwnerPartyCode CC_SetStatus
  CC_set_SecretStringOwners : tensor_cc.

Lemma Copy_reveal name i p q s s' o :
  builder_wf s → AddCopyNode name i p q s = (s', Ok o) → ∃ n, adds s n s' ∧ OpType n = OpNameCopy ∧ reveal_ok s' n.
Proof.
  intros Hwf H. apply AddCopyNode_Ok in H as (t & n & Hn & Hop & Hvis & _ & Hat); [|done].
  exists n. split; [apply Hn|]. split; [done|]. eapply reveal_node_ok; [exact Hn|by autorewrite with tensor_cc|..].
  - split; rewrite Hop; [done|discriminate].
  - unfold receivers. rewrite Hop, bool_decide_false by discriminate.
    by intros p' ->%list_elem_of_singleton.
Qed.

Lemma MakePrivate_reveal name i p ps s s' o :
  builder_wf s → AddMakePrivateNode name i p ps s = (s', Ok o) →
  ∃ n, adds s n s' ∧ OpType n = OpNameMakePrivate ∧ reveal_ok s' n.
Proof.
  intros Hwf H. apply AddMakePrivateNode_Ok in H as (t & n & Hn & Hop & Hvis & _ & Hat); [|done].
  exists n. split; [apply Hn|]. split; [done|]. eapply reveal_node_ok; [exact Hn|by autorewrite with tensor_cc|..].
  - split; rewrite Hop; [discriminate|done].
  - unfold receivers. rewrite Hop, bool_decide_false by discriminate.
    by intros p' ->%list_elem_of_singleton.
Qed.

Lemma MakePublic_reveal name i ps s s' o :
  builder_wf s → AddMakePublicNode name i ps s = (s', Ok o) →
  ∃ n, adds s n s' ∧ OpType n = OpNameMakePublic ∧ reveal_ok s' n.
Proof.
  intros Hwf H. apply AddMakePublicNode_Ok in H as (t & n & Hn & Hop & Hps & Hvis); [|done].
  exists n. split; [apply Hn|]. split; [done|]. eapply reveal_node_ok; [exact Hn|by autorewrite with tensor_cc|..].
  - split; rewrite Hop; discriminate.
  - unfold receivers. by rewrite Hop, bool_decide_true, Hps.
Qed.

Section machine_invariants.
Context `{GoRange} {F : Type} (TypeName : F → string) (SerializeOptions : F → res (list Z)).
Local Notation run := (run_op TypeName SerializeOptions).

(** The node a successful operation adds may hand its value to its receivers. *)
Lemma run_op_Ok (o : builder_op) s s' :
  guarded o → builder_wf s → run o s = (s', Ok tt) →
  ∃ n, adds s n s' ∧ OpType n = op_type o ∧ reveal_ok s' n.
Proof.
  intros Hg Hwf Hrun.
  pose proof (run_op_effect TypeName SerializeOptions s o s (quiet_refl s Hwf)) as He.
  rewrite Hrun in He. destruct He as (n & Hadds & Hty).
  destruct (decide (op_type o ∈ revealing)) as [Hin|Hin];
    [|exists n; split_and!; [done..|]; intros Hrev; by rewrite Hty in Hrev].
  clear n Hadds Hty.
  destruct o; cbn [run_op op_type guarded] in *;
    try (apply not_reserved in Hg as [Hg _]; by destruct (Hg Hin));
    try (exfalso; unfold revealing in Hin; rewrite !elem_of_cons, elem_of_nil in Hin;
         destruct Hin as [E|[E|[E|[]]]]; discriminate E).
  1-3: apply M_bind_Ok in Hrun as (o' & s1 & Hrun & Hret); apply M_ret_Ok in Hret as [-> _].
  - by eapply Copy_reveal.
  - by eapply MakePrivate_reveal.
  - by eapply MakePublic_reveal.
  - destruct (proj1 (not_reserved _) (ReduceAggOp_plain agg)) as [Hn _]. by destruct (Hn Hin).
Qed.

(** *** The shape of folded nodes *)
Lemma unary_node_shape plan0 name op i f attrs ps :
  (∀ t, ID (f t) = ID t) →
  triple (quiet plan0) (unary_node name op i f attrs ps)
    (λ o s, ∃ n, adds plan0 n s ∧ OpType n = op ∧ Inputs n = {[ In := [i] ]}
                 ∧ Outputs n = {[ Out := [o] ]}) (quiet plan0).
Proof.
  intros Hf. unfold unary_node. eapply triple_bind; [op_run|]. intros o.
  eapply triple_bind; [by apply triple_upd|]. op_run. op_done.
Qed.

Lemma Constant_shape plan0 name v ps :
  triple (quiet plan0) (AddConstantNode name v ps)
    (λ o s, ∃ n, adds plan0 n s ∧ OpType n = OpNameConstant ∧ Inputs n = ∅
                 ∧ Outputs n = {[ Out := [o] ]}) (quiet plan0).
Proof.
  unfold AddConstantNode. eapply triple_bind; [op_run|]. intros [tp attr].
  eapply triple_bind; [apply triple_AddColumn|]. op_run. op_done.
Qed.

Lemma BroadcastTo_shape plan0 name l r :
  triple (quiet plan0) (AddBroadcastToNode name l r)
    (λ outs s, ∃ n, adds plan0 n s ∧ OpType n = OpNameBroadcastTo
       ∧ Inputs n = {[ In := l; "ShapeRefTensor" := [r] ]} ∧ Outputs n = {[ Out := outs ]})
    (quiet plan0).
Proof.
  unfold AddBroadcastToNode. eapply triple_bind; [op_run|]. intros s.
  eapply triple_bind.
  { eapply (triple_conseq _ (quiet plan0));
      [apply (triple_foldlM (λ _, quiet plan0))|weaken|intros ? ? HQ; exact HQ].
    intros a x _. unfold broadcast_step. op_run; apply triple_ret; weaken. }
  op_run. op_done.
Qed.

Lemma broadcast_length r l acc s s' acc' :
  foldlM (broadcast_step r) acc l s = (s', Ok acc') → length acc'.2 = (length acc.2 + length l)%nat.
Proof.
  revert acc s. induction l as [|x l IH]; intros acc s Hrun; simpl in Hrun.
  - apply M_ret_Ok in Hrun as [_ ->]. simpl. lia.
  - run_bind Hrun a s1 Ha. apply IH in Hrun. rewrite Hrun. unfold broadcast_step in Ha. m_inv.
    destruct (bool_decide _) in *; m_inv; simpl; rewrite length_app; simpl; lia.
Qed.

Lemma BroadcastTo_length name l r s s' outs :
  AddBroadcastToNode name l r s = (s', Ok outs) → length outs = length l.
Proof.
  intros Hrun. unfold AddBroadcastToNode in Hrun. run_bind Hrun p s1 Hp.
  run_bind Hrun acc s2 Ha. destruct acc as [ps os]. apply broadcast_length in Ha.
  run_bind Hrun n s3 Hn. apply M_ret_Ok in Hrun as [_ <-]. done.
Qed.

Lemma shape_ok_other n : OpType n ∉ folded → shape_ok n.
Proof.
  intros Hn. unfold folded in Hn. rewrite !not_elem_of_cons in Hn. split_and!; tauto.
Qed.

Lemma discard_Ok {A} (m : MB A) s s' : discard m s = (s', Ok tt) → ∃ a, m s = (s', Ok a).
Proof. intros (a & s1 & Hm & [-> _]%M_ret_Ok)%M_bind_Ok. by exists a. Qed.

Lemma run_op_shape (o : builder_op) s s' :
  guarded o → builder_wf s → run o s = (s', Ok tt) → ∃ n, adds s n s' ∧ shape_ok n.
Proof.
  intros Hg Hwf Hrun. pose proof (quiet_refl s Hwf) as Hq.
  pose proof (run_op_effect TypeName SerializeOptions s o s Hq) as He.
  rewrite Hrun in He. destruct He as (n & Hadds & Hty).
  assert (op_type o ∉ folded ∨ op_type o ∈ folded) as [Hin|Hin]
    by (destruct (decide (op_type o ∈ folded)); auto).
  { exists n. split; [done|]. apply shape_ok_other. by rewrite Hty. }
  clear n Hadds Hty.
  destruct o; cbn [run_op op_type guarded] in *;
    try (apply not_reserved in Hg as [_ Hg]; by destruct (Hg Hin));
    try (exfalso; unfold folded in Hin; rewrite !elem_of_cons, elem_of_nil in Hin;
         destruct Hin as [E|[E|[E|[]]]]; discriminate E).
  - apply discard_Ok in Hrun as [o Hrun]. pose proof (Constant_shape s name value ps s Hq) as Hs.
    rewrite Hrun in Hs. destruct Hs as (n & Hadds & Hty & Hi & Ho). exists n. split; [done|].
    split_and!; rewrite Hty; [by eauto|discriminate..].
  - apply discard_Ok in Hrun as [o Hrun]. unfold AddCastNode in Hrun. run_bind Hrun t s1 Ht.
    unfold tensor_at in Ht. destruct (Tensors s !! i); [|discriminate]. injection Ht as -> ->.
    destruct (_ && _); [discriminate|].
    pose proof (unary_node_shape s1 name OpNameCast i (set_DType tp) ∅ ps (λ _, eq_refl) s1 Hq) as Hs.
    rewrite Hrun in Hs. destruct Hs as (n & Hadds & Hty & Hi & Ho). exists n. split; [done|].
    split_and!; rewrite Hty; [discriminate|by eauto|discriminate].
  - destruct (proj1 (not_reserved _) (ReduceAggOp_plain agg)) as [_ Hn]. by destruct (Hn Hin).
  - apply discard_Ok in Hrun as [os Hrun]. pose proof (BroadcastTo_shape s name i r s Hq) as Hs.
    rewrite Hrun in Hs. destruct Hs as (n & Hadds & Hty & Hi & Ho). exists n. split; [done|].
    apply BroadcastTo_length in Hrun. split_and!; rewrite Hty; [discriminate..|by eauto 6].
Qed.

Lemma AddColumn_quiet s name st opt tp :
  builder_wf s → quiet s (AddColumn name st opt tp s).1.
Proof.
  intros Hwf. pose proof (triple_AddColumn s name st opt tp s (quiet_refl s Hwf)) as Hf.
  by destruct (AddColumn name st opt tp s) as [s' [o| |]]; [apply Hf|..].
Qed.

Lemma plan_inv_write s t f :
  plan_inv s → (∀ x, ID (f x) = ID x) →
  (∀ n, n ∈ all_nodes s → ¬ refers n t) ∨ sealed_write f →
  plan_inv (upd_tensor t f s).1.
Proof.
  intros [[Hlen Hid] Hp Hc] Hf Hfree. split; [|exact Hp|].
  - split; simpl; [by rewrite length_alter|]. intros i x Hi.
    destruct (decide (i = t)) as [->|].
    + rewrite list_lookup_alter_eq in Hi. destruct (Tensors s !! t) eqn:E; [|done].
      simplify_eq/=. rewrite Hf. by apply Hid.
    + rewrite list_lookup_alter_ne in Hi by done. by apply Hid.
  - apply Forall_forall. intros n Hn. rewrite Forall_forall in Hc.
    eapply node_checked_keep; [|by apply Hc]. intros t' x Hrefs Hx. simpl.
    destruct (decide (t' = t)) as [->|]; [|rewrite list_lookup_alter_ne by done; by exists x].
    destruct Hfree as [Hfree|Hs]; [by destruct (Hfree n Hn)|].
    rewrite list_lookup_alter_eq, Hx. exists (f x). split; [done|]. apply Hs.
Qed.

(** A write the machine allows. *)
Definition may_write (s : GraphBuilder) (t : nat) (f : Tensor → Tensor) : Prop :=
  (∀ x, ID (f x) = ID x) ∧ ((∀ n, n ∈ all_nodes s → ¬ refers n t) ∨ sealed_write f).

(** What a step adds: nothing, or one node that reveals only what it may. *)
Lemma plan_step_nodes s s' :
  builder_wf s → plan_step TypeName SerializeOptions s s' →
  (quiet s s' ∨ (∃ t f, may_write s t f ∧ s' = (upd_tensor t f s).1)
   ∨ ∃ names, s' = set_OutputName names s)
  ∨ ∃ n, adds s n s' ∧ reveal_ok s' n.
Proof.
  intros Hwf Hstep. pose proof (quiet_refl s Hwf) as Hq.
  destruct Hstep as [o Hg|name|t|name st opt tp|t f Hf Hfree|names|name op ins outs attrs ps Hop].
  - destruct (run o s) as [s' [[]| |]] eqn:Hrun; simpl.
    1: destruct (run_op_Ok o s s' Hg Hwf Hrun) as (n & ? & _ & ?); right; eauto.
    all: left; left; pose proof (run_op_effect TypeName SerializeOptions s o s Hq) as He;
      by rewrite Hrun in He.
  - left. left. apply (quiet_AddTensor s s name Hq).
  - left. left. pose proof (triple_AddTensorAs s t s Hq) as Ht.
    destruct (AddTensorAs t s) as [s' [o| |]]; [apply Ht|done..].
  - left. left. by apply AddColumn_quiet.
  - left. right. left. by exists t, f.
  - left. right. right. eauto.
  - pose proof (triple_AddExecutionNode s name op ins outs attrs ps s Hq) as Hn.
    destruct (AddExecutionNode name op ins outs attrs ps s) as [s' [n| |]]; simpl;
      [|by left; left..].
    destruct Hn as (Hadds & _ & Hty & _). right. exists n. split; [done|].
    intros Hin. rewrite Hty in Hin. apply not_reserved in Hop as [Hop _]. by destruct (Hop Hin).
Qed.

Lemma plan_inv_step s s' :
  plan_inv s → plan_step TypeName SerializeOptions s s' → plan_inv s'.
Proof.
  intros Hinv Hstep.
  destruct (plan_step_nodes s s' (inv_wf _ Hinv) Hstep)
    as [[Hq|[(t & f & [Hf Hw] & ->)|[names ->]]]|(n & Hn & _)].
  - by eapply plan_inv_quiet.
  - by apply plan_inv_write.
  - by destruct Hinv.
  - by eapply plan_inv_adds.
Qed.

Lemma plan_step_shape s s' :
  builder_wf s → plan_step TypeName SerializeOptions s s' →
  Forall shape_ok (all_nodes s) → Forall shape_ok (all_nodes s').
Proof.
  intros Hwf Hstep Hall. pose proof (quiet_refl s Hwf) as Hq.
  assert (∀ s2, quiet s s2 → Forall shape_ok (all_nodes s2)) as Hquiet.
  { intros s2 (_ & Hps & _). unfold all_nodes. by rewrite Hps. }
  assert (∀ s2 n, adds s n s2 → shape_ok n → Forall shape_ok (all_nodes s2)) as Hadds.
  { intros s2 n Hn Hs. rewrite (adds_nodes _ _ _ Hn). by apply Forall_app_2, Forall_singleton. }
  destruct Hstep as [o Hg|name|t|name st opt tp|t f Hf Hfree|names|name op ins outs attrs ps Hop].
  - destruct (run o s) as [s2 [[]| |]] eqn:Hrun; simpl.
    1: destruct (run_op_shape o s s2 Hg Hwf Hrun) as (n & ? & ?); by eapply Hadds.
    all: apply Hquiet; pose proof (run_op_effect TypeName SerializeOptions s o s Hq) as He;
      by rewrite Hrun in He.
  - apply Hquiet, (quiet_AddTensor s s name Hq).
  - apply Hquiet. pose proof (triple_AddTensorAs s t s Hq) as Ht.
    destruct (AddTensorAs t s) as [s2 [o| |]]; [apply Ht|done..].
  - by apply Hquiet, AddColumn_quiet.
  - done.
  - done.
  - pose proof (triple_AddExecutionNode s name op ins outs attrs ps s Hq) as Hn.
    destruct (AddExecutionNode name op ins outs attrs ps s) as [s2 [n| |]]; simpl;
      [|by apply Hquiet..].
    destruct Hn as (? & _ & Hty & _). eapply Hadds; [done|]. apply shape_ok_other.
    rewrite Hty. by apply not_reserved in Hop as [_ ?].
Qed.

Lemma reachable_inv pi b s : reachable TypeName SerializeOptions pi b s → plan_inv s.
Proof. induction 1; [apply plan_inv_new|by eapply plan_inv_step]. Qed.

Lemma reachable_shapes pi b s :
  reachable TypeName SerializeOptions pi b s → Forall shape_ok (all_nodes s).
Proof.
  induction 1 as [|s s' Hr IH Hs]; [by constructor|].
  eapply plan_step_shape; [by eapply inv_wf, reachable_inv|done|done].
Qed.
End machine_invariants.

(** ** Properties of the builder *)
Section builder_properties.
Context `{GoRange} {F : Type} (TypeName : F → string) (SerializeOptions : F → res (list Z)).

(** C31: Every [Add...Node] operation keeps the tensors and nodes of the plan.
    When it succeeds, exactly one node is appended: it has the operator of the
    operation, and its arguments satisfy the operator's status constraints.  When it
    returns an error or panics, no node is appended. *)
Theorem builder_op_effect (o : builder_op) (plan : GraphBuilder) :
  builder_wf plan →
  let '(plan', r) := run_op TypeName SerializeOptions o plan in
  grows plan plan' ∧
  match r with
  | Ok _ => ∃ n, all_nodes plan' = all_nodes plan ++ [n] ∧ OpType n = op_type o
                 ∧ node_checked plan' n
  | _ => PipelineExeNodes plan' = PipelineExeNodes plan
  end.
Proof.
  intros Hwf.
  pose proof (run_op_effect TypeName SerializeOptions plan o plan (quiet_refl _ Hwf)) as He.
  destruct (run_op _ _ o plan) as [plan' [[]| |]]; [|split; apply He..].
  destruct He as (n & (plan1 & op & Hq & Hop & Hc & ->) & Hty).
  split; [by destruct Hq as [[] _]|]. exists n. rewrite all_nodes_place.
  split_and!; [by unfold all_nodes; rewrite (proj1 (proj2 Hq))|done|].
  exists op. split; [exact Hop|exact Hc].
Qed.

(** C32: In every plan the translation can reach, each node satisfies the status
    constraints its operator declares, for the statuses its tensors finally have. *)
Theorem reachable_nodes_checked (pi : PartyInfo) (b : bool) (plan : GraphBuilder) :
  reachable TypeName SerializeOptions pi b plan →
  Forall (node_checked plan) (all_nodes plan).
Proof. intros Hr. by apply reachable_inv in Hr as []. Qed.

(** In every plan the translation can reach, a Copy, MakePrivate or MakePublic
    node hands its value only to parties the CCL of the value lets see it in the
    clear: the new owner, or for MakePublic every party of the node.  The CCL is the one
    the value has in the plan in which the node was added, since a tensor may get a
    new CCL later. *)
Lemma reachable_reveals (pi : PartyInfo) (b : bool) (plan : GraphBuilder) :
  reachable TypeName SerializeOptions pi b plan →
  ∀ n, n ∈ all_nodes plan →
  ∃ plan1, reachable TypeName SerializeOptions pi b plan1
    ∧ rtc (plan_step TypeName SerializeOptions) plan1 plan
    ∧ last (all_nodes plan1) = Some n ∧ reveal_ok plan1 n.
Proof.
  induction 1 as [|s s' Hr IH Hstep]; intros n Hn; [by apply elem_of_nil in Hn|].
  assert (n ∈ all_nodes s → ∃ plan1, reachable TypeName SerializeOptions pi b plan1
    ∧ rtc (plan_step TypeName SerializeOptions) plan1 s'
    ∧ last (all_nodes plan1) = Some n ∧ reveal_ok plan1 n) as Hold.
  { intros Hin. destruct (IH n Hin) as (s1 & ? & ? & ? & ?). exists s1.
    split_and!; [done| |done..]. by eapply rtc_r. }
  destruct (plan_step_nodes TypeName SerializeOptions s s' (inv_wf _ (reachable_inv _ _ _ _ _ Hr))
    Hstep) as [Hq|(n' & Hadds & Hrev)].
  - apply Hold. destruct Hq as [(_ & Hps & _)|[(t & f & _ & ->)|[names ->]]]; [|exact Hn..].
    unfold all_nodes in *. by rewrite <- Hps.
  - rewrite (adds_nodes _ _ _ Hadds), elem_of_app, list_elem_of_singleton in Hn.
    destruct Hn as [Hn| ->]; [by apply Hold|]. exists s'.
    split_and!; [by eapply reachable_step|done| |done].
    by rewrite (adds_nodes _ _ _ Hadds), last_snoc.
Qed.

(** In every plan the translation can reach, tensor IDs are positions, and the
    pipelines are well formed: a plan that is not batched has at most one, in a
    batched plan each pipeline holds operators of one streaming type, is flagged
    accordingly, and neighbouring pipelines differ in type. *)
Theorem reachable_pipelines (pi : PartyInfo) (b : bool) (plan : GraphBuilder) :
  reachable TypeName SerializeOptions pi b plan → builder_wf plan ∧ pipelines_ok plan.
Proof. intros Hr. by apply reachable_inv in Hr as []. Qed.
End builder_properties.

(** *** A concrete plan: a column of alice is read, copied to bob, and shared. *)
#[local] Existing Instance go_range_list.
Module Demo.
Definition parties : PartyInfo :=
  mkPartyInfo [mkParticipant "alice" ["a:1"] "" ""; mkParticipant "bob" ["b:1"] "" ""].
Definition type_name (_ : ()) : string := "".
Definition serialize (_ : ()) : res (list Z) := Ok [].
Definition column : Tensor → Tensor :=
  λ t, set_OwnerPartyCode "alice" (set_CC (CreateAllPlainCCL ["alice"; "bob"]) t).
Definition plan0 (b : bool) : GraphBuilder := NewGraphBuilder parties b.
Definition plan1 (b : bool) : GraphBuilder :=
  (AddColumn "c" TENSORSTATUS_PRIVATE REFERENCE INT64 (plan0 b)).1.
Definition plan2 (b : bool) : GraphBuilder := (upd_tensor 0 column (plan1 b)).1.
Definition plan3 (b : bool) : GraphBuilder :=
  (run_op type_name serialize (RunSQL "runsql" [0%nat] "select c" ["t"] "alice") (plan2 b)).1.
Definition plan4 (b : bool) : GraphBuilder :=
  (run_op type_name serialize (Copy "copy" 0 "alice" "bob") (plan3 b)).1.
Definition plan5 (b : bool) : GraphBuilder :=
  (run_op type_name serialize (MakeShare "make_share" 1 ["alice"; "bob"]) (plan4 b)).1.

Lemma plan3_reachable b : reachable type_name serialize parties b (plan3 b).
Proof.
  eapply reachable_step; [|by apply step_op].
  eapply reachable_step; [|apply step_write; [by intros []|left]].
  - eapply reachable_step; [|apply step_AddColumn]. apply reachable_new.
  - intros n Hn. by apply elem_of_nil in Hn.
Qed.

Lemma plan5_reachable b : reachable type_name serialize parties b (plan5 b).
Proof.
  eapply reachable_step; [|by apply step_op].
  eapply reachable_step; [apply plan3_reachable|by apply step_op].
Qed.
End Demo.

Lemma builder_op_effect_witness :
  let r := run_op Demo.type_name Demo.serialize (Copy "copy" 0 "alice" "bob")
             (Demo.plan3 true) in
  r.2 = Ok tt ∧ grows (Demo.plan3 true) r.1 ∧
  ∃ n, all_nodes r.1 = all_nodes (Demo.plan3 true) ++ [n] ∧ OpType n = OpNameCopy
       ∧ node_checked r.1 n.
Proof.
  intros r.
  pose proof (builder_op_effect Demo.type_name Demo.serialize (Copy "copy" 0 "alice" "bob")
    (Demo.plan3 true) (inv_wf _ (reachable_inv _ _ _ _ _ (Demo.plan3_reachable true)))) as He.
  assert (r.2 = Ok tt) as Hr by (vm_compute; reflexivity).
  fold r in He. destruct r as [plan' res]. cbn [fst snd] in *. subst res.
  split; [reflexivity|exact He].
Defined.

Lemma reachable_nodes_checked_witness :
  length (all_nodes (Demo.plan5 true)) = 3%nat ∧
  Forall (node_checked (Demo.plan5 true)) (all_nodes (Demo.plan5 true)).
Proof.
  split; [vm_compute; reflexivity|].
  apply (reachable_nodes_checked Demo.type_name Demo.serialize Demo.parties true).
  apply Demo.plan5_reachable.
Defined.

Lemma reachable_pipelines_witness :
  Batched <$> PipelineExeNodes (Demo.plan5 true) = [false; true] ∧
  pipelines_ok (Demo.plan5 true).
Proof.
  split; [vm_compute; reflexivity|].
  apply (reachable_pipelines Demo.type_name Demo.serialize Demo.parties true).
  apply Demo.plan5_reachable.
Defined.
