(* ===== verification/Algorithm.v ===== *)
(** * Algorithms for operators (pkg/interpreter/translator/algorithm.go)

    Before a scalar operator is put in the graph, the translator enumerates
    [materializedAlgorithm]s: for every input and output tensor a placement
    (private to a party, secret shared, or public) and a cost.  The theorems state
    that no enumerated placement shows a tensor to a party its CCL hides it from,
    that the enumeration of placements is complete, that a shared algorithm is
    always offered, and that the statuses satisfy the constraints of the operator
    the algorithm is for. *)
From S2P Require Import Prelude Sliceutil Operator Ccl Graph GraphBuilder.

Definition MulComm : Z := 3.
Definition EqualComm : Z := 3.

(** ** Costs *)
Record algCost := newAlgCost { communicationCost : Z; calculationCost : Z }.

Definition calculateTotalCost (c : algCost) : Z := (communicationCost c + calculationCost c)%Z.

Definition addCost (c cost : algCost) : algCost :=
  newAlgCost (communicationCost c + communicationCost cost)%Z
    (calculationCost c + calculationCost cost)%Z.

(** ** Placements *)
Inductive placement :=
| privatePlacement (partyCode : string)
| publicPlacement (partyCodes : list string)
| sharePlacement (partyCodes : list string).

#[global] Instance placement_eq_dec : EqDecision placement.
Proof. solve_decision. Defined.

Definition Status (p : placement) : TensorStatus :=
  match p with
  | privatePlacement _ => TENSORSTATUS_PRIVATE
  | publicPlacement _ => TENSORSTATUS_PUBLIC
  | sharePlacement _ => TENSORSTATUS_SECRET
  end.

Definition partyList (p : placement) : list string :=
  match p with
  | privatePlacement partyCode => [partyCode]
  | publicPlacement partyCodes | sharePlacement partyCodes => partyCodes
  end.

(** [%d-%v] of the status and the party list: fmt separates the elements of a
    slice with blanks. *)
Definition toString (p : placement) : string :=
  pretty (TensorStatus_number (Status p)) +:+ "-[" +:+ Join (partyList p) " " +:+ "]".

Record materializedAlgorithm := mkAlg {
  cost : algCost;
  inputPlacement : gmap string (list placement);
  outputPlacement : gmap string (list placement);
}.

Notation ccl_args := (gmap string (list CCL)).

(** ** Statuses (tensor_status_conversion.go) *)
Definition areStatusesAllPrivate (ss : list TensorStatus) : bool :=
  forallb (λ s, bool_decide (s = TENSORSTATUS_PRIVATE)) ss.
Definition oneOfStatusesPrivate (ss : list TensorStatus) : bool :=
  existsb (λ s, bool_decide (s = TENSORSTATUS_PRIVATE)) ss.
Definition oneOfStatusesShare (ss : list TensorStatus) : bool :=
  existsb (λ s, bool_decide (s = TENSORSTATUS_SECRET)) ss.
Definition oneOfStatusesPublic (ss : list TensorStatus) : bool :=
  existsb (λ s, bool_decide (s = TENSORSTATUS_PUBLIC)) ss.

(** ** Placements a CCL allows *)
Definition createPlacementByCCL (cc : CCL) (allParties : list string) : list placement :=
  let '(result, isPublic) :=
    foldl (λ '(result, isPublic) party,
        if IsVisibleFor cc party then (result ++ [privatePlacement party], isPublic)
        else (result, false))
      ([sharePlacement allParties], true) allParties in
  if isPublic : bool then result ++ [publicPlacement allParties] else result.

Definition createPlacementByStatus (status : TensorStatus) (partyCodes : list string)
    : res placement :=
  match status with
  | TENSORSTATUS_PRIVATE =>
      match partyCodes with
      | [p] => Ok (privatePlacement p)
      | _ => Err "unsupported party codes number for private placement"
      end
  | TENSORSTATUS_SECRET => Ok (sharePlacement partyCodes)
  | TENSORSTATUS_PUBLIC => Ok (publicPlacement partyCodes)
  | _ => Err "unsupported status"
  end.

Definition checkPlacementCCL (pm : placement) (cc : CCL) : bool :=
  match pm with
  | privatePlacement p => IsVisibleFor cc p
  | publicPlacement ps => forallb (IsVisibleFor cc) ps
  | sharePlacement _ => true
  end.

Definition binaryIOStatusMap (left right : TensorStatus) : option TensorStatus :=
  match left, right with
  | TENSORSTATUS_PRIVATE, TENSORSTATUS_PRIVATE => Some TENSORSTATUS_PRIVATE
  | TENSORSTATUS_PRIVATE, TENSORSTATUS_PUBLIC => Some TENSORSTATUS_PRIVATE
  | TENSORSTATUS_PUBLIC, TENSORSTATUS_PRIVATE => Some TENSORSTATUS_PRIVATE
  | TENSORSTATUS_SECRET, TENSORSTATUS_SECRET => Some TENSORSTATUS_SECRET
  | TENSORSTATUS_PUBLIC, TENSORSTATUS_SECRET => Some TENSORSTATUS_SECRET
  | TENSORSTATUS_SECRET, TENSORSTATUS_PUBLIC => Some TENSORSTATUS_SECRET
  | _, _ => None
  end.

(** ** Binary operators *)

(** The body of the two loops of [createBinaryAlg]: [None] is [continue]. *)
Definition binary_alg (outCC : CCL) (lp rp : placement) : option materializedAlgorithm :=
  let ss := [Status lp; Status rp] in
  match binaryIOStatusMap (Status lp) (Status rp) with
  | None => None
  | Some status =>
      if areStatusesAllPrivate ss && negb (bool_decide (head (partyList lp) = head (partyList rp)))
      then None
      else
        let outPartyCodes :=
          if areStatusesAllPrivate [Status rp] then partyList rp else partyList lp in
        match createPlacementByStatus status outPartyCodes with
        | Ok outPlacement =>
            if negb (checkPlacementCCL outPlacement outCC) then None
            else
              let calculation :=
                if oneOfStatusesPrivate ss then
                  if oneOfStatusesPublic ss then 2%Z else 1%Z
                else 3%Z in
              let communication := if oneOfStatusesShare ss then 1%Z else 0%Z in
              Some (mkAlg (newAlgCost communication calculation)
                      {[ Left := [lp]; Right := [rp] ]} {[ Out := [outPlacement] ]})
        | _ => None
        end
  end.

Definition createBinaryAlg (in_ out : ccl_args) (allParties : list string)
    : res (list materializedAlgorithm) :=
  match default [] (in_ !! Left), default [] (in_ !! Right) with
  | [lc], [rc] =>
      match default [] (out !! Out) with
      | [oc] =>
          Ok (lp ← createPlacementByCCL lc allParties;
              omap (binary_alg oc lp) (createPlacementByCCL rc allParties))
      | _ => Err "verifyBinary: invalid output size"
      end
  | _, _ => Err "verifyBinary: invalid input size"
  end.

Definition createBinaryAlgNoComm (in_ out : ccl_args) (allParties : list string)
    : res (list materializedAlgorithm) :=
  algs ← createBinaryAlg in_ out allParties;
  Ok (map (λ alg, mkAlg (newAlgCost 0 (calculationCost (cost alg)))
                    (inputPlacement alg) (outputPlacement alg)) algs).

(** ** In *)
Definition in_alg (lp rp outp : placement) : option materializedAlgorithm :=
  if negb (areStatusesAllPrivate [Status lp; Status rp; Status outp]) then None
  else if negb (bool_decide (head (partyList outp) = head (partyList lp)))
          && negb (bool_decide (head (partyList outp) = head (partyList rp))) then None
  else Some (mkAlg (newAlgCost 1 3) {[ Left := [lp]; Right := [rp] ]} {[ Out := [outp] ]}).

(** [in[graph.Left][0]] panics when there is no tensor. *)
Definition createInAlg (in_ out : ccl_args) (allParties : list string)
    : res (list materializedAlgorithm) :=
  match default [] (in_ !! Left), default [] (in_ !! Right), default [] (out !! Out) with
  | lc :: _, rc :: _, oc :: _ =>
      Ok (lp ← createPlacementByCCL lc allParties;
          rp ← createPlacementByCCL rc allParties;
          omap (in_alg lp rp) (createPlacementByCCL oc allParties))
  | _, _, _ => Panic
  end.

(** ** If and CaseWhen *)
Section sorted.
Context `{GoRange}.

Definition extractCCLsFromMap (m : ccl_args) : list CCL := mjoin (ValueSortedByMapKey m).

(** [m[key] = append(m[key], pm)] *)
Definition append_at (key : string) (pm : placement) (m : gmap string (list placement))
    : gmap string (list placement) :=
  <[key := default [] (m !! key) ++ [pm]]> m.

(** One placement per CCL of every key, in the order of the keys. *)
Definition place_all (place : CCL → placement) (m : ccl_args) : gmap string (list placement) :=
  foldl (λ acc '(key, ccls), foldl (λ acc cc, append_at key (place cc) acc) acc ccls)
    ∅ (SortedMap m).

Definition createPrivateAlgForParty (in_ out : ccl_args) (party : string) (c : algCost)
    : materializedAlgorithm :=
  mkAlg c (place_all (λ _, privatePlacement party) in_)
    (place_all (λ _, privatePlacement party) out).

Definition createAllPrivateAlgs (in_ out : ccl_args) (allParties : list string) (c : algCost)
    : list materializedAlgorithm :=
  omap (λ p,
      if forallb (λ cc, IsVisibleFor cc p) (extractCCLsFromMap in_ ++ extractCCLsFromMap out)
      then Some (createPrivateAlgForParty in_ out p c) else None) allParties.

Definition createAllShareAlgs (in_ out : ccl_args) (allParties : list string) (c : algCost)
    : materializedAlgorithm :=
  mkAlg c (place_all (λ _, sharePlacement allParties) in_)
    (place_all (λ _, sharePlacement allParties) out).

Definition createSharePublicAlgs (in_ out : ccl_args) (allParties : list string)
    (privateCost shareCost : algCost) : materializedAlgorithm :=
  let public cc := IsVisibleForParties cc allParties in
  let hasShareInput :=
    existsb (λ '(_, ccls), existsb (λ cc, negb (public cc)) ccls) (SortedMap in_) in
  mkAlg (if hasShareInput then shareCost else privateCost)
    (place_all (λ cc, if public cc then publicPlacement allParties
                      else sharePlacement allParties) in_)
    (place_all (λ cc, if public cc && negb hasShareInput then publicPlacement allParties
                      else sharePlacement allParties) out).

Definition createCaseWhenAlg (in_ out : ccl_args) (allParties : list string)
    : res (list materializedAlgorithm) :=
  let cond_size := Z.of_nat (length (default [] (in_ !! Condition))) in
  let commCost := ((cond_size + 1) * MulComm + (cond_size - 1) * 2 * EqualComm)%Z in
  let calCost := (cond_size * 3)%Z in
  let privateCost := newAlgCost 0 calCost in
  let shareCost := newAlgCost commCost calCost in
  Ok (createAllPrivateAlgs in_ out allParties privateCost
      ++ [createAllShareAlgs in_ out allParties shareCost]
      ++ [createSharePublicAlgs in_ out allParties privateCost shareCost]).

Definition createIfAlg (in_ out : ccl_args) (allParties : list string)
    : res (list materializedAlgorithm) :=
  let privateIfCost := newAlgCost 0 3 in
  let shareIfCost := newAlgCost MulComm 3 in
  Ok (createAllPrivateAlgs in_ out allParties privateIfCost
      ++ [createAllShareAlgs in_ out allParties shareIfCost]
      ++ [createSharePublicAlgs in_ out allParties privateIfCost shareIfCost]).

Notation algCreateFunc := (ccl_args → ccl_args → list string → res (list materializedAlgorithm)).

Definition creators : gmap string algCreateFunc :=
  list_to_map
    [(OpNameAdd, createBinaryAlgNoComm); (OpNameMinus, createBinaryAlgNoComm);
     (OpNameMul, createBinaryAlg); (OpNameDiv, createBinaryAlg);
     (OpNameIntDiv, createBinaryAlg); (OpNameMod, createBinaryAlg);
     (OpNameGreater, createBinaryAlg); (OpNameLess, createBinaryAlg);
     (OpNameGreaterEqual, createBinaryAlg); (OpNameLessEqual, createBinaryAlg);
     (OpNameEqual, createBinaryAlg); (OpNameNotEqual, createBinaryAlg);
     (OpNameLogicalAnd, createBinaryAlg); (OpNameLogicalOr, createBinaryAlg);
     (OpNameIn, createInAlg); (OpNameIf, createIfAlg); (OpNameCaseWhen, createCaseWhenAlg);
     (OpNameATan2, createBinaryAlg); (OpNamePow, createBinaryAlg)].

Definition getCreator (opName : string) : option algCreateFunc := creators !! opName.
End sorted.

(** ** The placements of a CCL *)
Lemma createPlacement_loop cc ps result b :
  foldl (λ '(result, isPublic) party,
      if IsVisibleFor cc party then (result ++ [privatePlacement party], isPublic)
      else (result, false)) (result, b) ps
  = (result ++ (privatePlacement <$> filter (IsVisibleFor cc) ps),
     b && forallb (IsVisibleFor cc) ps).
Proof.
  revert result b. induction ps as [|p ps IH]; intros result b; simpl.
  { by rewrite app_nil_r, andb_true_r. }
  rewrite filter_cons. destruct (IsVisibleFor cc p) eqn:Hp; rewrite IH.
  - rewrite decide_True by done. simpl. by rewrite <- (assoc_L (++)).
  - rewrite decide_False by (intros []). by rewrite andb_false_r.
Qed.

Lemma createPlacementByCCL_eq cc ps :
  createPlacementByCCL cc ps
  = [sharePlacement ps] ++ (privatePlacement <$> filter (IsVisibleFor cc) ps)
    ++ (if forallb (IsVisibleFor cc) ps then [publicPlacement ps] else []).
Proof.
  unfold createPlacementByCCL. rewrite createPlacement_loop. simpl.
  destruct (forallb _ ps); [done|by rewrite app_nil_r].
Qed.

Lemma elem_of_createPlacement cc ps pm :
  pm ∈ createPlacementByCCL cc ps ↔
  checkPlacementCCL pm cc = true ∧
  match pm with
  | privatePlacement p => p ∈ ps
  | publicPlacement qs | sharePlacement qs => qs = ps
  end.
Proof.
  rewrite createPlacementByCCL_eq, !elem_of_app, list_elem_of_singleton, list_elem_of_fmap.
  destruct pm as [p|qs|qs]; simpl.
  - split.
    + intros [?|[(p' & [= <-] & Hp)|Hp]]; [done| |by destruct (forallb _ ps); set_solver].
      apply list_elem_of_filter in Hp as [Hv Hp]. split; [by apply Is_true_true|done].
    + intros [Hv Hp]. right. left. exists p. split; [done|].
      apply list_elem_of_filter. split; [by apply Is_true_true|done].
  - destruct (forallb (IsVisibleFor cc) ps) eqn:Hall; set_solver by congruence.
  - destruct (forallb (IsVisibleFor cc) ps); set_solver by congruence.
Qed.

(** ** Placing every tensor of an argument map *)
Lemma foldl_append_at key (place : CCL → placement) ccls acc k :
  foldl (λ acc cc, append_at key (place cc) acc) acc ccls !! k
  = if bool_decide (k = key ∧ ccls ≠ [])
    then Some (default [] (acc !! k) ++ (place <$> ccls)) else acc !! k.
Proof.
  revert acc. induction ccls as [|cc ccls IH]; intros acc; simpl.
  { by rewrite bool_decide_false by naive_solver. }
  rewrite IH. unfold append_at.
  destruct (decide (k = key)) as [->|Hk].
  - rewrite lookup_insert_eq, (bool_decide_true (key = key ∧ cc :: ccls ≠ [])) by done.
    case_bool_decide as Hne; simpl.
    + by rewrite <- (assoc_L (++)).
    + destruct ccls; [done|]. naive_solver.
  - rewrite !bool_decide_false by naive_solver. by rewrite lookup_insert_ne.
Qed.

Section place_all.
Context `{GoRange}.

Lemma foldl_place_other (place : CCL → placement) l acc k :
  k ∉ l.*1 →
  foldl (λ acc '(key, ccls), foldl (λ acc cc, append_at key (place cc) acc) acc ccls) acc l !! k
  = acc !! k.
Proof.
  revert acc. induction l as [|[key ccls] l IH]; intros acc Hk; simpl; [done|].
  rewrite IH by set_solver. rewrite foldl_append_at.
  rewrite bool_decide_false; [done|]. set_solver.
Qed.

Lemma foldl_place (place : CCL → placement) l acc k ccls :
  NoDup l.*1 → (k, ccls) ∈ l →
  foldl (λ acc '(key, ccls), foldl (λ acc cc, append_at key (place cc) acc) acc ccls) acc l !! k
  = if bool_decide (ccls = []) then acc !! k
    else Some (default [] (acc !! k) ++ (place <$> ccls)).
Proof.
  revert acc. induction l as [|[key ccls'] l IH]; intros acc Hnd Hin; [set_solver|].
  apply NoDup_cons in Hnd as [Hkey Hnd]. apply elem_of_cons in Hin as [[= <- <-]|Hin]; simpl.
  - rewrite foldl_place_other, foldl_append_at by done.
    destruct (decide (ccls = [])).
    + rewrite bool_decide_false, bool_decide_true by naive_solver. done.
    + rewrite bool_decide_true, bool_decide_false by naive_solver. done.
  - assert (k ≠ key) as Hne.
    { intros ->. apply Hkey. by apply (list_elem_of_fmap_2 fst l (key, ccls)). }
    rewrite IH by done. rewrite foldl_append_at.
    by rewrite !(bool_decide_false (k = key ∧ _)) by naive_solver.
Qed.

Lemma place_all_lookup place m k :
  place_all place m !! k
  = match m !! k with
    | Some (cc :: ccls) => Some (place <$> (cc :: ccls))
    | _ => None
    end.
Proof.
  unfold place_all. destruct (m !! k) as [ccls|] eqn:Hk.
  - rewrite (foldl_place _ _ _ _ ccls);
      [|rewrite SortedMap_keys; apply SortMapKey_NoDup|by apply elem_of_SortedMap].
    rewrite lookup_empty. by destruct ccls.
  - rewrite foldl_place_other; [apply lookup_empty|].
    rewrite SortedMap_keys, elem_of_SortMapKey, Hk. by intros [? ?].
Qed.
End place_all.

(** ** Placements respect the CCLs *)
Definition placements_fit (pms : gmap string (list placement)) (ccls : ccl_args) : Prop :=
  ∀ k l i pm, pms !! k = Some l → l !! i = Some pm →
    ∃ cs cc, ccls !! k = Some cs ∧ cs !! i = Some cc ∧ checkPlacementCCL pm cc = true.

Definition alg_safe (in_ out : ccl_args) (alg : materializedAlgorithm) : Prop :=
  placements_fit (inputPlacement alg) in_ ∧ placements_fit (outputPlacement alg) out.

Lemma fit_first k pm cc cs (ccls : ccl_args) pms :
  ccls !! k = Some (cc :: cs) → checkPlacementCCL pm cc = true →
  placements_fit pms ccls → placements_fit (<[k := [pm]]> pms) ccls.
Proof.
  intros Hk Hc Hfit k' l i pm'. rewrite lookup_insert. case_decide as Heq; [|by apply Hfit].
  intros [= <-] Hi. apply list_lookup_singleton_Some in Hi as [-> <-]. subst k'.
  by exists (cc :: cs), cc.
Qed.

Lemma fit_empty ccls : placements_fit ∅ ccls.
Proof. intros k l i pm. by rewrite lookup_empty. Qed.

Lemma fit_singleton k pm cc cs (ccls : ccl_args) :
  ccls !! k = Some (cc :: cs) → checkPlacementCCL pm cc = true →
  placements_fit {[ k := [pm] ]} ccls.
Proof. intros. rewrite <- insert_empty. by eapply fit_first, fit_empty. Qed.

Lemma fit_place_all `{GoRange} place ccls :
  (∀ k cs cc, ccls !! k = Some cs → cc ∈ cs → checkPlacementCCL (place cc) cc = true) →
  placements_fit (place_all place ccls) ccls.
Proof.
  intros Hp k l i pm Hl Hi. rewrite place_all_lookup in Hl.
  destruct (ccls !! k) as [[|c cs]|] eqn:Hk; [done| |done]. injection Hl as <-.
  rewrite <- fmap_cons, list_lookup_fmap in Hi.
  destruct ((c :: cs) !! i) as [cc|] eqn:Hcc; [|done]. injection Hi as <-.
  exists (c :: cs), cc. split_and!; [done..|]. eapply Hp; [done|].
  by apply list_elem_of_lookup_2 in Hcc.
Qed.

Lemma default_nil_singleton {A} (o : option (list A)) x : default [] o = [x] → o = Some [x].
Proof. destruct o; naive_solver. Qed.

Lemma default_nil_cons {A} (o : option (list A)) x l : default [] o = x :: l → o = Some (x :: l).
Proof. destruct o; naive_solver. Qed.

Lemma binary_alg_Some oc lp rp alg :
  binary_alg oc lp rp = Some alg →
  ∃ op, inputPlacement alg = {[ Left := [lp]; Right := [rp] ]}
    ∧ outputPlacement alg = {[ Out := [op] ]} ∧ checkPlacementCCL op oc = true
    ∧ binaryIOStatusMap (Status lp) (Status rp) = Some (Status op).
Proof.
  unfold binary_alg. destruct (binaryIOStatusMap _ _) as [st|] eqn:Hst; [|done].
  destruct (_ && _); [done|].
  destruct (createPlacementByStatus st _) as [op| |] eqn:Hop; [|done..].
  destruct (checkPlacementCCL op oc) eqn:Hc; [|done]. simpl. intros [= <-].
  exists op. split_and!; try done. f_equal. unfold createPlacementByStatus in Hop.
  destruct st; try done; repeat case_match; by simplify_eq.
Qed.

Lemma createBinaryAlg_Ok in_ out ps algs :
  createBinaryAlg in_ out ps = Ok algs →
  ∃ lc rc oc, in_ !! Left = Some [lc] ∧ in_ !! Right = Some [rc] ∧ out !! Out = Some [oc]
    ∧ ∀ alg, alg ∈ algs ↔ ∃ lp rp, lp ∈ createPlacementByCCL lc ps
        ∧ rp ∈ createPlacementByCCL rc ps ∧ binary_alg oc lp rp = Some alg.
Proof.
  unfold createBinaryAlg. intros Hc.
  destruct (default [] (in_ !! Left)) as [|lc []] eqn:Hl; [done| |done].
  destruct (default [] (in_ !! Right)) as [|rc []] eqn:Hr; [done| |done].
  destruct (default [] (out !! Out)) as [|oc []] eqn:Ho; [done| |done].
  injection Hc as <-. exists lc, rc, oc.
  apply default_nil_singleton in Hl, Hr, Ho. split_and!; [done..|].
  intros alg. rewrite list_elem_of_bind. setoid_rewrite list_elem_of_omap. naive_solver.
Qed.

Lemma createBinaryAlg_safe in_ out ps algs alg :
  createBinaryAlg in_ out ps = Ok algs → alg ∈ algs → alg_safe in_ out alg.
Proof.
  intros Hc Hin. apply createBinaryAlg_Ok in Hc as (lc & rc & oc & Hl & Hr & Ho & Hel).
  apply Hel in Hin as (lp & rp & Hlp & Hrp & Halg).
  apply elem_of_createPlacement in Hlp as [Hlp _], Hrp as [Hrp _].
  apply binary_alg_Some in Halg as (op & Hi & Hou & Hop & _).
  split; [rewrite Hi|rewrite Hou].
  - eapply fit_first; [done..|]. by eapply fit_singleton.
  - by eapply fit_singleton.
Qed.

Lemma createInAlg_safe in_ out ps algs alg :
  createInAlg in_ out ps = Ok algs → alg ∈ algs →
  alg_safe in_ out alg ∧ ∃ lp rp op, inputPlacement alg = {[ Left := [lp]; Right := [rp] ]}
    ∧ outputPlacement alg = {[ Out := [op] ]}
    ∧ Status lp = TENSORSTATUS_PRIVATE ∧ Status rp = TENSORSTATUS_PRIVATE
    ∧ Status op = TENSORSTATUS_PRIVATE.
Proof.
  unfold createInAlg. intros Hc Hin.
  destruct (default [] (in_ !! Left)) as [|lc ls] eqn:Hl; [done|].
  destruct (default [] (in_ !! Right)) as [|rc rs] eqn:Hr; [done|].
  destruct (default [] (out !! Out)) as [|oc os] eqn:Ho; [done|].
  injection Hc as <-. apply default_nil_cons in Hl, Hr, Ho.
  apply list_elem_of_bind in Hin as (lp & Hin & Hlp).
  apply list_elem_of_bind in Hin as (rp & Hin & Hrp).
  apply list_elem_of_omap in Hin as (op & Hop & Halg).
  apply elem_of_createPlacement in Hlp as [Hlp _], Hrp as [Hrp _], Hop as [Hop _].
  unfold in_alg in Halg. destruct (areStatusesAllPrivate _) eqn:Hst; [|done]. simpl in Halg.
  destruct (_ && _); [done|]. injection Halg as <-. split.
  - split; simpl; [|by eapply fit_singleton].
    eapply fit_first; [done..|]. by eapply fit_singleton.
  - exists lp, rp, op. unfold areStatusesAllPrivate in Hst. simpl in Hst.
    rewrite !andb_true_iff, !bool_decide_eq_true in Hst. naive_solver.
Qed.

Section if_case_when.
Context `{GoRange}.

Lemma elem_of_extractCCLs m cc :
  cc ∈ extractCCLsFromMap m ↔ ∃ k cs, m !! k = Some cs ∧ cc ∈ cs.
Proof.
  unfold extractCCLsFromMap. rewrite list_elem_of_join. setoid_rewrite elem_of_ValueSorted.
  naive_solver.
Qed.

Lemma createAllPrivate_safe in_ out ps c alg :
  alg ∈ createAllPrivateAlgs in_ out ps c → alg_safe in_ out alg
  ∧ ∃ p, alg = createPrivateAlgForParty in_ out p c.
Proof.
  intros (p & _ & Hp)%list_elem_of_omap. destruct (forallb _ _) eqn:Hvis; [|done].
  injection Hp as <-. split; [|by exists p].
  rewrite forallb_forall in Hvis.
  split; apply fit_place_all; intros k cs cc Hk Hcc; apply Hvis.
  - apply list_elem_of_In, elem_of_app. left. apply elem_of_extractCCLs. eauto.
  - apply list_elem_of_In, elem_of_app. right. apply elem_of_extractCCLs. eauto.
Qed.

Lemma createAllShare_safe in_ out ps c : alg_safe in_ out (createAllShareAlgs in_ out ps c).
Proof. split; by apply fit_place_all. Qed.

Lemma public_visible cc ps : IsVisibleForParties cc ps = true → forallb (IsVisibleFor cc) ps = true.
Proof.
  intros Hv. apply forallb_forall. intros p Hp. apply Is_true_true.
  apply (IsVisibleForParties_spec cc ps); [by apply Is_true_true|by apply list_elem_of_In].
Qed.

Lemma createSharePublic_safe in_ out ps c1 c2 :
  alg_safe in_ out (createSharePublicAlgs in_ out ps c1 c2).
Proof.
  split; apply fit_place_all; intros k cs cc _ _.
  - destruct (IsVisibleForParties cc ps) eqn:Hv; [|done]. by apply public_visible.
  - destruct (IsVisibleForParties cc ps && _) eqn:Hv; [|done].
    apply andb_prop in Hv as [Hv _]. by apply public_visible.
Qed.

(** If and CaseWhen offer the same placements and differ in the costs. *)
Definition if_algs (in_ out : ccl_args) (ps : list string) (priv share : algCost)
    : list materializedAlgorithm :=
  createAllPrivateAlgs in_ out ps priv ++ [createAllShareAlgs in_ out ps share]
  ++ [createSharePublicAlgs in_ out ps priv share].

Lemma if_algs_safe in_ out ps priv share alg :
  alg ∈ if_algs in_ out ps priv share → alg_safe in_ out alg.
Proof.
  intros [Hin|[Hin|Hin]%elem_of_app]%elem_of_app.
  - by apply createAllPrivate_safe in Hin as [Hs _].
  - apply list_elem_of_singleton in Hin as ->. apply createAllShare_safe.
  - apply list_elem_of_singleton in Hin as ->. apply createSharePublic_safe.
Qed.

(** The creators table by kind of operator. *)
Lemma getCreator_cases op create :
  getCreator op = Some create →
  (op ∈ BinaryOps ∧ (create = createBinaryAlg ∨ create = createBinaryAlgNoComm))
  ∨ (op = OpNameIn ∧ create = createInAlg)
  ∨ (op ∈ [OpNameIf; OpNameCaseWhen] ∧ ∀ in_ out ps, ∃ priv share,
       create in_ out ps = Ok (if_algs in_ out ps priv share)).
Proof.
  intros Hc. unfold getCreator, creators in Hc. apply elem_of_list_to_map_2 in Hc.
  repeat (apply elem_of_cons in Hc as [[= -> ->]|Hc]); [..|by apply elem_of_nil in Hc].
  15: right; left; done.
  15, 16: right; right; (split; [|intros; do 2 eexists; reflexivity]); repeat constructor.
  all: left; split; [repeat constructor|auto].
Qed.

Lemma createBinaryAlgNoComm_Ok in_ out ps algs alg :
  createBinaryAlgNoComm in_ out ps = Ok algs → alg ∈ algs →
  ∃ algs' alg', createBinaryAlg in_ out ps = Ok algs' ∧ alg' ∈ algs'
    ∧ inputPlacement alg = inputPlacement alg' ∧ outputPlacement alg = outputPlacement alg'
    ∧ communicationCost (cost alg) = 0%Z.
Proof.
  unfold createBinaryAlgNoComm. intros Hc Hin. apply res_bind_Ok in Hc as (algs' & Hc & [= <-]).
  apply list_elem_of_In, in_map_iff in Hin as (alg' & <- & Hin).
  exists algs', alg'. split_and!; [done|by apply list_elem_of_In|done..].
Qed.
End if_case_when.

(** ** Statuses accepted by the operators *)
#[local] Instance FormalParameter_eq_dec : EqDecision FormalParameter.
Proof. solve_decision. Defined.

(** The operator has these parameters and constraints. *)
Definition has_signature (ins outs : list FormalParameter)
    (cons : list (string * list TensorStatus)) (op : string) : bool :=
  match FindOpDef op with
  | Ok d => bool_decide (InputParams d = ins) && bool_decide (OutputParams d = outs)
            && forallb (λ '(c, l), bool_decide (ParamStatusConstraints d !! c = Some l)) cons
  | _ => false
  end.

Lemma has_signature_spec ins outs cons op :
  has_signature ins outs cons op = true →
  ∃ d, FindOpDef op = Ok d ∧ InputParams d = ins ∧ OutputParams d = outs
    ∧ ∀ c l, (c, l) ∈ cons → ParamStatusConstraints d !! c = Some l.
Proof.
  unfold has_signature. destruct (FindOpDef op) as [d| |]; [|done..].
  rewrite !andb_true_iff, !bool_decide_eq_true, forallb_forall.
  intros [[Hi Ho] Hc]. exists d. split_and!; [done..|].
  intros c l Hin. apply list_elem_of_In, Hc in Hin. by apply bool_decide_eq_true in Hin.
Qed.

Notation anyStatus := statusPrivateOrSecretOrPublic.

Lemma Status_any pm : Status pm ∈ anyStatus.
Proof. destruct pm; apply (bool_decide_unpack _); vm_compute; exact I. Qed.

Lemma BinaryOps_signature :
  forallb (has_signature
    [mkFormalParameter Left VARIADIC "T"; mkFormalParameter Right VARIADIC "T1"]
    [mkFormalParameter Out VARIADIC "T2"]
    [("T", anyStatus); ("T1", anyStatus);
     ("T2", statusPrivateOrSecret)]) BinaryOps = true.
Proof. vm_compute. reflexivity. Qed.

Lemma In_signature :
  has_signature [mkFormalParameter Left SINGLE "T"; mkFormalParameter Right SINGLE "T1"]
    [mkFormalParameter Out SINGLE "T"]
    [("T", statusPrivate); ("T1", statusPrivate)] OpNameIn = true.
Proof. vm_compute. reflexivity. Qed.

Lemma If_signature :
  has_signature
    [mkFormalParameter Condition SINGLE "T"; mkFormalParameter ValueIfTrue SINGLE "T1";
     mkFormalParameter ValueIfFalse SINGLE "T2"] [mkFormalParameter Out SINGLE "T3"]
    [("T", anyStatus); ("T1", anyStatus); ("T2", anyStatus); ("T3", anyStatus)] OpNameIf = true.
Proof. vm_compute. reflexivity. Qed.

Lemma CaseWhen_signature :
  has_signature
    [mkFormalParameter Condition VARIADIC "T"; mkFormalParameter Value VARIADIC "T1";
     mkFormalParameter ValueElse SINGLE "T2"] [mkFormalParameter Out SINGLE "T3"]
    [("T", anyStatus); ("T1", anyStatus); ("T2", anyStatus); ("T3", anyStatus)]
    OpNameCaseWhen = true.
Proof. vm_compute. reflexivity. Qed.

Ltac in_list := first [apply list_elem_of_here | apply list_elem_of_further; in_list].

(** The check on placements, whose status is always known. *)
Definition statuses_accepted (op : string) (alg : materializedAlgorithm) : Prop :=
  ∃ d, FindOpDef op = Ok d
    ∧ CheckParamStatusConstraint (λ pm, Ok (Status pm)) d (inputPlacement alg)
        (outputPlacement alg) = Ok tt.

Lemma param_ok_intro cons σ (arguments : gmap string (list placement)) name opt c pm pms allowed :
  arguments !! name = Some (pm :: pms) → σ c = Status pm → cons !! c = Some allowed →
  Status pm ∈ allowed →
  param_ok (λ pm, Ok (Status pm)) cons σ arguments (mkFormalParameter name opt c).
Proof. intros Ha Hσ Hc Hin. unfold param_ok. simpl. rewrite Ha, Hσ. eauto. Qed.

Lemma binary_statuses_accepted op oc lp rp alg :
  op ∈ BinaryOps → binary_alg oc lp rp = Some alg → statuses_accepted op alg.
Proof.
  intros Hop Halg. pose proof BinaryOps_signature as Hsig. rewrite forallb_forall in Hsig.
  apply list_elem_of_In, Hsig, has_signature_spec in Hop as (d & Hd & Hi & Ho & Hc).
  apply binary_alg_Some in Halg as (pm & Hin & Hout & _ & Hst).
  exists d. split; [done|]. apply check_status_iff. rewrite Hi, Ho, Hin, Hout.
  split; [vm_compute; reflexivity|]. split; [vm_compute; reflexivity|].
  exists (λ c, if bool_decide (c = "T") then Status lp
               else if bool_decide (c = "T1") then Status rp else Status pm).
  split; repeat first [apply Forall_nil_2|apply Forall_cons_2].
  - eapply param_ok_intro; [reflexivity|reflexivity|apply Hc; in_list|apply Status_any].
  - eapply param_ok_intro; [reflexivity|reflexivity|apply Hc; in_list|apply Status_any].
  - eapply param_ok_intro; [reflexivity|reflexivity|apply Hc; in_list|].
    destruct lp, rp; simplify_eq/=; rewrite <- Hst; apply (bool_decide_unpack _); by vm_compute.
Qed.

Lemma In_statuses_accepted in_ out ps algs alg :
  createInAlg in_ out ps = Ok algs → alg ∈ algs → statuses_accepted OpNameIn alg.
Proof.
  intros Hc Hin. eapply createInAlg_safe in Hin as [_ (lp & rp & pm & Hi & Ho & Hl & Hr & Hp)];
    [|done].
  destruct (has_signature_spec _ _ _ _ In_signature) as (d & Hd & Hdi & Hdo & Hcons).
  exists d. split; [done|]. apply check_status_iff. rewrite Hdi, Hdo, Hi, Ho.
  split; [vm_compute; reflexivity|]. split; [vm_compute; reflexivity|].
  exists (λ _, TENSORSTATUS_PRIVATE).
  split; repeat first [apply Forall_nil_2|apply Forall_cons_2];
    (eapply param_ok_intro; [reflexivity|done|apply Hcons; in_list|]);
    rewrite ?Hl, ?Hr, ?Hp; by apply list_elem_of_singleton.
Qed.

Section if_statuses.
Context `{GoRange}.

Lemma place_all_fmap place m :
  map_Forall (λ _ l, l ≠ []) m → place_all place m = fmap (M := list) place <$> m.
Proof.
  intros Hne. apply map_eq. intros k. rewrite place_all_lookup, lookup_fmap.
  destruct (m !! k) as [[|c cs]|] eqn:Hk; [|done..]. by destruct (Hne k []).
Qed.

(** One non-empty list of CCLs per parameter. *)
Definition args_shape (params : list FormalParameter) (m : ccl_args) : Prop :=
  length params = size m ∧ map_Forall (λ _ l, l ≠ []) m
  ∧ ∀ param, param ∈ params → is_Some (m !! ParamName param).

Lemma args_shape_lookup params m (place : CCL → placement) param :
  args_shape params m → param ∈ params →
  ∃ pm pms, (fmap (M := list) place <$> m) !! ParamName param = Some (pm :: pms)
            ∧ ∃ cc, pm = place cc.
Proof.
  intros (_ & Hne & Hall) Hp. destruct (Hall _ Hp) as [l Hl].
  rewrite lookup_fmap, Hl. destruct l as [|c cs]; [by destruct (Hne _ _ Hl)|].
  simpl. eauto.
Qed.

(** Operators with three inputs and pairwise different constraints that allow
    every status. *)
Lemma ternary_statuses_accepted op k1 k2 k3 o1 o2 o3 o4 f g in_ out c :
  let ins := [mkFormalParameter k1 o1 "T"; mkFormalParameter k2 o2 "T1";
              mkFormalParameter k3 o3 "T2"] in
  let outs := [mkFormalParameter Out o4 "T3"] in
  has_signature ins outs
    [("T", anyStatus); ("T1", anyStatus); ("T2", anyStatus); ("T3", anyStatus)] op = true →
  args_shape ins in_ → args_shape outs out →
  statuses_accepted op (mkAlg c (place_all f in_) (place_all g out)).
Proof.
  intros ins outs Hsig Hin Hout.
  destruct (has_signature_spec _ _ _ _ Hsig) as (d & Hd & Hdi & Hdo & Hcons).
  exists d. split; [done|]. apply check_status_iff. rewrite Hdi, Hdo. cbn [inputPlacement outputPlacement].
  rewrite !place_all_fmap by apply Hin || apply Hout. rewrite !map_size_fmap.
  split; [apply Hin|]. split; [apply Hout|].
  destruct (args_shape_lookup _ _ f (mkFormalParameter k1 o1 "T") Hin) as (p1 & r1 & H1 & _);
    [set_solver|].
  destruct (args_shape_lookup _ _ f (mkFormalParameter k2 o2 "T1") Hin) as (p2 & r2 & H2 & _);
    [set_solver|].
  destruct (args_shape_lookup _ _ f (mkFormalParameter k3 o3 "T2") Hin) as (p3 & r3 & H3 & _);
    [set_solver|].
  destruct (args_shape_lookup _ _ g (mkFormalParameter Out o4 "T3") Hout) as (p4 & r4 & H4 & _);
    [set_solver|].
  exists (λ c, if bool_decide (c = "T") then Status p1
               else if bool_decide (c = "T1") then Status p2
               else if bool_decide (c = "T2") then Status p3 else Status p4).
  split; repeat first [apply Forall_nil_2|apply Forall_cons_2];
    (eapply param_ok_intro; [eassumption|reflexivity|apply Hcons; in_list|apply Status_any]).
Qed.
End if_statuses.

(** ** Properties *)

(** [createPlacementByCCL] is sound and complete: it lists a placement over the
    given parties exactly when [checkPlacementCCL] admits it, that is, when every
    party that would hold the tensor in the clear may see it. *)
Theorem placements_by_ccl_exact (cc : CCL) (allParties : list string) (pm : placement) :
  pm ∈ createPlacementByCCL cc allParties ↔
  checkPlacementCCL pm cc = true ∧
  match pm with
  | privatePlacement p => p ∈ allParties
  | publicPlacement ps | sharePlacement ps => ps = allParties
  end.
Proof. apply elem_of_createPlacement. Qed.

Section algorithm_properties.
Context `{GoRange}.

(** C20: Every algorithm offered for any operator places each input and output
    tensor only where the tensor's CCL allows it: a private placement belongs to a
    party that may see the tensor, a public one to parties that all may. *)
Theorem algorithm_placements_safe op create in_ out allParties algs alg :
  getCreator op = Some create → create in_ out allParties = Ok algs → alg ∈ algs →
  placements_fit (inputPlacement alg) in_ ∧ placements_fit (outputPlacement alg) out.
Proof.
  intros Hc Hok Hin. change (alg_safe in_ out alg).
  apply getCreator_cases in Hc as [(_ & [-> | ->])|[(_ & ->)|(_ & Hif)]].
  - by eapply createBinaryAlg_safe.
  - eapply createBinaryAlgNoComm_Ok in Hok as (algs' & alg' & Hok & Hin' & Hi & Ho & _); [|done].
    unfold alg_safe. rewrite Hi, Ho. by eapply createBinaryAlg_safe.
  - by eapply createInAlg_safe.
  - destruct (Hif in_ out allParties) as (priv & share & Heq). rewrite Heq in Hok.
    injection Hok as <-. by eapply if_algs_safe.
Qed.

(** C34: The statuses of every algorithm offered for an operator satisfy the
    constraints the operator registry declares for it, so the node the translator
    builds from the algorithm is accepted by the graph builder.  (For If and
    CaseWhen the arguments must match the operator's parameters; the other creators
    check this themselves.) *)
Theorem algorithm_statuses_accepted op create in_ out allParties algs alg d :
  getCreator op = Some create → FindOpDef op = Ok d →
  (op ∈ [OpNameIf; OpNameCaseWhen] →
     args_shape (InputParams d) in_ ∧ args_shape (OutputParams d) out) →
  create in_ out allParties = Ok algs → alg ∈ algs →
  CheckParamStatusConstraint (λ pm, Ok (Status pm)) d (inputPlacement alg)
    (outputPlacement alg) = Ok tt.
Proof.
  intros Hc Hd Hshape Hok Hin.
  assert (statuses_accepted op alg) as (d' & Hd' & Hacc); [|congruence].
  apply getCreator_cases in Hc as [(Hop & [-> | ->])|[(-> & ->)|(Hop & Hif)]].
  - apply createBinaryAlg_Ok in Hok as (lc & rc & oc & _ & _ & _ & Hel).
    apply Hel in Hin as (lp & rp & _ & _ & Halg). by eapply binary_statuses_accepted.
  - eapply createBinaryAlgNoComm_Ok in Hok as (algs' & alg' & Hok & Hin' & Hi & Ho & _); [|done].
    apply createBinaryAlg_Ok in Hok as (lc & rc & oc & _ & _ & _ & Hel).
    apply Hel in Hin' as (lp & rp & _ & _ & Halg).
    unfold statuses_accepted. rewrite Hi, Ho. by eapply binary_statuses_accepted.
  - by eapply In_statuses_accepted.
  - destruct (Hif in_ out allParties) as (priv & share & Heq). rewrite Heq in Hok.
    injection Hok as <-. specialize (Hshape Hop).
    assert (∃ c f g, alg = mkAlg c (place_all f in_) (place_all g out)) as (c & f & g & ->).
    { apply elem_of_app in Hin as [Hin|[Hin|Hin]%elem_of_app].
      - apply createAllPrivate_safe in Hin as [_ [p ->]]. by do 3 eexists.
      - apply list_elem_of_singleton in Hin as ->. by do 3 eexists.
      - apply list_elem_of_singleton in Hin as ->. by do 3 eexists. }
    apply elem_of_cons in Hop as [->|[->|[]%elem_of_nil]%elem_of_cons].
    + destruct (has_signature_spec _ _ _ _ If_signature) as (d0 & Hd0 & Hi & Ho & _).
      assert (d0 = d) as -> by congruence. rewrite Hi, Ho in Hshape.
      destruct Hshape.
      by apply (ternary_statuses_accepted _ _ _ _ _ _ _ _ _ _ _ _ _ If_signature).
    + destruct (has_signature_spec _ _ _ _ CaseWhen_signature) as (d0 & Hd0 & Hi & Ho & _).
      assert (d0 = d) as -> by congruence. rewrite Hi, Ho in Hshape.
      destruct Hshape.
      by apply (ternary_statuses_accepted _ _ _ _ _ _ _ _ _ _ _ _ _ CaseWhen_signature).
Qed.

(** [in_] and [out] hold one CCL for each operand of a binary operator. *)
Definition binary_args (in_ out : ccl_args) : Prop :=
  ∃ lc rc oc, in_ = {[ Left := [lc]; Right := [rc] ]} ∧ out = {[ Out := [oc] ]}.

Definition all_shared (ps : list string) (pms : gmap string (list placement)) (m : ccl_args)
    : Prop :=
  ∀ k, default [] (pms !! k) = (λ _, sharePlacement ps) <$> default [] (m !! k).

Lemma binary_share_offered lc rc oc ps algs :
  createBinaryAlg {[ Left := [lc]; Right := [rc] ]} {[ Out := [oc] ]} ps = Ok algs →
  ∃ alg, alg ∈ algs
    ∧ inputPlacement alg = {[ Left := [sharePlacement ps]; Right := [sharePlacement ps] ]}
    ∧ outputPlacement alg = {[ Out := [sharePlacement ps] ]}.
Proof.
  intros Hok. apply createBinaryAlg_Ok in Hok as (lc' & rc' & oc' & Hl & Hr & Ho & Hel).
  eexists. split.
  - apply Hel. exists (sharePlacement ps), (sharePlacement ps).
    split; [by apply elem_of_createPlacement|]. split; [by apply elem_of_createPlacement|].
    reflexivity.
  - split; reflexivity.
Qed.

Lemma all_shared_place_all ps m : all_shared ps (place_all (λ _, sharePlacement ps) m) m.
Proof. intros k. rewrite place_all_lookup. by destruct (m !! k) as [[|c cs]|]. Qed.

Lemma all_shared_binary ps lc rc :
  all_shared ps {[ Left := [sharePlacement ps]; Right := [sharePlacement ps] ]}
    {[ Left := [lc]; Right := [rc] ]}.
Proof.
  intros k. destruct (decide (k = Left)) as [->|]; [reflexivity|].
  destruct (decide (k = Right)) as [->|]; [reflexivity|].
  by rewrite !lookup_insert_ne, !lookup_singleton_ne.
Qed.

Lemma all_shared_out ps oc : all_shared ps {[ Out := [sharePlacement ps] ]} {[ Out := [oc] ]}.
Proof.
  intros k. destruct (decide (k = Out)) as [->|]; [reflexivity|].
  by rewrite !lookup_singleton_ne.
Qed.

(** For every operator with an algorithm creator other than In, an algorithm
    that works on secret shares of all tensors among all parties is always among
    the algorithms offered, whatever the CCLs are: restrictive CCLs never leave the
    translator without an algorithm. *)
Theorem share_algorithm_offered op create in_ out allParties :
  getCreator op = Some create → op ≠ OpNameIn → (op ∈ BinaryOps → binary_args in_ out) →
  ∃ algs alg, create in_ out allParties = Ok algs ∧ alg ∈ algs
    ∧ all_shared allParties (inputPlacement alg) in_
    ∧ all_shared allParties (outputPlacement alg) out.
Proof.
  intros Hc Hne Hbin.
  apply getCreator_cases in Hc as [(Hop & Hcr)|[(-> & ->)|(Hop & Hif)]]; [|done|].
  - destruct (Hbin Hop) as (lc & rc & oc & -> & ->).
    destruct (binary_share_offered lc rc oc allParties _ eq_refl) as (alg & Hin & Hi & Ho).
    destruct Hcr as [-> | ->].
    + eexists _, alg. split; [reflexivity|]. split; [exact Hin|]. rewrite Hi, Ho.
      split; [apply all_shared_binary|apply all_shared_out].
    + eexists _, (mkAlg _ (inputPlacement alg) (outputPlacement alg)). split; [reflexivity|].
      split.
      * apply list_elem_of_In, in_map_iff. exists alg. split; [reflexivity|].
        by apply list_elem_of_In.
      * cbn [inputPlacement outputPlacement]. rewrite Hi, Ho.
        split; [apply all_shared_binary|apply all_shared_out].
  - destruct (Hif in_ out allParties) as (priv & share & ->).
    eexists _, (createAllShareAlgs in_ out allParties share). split; [reflexivity|].
    split; [unfold if_algs; set_solver|]. split; apply all_shared_place_all.
Qed.
End algorithm_properties.

(** ** Witnesses: [alice.a > bob.b] with a result both parties may see. *)
#[local] Existing Instance go_range_list.
Module AlgDemo.
Definition parties : list string := ["alice"; "bob"].
Definition left_cc : CCL := mkCCL {[ "alice" := Plain; "bob" := Compare ]}.
Definition right_cc : CCL := mkCCL {[ "bob" := Plain ]}.
Definition both_cc : CCL := CreateAllPlainCCL parties.
Definition ins : ccl_args := {[ Left := [left_cc]; Right := [right_cc] ]}.
Definition outs : ccl_args := {[ Out := [both_cc] ]}.
Definition share_alg : materializedAlgorithm :=
  mkAlg (newAlgCost 1 3)
    {[ Left := [sharePlacement parties]; Right := [sharePlacement parties] ]}
    {[ Out := [sharePlacement parties] ]}.

Lemma creator : getCreator OpNameGreater = Some createBinaryAlg.
Proof. vm_compute. reflexivity. Qed.
Lemma algs : createBinaryAlg ins outs parties = Ok [share_alg].
Proof. vm_compute. reflexivity. Qed.
End AlgDemo.

Lemma algorithm_placements_safe_witness :
  placements_fit (inputPlacement AlgDemo.share_alg) AlgDemo.ins
  ∧ placements_fit (outputPlacement AlgDemo.share_alg) AlgDemo.outs.
Proof.
  apply (algorithm_placements_safe OpNameGreater createBinaryAlg AlgDemo.ins AlgDemo.outs
    AlgDemo.parties [AlgDemo.share_alg]).
  - exact AlgDemo.creator.
  - exact AlgDemo.algs.
  - apply list_elem_of_here.
Defined.

Lemma algorithm_statuses_accepted_witness :
  ∃ d, FindOpDef OpNameGreater = Ok d ∧
  CheckParamStatusConstraint (λ pm, Ok (Status pm)) d
    (inputPlacement AlgDemo.share_alg) (outputPlacement AlgDemo.share_alg) = Ok tt.
Proof.
  destruct (FindOpDef OpNameGreater) as [d| |] eqn:Hd; [|vm_compute in Hd; discriminate Hd..].
  exists d. split; [reflexivity|].
  apply (algorithm_statuses_accepted OpNameGreater createBinaryAlg AlgDemo.ins AlgDemo.outs
    AlgDemo.parties [AlgDemo.share_alg] AlgDemo.share_alg d).
  - exact AlgDemo.creator.
  - exact Hd.
  - intros Hin. exfalso. revert Hin. apply (bool_decide_unpack _). vm_compute. exact I.
  - exact AlgDemo.algs.
  - apply list_elem_of_here.
Defined.

Lemma share_algorithm_offered_witness :
  ∃ algs alg, createBinaryAlg AlgDemo.ins AlgDemo.outs AlgDemo.parties = Ok algs ∧ alg ∈ algs
    ∧ all_shared AlgDemo.parties (inputPlacement alg) AlgDemo.ins
    ∧ all_shared AlgDemo.parties (outputPlacement alg) AlgDemo.outs.
Proof.
  apply (share_algorithm_offered OpNameGreater).
  - exact AlgDemo.creator.
  - discriminate.
  - intros _. by exists AlgDemo.left_cc, AlgDemo.right_cc, AlgDemo.both_cc.
Defined.
