(* ===== verification/StatusConverter.v ===== *)
(** * Conversion of tensors between statuses
      (pkg/interpreter/translator/tensor_status_conversion.go)

    [statusConverter] brings a tensor to the placement an algorithm asks for by
    adding Copy, MakePrivate, MakeShare and MakePublic nodes to the plan, and
    remembers the conversions it has made.  The theorems state that the tensor it
    returns has the status, the owner, the type and the CCL asked for, that its
    memory never returns a wrong tensor, that asking twice adds nothing, and that a
    conversion the CCL admits succeeds. *)
From S2P Require Import Prelude Sliceutil Expression Operator Ccl Graph GraphBuilder.
From S2P Require Import BuilderSpec Algorithm.

(** ** State *)
Record statusConverter := mkStatusConverter {
  convertMap : gmap (nat * string) nat;
  plan : GraphBuilder;
}.

Definition newStatusConverter (plan : GraphBuilder) : statusConverter :=
  mkStatusConverter ∅ plan.

(** A call of the builder the converter points to. *)
Definition on_plan {A} (m : MB A) : M statusConverter A := λ b,
  let '(p, r) := m (plan b) in (mkStatusConverter (convertMap b) p, r).

Definition remember (inputT : nat) (place : placement) (t : nat) : M statusConverter () :=
  modify (λ b, mkStatusConverter (<[(inputT, toString place) := t]> (convertMap b)) (plan b)).

(** ** Operations *)
Definition getExpectTensorFromMap (b : statusConverter) (inputT : nat) (expectPlace : placement)
    : option nat :=
  convertMap b !! (inputT, toString expectPlace).

Definition revealString (input : nat) (revealParty : string) : MB nat :=
  plan ← get;
  t ← tensor_at input;
  let parties := GetParties (plan_partyInfo plan) in
  match SecretStringOwners t with
  | [owner] =>
      privateT ← wrapErr "revealString: " (AddMakePrivateNode "make_private" input owner parties);
      if negb (bool_decide (owner = revealParty)) then
        AddCopyNode "copy" privateT owner revealParty
      else mret privateT
  | _ =>
      input ← (if negb (bool_decide (tensor_status t = TENSORSTATUS_PUBLIC)) then
                 wrapErr "revealString: " (AddMakePublicNode "make_public" input parties)
               else mret input);
      AddMakePrivateNode "make_private" input revealParty parties
  end.

(** Revealing a secret or public tensor to one party. *)
Definition reveal_to (tensor : nat) (t : Tensor) (revealParty : string) : MB nat :=
  if bool_decide (DType t = STRING) then revealString tensor revealParty
  else
    plan ← get;
    AddMakePrivateNode "make_private" tensor revealParty (GetParties (plan_partyInfo plan)).

Definition addTensorStatusConversion (tensor : nat) (place : placement) : MB nat :=
  t ← tensor_at tensor;
  match tensor_status t, place with
  | TENSORSTATUS_PRIVATE, publicPlacement ps => AddMakePublicNode "make_public" tensor ps
  | TENSORSTATUS_PRIVATE, privatePlacement partyCode =>
      if negb (bool_decide (OwnerPartyCode t = partyCode)) then
        wrapErr "addTensorStatusConversion: "
          (AddCopyNode "copy" tensor (OwnerPartyCode t) partyCode)
      else mret tensor
  | TENSORSTATUS_PRIVATE, sharePlacement ps => AddMakeShareNode "make_share" tensor ps
  | TENSORSTATUS_SECRET, publicPlacement ps => AddMakePublicNode "make_public" tensor ps
  | TENSORSTATUS_SECRET, sharePlacement _ => mret tensor
  | TENSORSTATUS_SECRET, privatePlacement revealParty => reveal_to tensor t revealParty
  | TENSORSTATUS_PUBLIC, privatePlacement revealParty => reveal_to tensor t revealParty
  | TENSORSTATUS_PUBLIC, sharePlacement ps => AddMakeShareNode "make_share" tensor ps
  | TENSORSTATUS_PUBLIC, publicPlacement _ => mret tensor
  | _, _ => fail "addTensorStatusConversion doesn't support converting"
  end.

(** The memory is keyed by the tensor's ID. *)
Definition convertTo (inputT : nat) (expectPlace : placement) : M statusConverter nat :=
  b ← get;
  match getExpectTensorFromMap b inputT expectPlace with
  | Some t => mret t
  | None =>
      t ← on_plan (addTensorStatusConversion inputT expectPlace);
      _ ← remember inputT expectPlace t;
      mret t
  end.

Section maps.
Context `{GoRange}.

(** [expect[key][i]]: a missing placement is an index out of range. *)
Definition convert_arg (expect : gmap string (list placement)) (key : string)
    (acc : list nat) (t : nat) : M statusConverter (list nat) :=
  match default [] (expect !! key) !! length acc with
  | None => panic
  | Some pm => convertedT ← convertTo t pm; mret (acc ++ [convertedT])
  end.

Definition convertStatusForMap (inputT : tensor_args) (expect : gmap string (list placement))
    : M statusConverter tensor_args :=
  foldlM (λ result '(key, ts),
      l ← foldlM (convert_arg expect key) [] ts;
      mret (if bool_decide (ts = []) then result else <[key := l]> result))
    ∅ (SortedMap inputT).
End maps.

(** ** Costs *)
Definition getStatusConversionCost (inputT : Tensor) (newPlacement : placement) : res algCost :=
  let n := Z.of_nat (length (partyList newPlacement)) in
  match tensor_status inputT, Status newPlacement with
  | TENSORSTATUS_PRIVATE, TENSORSTATUS_PRIVATE =>
      match partyList newPlacement with
      | [] => Panic
      | p :: _ => if bool_decide (OwnerPartyCode inputT = p) then Ok (newAlgCost 0 0)
                  else Ok (newAlgCost 1 0)
      end
  | TENSORSTATUS_PRIVATE, TENSORSTATUS_SECRET => Ok (newAlgCost (n - 1) 0)
  | TENSORSTATUS_PRIVATE, TENSORSTATUS_PUBLIC => Ok (newAlgCost (n - 1) 0)
  | TENSORSTATUS_SECRET, TENSORSTATUS_PRIVATE => Ok (newAlgCost (n - 1) 0)
  | TENSORSTATUS_SECRET, TENSORSTATUS_SECRET => Ok (newAlgCost 0 0)
  | TENSORSTATUS_SECRET, TENSORSTATUS_PUBLIC => Ok (newAlgCost n 0)
  | TENSORSTATUS_PUBLIC, TENSORSTATUS_PRIVATE => Ok (newAlgCost 0 1)
  | TENSORSTATUS_PUBLIC, TENSORSTATUS_SECRET => Ok (newAlgCost (n - 1) 0)
  | TENSORSTATUS_PUBLIC, TENSORSTATUS_PUBLIC => Ok (newAlgCost 0 0)
  | _, _ => Err "failed to find status conversion cost"
  end.

(** [statusConverter.getStatusConversionCost]: a remembered conversion is free. *)
Definition converter_getStatusConversionCost (inputT : nat) (expectPlace : placement)
    : M statusConverter algCost :=
  b ← get;
  match getExpectTensorFromMap b inputT expectPlace with
  | Some _ => mret (newAlgCost 0 0)
  | None => t ← on_plan (tensor_at inputT); lift (getStatusConversionCost t expectPlace)
  end.

(** ** What a conversion returns *)
Definition converted (t t' : Tensor) (pm : placement) : Prop :=
  tensor_status t' = Status pm
  ∧ (∀ p, pm = privatePlacement p → OwnerPartyCode t' = p)
  ∧ CC t' = CC t ∧ DType t' = DType t.

Lemma adds_grows s n s' : adds s n s' → grows s s'.
Proof. intros (s1 & op & [[] _] & _ & _ & ->). by split. Qed.

Lemma grows_trans s1 s2 s3 : builder_wf s1 → grows s1 s2 → grows s2 s3 → grows s1 s3.
Proof.
  intros _ [? Hn1 Ht1 ? ?] [? Hn2 Ht2 ? ?]. split; [done|lia| |congruence|congruence].
  intros i Hi. rewrite Ht2 by lia. by apply Ht1.
Qed.

Lemma grows_lookup s s' i t :
  builder_wf s → grows s s' → Tensors s !! i = Some t → Tensors s' !! i = Some t.
Proof.
  intros [Hlen _] Hg Hi. rewrite (grows_tensors _ _ Hg); [done|].
  rewrite Hlen. by eapply lookup_lt_Some.
Qed.

(** The value of one conversion node. *)
Definition conversion (i : nat) (pm : placement) (m : MB nat) : Prop :=
  ∀ s s' o, builder_wf s → m s = (s', Ok o) →
    ∃ t t', Tensors s !! i = Some t ∧ Tensors s' !! o = Some t' ∧ grows s s'
            ∧ converted t t' pm.

Lemma conversion_node s s' i o t t' n pm :
  reveal_node s s' i o t t' n → converted t t' pm →
  ∃ t t', Tensors s !! i = Some t ∧ Tensors s' !! o = Some t' ∧ grows s s' ∧ converted t t' pm.
Proof.
  intros (Hadds & _ & _ & _ & ? & _ & ?) ?. exists t, t'.
  split_and!; [done..|by eapply adds_grows|done].
Qed.

Lemma conversion_MakePrivate name i p ps :
  conversion i (privatePlacement p) (AddMakePrivateNode name i p ps).
Proof.
  intros s s' o Hwf H. apply AddMakePrivateNode_Ok in H as (t & n & Hn & _); [|done].
  eapply conversion_node; [exact Hn|]. split; [done|]. split; [by intros ? [= ->]|].
  split; [by autorewrite with tensor_cc|done].
Qed.

Lemma conversion_MakePublic name i ps :
  conversion i (publicPlacement ps) (AddMakePublicNode name i ps).
Proof.
  intros s s' o Hwf H. apply AddMakePublicNode_Ok in H as (t & n & Hn & _); [|done].
  eapply conversion_node; [exact Hn|]. split; [done|]. split; [done|].
  split; [by autorewrite with tensor_cc|done].
Qed.

Lemma conversion_MakeShare name i ps :
  conversion i (sharePlacement ps) (AddMakeShareNode name i ps).
Proof.
  intros s s' o Hwf H.
  apply AddMakeShareNode_Ok in H as (t & t' & n & Hn & _ & _ & ->); [|done].
  eapply conversion_node; [exact Hn|]. split; [done|]. split; [done|].
  split; [by autorewrite with tensor_cc|done].
Qed.

(** A copy keeps the status, so it is a conversion of private tensors. *)
Lemma Copy_value name i p q s s' o :
  builder_wf s → AddCopyNode name i p q s = (s', Ok o) →
  ∃ t t', Tensors s !! i = Some t ∧ Tensors s' !! o = Some t' ∧ grows s s'
    ∧ tensor_status t' = tensor_status t ∧ OwnerPartyCode t' = q
    ∧ CC t' = CC t ∧ DType t' = DType t.
Proof.
  intros Hwf H. apply AddCopyNode_Ok in H as (t & n & Hn & _); [|done].
  destruct Hn as (Hadds & _ & _ & _ & ? & _ & ?).
  exists t, (set_OwnerPartyCode q (tensor_as o t)).
  split_and!; [done|done|by eapply adds_grows|done|done| |done].
  by autorewrite with tensor_cc.
Qed.

Lemma wrapErr_conversion i pm prefix m : conversion i pm m → conversion i pm (wrapErr prefix m).
Proof. intros Hm s s' o Hwf H. apply wrapErr_Ok in H. by eapply Hm. Qed.

Lemma conversion_revealString i p : conversion i (privatePlacement p) (revealString i p).
Proof.
  intros s s' o Hwf H. unfold revealString in H.
  apply M_bind_Ok in H as (s0 & s1 & Hget & H). injection Hget as <- <-.
  apply M_bind_Ok in H as (t & s1 & Ht & H). apply tensor_at_Ok in Ht as [-> Ht].
  assert (∀ input s1, grows s s1 → builder_wf s1 →
    (∃ t1, Tensors s1 !! input = Some t1 ∧ CC t1 = CC t ∧ DType t1 = DType t) →
    AddMakePrivateNode "make_private" input p (GetParties (plan_partyInfo s)) s1 = (s', Ok o) →
    ∃ t t', Tensors s !! i = Some t ∧ Tensors s' !! o = Some t' ∧ grows s s'
            ∧ converted t t' (privatePlacement p)) as Hlast.
  { intros input s1 Hg Hwf1 (t1 & Ht1 & Hcc & Hdt) Hm.
    destruct (conversion_MakePrivate _ _ _ _ _ _ _ Hwf1 Hm)
      as (t1' & t' & Ht1' & Ht' & Hg' & Hst & Hown & Hcc' & Hdt').
    assert (t1' = t1) as -> by congruence. exists t, t'.
    split_and!; [done..|by eapply grows_trans|]. split_and!; congruence || done. }
  destruct (SecretStringOwners t) as [|owner [|]].
  - apply M_bind_Ok in H as (input & s1 & Hin & H). case_bool_decide; simpl in Hin.
    + injection Hin as <- <-. apply (Hlast i s); [|done| |done]; [by apply quiet_refl|eauto].
    + apply wrapErr_Ok in Hin. destruct (conversion_MakePublic _ _ _ _ _ _ Hwf Hin)
        as (t0 & t1 & Ht0 & Ht1 & Hg & _ & _ & Hcc & Hdt).
      apply (Hlast input s1); [done|by destruct Hg| |done]. exists t1. split_and!; congruence.
  - apply M_bind_Ok in H as (priv & s1 & Hpriv & H). apply wrapErr_Ok in Hpriv.
    destruct (conversion_MakePrivate _ _ _ _ _ _ _ Hwf Hpriv)
      as (t0 & t1 & Ht0 & Ht1 & Hg & Hst & Hown & Hcc & Hdt).
    case_bool_decide as Howner; simpl in H.
    + injection H as <- <-. subst p. exists t0, t1. split_and!; try done.
    + destruct (Copy_value _ _ _ _ _ _ _ ltac:(by destruct Hg) H)
        as (t2 & t3 & Ht2 & Ht3 & Hg' & Hst' & Hown' & Hcc' & Hdt').
      assert (t2 = t1) as -> by congruence. exists t0, t3.
      split_and!; [done..|by eapply grows_trans|].
      split_and!; [by rewrite Hst'|by intros ? [= ->]|congruence..].
  - apply M_bind_Ok in H as (input & s1 & Hin & H). case_bool_decide; simpl in Hin.
    + injection Hin as <- <-. apply (Hlast i s); [|done| |done]; [by apply quiet_refl|eauto].
    + apply wrapErr_Ok in Hin. destruct (conversion_MakePublic _ _ _ _ _ _ Hwf Hin)
        as (t0' & t1 & Ht0 & Ht1 & Hg & _ & _ & Hcc & Hdt).
      apply (Hlast input s1); [done|by destruct Hg| |done]. exists t1. split_and!; congruence.
Qed.

Lemma conversion_reveal_to i t p : conversion i (privatePlacement p) (reveal_to i t p).
Proof.
  unfold reveal_to. case_bool_decide as Hd; [apply conversion_revealString|].
  intros s s' o Hwf H. apply M_bind_Ok in H as (s0 & s1 & Hget & H). injection Hget as <- <-.
  by eapply conversion_MakePrivate.
Qed.

Lemma conversion_addTensorStatusConversion i pm :
  conversion i pm (addTensorStatusConversion i pm).
Proof.
  intros s s' o Hwf H. unfold addTensorStatusConversion in H.
  apply M_bind_Ok in H as (t & s1 & Ht & H). apply tensor_at_Ok in Ht as [-> Ht].
  assert ((mret i : MB nat) s = (s', Ok o) → converted t t pm →
    ∃ t t', Tensors s !! i = Some t ∧ Tensors s' !! o = Some t' ∧ grows s s'
            ∧ converted t t' pm) as Hsame.
  { intros [= <- <-] Hc. exists t, t. split_and!; try done. }
  destruct (tensor_status t) eqn:Hst, pm as [p|ps|ps]; try discriminate H.
  - case_bool_decide as Hown; simpl in H.
    + apply Hsame; [done|]. split_and!; try done. by intros ? [= <-].
    + apply wrapErr_Ok in H. destruct (Copy_value _ _ _ _ _ _ _ Hwf H)
        as (t0 & t' & Ht0 & Ht' & Hg & Hst' & Hown' & Hcc & Hdt).
      assert (t0 = t) as -> by congruence. exists t, t'. split_and!; try done.
      split_and!; [by rewrite Hst'|by intros ? [= <-]|done..].
  - by eapply conversion_MakePublic.
  - by eapply conversion_MakeShare.
  - by eapply conversion_reveal_to.
  - by eapply conversion_MakePublic.
  - by apply Hsame.
  - by eapply conversion_reveal_to.
  - by apply Hsame.
  - by eapply conversion_MakeShare.
Qed.

(** ** A conversion, successful or not, is a run of builder operations *)
Section progress.
Context `{GoRange} {F : Type} (TypeName : F → string) (SerializeOptions : F → res (list Z)).

Definition progress (s s' : GraphBuilder) : Prop :=
  grows s s' ∧ rtc (plan_step TypeName SerializeOptions) s s'.

Definition progresses {A} (m : MB A) : Prop := ∀ s, builder_wf s → progress s (m s).1.

Lemma progress_refl s : builder_wf s → progress s s.
Proof. intros Hwf. split; [by apply quiet_refl|done]. Qed.

Lemma progresses_bind {A B} (m : MB A) (f : A → MB B) :
  progresses m → (∀ a, progresses (f a)) → progresses (m ≫= f).
Proof.
  intros Hm Hf s Hwf. unfold mbind, M_bind. specialize (Hm s Hwf) as [Hg Hs].
  destruct (m s) as [s1 [a| |]]; simpl in *; [|by split..].
  destruct (Hf a s1) as [Hg' Hs']; [by destruct Hg|].
  split; [by eapply grows_trans|by etrans].
Qed.
Lemma progresses_wrapErr {A} prefix (m : MB A) : progresses m → progresses (wrapErr prefix m).
Proof.
  intros Hm s Hwf. specialize (Hm s Hwf). unfold wrapErr. by destruct (m s) as [s1 [a| |]].
Qed.
Lemma progresses_ret {A} (a : A) : progresses (mret a).
Proof. intros s. apply progress_refl. Qed.
Lemma progresses_fail {A} e : progresses (fail e : MB A).
Proof. intros s. apply progress_refl. Qed.
Lemma progresses_get : progresses get.
Proof. intros s. apply progress_refl. Qed.
Lemma progresses_tensor_at t : progresses (tensor_at t).
Proof. intros s Hwf. unfold tensor_at. destruct (Tensors s !! t); by apply progress_refl. Qed.

Lemma discard_fst {A} (m : MB A) s : (discard m s).1 = (m s).1.
Proof. unfold discard, mbind, M_bind. by destruct (m s) as [s1 [a| |]]. Qed.

Lemma progresses_op {A} o (m : MB A) :
  guarded o → run_op TypeName SerializeOptions o = discard m → progresses m.
Proof.
  intros Hg Hrun s Hwf. rewrite <- discard_fst, <- Hrun. split.
  - pose proof (run_op_effect TypeName SerializeOptions s o s (quiet_refl s Hwf)) as He.
    destruct (run_op _ _ o s) as [s' [[]| |]]; simpl; [|by destruct He..].
    destruct He as (n & Hn & _). by eapply adds_grows.
  - apply rtc_once. by apply step_op.
Qed.

Lemma progresses_Copy name i p q : progresses (AddCopyNode name i p q).
Proof. by apply (progresses_op (Copy name i p q)). Qed.
Lemma progresses_MakePrivate name i p ps : progresses (AddMakePrivateNode name i p ps).
Proof. by apply (progresses_op (MakePrivate name i p ps)). Qed.
Lemma progresses_MakeShare name i ps : progresses (AddMakeShareNode name i ps).
Proof. by apply (progresses_op (MakeShare name i ps)). Qed.
Lemma progresses_MakePublic name i ps : progresses (AddMakePublicNode name i ps).
Proof. by apply (progresses_op (MakePublic name i ps)). Qed.
End progress.

#[export] Hint Resolve progresses_wrapErr progresses_ret progresses_fail progresses_get
  progresses_tensor_at progresses_Copy progresses_MakePrivate progresses_MakeShare
  progresses_MakePublic : go.

Section progress_conversion.
Context `{GoRange} {F : Type} (TypeName : F → string) (SerializeOptions : F → res (list Z)).
Notation progresses := (progresses TypeName SerializeOptions).

Lemma progresses_revealString i p : progresses (revealString i p).
Proof.
  unfold revealString. apply progresses_bind; [auto with go|]. intros s0.
  apply progresses_bind; [auto with go|]. intros t.
  destruct (SecretStringOwners t) as [|owner [|]].
  2: apply progresses_bind; [auto with go|]; intros o; destruct (negb _); auto with go.
  all: apply progresses_bind; [destruct (negb _); auto with go|auto with go].
Qed.

Lemma progresses_reveal_to i t p : progresses (reveal_to i t p).
Proof.
  unfold reveal_to. case_bool_decide; [apply progresses_revealString|].
  apply progresses_bind; auto with go.
Qed.

Lemma progresses_addTensorStatusConversion i pm : progresses (addTensorStatusConversion i pm).
Proof.
  unfold addTensorStatusConversion. apply progresses_bind; [auto with go|]. intros t.
  destruct (tensor_status t), pm; try destruct (negb _); auto with go;
    apply progresses_reveal_to.
Qed.
End progress_conversion.

(** ** The memory of conversions *)
Lemma append_char_inj c s1 s2 : s1 +:+ String c "" = s2 +:+ String c "" → s1 = s2.
Proof.
  revert s2. induction s1 as [|a s1 IH]; intros [|b s2]; simpl; intros Heq.
  - done.
  - injection Heq as _ Heq. by destruct s2.
  - injection Heq as _ Heq. by destruct s1.
  - injection Heq as -> Heq. f_equal. by apply IH.
Qed.

(** The key determines the status and, for a private placement, the party. *)
Lemma toString_key pm1 pm2 :
  toString pm1 = toString pm2 →
  Status pm1 = Status pm2 ∧ ∀ p, pm2 = privatePlacement p → pm1 = privatePlacement p.
Proof.
  unfold toString.
  assert (pretty 1%N = "1" ∧ pretty 2%N = "2" ∧ pretty 4%N = "4") as (H1 & H2 & H4)
    by (vm_compute; done).
  destruct pm1 as [p1|ps1|ps1], pm2 as [p2|ps2|ps2]; cbn [Status TensorStatus_number partyList Join];
    rewrite ?H1, ?H2, ?H4; intros Heq; simplify_eq/=; split; try done.
  intros p [= <-]. by apply append_char_inj in Heq as ->.
Qed.

Lemma converted_key t t' pm pm' :
  toString pm = toString pm' → converted t t' pm → converted t t' pm'.
Proof.
  intros [Hst Hp]%toString_key (H1 & H2 & H3). split_and!; [by rewrite <- Hst| |by destruct H3..].
  intros p Hpm. by apply H2, Hp.
Qed.

Definition converter_wf (b : statusConverter) : Prop :=
  builder_wf (plan b) ∧
  ∀ i key o, convertMap b !! (i, key) = Some o →
    ∃ pm t t', toString pm = key ∧ Tensors (plan b) !! i = Some t
      ∧ Tensors (plan b) !! o = Some t' ∧ converted t t' pm.

Lemma converter_wf_grows m p p' :
  converter_wf (mkStatusConverter m p) → grows p p' → converter_wf (mkStatusConverter m p').
Proof.
  intros [Hwf Hm] Hg. split; [by destruct Hg|]. intros i key o Ho.
  destruct (Hm i key o Ho) as (pm & t & t' & Hk & Ht & Ht' & Hc).
  exists pm, t, t'. split_and!; [done|by eapply grows_lookup..|done].
Qed.

Section convert_to.
Context `{GoRange} {F : Type} (TypeName : F → string) (SerializeOptions : F → res (list Z)).
Notation progress := (progress TypeName SerializeOptions).

(** [o] is the tensor [i] converted to [pm]. *)
Definition conv_at (p : GraphBuilder) (i o : nat) (pm : placement) : Prop :=
  ∃ t t', Tensors p !! i = Some t ∧ Tensors p !! o = Some t' ∧ converted t t' pm.

Lemma conv_at_grows p p' i o pm :
  builder_wf p → grows p p' → conv_at p i o pm → conv_at p' i o pm.
Proof.
  intros Hwf Hg (t & t' & Ht & Ht' & Hc). exists t, t'.
  split_and!; [by eapply grows_lookup..|done].
Qed.

Lemma convertTo_spec i pm b :
  converter_wf b →
  let '(b', r) := convertTo i pm b in
  converter_wf b' ∧ progress (plan b) (plan b') ∧
  match r with
  | Ok o => conv_at (plan b') i o pm ∧ convertMap b' !! (i, toString pm) = Some o
  | _ => convertMap b' = convertMap b
  end.
Proof.
  intros [Hwf Hm]. unfold convertTo, mbind, M_bind. cbn [get].
  unfold get, getExpectTensorFromMap. destruct (convertMap b !! (i, toString pm)) as [o|] eqn:Ho.
  { split; [done|]. split; [by apply progress_refl|]. split; [|done].
    destruct (Hm _ _ _ Ho) as (pm' & t & t' & Hk & Ht & Ht' & Hc).
    exists t, t'. split_and!; [done..|]. by eapply converted_key. }
  unfold on_plan.
  pose proof (progresses_addTensorStatusConversion TypeName SerializeOptions i pm (plan b) Hwf)
    as Hp.
  destruct (addTensorStatusConversion i pm (plan b)) as [p' [o| |]] eqn:Hadd; simpl in *;
    (split; [|split; [exact Hp|]]);
    try (by destruct b; eapply converter_wf_grows; [by split|apply Hp]); try done.
  - destruct (conversion_addTensorStatusConversion _ _ _ _ _ Hwf Hadd)
      as (t & t' & Ht & Ht' & Hg & Hc).
    split; [by destruct Hg|]. intros i' key o'. simpl. rewrite lookup_insert. case_decide as Heq.
    + intros [= <-]. injection Heq as <- <-. exists pm, t, t'.
      split_and!; [done|by eapply grows_lookup|done..].
    + intros Ho'. destruct (Hm _ _ _ Ho') as (pm' & t1 & t1' & Hk & Ht1 & Ht1' & Hc1).
      exists pm', t1, t1'. split_and!; [done|by eapply grows_lookup..|done].
  - destruct (conversion_addTensorStatusConversion _ _ _ _ _ Hwf Hadd)
      as (t & t' & Ht & Ht' & Hg & Hc).
    split; [|by rewrite lookup_insert_eq]. exists t, t'.
    split_and!; [by eapply grows_lookup|done..].
Qed.

Lemma convert_args_spec expect key ts acc b b' l :
  converter_wf b → foldlM (convert_arg expect key) acc ts b = (b', Ok l) →
  converter_wf b' ∧ progress (plan b) (plan b') ∧ ∃ os, l = acc ++ os ∧ length os = length ts
  ∧ ∀ j t, ts !! j = Some t → ∃ o pm, os !! j = Some o
      ∧ default [] (expect !! key) !! (length acc + j)%nat = Some pm
      ∧ conv_at (plan b') t o pm.
Proof.
  revert acc b. induction ts as [|t ts IH]; intros acc b Hwf Hr.
  { injection Hr as <- <-. split; [done|]. split; [apply progress_refl, Hwf|].
    exists []. rewrite app_nil_r. split_and!; [done..|set_solver]. }
  cbn [foldlM] in Hr. apply M_bind_Ok in Hr as (acc' & b1 & H1 & Hr). unfold convert_arg in H1.
  destruct (default [] (expect !! key) !! length acc) as [pm|] eqn:Hpm; [|discriminate].
  apply M_bind_Ok in H1 as (o & b2 & Hc & H1). injection H1 as <- <-.
  pose proof (convertTo_spec t pm b Hwf) as Hs. rewrite Hc in Hs.
  destruct Hs as (Hwf1 & [Hg1 Hst1] & Hat & _).
  destruct (IH _ _ Hwf1 Hr) as (Hwf' & [Hg' Hst'] & os & -> & Hlen & Hall).
  split; [done|]. split; [split; [by eapply grows_trans; [apply Hwf|..]|by etrans]|].
  exists (o :: os). rewrite <- (assoc_L (++)). split_and!; [done|simpl; by rewrite Hlen|].
  intros [|j] t' Hj; simpl in Hj.
  - injection Hj as <-. exists o, pm. rewrite Nat.add_0_r. split_and!; [done..|].
    eapply conv_at_grows; [apply Hwf1|done|done].
  - destruct (Hall _ _ Hj) as (o' & pm' & Ho' & Hpm' & Hat'). exists o', pm'.
    split_and!; [done| |done]. rewrite <- Hpm'. f_equal. rewrite length_app. simpl. lia.
Qed.

(** The converted arguments of one key. *)
Definition key_converted (expect : gmap string (list placement)) (p : GraphBuilder)
    (key : string) (ts os : list nat) : Prop :=
  length os = length ts ∧ ∀ j t, ts !! j = Some t → ∃ o pm, os !! j = Some o
    ∧ default [] (expect !! key) !! j = Some pm ∧ conv_at p t o pm.

Lemma key_converted_grows expect p p' key ts os :
  builder_wf p → grows p p' → key_converted expect p key ts os →
  key_converted expect p' key ts os.
Proof.
  intros Hwf Hg [Hlen Hk]. split; [done|]. intros j t Hj.
  destruct (Hk j t Hj) as (o & pm & ? & ? & ?). exists o, pm. split_and!; [done..|].
  by eapply conv_at_grows.
Qed.

Lemma convert_map_spec expect l (acc : tensor_args) b b' r :
  converter_wf b → NoDup l.*1 →
  foldlM (λ (result : tensor_args) '(key, ts),
      l ← foldlM (convert_arg expect key) [] ts;
      mret (if bool_decide (ts = []) then result else <[key := l]> result)) acc l b
    = (b', Ok r) →
  converter_wf b' ∧ progress (plan b) (plan b')
  ∧ (∀ k, k ∉ l.*1 → r !! k = acc !! k)
  ∧ ∀ k ts, (k, ts) ∈ l → (ts = [] ∧ r !! k = acc !! k)
      ∨ ∃ os, r !! k = Some os ∧ key_converted expect (plan b') k ts os.
Proof.
  revert acc b. induction l as [|[key ts] l IH]; intros acc b Hwf Hnd Hr.
  { injection Hr as <- <-. split; [done|]. split; [apply progress_refl, Hwf|].
    split; [done|set_solver]. }
  apply NoDup_cons in Hnd as [Hkey Hnd].
  cbn [foldlM] in Hr. apply M_bind_Ok in Hr as (acc' & b1 & H1 & Hr).
  apply M_bind_Ok in H1 as (os' & b2 & Hc & H1). injection H1 as <- <-.
  apply convert_args_spec in Hc as (Hwf1 & [Hg1 Hs1] & os & -> & Hlen & Hall); [|done].
  destruct (IH _ _ Hwf1 Hnd Hr) as (Hwf' & [Hg' Hs'] & Hother & Hin).
  split; [done|]. split; [split; [by eapply grows_trans; [apply Hwf|..]|by etrans]|].
  split.
  - intros k Hk. rewrite Hother by set_solver. case_bool_decide; [done|].
    rewrite lookup_insert_ne; [done|set_solver].
  - intros k ts' [[= -> ->]|Hin']%elem_of_cons.
    + rewrite (Hother key) by done. case_bool_decide as Hts; [by left|]. right. exists os.
      rewrite lookup_insert_eq. split; [done|].
      eapply key_converted_grows; [apply Hwf1|done|]. by split.
    + assert (k ≠ key) as Hne.
      { intros ->. apply Hkey. by apply (list_elem_of_fmap_2 fst l (key, ts')). }
      destruct (Hin _ _ Hin') as [[-> Hr']|?]; [left|by right]. split; [done|].
      rewrite Hr'. case_bool_decide; [done|]. by rewrite lookup_insert_ne.
Qed.
End convert_to.

(** ** Conversions that must succeed *)
Lemma unary_accepted s op opt1 opt2 c2 l1 l2 i o t1 t2 :
  has_signature [mkFormalParameter In opt1 "T1"] [mkFormalParameter Out opt2 c2]
    [("T1", l1); (c2, l2)] op = true →
  Tensors s !! i = Some t1 → Tensors s !! o = Some t2 →
  tensor_status t1 ∈ l1 → tensor_status t2 ∈ l2 →
  (c2 = "T1" → tensor_status t1 = tensor_status t2) →
  ∃ d, FindOpDef op = Ok d
    ∧ CheckParamStatusConstraint (status_of s) d {[ In := [i] ]} {[ Out := [o] ]} = Ok tt.
Proof.
  intros Hsig H1 H2 Hl1 Hl2 Hc2.
  apply has_signature_spec in Hsig as (d & Hd & Hi & Ho & Hc).
  exists d. split; [done|]. apply check_status_iff. rewrite Hi, Ho.
  split; [vm_compute; reflexivity|]. split; [vm_compute; reflexivity|].
  exists (λ c, if bool_decide (c = "T1") then tensor_status t1 else tensor_status t2).
  assert (∀ j t, Tensors s !! j = Some t → status_of s j = Ok (tensor_status t)) as Hst
    by (intros j t Hj; unfold status_of; by rewrite Hj).
  split; (apply Forall_cons_2; [|apply Forall_nil_2]); unfold param_ok;
    cbn [ParamName ParameterStatusConstraintName]; rewrite lookup_singleton_eq.
  - rewrite bool_decide_true by done. split; [by rewrite (Hst i t1)|].
    exists l1. split; [apply Hc; in_list|done].
  - assert ((if bool_decide (c2 = "T1") then tensor_status t1 else tensor_status t2)
      = tensor_status t2) as -> by (case_bool_decide; auto).
    split; [by rewrite (Hst o t2)|]. exists l2. split; [apply Hc; in_list|done].
Qed.

Lemma AddExecutionNode_succeeds name op ins outs attrs ps s d :
  FindOpDef op = Ok d → CheckParamStatusConstraint (status_of s) d ins outs = Ok tt →
  ∃ s' n, AddExecutionNode name op ins outs attrs ps s = (s', Ok n).
Proof.
  intros Hd Hc. unfold AddExecutionNode, mbind, M_bind, wrapErr, lift. rewrite Hd.
  unfold get. rewrite Hc. by do 2 eexists.
Qed.

Lemma as_node_succeeds s i t f name op attrs ps opt1 opt2 c2 l1 l2 :
  builder_wf s → Tensors s !! i = Some t →
  has_signature [mkFormalParameter In opt1 "T1"] [mkFormalParameter Out opt2 c2]
    [("T1", l1); (c2, l2)] op = true →
  tensor_status t ∈ l1 → (∀ x, tensor_status x = tensor_status t → tensor_status (f x) ∈ l2
    ∧ (c2 = "T1" → tensor_status t = tensor_status (f x))) →
  let o := tensorNum s in
  ∃ s2 s4 n, AddTensorAs i s = (s2, Ok o)
    ∧ AddExecutionNode name op {[ In := [i] ]} {[ Out := [o] ]} attrs ps (upd_tensor o f s2).1
      = (s4, Ok n).
Proof.
  intros Hwf Ht Hsig Hl1 Hf o.
  destruct (AddTensorAs_spec s s i t (quiet_refl s Hwf) Ht) as (s2 & Has & _ & Hold & Hnew).
  assert (i < tensorNum s)%nat as Hi.
  { destruct Hwf as [-> _]. by eapply lookup_lt_Some. }
  destruct (Hf (tensor_as o t) eq_refl) as [Hl2 Hc2].
  destruct (unary_accepted (upd_tensor o f s2).1 op opt1 opt2 c2 l1 l2 i o t (f (tensor_as o t)))
    as (d & Hd & Hc); try done.
  - simpl. rewrite list_lookup_alter_ne by lia. by rewrite Hold.
  - simpl. rewrite list_lookup_alter_eq. unfold o. by rewrite Hnew.
  - destruct (AddExecutionNode_succeeds name op {[ In := [i] ]} {[ Out := [o] ]} attrs ps
      (upd_tensor o f s2).1 d Hd Hc) as (s4 & n & Hn). by exists s2, s4, n.
Qed.

(** Running the rest of an operation when its first part is known. *)
Lemma wrap_run {A} prefix (m : MB A) s s' a : m s = (s', Ok a) → wrapErr prefix m s = (s', Ok a).
Proof. intros H. unfold wrapErr. by rewrite H. Qed.

Lemma tensor_at_run t s x : Tensors s !! t = Some x → tensor_at t s = (s, Ok x).
Proof. intros H. unfold tensor_at. by rewrite H. Qed.

Lemma MakePrivate_signature :
  has_signature [mkFormalParameter In VARIADIC "T1"] [mkFormalParameter Out VARIADIC "T2"]
    [("T1", statusSecretOrPublic); ("T2", statusPrivate)] OpNameMakePrivate = true.
Proof. vm_compute. reflexivity. Qed.
Lemma MakePublic_signature :
  has_signature [mkFormalParameter In VARIADIC "T1"] [mkFormalParameter Out VARIADIC "T2"]
    [("T1", statusPrivateOrSecret); ("T2", statusPublic)] OpNameMakePublic = true.
Proof. vm_compute. reflexivity. Qed.
Lemma MakeShare_signature :
  has_signature [mkFormalParameter In VARIADIC "T1"] [mkFormalParameter Out VARIADIC "T2"]
    [("T1", statusPrivate); ("T2", statusSecret)] OpNameMakeShare = true.
Proof. vm_compute. reflexivity. Qed.
Lemma Copy_signature :
  has_signature [mkFormalParameter In SINGLE "T1"] [mkFormalParameter Out SINGLE "T1"]
    [("T1", statusPrivate); ("T1", statusPrivate)] OpNameCopy = true.
Proof. vm_compute. reflexivity. Qed.

#[local] Opaque AddExecutionNode AddTensorAs.

Lemma MakePrivate_succeeds name i p ps s t :
  builder_wf s → Tensors s !! i = Some t → IsVisibleFor (CC t) p = true →
  tensor_status t ∈ statusSecretOrPublic →
  ∃ s' o, AddMakePrivateNode name i p ps s = (s', Ok o).
Proof.
  intros Hwf Ht Hv Hst.
  destruct (as_node_succeeds s i t (λ t, set_SecretStringOwners []
      (set_OwnerPartyCode p (SetStatus TENSORSTATUS_PRIVATE t))) name OpNameMakePrivate
      {[ RevealToAttr := SetString p ]} ps _ _ _ _ _ Hwf Ht MakePrivate_signature Hst)
    as (s2 & s4 & n & Has & Hn).
  { intros x _. split; [by apply list_elem_of_singleton|done]. }
  unfold AddMakePrivateNode. rewrite (M_bind_run _ _ _ _ _ (tensor_at_run _ _ _ Ht)), Hv.
  cbn [negb]. rewrite (M_bind_run _ _ _ _ _ Has).
  rewrite (M_bind_run (upd_tensor _ _) _ s2 _ tt eq_refl), (M_bind_run _ _ _ _ _ Hn).
  by do 2 eexists.
Qed.

Lemma Copy_succeeds name i p q s t :
  builder_wf s → Tensors s !! i = Some t → IsVisibleFor (CC t) q = true →
  tensor_status t = TENSORSTATUS_PRIVATE →
  ∃ s' o, AddCopyNode name i p q s = (s', Ok o).
Proof.
  intros Hwf Ht Hv Hst.
  destruct (as_node_succeeds s i t (set_OwnerPartyCode q) name OpNameCopy
      {[ InputPartyCodesAttr := SetString p; OutputPartyCodesAttr := SetString q ]} [p; q]
      _ _ _ _ _ Hwf Ht Copy_signature) as (s2 & s4 & n & Has & Hn).
  { rewrite Hst. by apply list_elem_of_singleton. }
  { intros x Hx. rewrite Hst in *. split; [by apply list_elem_of_singleton|done]. }
  unfold AddCopyNode. rewrite (M_bind_run _ _ _ _ _ (tensor_at_run _ _ _ Ht)), Hv.
  cbn [negb]. rewrite (M_bind_run _ _ _ _ _ Has).
  rewrite (M_bind_run (upd_tensor _ _) _ s2 _ tt eq_refl).
  rewrite (M_bind_run _ _ _ _ _ (wrap_run _ _ _ _ _ Hn)). by do 2 eexists.
Qed.

Lemma forM_check_run {A} (f : A → bool) e l (s : GraphBuilder) :
  forallb f l = true → forM (λ p, if negb (f p) then fail e else mret tt) l s = (s, Ok tt).
Proof.
  induction l as [|x l IH]; [done|]. cbn [forallb forM]. intros [Hx Hl]%andb_prop.
  rewrite Hx. cbn [negb]. rewrite (M_bind_run _ _ _ s tt eq_refl). by apply IH.
Qed.

Lemma MakePublic_succeeds name i ps s t :
  builder_wf s → Tensors s !! i = Some t → forallb (IsVisibleFor (CC t)) ps = true →
  tensor_status t ∈ statusPrivateOrSecret →
  ∃ s' o, AddMakePublicNode name i ps s = (s', Ok o).
Proof.
  intros Hwf Ht Hv Hst.
  destruct (as_node_succeeds s i t (SetStatus TENSORSTATUS_PUBLIC) name OpNameMakePublic
      ∅ ps _ _ _ _ _ Hwf Ht MakePublic_signature Hst) as (s2 & s4 & n & Has & Hn).
  { intros x _. split; [by apply list_elem_of_singleton|done]. }
  unfold AddMakePublicNode. rewrite (M_bind_run _ _ _ _ _ (tensor_at_run _ _ _ Ht)).
  rewrite (M_bind_run _ _ _ _ _ (forM_check_run _ _ _ _ Hv)), (M_bind_run _ _ _ _ _ Has).
  rewrite (M_bind_run (upd_tensor _ _) _ s2 _ tt eq_refl), (M_bind_run _ _ _ _ _ Hn).
  by do 2 eexists.
Qed.

Lemma MakeShare_succeeds name i ps s t :
  builder_wf s → Tensors s !! i = Some t → tensor_status t = TENSORSTATUS_PRIVATE →
  ∃ s' o, AddMakeShareNode name i ps s = (s', Ok o).
Proof.
  intros Hwf Ht Hst. set (f o := set_OwnerPartyCode "" (SetStatus TENSORSTATUS_SECRET o)).
  set (g := if bool_decide (DType t = STRING)
            then set_SecretStringOwners [OwnerPartyCode t] ∘ f else f).
  destruct (as_node_succeeds s i t g name OpNameMakeShare
      ∅ ps _ _ _ _ _ Hwf Ht MakeShare_signature) as (s2 & s4 & n & Has & Hn).
  { rewrite Hst. by apply list_elem_of_singleton. }
  { intros x _. split; [|done]. unfold g. case_bool_decide; by apply list_elem_of_singleton. }
  assert (Tensors s2 !! i = Some t) as Ht2.
  { destruct (AddTensorAs_spec s s i t (quiet_refl s Hwf) Ht) as (s2' & Has' & _ & Hold & _).
    rewrite Has in Has'. injection Has' as <-. rewrite Hold; [done|].
    destruct Hwf as [-> _]. by eapply lookup_lt_Some. }
  unfold AddMakeShareNode. rewrite (M_bind_run _ _ _ _ _ Has).
  rewrite (M_bind_run _ _ _ _ _ (tensor_at_run _ _ _ Ht2)).
  rewrite (M_bind_run (upd_tensor _ _) _ s2 (upd_tensor (tensorNum s) f s2).1 tt eq_refl).
  assert ((if bool_decide (DType t = STRING)
           then upd_tensor (tensorNum s) (set_SecretStringOwners [OwnerPartyCode t])
           else mret tt) (upd_tensor (tensorNum s) f s2).1
          = ((upd_tensor (tensorNum s) g s2).1, Ok tt)) as Hu.
  { unfold g. case_bool_decide; [|done]. by rewrite upd_tensor_compose. }
  rewrite (M_bind_run _ _ _ _ _ Hu), (M_bind_run _ _ _ _ _ Hn). by do 2 eexists.
Qed.

Lemma conversion_succeeds i pm s t :
  builder_wf s → Tensors s !! i = Some t → tensor_status t ∈ statusPrivateOrSecretOrPublic →
  checkPlacementCCL pm (CC t) = true →
  (DType t ≠ STRING ∨ tensor_status t = TENSORSTATUS_PRIVATE) →
  ¬ (tensor_status t = TENSORSTATUS_PUBLIC ∧ Status pm = TENSORSTATUS_SECRET) →
  ∃ s' o, addTensorStatusConversion i pm s = (s', Ok o).
Proof.
  intros Hwf Ht Hst Hcc Hstr Hps. unfold addTensorStatusConversion.
  rewrite (M_bind_run _ _ _ _ _ (tensor_at_run _ _ _ Ht)).
  assert (∀ p, IsVisibleFor (CC t) p = true → tensor_status t ∈ statusSecretOrPublic →
    ∃ s' o, reveal_to i t p s = (s', Ok o)) as Hreveal.
  { intros p Hp Hs. unfold reveal_to. rewrite bool_decide_false.
    - rewrite (M_bind_run get _ s s s eq_refl). by eapply MakePrivate_succeeds.
    - destruct Hstr as [?|Hpriv]; [done|]. rewrite Hpriv in Hs.
      exfalso. revert Hs. apply (bool_decide_unpack _). vm_compute. exact I. }
  destruct (tensor_status t) eqn:E, pm as [p|ps|ps]; simpl in Hcc;
    try (exfalso; revert Hst; apply (bool_decide_unpack _); vm_compute; exact I).
  - case_bool_decide; [by do 2 eexists|]. cbn [negb].
    destruct (Copy_succeeds "copy" i (OwnerPartyCode t) p s t Hwf Ht Hcc E) as (s' & o & H').
    exists s', o. by apply wrap_run.
  - eapply MakePublic_succeeds; [done..|]. rewrite E. apply (bool_decide_unpack _). by vm_compute.
  - by eapply MakeShare_succeeds.
  - apply Hreveal; [done|]. apply (bool_decide_unpack _). by vm_compute.
  - eapply MakePublic_succeeds; [done..|]. rewrite E. apply (bool_decide_unpack _). by vm_compute.
  - by do 2 eexists.
  - apply Hreveal; [done|]. apply (bool_decide_unpack _). by vm_compute.
  - by do 2 eexists.
  - by destruct Hps.
Qed.

Lemma public_to_share_fails i ps s t :
  builder_wf s → Tensors s !! i = Some t → tensor_status t = TENSORSTATUS_PUBLIC →
  is_ok (addTensorStatusConversion i (sharePlacement ps) s).2 = false.
Proof.
  intros Hwf Ht Hst. unfold addTensorStatusConversion.
  rewrite (M_bind_run _ _ _ _ _ (tensor_at_run _ _ _ Ht)), Hst.
  destruct (AddMakeShareNode "make_share" i ps s) as [s' [o| |]] eqn:Hrun; [|done..].
  exfalso. apply AddMakeShareNode_Ok in Hrun as (t0 & t' & n & Hn & Hop & _ & _); [|done].
  destruct Hn as ((s1 & d & [Hg _] & Hd & Hc & _) & Hi & Ho & _ & Ht0 & _).
  assert (t0 = t) as -> by congruence. rewrite Hop in Hd.
  destruct (has_signature_spec _ _ _ _ MakeShare_signature) as (d' & Hd' & Hdi & _ & Hcons).
  assert (d' = d) as -> by congruence.
  apply check_status_iff in Hc as (_ & _ & σ & Hin & _). rewrite Hdi, Hi in Hin.
  apply Forall_cons_1 in Hin as [Hp _]. unfold param_ok in Hp. cbn [ParamName] in Hp.
  rewrite lookup_singleton_eq in Hp. cbn [ParameterStatusConstraintName] in Hp.
  destruct Hp as [Hσ (allowed & Hal & Hin)].
  rewrite (Hcons "T1" statusPrivate) in Hal by in_list. injection Hal as <-.
  unfold status_of in Hσ. rewrite (grows_lookup _ _ _ _ Hwf Hg Ht0), Hst in Hσ.
  injection Hσ as Hσ. rewrite <- Hσ in Hin. by apply list_elem_of_singleton in Hin.
Qed.

(** ** Properties *)
Lemma elem_convert_map `{GoRange} (m : tensor_args) : NoDup (SortedMap m).*1.
Proof. rewrite SortedMap_keys. apply SortMapKey_NoDup. Qed.

Section converter_properties.
Context `{GoRange} {F : Type} (TypeName : F → string) (SerializeOptions : F → res (list Z)).

(** C21: [convertTo] keeps its memory sound whatever happens, and only runs builder
    operations on the plan, so every property of reachable plans is kept.  When it
    returns a tensor, the tensor has the status of the placement asked for, belongs
    to the party asked for if the placement is private, and has the type and the
    CCL of the input; this also holds when the tensor comes from memory, although
    the memory is keyed by the printed placement. *)
Theorem convert_to_correct (b : statusConverter) (i : nat) (pm : placement) :
  converter_wf b →
  let '(b', r) := convertTo i pm b in
  converter_wf b' ∧ rtc (plan_step TypeName SerializeOptions) (plan b) (plan b') ∧
  match r with
  | Ok o => ∃ t t', Tensors (plan b') !! i = Some t ∧ Tensors (plan b') !! o = Some t'
              ∧ converted t t' pm
  | _ => convertMap b' = convertMap b
  end.
Proof.
  intros Hwf. pose proof (convertTo_spec TypeName SerializeOptions i pm b Hwf) as Hs.
  destruct (convertTo i pm b) as [b' [o| |]]; destruct Hs as (? & [_ ?] & Hr);
    (split; [done|]); (split; [done|]); [|done..]. by destruct Hr.
Qed.

(** Converting the arguments of a node converts every tensor of every argument
    to the placement at its position, keeps the order, and leaves a sound memory. *)
Theorem convert_map_correct (b b' : statusConverter) (inputT result : tensor_args)
    (expect : gmap string (list placement)) :
  converter_wf b → convertStatusForMap inputT expect b = (b', Ok result) →
  converter_wf b' ∧ ∀ k ts, inputT !! k = Some ts → ts ≠ [] →
    ∃ os, result !! k = Some os ∧ key_converted expect (plan b') k ts os.
Proof.
  intros Hwf Hr. unfold convertStatusForMap in Hr.
  eapply (convert_map_spec TypeName SerializeOptions) in Hr as (? & _ & _ & Hin);
    [|done|apply elem_convert_map].
  split; [done|]. intros k ts Hk Hne. apply elem_of_SortedMap, Hin in Hk as [[? _]|?]; done.
Qed.

(** Asking for the same conversion again returns the same tensor and adds no
    node: the converter and its plan do not change. *)
Theorem convert_to_idempotent (b b' : statusConverter) (i o : nat) (pm : placement) :
  converter_wf b → convertTo i pm b = (b', Ok o) →
  convertTo i pm b' = (b', Ok o)
  ∧ (converter_getStatusConversionCost i pm b') = (b', Ok (newAlgCost 0 0)).
Proof.
  intros Hwf Hr. pose proof (convertTo_spec TypeName SerializeOptions i pm b Hwf) as Hs.
  rewrite Hr in Hs. destruct Hs as (_ & _ & _ & Hmap).
  unfold convertTo, converter_getStatusConversionCost, mbind, M_bind, get,
    getExpectTensorFromMap. by rewrite Hmap.
Qed.


(** Sharing a public tensor is priced as a possible conversion but can never be
    made: the operator registry lets MakeShare take private tensors only, so
    [addTensorStatusConversion] fails after [getStatusConversionCost] has returned a
    cost. *)
Theorem public_to_share_priced_but_impossible (plan : GraphBuilder) (i : nat) (t : Tensor)
    (ps : list string) :
  builder_wf plan → Tensors plan !! i = Some t → tensor_status t = TENSORSTATUS_PUBLIC →
  getStatusConversionCost t (sharePlacement ps)
    = Ok (newAlgCost (Z.of_nat (length ps) - 1) 0)
  ∧ is_ok (addTensorStatusConversion i (sharePlacement ps) plan).2 = false.
Proof.
  intros Hwf Ht Hst. split; [|by eapply public_to_share_fails].
  unfold getStatusConversionCost. by rewrite Hst.
Qed.
End converter_properties.

(** ** Witnesses *)
#[local] Existing Instance go_range_list.
Module ConvDemo.
Definition start (b : bool) : statusConverter := newStatusConverter (Demo.plan5 b).
Definition everyone : placement := publicPlacement ["alice"; "bob"].
Definition after (b : bool) : statusConverter := (convertTo 0 everyone (start b)).1.

Lemma plan5_wf b : builder_wf (Demo.plan5 b).
Proof. apply (inv_wf _ (reachable_inv _ _ _ _ _ (Demo.plan5_reachable b))). Qed.
Lemma start_wf b : converter_wf (start b).
Proof. split; [apply plan5_wf|]. intros i key o Ho. cbn in Ho. by apply lookup_empty_Some in Ho. Qed.
Lemma after_wf b : converter_wf (after b).
Proof.
  pose proof (convertTo_spec Demo.type_name Demo.serialize 0 everyone (start b) (start_wf b))
    as Hs. unfold after. destruct (convertTo 0 everyone (start b)). apply Hs.
Qed.
Lemma after_run b : convertTo 0 everyone (start b) = (after b, Ok 3%nat).
Proof. destruct b; vm_compute; reflexivity. Qed.
End ConvDemo.

Lemma convert_to_correct_witness :
  let '(b', r) := convertTo 0 ConvDemo.everyone (ConvDemo.start false) in
  converter_wf b' ∧ r = Ok 3%nat.
Proof.
  pose proof (convert_to_correct Demo.type_name Demo.serialize (ConvDemo.start false) 0
    ConvDemo.everyone (ConvDemo.start_wf false)) as Hc.
  rewrite (ConvDemo.after_run false) in *. split; [apply Hc|reflexivity].
Defined.

Lemma convert_map_correct_witness :
  ∃ b' result, convertStatusForMap {[ In := [0%nat] ]} {[ In := [ConvDemo.everyone] ]}
                 (ConvDemo.start false) = (b', Ok result)
  ∧ ∃ os, result !! In = Some os
      ∧ key_converted {[ In := [ConvDemo.everyone] ]} (plan b') In [0%nat] os.
Proof.
  set (r := convertStatusForMap {[ In := [0%nat] ]} {[ In := [ConvDemo.everyone] ]}
              (ConvDemo.start false)).
  assert (r = (r.1, Ok {[ In := [3%nat] ]})) as Hr by (vm_compute; reflexivity).
  exists r.1, {[ In := [3%nat] ]}. split; [exact Hr|].
  destruct (convert_map_correct Demo.type_name Demo.serialize (ConvDemo.start false) r.1
    {[ In := [0%nat] ]} {[ In := [3%nat] ]} {[ In := [ConvDemo.everyone] ]}
    (ConvDemo.start_wf false) Hr) as [_ Hk].
  apply Hk; [reflexivity|discriminate].
Defined.

Lemma convert_to_idempotent_witness :
  convertTo 0 ConvDemo.everyone (ConvDemo.after true) = (ConvDemo.after true, Ok 3%nat).
Proof.
  apply (convert_to_idempotent Demo.type_name Demo.serialize (ConvDemo.start true)
    (ConvDemo.after true) 0 3 ConvDemo.everyone).
  - apply ConvDemo.start_wf.
  - apply ConvDemo.after_run.
Defined.


Lemma public_to_share_priced_but_impossible_witness :
  is_ok (addTensorStatusConversion 3 (sharePlacement ["alice"; "bob"])
           (plan (ConvDemo.after false))).2 = false.
Proof.
  destruct (Tensors (plan (ConvDemo.after false)) !! 3%nat) as [t|] eqn:Ht;
    [|vm_compute in Ht; discriminate].
  apply (public_to_share_priced_but_impossible (plan (ConvDemo.after false)) 3 t).
  - apply (ConvDemo.after_wf false).
  - exact Ht.
  - vm_compute in Ht. injection Ht as <-. reflexivity.
Defined.
