(* ===== verification/Dag.v ===== *)
(** * The execution graph (pkg/interpreter/graph/graph.go, graph_checker.go and the
      end of graph_builder.go)

    [Build] numbers the nodes of a plan, connects producers with consumers and, for
    batched plans, computes what flows between pipelines.  [TopologicalSort] is
    Kahn's algorithm on each pipeline.  [GraphChecker] checks the CCL of private
    tensors.

    A node is named by its ID and a pipeline holds a map from IDs to nodes; the set
    of edges of a node is a list whose order carries no meaning.  The graph keeps
    the tensors its nodes refer to. *)
From S2P Require Import Prelude Sliceutil Operator Ccl Graph GraphBuilder.

(** ** Data *)
Record Pipeline := mkPipeline {
  pl_Batched : bool;
  InputTensors : list nat;
  OutputTensors : list nat;
  Nodes : gmap nat ExecutionNode;
}.

Record Graph := mkGraph {
  Pipelines : list Pipeline;
  NodeCnt : nat;
  OutputNames : list string;
  graph_PartyInfo : PartyInfo;
  graph_Tensors : list Tensor;
}.

(** All tensors of an argument map, in the order Go visits it. *)
Definition arg_tensors `{GoRange} (m : tensor_args) : list nat := mjoin (go_range m).*2.

(** ** Build *)

(** [node.ID = graph.NodeCnt; graph.NodeCnt++] with fresh edges. *)
Fixpoint number_nodes (cnt : nat) (nodes : list ExecutionNode) : list ExecutionNode :=
  match nodes with
  | [] => []
  | n :: nodes => set_Edges [] (set_node_ID cnt n) :: number_nodes (S cnt) nodes
  end.

Definition node_map (nodes : list ExecutionNode) : gmap nat ExecutionNode :=
  list_to_map ((λ n, (node_ID n, n)) <$> nodes).

(** The three maps of [Build]: tensor ID to consumers, to producer, and to the
    tensor itself. *)
Record wiring := mkWiring {
  inputTensorTo : gmap nat (list nat);
  outputTensorFrom : gmap nat nat;
  tensorId2Tensor : gmap nat nat;
}.

Definition add_input (node : nat) (w : wiring) (t : nat) : wiring :=
  mkWiring (<[t := default [] (inputTensorTo w !! t) ++ [node]]> (inputTensorTo w))
    (outputTensorFrom w) (<[t := t]> (tensorId2Tensor w)).
Definition add_output (node : nat) (w : wiring) (t : nat) : wiring :=
  mkWiring (inputTensorTo w) (<[t := node]> (outputTensorFrom w))
    (<[t := t]> (tensorId2Tensor w)).

Section build.
Context `{GoRange}.

Definition wire_node (w : wiring) (p : nat * ExecutionNode) : wiring :=
  let '(id, node) := p in
  let w := foldl (add_input id) w (arg_tensors (Inputs node)) in
  foldl (add_output id) w (arg_tensors (Outputs node)).

(** One iteration of the loop over [plan.PipelineExeNodes]. *)
Definition build_pipeline (acc : nat * list Pipeline * wiring) (p : PipelineExecNode)
    : nat * list Pipeline * wiring :=
  let '(cnt, ps, w) := acc in
  let nodes := node_map (number_nodes cnt (ExecutionNodes p)) in
  (cnt + length (ExecutionNodes p), ps ++ [mkPipeline (Batched p) [] [] nodes],
   foldl wire_node w (go_range nodes))%nat.

(** The edges of one tensor; a consumed tensor without producer is a nil
    dereference. *)
Definition tensor_edges (w : wiring) (t : nat) : res (list Edge) :=
  match default [] (inputTensorTo w !! t), outputTensorFrom w !! t with
  | [], _ => Ok []
  | tos, Some from => Ok ((λ to, mkEdge from to t) <$> tos)
  | _, None => Panic
  end.

Definition attach_edges (edges : list Edge) (n : ExecutionNode) : ExecutionNode :=
  set_Edges (filter (λ e, From e = node_ID n) edges) n.

(** *** FillPipeline *)

(** Every tensor of the pipeline is private; reading a nil tensor panics. *)
Definition all_private (tensors : list Tensor) (ts : list nat) : res bool :=
  foldlM (λ acc t, match tensors !! t with
                   | Some x => Ok (acc && bool_decide (tensor_status x = TENSORSTATUS_PRIVATE))
                   | None => Panic
                   end) true ts.

Definition pipeline_inputs (p : Pipeline) : list nat :=
  mjoin ((λ n, arg_tensors (Inputs n)) <$> (go_range (Nodes p)).*2).
Definition pipeline_outputs (p : Pipeline) : list nat :=
  mjoin ((λ n, arg_tensors (Outputs n)) <$> (go_range (Nodes p)).*2).

(** First loop: the batched flag and the input tensors, sorted by ID. *)
Definition fill_inputs (tensors : list Tensor) (p : Pipeline) : res Pipeline :=
  private ← all_private tensors (pipeline_inputs p ++ pipeline_outputs p);
  let ins : gset nat := list_to_set (pipeline_inputs p) in
  let outs : gset nat := list_to_set (pipeline_outputs p) in
  Ok (mkPipeline (pl_Batched p && private) (go_sort (elements (ins ∖ outs)))
        (OutputTensors p) (Nodes p)).

(** Second loop: tensors made here that a later pipeline takes as input. *)
Fixpoint fill_outputs (ps : list Pipeline) : list Pipeline :=
  match ps with
  | [] => []
  | p :: ps =>
      let outs : gset nat := list_to_set (pipeline_outputs p) in
      let used : gset nat := list_to_set (mjoin (InputTensors <$> ps)) in
      mkPipeline (pl_Batched p) (InputTensors p)
        (go_sort (OutputTensors p ++ elements (outs ∩ used))) (Nodes p) :: fill_outputs ps
  end.

Definition FillPipeline (tensors : list Tensor) (ps : list Pipeline) : res (list Pipeline) :=
  ps ← mapM (fill_inputs tensors) ps;
  Ok (fill_outputs ps).

Definition Build (plan : GraphBuilder) : res Graph :=
  let '(cnt, ps, w) := foldl build_pipeline (0%nat, [], mkWiring ∅ ∅ ∅) (PipelineExeNodes plan) in
  edges ← mapM (tensor_edges w) (go_range (tensorId2Tensor w)).*1;
  let ps := (λ p, mkPipeline (pl_Batched p) (InputTensors p) (OutputTensors p)
                    (attach_edges (mjoin edges) <$> Nodes p)) <$> ps in
  ps ← (if batched plan then FillPipeline (Tensors plan) ps else Ok ps);
  Ok (mkGraph ps cnt (OutputName plan) (plan_partyInfo plan) (Tensors plan)).

(** ** Reference counts: one per occurrence of a tensor in a node's inputs *)
Definition UpdateTensorRefNum (g : Graph) : Graph :=
  let bump (ts : list Tensor) (t : nat) := alter (λ x, set_RefNum (RefNum x + 1)%Z x) t ts in
  mkGraph (Pipelines g) (NodeCnt g) (OutputNames g) (graph_PartyInfo g)
    (foldl bump (graph_Tensors g) (mjoin (pipeline_inputs <$> Pipelines g))).

(** ** Topological sort *)

(** [indegrees[e.To]++] for the nodes of the pipeline only. *)
Definition count_edge (indegrees : gmap nat Z) (e : Edge) : gmap nat Z :=
  match indegrees !! To e with
  | Some d => <[To e := (d + 1)%Z]> indegrees
  | None => indegrees
  end.

Definition init_indegrees (p : Pipeline) : gmap nat Z :=
  foldl (λ m n, foldl count_edge m (Edges n)) ((λ _, 0%Z) <$> Nodes p) (go_range (Nodes p)).*2.

(** [indegrees[v.To]--], collecting the nodes that reach zero; a node of another
    pipeline has no entry and is read as zero. *)
Definition relax (acc : gmap nat Z * list nat) (e : Edge) : gmap nat Z * list nat :=
  let '(indegrees, toAppend) := acc in
  let x := (default 0 (indegrees !! To e) - 1)%Z in
  (<[To e := x]> indegrees, if bool_decide (x = 0)%Z then toAppend ++ [To e] else toAppend).

Definition edges_of (p : Pipeline) (id : nat) : list Edge :=
  match Nodes p !! id with Some n => Edges n | None => [] end.

(** The loop on the queue; [None] is running out of fuel. *)
Fixpoint topo_loop (fuel : nat) (p : Pipeline) (queue nodes : list nat)
    (indegrees : gmap nat Z) : option (list nat) :=
  match queue with
  | [] => Some nodes
  | cur :: queue =>
      match fuel with
      | 0%nat => None
      | S fuel =>
          let '(indegrees, toAppend) := foldl relax (indegrees, []) (edges_of p cur) in
          topo_loop fuel p (queue ++ go_sort toAppend) (nodes ++ [cur]) indegrees
      end
  end.

Definition init_queue (p : Pipeline) : list nat :=
  go_sort (omap (λ '(k, v), if bool_decide (v = 0)%Z then Some k else None)
             (go_range (init_indegrees p))).

(** A pipeline of [n] nodes is sorted in [n] turns: the fuel is the number of nodes. *)
Definition sort_pipeline (p : Pipeline) : res (list nat) :=
  match topo_loop (size (Nodes p)) p (init_queue p) [] (init_indegrees p) with
  | Some nodes =>
      if bool_decide (length nodes = size (Nodes p)) then Ok nodes
      else Err "topological sort fail: maybe circle in graph"
  | None => Err "out of fuel"
  end.

Definition TopologicalSort (g : Graph) : res (list (list nat)) :=
  mapM sort_pipeline (Pipelines g).

(** ** The graph checker (graph_checker.go) *)
Definition check_output (tensors : list Tensor) (t : nat) : res () :=
  match tensors !! t with
  | None => Panic
  | Some x =>
      if bool_decide (tensor_status x = TENSORSTATUS_PRIVATE)
         && negb (bool_decide (LevelFor (CC x) (OwnerPartyCode x) = Plain))
      then Err "failed to check tensor ccl, ccl is not plaintext for it's owner"
      else Ok tt
  end.

Definition checkGraph (g : Graph) : res () :=
  forM (check_output (graph_Tensors g)) (mjoin (pipeline_outputs <$> Pipelines g)).

(** [NewGraphChecker] has this one rule. *)
Definition Check (g : Graph) : res () := checkGraph g.
End build.

(** ** Kahn's algorithm is correct *)
Definition count_to (v : nat) (es : list Edge) : Z :=
  Z.of_nat (length (filter (λ e, To e = v) es)).

Lemma count_to_nil v : count_to v [] = 0%Z.
Proof. done. Qed.
Lemma count_to_cons v e es :
  count_to v (e :: es) = ((if bool_decide (To e = v) then 1 else 0) + count_to v es)%Z.
Proof.
  unfold count_to. rewrite filter_cons. case_decide as Hd.
  - rewrite bool_decide_true by done. simpl. lia.
  - rewrite bool_decide_false by done. lia.
Qed.
Lemma count_to_app v es1 es2 : count_to v (es1 ++ es2) = (count_to v es1 + count_to v es2)%Z.
Proof. unfold count_to. rewrite filter_app, length_app. lia. Qed.
Lemma count_to_nonneg v es : (0 ≤ count_to v es)%Z.
Proof. unfold count_to. lia. Qed.
Lemma count_to_pos v es : (0 < count_to v es)%Z ↔ ∃ e, e ∈ es ∧ To e = v.
Proof.
  induction es as [|e es IH]; [rewrite count_to_nil; split; [lia|set_solver]|].
  rewrite count_to_cons. pose proof (count_to_nonneg v es). case_bool_decide as He.
  - split; [|lia]. intros _. exists e. set_solver.
  - rewrite Z.add_0_l, IH. split.
    + intros (e' & ? & ?). exists e'. set_solver.
    + intros (e' & Hin & ?). exists e'. set_solver.
Qed.

Lemma foldl_count_edge es m v :
  foldl count_edge m es !! v = (λ d, d + count_to v es)%Z <$> (m !! v).
Proof.
  revert m. induction es as [|e es IH]; intros m; simpl.
  - destruct (m !! v) as [d|]; simpl; [|done]. by rewrite count_to_nil, Z.add_0_r.
  - rewrite IH. unfold count_edge. rewrite count_to_cons.
    destruct (m !! To e) as [d|] eqn:He.
    + destruct (decide (To e = v)) as [<-|Hne].
      * rewrite lookup_insert_eq, He, bool_decide_true by done. simpl. f_equal. lia.
      * rewrite lookup_insert_ne, bool_decide_false by done. by rewrite Z.add_0_l.
    + destruct (decide (To e = v)) as [<-|Hne]; [by rewrite He|].
      rewrite bool_decide_false by done. by rewrite Z.add_0_l.
Qed.

Definition deg (m : gmap nat Z) (v : nat) : Z := default 0%Z (m !! v).

Lemma relax_fold es m acc :
  let '(m', acc') := foldl relax (m, acc) es in
  (∀ v, deg m' v = deg m v - count_to v es)%Z
  ∧ (∀ v, v ∈ acc' ↔ v ∈ acc ∨ (0 < deg m v ≤ count_to v es)%Z)
  ∧ (NoDup acc → (∀ v, v ∈ acc → deg m v ≤ 0)%Z → NoDup acc').
Proof.
  revert m acc. induction es as [|e es IH]; intros m acc; simpl.
  { split_and!; [|intros v; rewrite count_to_nil; split; [by left|]|done].
    - intros v. rewrite count_to_nil. lia.
    - intros [?|?]; [done|lia]. }
  set (x := (deg m (To e) - 1)%Z).
  set (acc1 := if bool_decide (x = 0%Z) then acc ++ [To e] else acc).
  specialize (IH (<[To e := x]> m) acc1).
  change (default 0 (m !! To e) - 1)%Z with x. fold acc1.
  destruct (foldl relax (<[To e := x]> m, acc1) es) as [m' acc'].
  assert (∀ v, deg (<[To e := x]> m) v = deg m v - if bool_decide (To e = v) then 1 else 0)%Z
    as Hdeg.
  { intros v. unfold deg. destruct (decide (To e = v)) as [<-|Hne].
    - rewrite lookup_insert_eq, bool_decide_true by done. done.
    - rewrite lookup_insert_ne, bool_decide_false by done. lia. }
  destruct IH as (H1 & H2 & H3). split_and!.
  - intros v. rewrite H1, Hdeg, count_to_cons. lia.
  - intros v. rewrite H2, Hdeg, count_to_cons. pose proof (count_to_nonneg v es).
    unfold acc1. destruct (decide (To e = v)) as [<-|Hne].
    + rewrite (bool_decide_true (To e = To e)) by done. case_bool_decide as Hx; unfold x in Hx.
      * split; [intros _; right; lia|]. intros _. left. set_solver.
      * split; (intros [?|?]; [by left|right; lia]).
    + rewrite (bool_decide_false (To e = v)), Z.sub_0_r, Z.add_0_l by done.
      case_bool_decide; set_solver.
  - intros Hnd Hle. apply H3; unfold acc1.
    + case_bool_decide as Hx; [|done]. apply NoDup_app. split_and!; [done| |apply NoDup_singleton].
      intros v Hv Hv'. apply list_elem_of_singleton in Hv' as ->. apply Hle in Hv. unfold x in Hx. lia.
    + intros v Hv. rewrite Hdeg. case_bool_decide as Hx; unfold x in Hx.
      * apply elem_of_app in Hv as [Hv|Hv%list_elem_of_singleton].
        -- apply Hle in Hv. case_bool_decide; lia.
        -- subst v. rewrite bool_decide_true by done. lia.
      * apply Hle in Hv. case_bool_decide; lia.
Qed.

Section topo.
Context `{GoRange} (p : Pipeline).

Definition keys : list nat := (go_range (Nodes p)).*1.
Definition out_edges (us : list nat) : list Edge := us ≫= edges_of p.

(** [u] has an edge to [v], both in the pipeline. *)
Definition precedes (u v : nat) : Prop :=
  u ∈ keys ∧ ∃ e, e ∈ edges_of p u ∧ To e = v.

Lemma count_to_perm v us us' :
  us ≡ₚ us' → count_to v (out_edges us) = count_to v (out_edges us').
Proof.
  intros Hp. unfold count_to. f_equal. apply Permutation_length.
  unfold out_edges. by rewrite Hp.
Qed.

Lemma edges_of_nodes : (go_range (Nodes p)).*2 ≫= Edges = out_edges keys.
Proof.
  unfold out_edges, keys.
  assert (∀ l, (∀ k n, (k, n) ∈ l → Nodes p !! k = Some n) → l.*2 ≫= Edges = l.*1 ≫= edges_of p)
    as Hl.
  { induction l as [|[k n] l IH]; intros Hin; [done|]. simpl. f_equal; [|apply IH; set_solver].
    unfold edges_of. by rewrite (Hin k n) by set_solver. }
  apply Hl. intros k n Hin. by apply elem_of_go_range.
Qed.

Lemma foldl_bind_count ns m :
  foldl (λ m n, foldl count_edge m (Edges n)) m ns = foldl count_edge m (ns ≫= Edges).
Proof.
  revert m. induction ns as [|n ns IH]; intros m; [done|]. simpl. by rewrite foldl_app, IH.
Qed.

Lemma elem_of_keys v : v ∈ keys ↔ is_Some (Nodes p !! v).
Proof. apply elem_of_keys_go_range. Qed.

Lemma length_keys : length keys = size (Nodes p).
Proof. unfold keys. rewrite length_fmap, go_range_perm. apply length_map_to_list. Qed.

Lemma init_indegrees_lookup v :
  init_indegrees p !! v
  = if bool_decide (v ∈ keys) then Some (count_to v (out_edges keys)) else None.
Proof.
  unfold init_indegrees. rewrite foldl_bind_count, foldl_count_edge, edges_of_nodes, lookup_fmap.
  case_bool_decide as Hv; rewrite elem_of_keys in Hv.
  - destruct Hv as [n ->]. done.
  - destruct (Nodes p !! v); [by destruct Hv|done].
Qed.

(** Every node of [l] comes after its predecessors. *)
Definition ordered (l : list nat) : Prop :=
  ∀ i u v, l !! i = Some v → precedes u v → ∃ j, (j < i)%nat ∧ l !! j = Some u.

Lemma ordered_app l1 l2 :
  ordered l1 → (∀ u v, v ∈ l2 → precedes u v → u ∈ l1) → ordered (l1 ++ l2).
Proof.
  intros Ho Hnew i u v Hi Hp. apply lookup_app_Some in Hi as [Hi|[Hlen Hi]].
  - destruct (Ho i u v Hi Hp) as (j & Hj & Hu). exists j. split; [done|].
    by apply lookup_app_l_Some.
  - apply list_elem_of_lookup_2 in Hi. apply (Hnew u v Hi) in Hp.
    apply list_elem_of_lookup_1 in Hp as [j Hj]. exists j.
    split; [apply lookup_lt_Some in Hj; lia|by apply lookup_app_l_Some].
Qed.

(** The state of the loop; [rest] are the nodes that have not been popped. *)
Record kahn (queue nodes rest : list nat) (m : gmap nat Z) : Prop := {
  kahn_perm : nodes ++ rest ≡ₚ keys;
  kahn_queue : ∀ v, v ∈ queue → v ∈ rest;
  kahn_nodup : NoDup queue;
  kahn_deg : ∀ v, v ∈ keys → deg m v = count_to v (out_edges rest);
  kahn_ready : ∀ v, v ∈ rest → (v ∈ queue ↔ deg m v = 0%Z);
  kahn_done : ∀ v, v ∈ nodes → deg m v = 0%Z;
  kahn_other : ∀ v, v ∉ keys → (deg m v ≤ 0)%Z;
  kahn_ordered : ordered (nodes ++ queue);
}.

Lemma NoDup_keys : NoDup keys.
Proof. apply NoDup_fst_go_range. Qed.

Lemma elem_of_init_queue v :
  v ∈ init_queue p ↔ v ∈ keys ∧ count_to v (out_edges keys) = 0%Z.
Proof.
  unfold init_queue. rewrite elem_of_go_sort, list_elem_of_omap. split.
  - intros ([k d] & Hin & Hd). apply elem_of_go_range in Hin.
    rewrite init_indegrees_lookup in Hin. case_bool_decide; [|done].
    case_bool_decide; [|done]. by simplify_eq.
  - intros [Hv Hc]. exists (v, 0%Z). split; [|by rewrite bool_decide_true].
    apply elem_of_go_range. rewrite init_indegrees_lookup, bool_decide_true by done.
    by rewrite Hc.
Qed.

Lemma NoDup_init_queue : NoDup (init_queue p).
Proof.
  unfold init_queue. rewrite go_sort_perm.
  pose proof (NoDup_fst_go_range (init_indegrees p)) as Hnd. revert Hnd.
  generalize (go_range (init_indegrees p)). induction l as [|[k d] l IH]; [constructor|].
  simpl. intros [Hk Hnd]%NoDup_cons. case_bool_decide; [|by apply IH].
  constructor; [|by apply IH]. intros ([k' d'] & Hin & Heq)%list_elem_of_omap.
  case_bool_decide; [|done]. injection Heq as ->. apply Hk.
  by apply (list_elem_of_fmap_2 fst l (k, d')).
Qed.

Lemma kahn_init : kahn (init_queue p) [] keys (init_indegrees p).
Proof.
  assert (∀ v, v ∈ keys → deg (init_indegrees p) v = count_to v (out_edges keys)) as Hd.
  { intros v Hv. unfold deg. by rewrite init_indegrees_lookup, bool_decide_true. }
  split; try done.
  - intros v Hv. by apply elem_of_init_queue in Hv as [].
  - apply NoDup_init_queue.
  - intros v Hv. rewrite elem_of_init_queue, (Hd v Hv). naive_solver.
  - set_solver.
  - intros v Hv. unfold deg. by rewrite init_indegrees_lookup, bool_decide_false.
  - simpl. intros i u v Hi [Hu (e & He & HT)]. exfalso.
    apply list_elem_of_lookup_2, elem_of_init_queue in Hi as [Hv Hc].
    assert (0 < count_to v (out_edges keys))%Z; [|lia].
    apply count_to_pos. exists e. split; [|done]. apply list_elem_of_bind. by exists u.
Qed.

Lemma out_edges_cons u us : out_edges (u :: us) = edges_of p u ++ out_edges us.
Proof. done. Qed.

(** What popping [cur] does to the in-degrees: the counts of the edges from the
    nodes that remain, and the newly ready nodes. *)
Lemma kahn_relax cur queue nodes rest rest' m m' app :
  kahn (cur :: queue) nodes rest m → rest ≡ₚ cur :: rest' →
  foldl relax (m, []) (edges_of p cur) = (m', app) →
  NoDup app
  ∧ (∀ v, deg m' v ≤ deg m v)%Z
  ∧ (∀ v, v ∈ keys → deg m' v = count_to v (out_edges rest'))
  ∧ (∀ v, v ∈ app ↔ v ∈ rest' ∧ deg m v ≠ 0%Z ∧ deg m' v = 0%Z).
Proof.
  intros [Hperm Hq Hnd Hdeg Hready Hdone Hother Hord] Hrest Hf.
  pose proof (relax_fold (edges_of p cur) m []) as Hr. rewrite Hf in Hr.
  destruct Hr as (Hm' & Happ & Hndapp).
  assert (∀ v, v ∈ keys → deg m v = count_to v (edges_of p cur)
                                    + count_to v (out_edges rest'))%Z as Hsum.
  { intros v Hv. rewrite Hdeg by done. rewrite (count_to_perm v _ _ Hrest), out_edges_cons.
    apply count_to_app. }
  split_and!; [apply Hndapp; [constructor|set_solver]| |..].
  - intros v. rewrite Hm'. pose proof (count_to_nonneg v (edges_of p cur)). lia.
  - intros v Hv. rewrite Hm', Hsum by done. lia.
  - intros v. rewrite Happ, Hm'. pose proof (count_to_nonneg v (edges_of p cur)).
    pose proof (count_to_nonneg v (out_edges rest')). split.
    + intros [?|Hpos]; [set_solver|].
      destruct (decide (v ∈ keys)) as [Hv|Hv]; [|apply Hother in Hv; lia].
      assert (deg m v ≠ 0%Z) as Hne by lia. split_and!; [|done|specialize (Hsum v Hv); lia].
      rewrite <- Hperm, Hrest, elem_of_app, elem_of_cons in Hv.
      destruct Hv as [Hv|[->|Hv]]; [by apply Hdone in Hv| |done].
      destruct Hne. apply Hready; [rewrite Hrest; left|left].
    + intros (Hv & Hne & Hz). right.
      assert (v ∈ keys) as Hvk by (rewrite <- Hperm, Hrest; set_solver).
      rewrite (Hsum v Hvk) in *. lia.
Qed.

Lemma kahn_step cur queue nodes rest m :
  kahn (cur :: queue) nodes rest m →
  ∃ rest', rest ≡ₚ cur :: rest' ∧
    let '(m', toAppend) := foldl relax (m, []) (edges_of p cur) in
    kahn (queue ++ go_sort toAppend) (nodes ++ [cur]) rest' m'.
Proof.
  intros Hk. pose proof Hk as [Hperm Hq Hnd Hdeg Hready Hdone Hother Hord].
  apply NoDup_cons in Hnd as [Hcur Hnd].
  destruct (elem_of_Permutation rest cur) as [[rest' Hrest] _]; [by apply Hq; left|].
  exists rest'. split; [done|].
  destruct (foldl relax (m, []) (edges_of p cur)) as [m' app] eqn:Hf.
  destruct (kahn_relax _ _ _ _ _ _ _ _ Hk Hrest Hf) as (Hndapp & Hle & Hdeg' & Hin).
  assert (∀ v, v ∈ rest' → v ∈ keys) as Hrk.
  { intros v Hv. rewrite <- Hperm, Hrest. set_solver. }
  assert (∀ v, deg m v = 0%Z → v ∈ keys → deg m' v = 0%Z) as Hzero.
  { intros v Hv Hvk. specialize (Hle v). rewrite Hdeg' in * by done.
    pose proof (count_to_nonneg v (out_edges rest')). lia. }
  split.
  - rewrite <- (assoc_L (++)). simpl. by rewrite <- Hrest.
  - intros v. rewrite elem_of_app, elem_of_go_sort. intros [Hv|Hv]; [|by apply Hin in Hv as []].
    assert (v ∈ rest) as Hvr by (apply Hq; by right). rewrite Hrest in Hvr. set_solver.
  - apply NoDup_app. split_and!; [done| |by rewrite go_sort_perm].
    intros v Hv Hv'. rewrite elem_of_go_sort, Hin in Hv'. destruct Hv' as (Hv' & Hne & _).
    apply Hne, Hready; [rewrite Hrest; by right|by right].
  - exact Hdeg'.
  - intros v Hv. rewrite elem_of_app, elem_of_go_sort, Hin.
    assert (v ∈ rest) as Hvr by (rewrite Hrest; by right).
    specialize (Hready v Hvr). split.
    + intros [Hvq|(_ & _ & ?)]; [|done]. apply Hzero; [|by apply Hrk]. apply Hready. by right.
    + intros Hz. destruct (decide (deg m v = 0%Z)) as [Hd|Hd]; [|by right].
      left. apply Hready in Hd. apply elem_of_cons in Hd as [->|?]; [|done].
      pose proof NoDup_keys as Hndk. rewrite <- Hperm, Hrest in Hndk.
      apply NoDup_app in Hndk as (_ & _ & Hndk). by apply NoDup_cons in Hndk as [].
  - intros v Hv. apply Hzero; [|rewrite <- Hperm, Hrest; set_solver].
    apply elem_of_app in Hv as [Hv|Hv]; [by apply Hdone|].
    apply list_elem_of_singleton in Hv as ->. apply Hready; [rewrite Hrest; left|left].
  - intros v Hv. apply Hother in Hv. specialize (Hle v). lia.
  - replace ((nodes ++ [cur]) ++ queue ++ go_sort app) with ((nodes ++ cur :: queue) ++ go_sort app)
      by (rewrite <- !(assoc_L (++)); done).
    apply ordered_app; [done|]. intros u v Hv [Hu (e & He & HT)].
    rewrite elem_of_go_sort, Hin in Hv. destruct Hv as (Hv & _ & Hz).
    rewrite Hdeg' in Hz by auto. rewrite <- Hperm, Hrest, elem_of_app, elem_of_cons in Hu.
    destruct Hu as [Hu|[->|Hu]]; [set_solver|set_solver|]. exfalso.
    assert (0 < count_to v (out_edges rest'))%Z; [|lia].
    apply count_to_pos. exists e. split; [|done]. apply list_elem_of_bind. by exists u.
Qed.

Lemma topo_loop_spec fuel queue nodes rest m :
  kahn queue nodes rest m → (length rest ≤ fuel)%nat →
  ∃ out rest' m', topo_loop fuel p queue nodes m = Some out ∧ kahn [] out rest' m'.
Proof.
  revert queue nodes rest m. induction fuel as [|fuel IH]; intros queue nodes rest m Hk Hlen.
  - destruct queue as [|cur queue]; [by exists nodes, rest, m|].
    assert (cur ∈ rest) as Hin by (apply Hk; left). destruct rest; simpl in Hlen; [set_solver|lia].
  - destruct queue as [|cur queue]; [by exists nodes, rest, m|].
    destruct (kahn_step _ _ _ _ _ Hk) as (rest' & Hrest & Hk').
    cbn [topo_loop]. destruct (foldl relax (m, []) (edges_of p cur)) as [m' app].
    eapply IH; [exact Hk'|]. apply Permutation_length in Hrest. simpl in Hrest. lia.
Qed.

(** An order of the nodes along which every edge inside the pipeline points
    forward. *)
Definition acyclic : Prop := ∃ rank : nat → nat, ∀ u v, precedes u v → v ∈ keys → (rank u < rank v)%nat.

Lemma kahn_acyclic out rest m : kahn [] out rest m → acyclic → rest = [].
Proof.
  intros Hk [rank Hrank].
  assert (∀ n v, (rank v < n)%nat → v ∉ rest) as Hnone.
  { induction n as [|n IH]; intros v Hn Hv; [lia|].
    assert (v ∈ keys) as Hvk by (rewrite <- (kahn_perm _ _ _ _ Hk); set_solver).
    assert (deg m v ≠ 0%Z) as Hd.
    { intros Hz. apply (kahn_ready _ _ _ _ Hk v Hv) in Hz. set_solver. }
    rewrite (kahn_deg _ _ _ _ Hk v Hvk) in Hd.
    assert (0 < count_to v (out_edges rest))%Z as Hpos.
    { pose proof (count_to_nonneg v (out_edges rest)). lia. }
    apply count_to_pos in Hpos as (e & He & HT).
    apply list_elem_of_bind in He as (u & He & Hu).
    apply (IH u); [|done]. assert (rank u < rank v)%nat; [|lia]. apply Hrank; [|done].
    split; [rewrite <- (kahn_perm _ _ _ _ Hk); set_solver|eauto]. }
  destruct rest as [|v rest]; [done|]. exfalso. apply (Hnone (S (rank v)) v); [lia|left].
Qed.

Lemma ordered_acyclic out : out ≡ₚ keys → ordered out → acyclic.
Proof.
  intros Hp Ho. assert (NoDup out) as Hnd by (rewrite Hp; apply NoDup_keys).
  exists (λ v, default 0%nat (fst <$> list_find (v =.) out)). intros u v Huv Hv.
  assert (∀ i w, out !! i = Some w → list_find (w =.) out = Some (i, w)) as Hfind.
  { intros i w Hi. apply list_find_Some. split_and!; [done..|]. intros j w' Hj Hlt ->.
    assert (j = i) by (by eapply NoDup_lookup). lia. }
  rewrite <- Hp in Hv. apply list_elem_of_lookup_1 in Hv as [i Hi].
  destruct (Ho i u v Hi Huv) as (j & Hj & Hu).
  by rewrite (Hfind _ _ Hi), (Hfind _ _ Hu).
Qed.

Lemma sort_pipeline_spec :
  match sort_pipeline p with
  | Ok out => out ≡ₚ keys ∧ ordered out ∧ acyclic
  | Err e => e = "topological sort fail: maybe circle in graph" ∧ ¬ acyclic
  | Panic => False
  end.
Proof.
  unfold sort_pipeline.
  destruct (topo_loop_spec (size (Nodes p)) _ _ _ _ kahn_init) as (out & rest & m & -> & Hk).
  { rewrite length_keys. done. }
  pose proof (kahn_perm _ _ _ _ Hk) as Hperm.
  case_bool_decide as Hlen.
  - assert (rest = []) as ->.
    { apply Permutation_length in Hperm. rewrite length_app, length_keys in Hperm.
      destruct rest; [done|simpl in Hperm; lia]. }
    rewrite app_nil_r in Hperm. pose proof (kahn_ordered _ _ _ _ Hk) as Ho.
    rewrite app_nil_r in Ho. split_and!; [done..|]. by eapply ordered_acyclic.
  - split; [done|]. intros Ha. apply (kahn_acyclic _ _ _ Hk) in Ha as ->.
    apply Hlen. apply Permutation_length in Hperm. by rewrite app_nil_r, length_keys in Hperm.
Qed.
End topo.

Section dag_theorems.
Context `{GoRange}.

(** C13: [TopologicalSort] either returns, for every pipeline, a permutation of its
    nodes in which every node comes after its predecessors, or fails with the cycle
    error on a pipeline that has a cycle.  It never panics and never exhausts its
    fuel. *)
Theorem topological_sort_correct (g : Graph) :
  match TopologicalSort g with
  | Ok orders => Forall2 (λ p o, o ≡ₚ keys p ∧ ordered p o) (Pipelines g) orders
                 ∧ Forall acyclic (Pipelines g)
  | Err e => e = "topological sort fail: maybe circle in graph" ∧ Exists (λ p, ¬ acyclic p) (Pipelines g)
  | Panic => False
  end.
Proof.
  unfold TopologicalSort. induction (Pipelines g) as [|p ps IH]; simpl; [done|].
  pose proof (sort_pipeline_spec p) as Hp. destruct (sort_pipeline p) as [o|e|]; simpl;
    [|destruct Hp; split; [done|by left]|done].
  destruct (mapM sort_pipeline ps) as [os|e|]; simpl; [|destruct IH; split; [done|by right]|done].
  destruct Hp as (? & ? & ?), IH as [? ?]. split; by constructor.
Qed.

Lemma Check_exact (g : Graph) :
  let outs := mjoin (pipeline_outputs <$> Pipelines g) in
  let owner_sees t := ∃ x, graph_Tensors g !! t = Some x ∧
    (tensor_status x = TENSORSTATUS_PRIVATE → LevelFor (CC x) (OwnerPartyCode x) = Plain) in
  match Check g with
  | Ok _ => ∀ t, t ∈ outs → owner_sees t
  | Err _ => ∃ t, t ∈ outs ∧ ¬ owner_sees t
  | Panic => ∃ t, t ∈ outs ∧ graph_Tensors g !! t = None
  end.
Proof.
  intros outs owner_sees. unfold Check, checkGraph. fold outs.
  clearbody outs. induction outs as [|t outs IH]; simpl; [intros t Ht; by apply elem_of_nil in Ht|].
  destruct (check_output (graph_Tensors g) t) as [[]|e|] eqn:Hck; simpl;
    unfold check_output in Hck; destruct (graph_Tensors g !! t) as [x|] eqn:Hx; try discriminate;
    [| |exfalso; by destruct (_ && _)|exists t; split; [left|done]];
    destruct (_ && _) eqn:Hc; try discriminate; clear Hck.
  - assert (owner_sees t) as Ht.
    { exists x. split; [done|]. intros Hp. rewrite (bool_decide_true _ Hp) in Hc. simpl in Hc.
      by apply negb_false_iff, bool_decide_eq_true in Hc. }
    destruct (forM _ outs) as [| |].
    + intros t' [->|?]%elem_of_cons; [done|by apply IH].
    + destruct IH as (t' & ? & ?). exists t'. split; [by right|done].
    + destruct IH as (t' & ? & ?). exists t'. split; [by right|done].
  - exists t. split; [left|]. intros (x' & Hx' & Hs). rewrite Hx in Hx'. injection Hx' as <-.
    apply andb_true_iff in Hc as [Hp%bool_decide_eq_true Hn].
    apply negb_true_iff, bool_decide_eq_false in Hn. auto.
Qed.

(** C17: [GraphChecker.Check] accepts a graph exactly when every private tensor a
    node makes is visible in plaintext to the party that owns it. *)
Theorem graph_check_exact (g : Graph) :
  let outs := mjoin (pipeline_outputs <$> Pipelines g) in
  let owner_sees t := ∃ x, graph_Tensors g !! t = Some x ∧
    (tensor_status x = TENSORSTATUS_PRIVATE → LevelFor (CC x) (OwnerPartyCode x) = Plain) in
  match Check g with
  | Ok _ => ∀ t, t ∈ outs → owner_sees t
  | Err _ => ∃ t, t ∈ outs ∧ ¬ owner_sees t
  | Panic => ∃ t, t ∈ outs ∧ graph_Tensors g !! t = None
  end.
Proof. apply Check_exact. Qed.
End dag_theorems.
