(* ===== verification/Isolated.v ===== *)
(** * Isolated nodes and edges (pkg/interpreter/graph/graph.go)

    [EliminateIsolatedNodes] removes the nodes of a pipeline that no edge of the
    pipeline touches, and [EliminateIsolatedEdges] the edges that leave their pipeline.
    A pointer to a node is its ID. *)
From S2P Require Import Prelude Graph GraphBuilder Dag.
#[local] Open Scope nat_scope.

Definition with_Nodes (f : gmap nat ExecutionNode → gmap nat ExecutionNode) (p : Pipeline) : Pipeline :=
  mkPipeline (pl_Batched p) (InputTensors p) (OutputTensors p) (f (Nodes p)).
Definition with_Pipelines (ps : list Pipeline) (g : Graph) : Graph :=
  mkGraph ps (NodeCnt g) (OutputNames g) (graph_PartyInfo g) (graph_Tensors g).

(** [m[k]++] *)
Definition incr (m : gmap nat nat) (k : nat) : gmap nat nat := <[k := S (default 0 (m !! k))]> m.
(** [m[k] = 0] *)
Definition zero (m : gmap nat nat) (k : nat) : gmap nat nat := <[k := 0]> m.

Section isolated.
Context `{GoRange}.

(** The degrees are kept from one pipeline to the next. *)
Definition isolated_pipeline (degrees : gmap nat nat * gmap nat nat) (p : Pipeline)
    : (gmap nat nat * gmap nat nat) * Pipeline :=
  let '(indegrees, outdegrees) := degrees in
  let edges := (go_range (Nodes p)).*2 ≫= Edges in
  let indegrees := foldl zero indegrees (go_range (Nodes p)).*1 in
  let outdegrees := foldl zero outdegrees (go_range (Nodes p)).*1 in
  let indegrees := foldl incr indegrees (To <$> edges) in
  let outdegrees := foldl incr outdegrees (From <$> edges) in
  let candidates := omap (λ '(node, indegree),
      if bool_decide (indegree = 0) && bool_decide (default 0 (outdegrees !! node) = 0)
      then Some node else None) (go_range indegrees) in
  ((indegrees, outdegrees), with_Nodes (λ m, foldr delete m candidates) p).

Fixpoint isolated_pipelines (degrees : gmap nat nat * gmap nat nat) (ps : list Pipeline) : list Pipeline :=
  match ps with
  | [] => []
  | p :: ps =>
      let '(degrees, p) := isolated_pipeline degrees p in
      p :: isolated_pipelines degrees ps
  end.

Definition EliminateIsolatedNodes (g : Graph) : Graph :=
  with_Pipelines (isolated_pipelines (∅, ∅) (Pipelines g)) g.

Definition inner_edges (p : Pipeline) (n : ExecutionNode) : ExecutionNode :=
  set_Edges (filter (λ e, is_Some (Nodes p !! To e)) (Edges n)) n.
Definition inner_pipeline (p : Pipeline) : Pipeline := with_Nodes (fmap (inner_edges p)) p.
Definition EliminateIsolatedEdges (g : Graph) : Graph :=
  with_Pipelines (inner_pipeline <$> Pipelines g) g.

(** ** Degrees *)
Lemma zero_lookup ks m v : foldl zero m ks !! v = if bool_decide (v ∈ ks) then Some 0 else m !! v.
Proof.
  revert m. induction ks as [|k ks IH]; intros m; simpl; [done|]. rewrite IH. unfold zero.
  destruct (decide (v = k)) as [->|Hne].
  - rewrite lookup_insert_eq, (bool_decide_true (k ∈ k :: ks)) by left. by case_bool_decide.
  - rewrite lookup_insert_ne by done. repeat case_bool_decide; set_solver.
Qed.
Lemma incr_lookup ks m v :
  default 0 (foldl incr m ks !! v) = default 0 (m !! v) + length (filter (v =.) ks).
Proof.
  revert m. induction ks as [|k ks IH]; intros m; [simpl; lia|]. cbn [foldl]. rewrite IH, filter_cons.
  unfold incr. destruct (decide (v = k)) as [->|Hne].
  - rewrite lookup_insert_eq. simpl. lia.
  - by rewrite lookup_insert_ne.
Qed.
Lemma incr_mono ks m v : is_Some (m !! v) → is_Some (foldl incr m ks !! v).
Proof.
  revert m. induction ks as [|k ks IH]; intros m Hm; simpl; [done|]. apply IH. unfold incr.
  destruct (decide (v = k)) as [->|Hne]; [by rewrite lookup_insert_eq|by rewrite lookup_insert_ne].
Qed.
Lemma count_zero v (ks : list nat) : length (filter (v =.) ks) = 0 ↔ v ∉ ks.
Proof.
  rewrite length_zero_iff_nil. split.
  - intros E Hv. assert (v ∈ filter (v =.) ks) as Hf by (by apply list_elem_of_filter). rewrite E in Hf. set_solver.
  - intros Hv. destruct (filter (v =.) ks) as [|k l] eqn:E; [done|]. exfalso. apply Hv.
    assert (k ∈ filter (v =.) ks) as Hk by (rewrite E; left). by apply list_elem_of_filter in Hk as [<- ?].
Qed.
Lemma foldr_delete_lookup ks (m : gmap nat ExecutionNode) v :
  foldr delete m ks !! v = if bool_decide (v ∈ ks) then None else m !! v.
Proof.
  induction ks as [|k ks IH]; simpl; [done|]. destruct (decide (v = k)) as [->|Hne].
  - by rewrite lookup_delete_eq, bool_decide_true by left.
  - rewrite lookup_delete_ne, IH by done. repeat case_bool_decide; set_solver.
Qed.

(** An edge of the pipeline begins or ends at the node. *)
Definition touched (p : Pipeline) (v : nat) : Prop :=
  ∃ u n e, Nodes p !! u = Some n ∧ e ∈ Edges n ∧ (From e = v ∨ To e = v).

Lemma elem_of_pipeline_edges p e :
  e ∈ (go_range (Nodes p)).*2 ≫= Edges ↔ ∃ u n, Nodes p !! u = Some n ∧ e ∈ Edges n.
Proof.
  rewrite list_elem_of_bind. split.
  - intros (n & He & Hn). apply list_elem_of_fmap in Hn as ([u n'] & -> & Hn).
    apply elem_of_go_range in Hn. eauto.
  - intros (u & n & Hn & He). exists n. split; [done|]. apply list_elem_of_fmap. exists (u, n).
    split; [done|]. by apply elem_of_go_range.
Qed.
Lemma touched_edges p v :
  let es := (go_range (Nodes p)).*2 ≫= Edges in touched p v ↔ v ∈ To <$> es ∨ v ∈ From <$> es.
Proof.
  cbv zeta. unfold touched. rewrite !list_elem_of_fmap. setoid_rewrite elem_of_pipeline_edges. naive_solver.
Qed.

(** The degree of a node of the pipeline, whatever was counted before. *)
Lemma degree_fresh p m ks v :
  is_Some (Nodes p !! v) →
  ∃ d, foldl incr (foldl zero m (go_range (Nodes p)).*1) ks !! v = Some d ∧ (d = 0 ↔ v ∉ ks).
Proof.
  intros Hv. apply elem_of_keys_go_range in Hv.
  destruct (incr_mono ks (foldl zero m (go_range (Nodes p)).*1) v) as [d Hd].
  { rewrite zero_lookup, bool_decide_true by done. eauto. }
  exists d. split; [done|]. pose proof (incr_lookup ks (foldl zero m (go_range (Nodes p)).*1) v) as Hi.
  rewrite Hd, zero_lookup, bool_decide_true in Hi by done. simpl in Hi. by rewrite Hi, count_zero.
Qed.

Lemma isolated_pipeline_exact degrees p v n :
  Nodes (isolated_pipeline degrees p).2 !! v = Some n ↔ Nodes p !! v = Some n ∧ touched p v.
Proof.
  destruct degrees as [ind outd]. unfold isolated_pipeline. rewrite touched_edges. simpl.
  set (es := (go_range (Nodes p)).*2 ≫= Edges). rewrite foldr_delete_lookup.
  destruct (decide (is_Some (Nodes p !! v))) as [Hv|Hv]; [|case_bool_decide; naive_solver].
  destruct (degree_fresh p ind (To <$> es) v Hv) as (d & Hd & Hd0).
  destruct (degree_fresh p outd (From <$> es) v Hv) as (d' & Hd' & Hd0').
  match goal with |- context [bool_decide (v ∈ ?c)] => assert (v ∈ c ↔ d = 0 ∧ d' = 0) as Hcs end.
  { rewrite list_elem_of_omap. split.
    - intros ([k x] & Hk & E). apply elem_of_go_range in Hk. destruct (_ && _) eqn:Hb; [|done].
      injection E as ->. apply andb_true_iff in Hb as [->%bool_decide_eq_true Hx%bool_decide_eq_true].
      rewrite Hd' in Hx. rewrite Hd in Hk. injection Hk as ->. done.
    - intros [-> ->]. exists (v, 0). rewrite elem_of_go_range, Hd'. done. }
  rewrite Hd0, Hd0' in Hcs. case_bool_decide as Hc; rewrite Hcs in Hc; [naive_solver|].
  split; [|tauto]. intros Hn. split; [done|].
  destruct (decide (v ∈ To <$> es)), (decide (v ∈ From <$> es)); tauto.
Qed.

(** The nodes that stay are exactly those that an edge of their own pipeline touches:
    a node that only takes its inputs from other pipelines is removed. *)
Theorem eliminate_isolated_nodes g :
  Forall2 (λ p p', ∀ v n, Nodes p' !! v = Some n ↔ Nodes p !! v = Some n ∧ touched p v)
    (Pipelines g) (Pipelines (EliminateIsolatedNodes g)).
Proof.
  unfold EliminateIsolatedNodes. simpl. generalize (∅ : gmap nat nat, ∅ : gmap nat nat) as degrees.
  induction (Pipelines g) as [|p ps IH]; intros degrees; simpl; [constructor|].
  pose proof (isolated_pipeline_exact degrees p) as Hp.
  destruct (isolated_pipeline degrees p) as [degrees' p']. constructor; [exact Hp|apply IH].
Qed.

(** ** Edges that leave their pipeline do not matter for the sort *)
Lemma inner_lookup p v : Nodes (inner_pipeline p) !! v = inner_edges p <$> Nodes p !! v.
Proof. apply lookup_fmap. Qed.
Lemma inner_edges_of p v :
  edges_of (inner_pipeline p) v = filter (λ e, is_Some (Nodes p !! To e)) (edges_of p v).
Proof. unfold edges_of. rewrite inner_lookup. by destruct (Nodes p !! v). Qed.
Lemma inner_keys p : keys (inner_pipeline p) ≡ₚ keys p.
Proof.
  apply NoDup_Permutation; [apply NoDup_fst_go_range..|]. intros v.
  rewrite !elem_of_keys, inner_lookup. by rewrite fmap_is_Some.
Qed.
Lemma inner_count p v us :
  is_Some (Nodes p !! v) → count_to v (out_edges (inner_pipeline p) us) = count_to v (out_edges p us).
Proof.
  intros Hv. unfold out_edges. induction us as [|u us IH]; [done|]. rewrite !bind_cons, !count_to_app, IH. f_equal.
  rewrite inner_edges_of. induction (edges_of p u) as [|e es IHe]; [done|]. rewrite filter_cons.
  destruct (decide _) as [He|He]; rewrite ?count_to_cons, IHe; [done|].
  rewrite bool_decide_false; [done|]. intros E. by rewrite E in He.
Qed.
Lemma inner_indegrees p : init_indegrees (inner_pipeline p) = init_indegrees p.
Proof.
  apply map_eq. intros v. rewrite !init_indegrees_lookup.
  rewrite (bool_decide_ext (v ∈ keys (inner_pipeline p)) (v ∈ keys p)) by (by rewrite inner_keys).
  case_bool_decide as Hv; [|done]. f_equal. rewrite (count_to_perm _ _ _ _ (inner_keys p)).
  apply inner_count. by apply elem_of_keys.
Qed.

(** The counters agree on the nodes of the pipeline; those of other nodes are not
    positive. *)
Definition counters (p : Pipeline) (m m' : gmap nat Z) : Prop :=
  ∀ v, if bool_decide (is_Some (Nodes p !! v)) then m !! v = m' !! v else (default 0 (m !! v) ≤ 0)%Z.

Lemma relax_inner p es m m' acc :
  counters p m m' →
  let '(m1, a1) := foldl relax (m, acc) es in
  let '(m2, a2) := foldl relax (m', acc) (filter (λ e, is_Some (Nodes p !! To e)) es) in
  counters p m1 m2 ∧ a1 = a2.
Proof.
  revert m m' acc. induction es as [|e es IH]; intros m m' acc Hm; [done|].
  rewrite filter_cons. pose proof (Hm (To e)) as He. cbn [foldl]. unfold relax at 2.
  destruct (decide (is_Some (Nodes p !! To e))) as [Hp|Hp].
  - rewrite bool_decide_true in He by done. cbn [foldl]. unfold relax at 3. rewrite He.
    apply IH. intros v. specialize (Hm v). destruct (decide (v = To e)) as [->|Hne].
    + by rewrite bool_decide_true, !lookup_insert_eq by done.
    + by rewrite !lookup_insert_ne by done.
  - rewrite bool_decide_false in He by done. rewrite (bool_decide_false (_ - 1 = 0)%Z) by lia.
    apply IH. intros v. specialize (Hm v). destruct (decide (v = To e)) as [->|Hne].
    + rewrite bool_decide_false, lookup_insert_eq by done. simpl. lia.
    + by rewrite lookup_insert_ne by done.
Qed.
Lemma topo_loop_inner fuel p queue nodes m m' :
  counters p m m' → topo_loop fuel (inner_pipeline p) queue nodes m' = topo_loop fuel p queue nodes m.
Proof.
  revert queue nodes m m'. induction fuel as [|fuel IH]; intros [|cur queue] nodes m m' Hm; simpl; try done.
  rewrite inner_edges_of. pose proof (relax_inner p (edges_of p cur) m m' [] Hm) as Hr.
  destruct (foldl relax (m, []) _) as [m1 a1], (foldl relax (m', []) _) as [m2 a2].
  destruct Hr as [Hr ->]. by apply IH.
Qed.

(** Removing the edges between pipelines leaves the order of the nodes as it is. *)
Theorem eliminate_isolated_edges_sorts g :
  TopologicalSort (EliminateIsolatedEdges g) = TopologicalSort g.
Proof.
  unfold TopologicalSort, EliminateIsolatedEdges. simpl. induction (Pipelines g) as [|p ps IH]; [done|].
  rewrite fmap_cons. cbn [mapM]. rewrite IH. f_equal. unfold sort_pipeline, init_queue.
  assert (size (Nodes (inner_pipeline p)) = size (Nodes p)) as -> by apply map_size_fmap.
  rewrite inner_indegrees. erewrite topo_loop_inner; [done|]. intros v. case_bool_decide as Hv; [done|].
  rewrite init_indegrees_lookup, bool_decide_false; [done|]. by rewrite elem_of_keys.
Qed.
End isolated.
