(* ===== verification/DagSpec.v ===== *)
(** * Properties of Build (the end of graph_builder.go)

    What the maps of [Build] hold after the nodes of a plan, the edges it makes, when
    it succeeds, what [FillPipeline] computes, and that the graph of a plan whose
    tensors are made before they are taken can be sorted. *)
From S2P Require Import Prelude Sliceutil Operator Ccl Graph GraphBuilder BuilderSpec Dag.

(** ** What Build makes of a plan *)
Section build_spec.
Context `{GoRange}.

(** Node [v] of the plan, in the order the nodes were added, takes (makes) [t]. *)
Definition consumes (plan : GraphBuilder) (v t : nat) : Prop :=
  ∃ n, all_nodes plan !! v = Some n ∧ t ∈ arg_tensors (Inputs n).
Definition produces (plan : GraphBuilder) (u t : nat) : Prop :=
  ∃ n, all_nodes plan !! u = Some n ∧ t ∈ arg_tensors (Outputs n).

(** Every tensor that is taken is made. *)
Definition plan_closed (plan : GraphBuilder) : Prop :=
  ∀ v t, consumes plan v t → ∃ u, produces plan u t.
(** No tensor is made twice. *)
Definition single_producer (plan : GraphBuilder) : Prop :=
  ∀ u u' t, produces plan u t → produces plan u' t → u = u'.
(** Tensors are made before they are taken. *)
Definition sequenced (plan : GraphBuilder) : Prop :=
  ∀ u v t, produces plan u t → consumes plan v t → (u < v)%nat.
(** The nodes refer to tensors of the plan. *)
Definition args_known (plan : GraphBuilder) : Prop :=
  ∀ u t, consumes plan u t ∨ produces plan u t → is_Some (Tensors plan !! t).

Definition by_id (nodes : list ExecutionNode) : list (nat * ExecutionNode) :=
  (λ n, (node_ID n, n)) <$> nodes.

Lemma number_nodes_lookup cnt l i :
  number_nodes cnt l !! i = (λ n, set_Edges [] (set_node_ID (cnt + i) n)) <$> (l !! i).
Proof.
  revert cnt i. induction l as [|n l IH]; intros cnt [|i]; simpl; [done|done| |].
  - by rewrite Nat.add_0_r.
  - by rewrite IH, Nat.add_succ_r.
Qed.

Lemma number_nodes_app cnt l1 l2 :
  number_nodes cnt (l1 ++ l2) = number_nodes cnt l1 ++ number_nodes (cnt + length l1) l2.
Proof.
  revert cnt. induction l1 as [|n l1 IH]; intros cnt; simpl.
  - by rewrite Nat.add_0_r.
  - by rewrite IH, Nat.add_succ_r.
Qed.

Lemma elem_of_by_id cnt l v n :
  (v, n) ∈ by_id (number_nodes cnt l)
  ↔ ∃ i m, l !! i = Some m ∧ v = (cnt + i)%nat ∧ n = set_Edges [] (set_node_ID v m).
Proof.
  unfold by_id. rewrite list_elem_of_fmap. split.
  - intros (n' & Heq & Hin). injection Heq as -> ->.
    apply list_elem_of_lookup_1 in Hin as [i Hi]. rewrite number_nodes_lookup in Hi.
    destruct (l !! i) as [m|] eqn:Hm; [|done]. simpl in Hi. injection Hi as <-. by exists i, m.
  - intros (i & m & Hi & -> & ->). exists (set_Edges [] (set_node_ID (cnt + i) m)).
    split; [done|]. apply (list_elem_of_lookup_2 _ i). by rewrite number_nodes_lookup, Hi.
Qed.

Lemma NoDup_number_nodes cnt l : NoDup (by_id (number_nodes cnt l)).*1.
Proof.
  apply NoDup_alt. intros i j v Hi Hj. unfold by_id in Hi, Hj.
  rewrite !list_lookup_fmap, !number_nodes_lookup in Hi, Hj.
  destruct (l !! i), (l !! j); simplify_eq/=. lia.
Qed.

Lemma go_range_node_map cnt l :
  go_range (node_map (number_nodes cnt l)) ≡ₚ by_id (number_nodes cnt l).
Proof. rewrite go_range_perm. apply map_to_list_to_map, NoDup_number_nodes. Qed.

Lemma node_map_lookup cnt l v n :
  node_map (number_nodes cnt l) !! v = Some n ↔ (v, n) ∈ by_id (number_nodes cnt l).
Proof.
  split; [apply elem_of_list_to_map_2|]. apply elem_of_list_to_map_1, NoDup_number_nodes.
Qed.

(** The maps of [Build] after the nodes [l]. *)
Record wired (l : list (nat * ExecutionNode)) (w : wiring) : Prop := {
  wired_to t v : v ∈ default [] (inputTensorTo w !! t)
                 ↔ ∃ n, (v, n) ∈ l ∧ t ∈ arg_tensors (Inputs n);
  wired_from t u : outputTensorFrom w !! t = Some u →
                   ∃ n, (u, n) ∈ l ∧ t ∈ arg_tensors (Outputs n);
  wired_made t u n : (u, n) ∈ l → t ∈ arg_tensors (Outputs n) →
                     is_Some (outputTensorFrom w !! t);
  wired_known t v : v ∈ default [] (inputTensorTo w !! t) → is_Some (tensorId2Tensor w !! t);
}.

Lemma add_inputs_spec id ts w :
  let w' := foldl (add_input id) w ts in
  (∀ t v, v ∈ default [] (inputTensorTo w' !! t)
          ↔ v ∈ default [] (inputTensorTo w !! t) ∨ v = id ∧ t ∈ ts)
  ∧ outputTensorFrom w' = outputTensorFrom w
  ∧ (∀ t, is_Some (tensorId2Tensor w' !! t) ↔ is_Some (tensorId2Tensor w !! t) ∨ t ∈ ts).
Proof.
  revert w. induction ts as [|t0 ts IH]; intros w; simpl.
  { split_and!; [set_solver|done|set_solver]. }
  specialize (IH (add_input id w t0)). destruct IH as (H1 & H2 & H3). split_and!; [|done|].
  - intros t v. rewrite H1. simpl. destruct (decide (t0 = t)) as [->|Hne].
    + rewrite lookup_insert_eq. simpl. set_solver.
    + rewrite lookup_insert_ne by done. set_solver.
  - intros t. rewrite H3. simpl. destruct (decide (t0 = t)) as [->|Hne].
    + rewrite lookup_insert_eq. set_solver.
    + rewrite lookup_insert_ne by done. set_solver.
Qed.

Lemma add_outputs_spec id ts w :
  let w' := foldl (add_output id) w ts in
  inputTensorTo w' = inputTensorTo w
  ∧ (∀ t, outputTensorFrom w' !! t
          = if bool_decide (t ∈ ts) then Some id else outputTensorFrom w !! t)
  ∧ (∀ t, is_Some (tensorId2Tensor w !! t) → is_Some (tensorId2Tensor w' !! t)).
Proof.
  revert w. induction ts as [|t0 ts IH]; intros w; simpl; [done|].
  specialize (IH (add_output id w t0)). destruct IH as (H1 & H2 & H3). split_and!; [done| |].
  - intros t. rewrite H2. simpl. destruct (decide (t0 = t)) as [->|Hne].
    + rewrite lookup_insert_eq, (bool_decide_true (t ∈ t :: ts)) by left. by case_bool_decide.
    + rewrite lookup_insert_ne by done. erewrite (bool_decide_ext (t ∈ t0 :: ts)); [done|].
      set_solver.
  - intros t Ht. apply H3. simpl. destruct (decide (t0 = t)) as [->|Hne].
    + by rewrite lookup_insert_eq.
    + by rewrite lookup_insert_ne.
Qed.

Lemma wire_node_spec l w id n : wired l w → wired (l ++ [(id, n)]) (wire_node w (id, n)).
Proof.
  intros [Hto Hfrom Hmade Hknown]. cbn [wire_node].
  pose proof (add_inputs_spec id (arg_tensors (Inputs n)) w) as (I1 & I2 & I3).
  set (w1 := foldl _ w _) in *.
  pose proof (add_outputs_spec id (arg_tensors (Outputs n)) w1) as (O1 & O2 & O3).
  set (w2 := foldl _ w1 _) in *. split.
  - intros t v. rewrite O1, I1, Hto. setoid_rewrite elem_of_app. setoid_rewrite list_elem_of_singleton.
    naive_solver.
  - intros t u. rewrite O2, I2. setoid_rewrite elem_of_app. setoid_rewrite list_elem_of_singleton.
    case_bool_decide; [naive_solver|]. intros (n' & ? & ?)%Hfrom. eauto.
  - intros t u n'. rewrite O2, I2, elem_of_app, list_elem_of_singleton.
    case_bool_decide; [done|]. naive_solver.
  - intros t v Hv. apply O3, I3. rewrite O1, I1 in Hv. naive_solver.
Qed.

Lemma wired_perm l l' w : l ≡ₚ l' → wired l w → wired l' w.
Proof.
  intros Hp [H1 H2 H3 H4]. split; try done; setoid_rewrite <- Hp; done.
Qed.

Lemma wire_nodes_spec ns l w : wired l w → wired (l ++ ns) (foldl wire_node w ns).
Proof.
  revert l w. induction ns as [|[id n] ns IH]; intros l w Hw; simpl; [by rewrite app_nil_r|].
  replace (l ++ (id, n) :: ns) with ((l ++ [(id, n)]) ++ ns) by by rewrite <- (assoc_L (++)).
  apply IH. by apply wire_node_spec.
Qed.

(** The pipelines of the graph before the edges are attached. *)
Fixpoint pipelines_from (cnt : nat) (pls : list PipelineExecNode) : list Pipeline :=
  match pls with
  | [] => []
  | p :: pls =>
      mkPipeline (Batched p) [] [] (node_map (number_nodes cnt (ExecutionNodes p)))
      :: pipelines_from (cnt + length (ExecutionNodes p)) pls
  end.

Lemma build_fold pls cnt ps w l :
  wired l w →
  let '(cnt', ps', w') := foldl build_pipeline (cnt, ps, w) pls in
  cnt' = (cnt + length (pls ≫= ExecutionNodes))%nat
  ∧ ps' = ps ++ pipelines_from cnt pls
  ∧ wired (l ++ by_id (number_nodes cnt (pls ≫= ExecutionNodes))) w'.
Proof.
  revert cnt ps w l. induction pls as [|p pls IH]; intros cnt ps w l Hw; simpl.
  { by rewrite Nat.add_0_r, !app_nil_r. }
  pose proof (wire_nodes_spec (go_range (node_map (number_nodes cnt (ExecutionNodes p)))) _ _ Hw)
    as Hw1.
  eapply wired_perm in Hw1; [|by rewrite go_range_node_map].
  apply (IH (cnt + length (ExecutionNodes p))%nat
           (ps ++ [mkPipeline (Batched p) [] [] (node_map (number_nodes cnt (ExecutionNodes p)))]))
    in Hw1.
  destruct (foldl build_pipeline _ pls) as [[cnt' ps'] w'].
  destruct Hw1 as (-> & -> & Hw1). split_and!.
  - unfold mbind. rewrite length_app. simpl. lia.
  - by rewrite <- (assoc_L (++)).
  - rewrite <- (assoc_L (++)) in Hw1. unfold by_id in *.
    by rewrite number_nodes_app, fmap_app.
Qed.

Lemma wired_nil : wired [] (mkWiring ∅ ∅ ∅).
Proof.
  split; simpl.
  - intros t v. rewrite lookup_empty. simpl. split; [|intros (? & ? & _)]; set_solver.
  - intros t u Hu. by rewrite lookup_empty in Hu.
  - set_solver.
  - intros t v. rewrite lookup_empty. simpl. set_solver.
Qed.

Definition plan_wiring (plan : GraphBuilder) (w : wiring) : Prop :=
  wired (by_id (number_nodes 0 (all_nodes plan))) w.

Lemma wiring_consumes plan w t v :
  plan_wiring plan w → v ∈ default [] (inputTensorTo w !! t) ↔ consumes plan v t.
Proof.
  intros Hw. rewrite (wired_to _ _ Hw). unfold consumes. setoid_rewrite elem_of_by_id. split.
  - intros (n & (i & m & Hm & -> & ->) & Ht). by exists m.
  - intros (m & Hm & Ht). exists (set_Edges [] (set_node_ID v m)). split; [by exists v, m|done].
Qed.

Lemma wiring_produces plan w t u :
  plan_wiring plan w → outputTensorFrom w !! t = Some u → produces plan u t.
Proof.
  intros Hw (n & Hn & Ht)%(wired_from _ _ Hw).
  apply elem_of_by_id in Hn as (i & m & Hm & -> & ->). by exists m.
Qed.

Lemma wiring_made plan w t u :
  plan_wiring plan w → produces plan u t → is_Some (outputTensorFrom w !! t).
Proof.
  intros Hw (m & Hm & Ht). apply (wired_made _ _ Hw t u (set_Edges [] (set_node_ID u m))); [|done].
  apply elem_of_by_id. by exists u, m.
Qed.

(** *** The edges *)
Lemma tensor_edges_Ok w t es e :
  tensor_edges w t = Ok es →
  e ∈ es ↔ edge_Value e = t ∧ outputTensorFrom w !! t = Some (From e)
           ∧ To e ∈ default [] (inputTensorTo w !! t).
Proof.
  unfold tensor_edges. destruct (default [] (inputTensorTo w !! t)) as [|v vs].
  { intros [= <-]. set_solver. }
  destruct (outputTensorFrom w !! t) as [u|]; [|discriminate].
  intros Heq. assert (es = (λ to, mkEdge u to t) <$> (v :: vs)) as -> by (by injection Heq).
  rewrite list_elem_of_fmap. split.
  - by intros (to & -> & Hin).
  - destruct e as [from to value]; simpl. intros (-> & Hu & Hin). injection Hu as ->. eauto.
Qed.

Lemma all_edges plan w (edges : list (list Edge)) e :
  plan_wiring plan w → mapM (tensor_edges w) (go_range (tensorId2Tensor w)).*1 = Ok edges →
  e ∈ mjoin edges ↔ outputTensorFrom w !! edge_Value e = Some (From e)
                    ∧ consumes plan (To e) (edge_Value e).
Proof.
  intros Hw Hm%mapM_res_Ok. rewrite <- (wiring_consumes _ _ _ _ Hw). rewrite list_elem_of_join. split.
  - intros (es & He & Hes). apply list_elem_of_lookup_1 in Hes as [i Hi].
    destruct (Forall2_lookup_r _ _ _ _ _ Hm Hi) as (t & Ht & Hes).
    by apply (tensor_edges_Ok _ _ _ _ Hes) in He as (-> & ? & ?).
  - intros [Hf Hc]. pose proof (wired_known _ _ Hw _ _ Hc) as Hk.
    apply elem_of_keys_go_range, list_elem_of_lookup_1 in Hk as [i Hi].
    destruct (Forall2_lookup_l _ _ _ _ _ Hm Hi) as (es & Hes & Heq).
    exists es. split; [by apply (tensor_edges_Ok _ _ _ _ Heq)|by eapply list_elem_of_lookup_2].
Qed.

(** [Build] of a plan, its wiring and edges given. *)
Lemma Build_unfold plan :
  ∃ w, plan_wiring plan w
    ∧ Build plan = (edges ← mapM (tensor_edges w) (go_range (tensorId2Tensor w)).*1;
                    let ps := (λ p, mkPipeline (pl_Batched p) (InputTensors p) (OutputTensors p)
                                      (attach_edges (mjoin edges) <$> Nodes p))
                              <$> pipelines_from 0 (PipelineExeNodes plan) in
                    ps ← (if batched plan then FillPipeline (Tensors plan) ps else Ok ps);
                    Ok (mkGraph ps (length (all_nodes plan)) (OutputName plan)
                          (plan_partyInfo plan) (Tensors plan))).
Proof.
  pose proof (build_fold (PipelineExeNodes plan) 0 [] _ _ wired_nil) as Hb.
  unfold Build. destruct (foldl build_pipeline _ _) as [[cnt ps] w].
  destruct Hb as (-> & -> & Hw). by exists w.
Qed.

Lemma mapM_Ok_or_Panic {A B} (f : A → res B) l :
  (∀ x, x ∈ l → f x = Panic ∨ ∃ y, f x = Ok y) →
  (∃ k, mapM f l = Ok k) ∨ mapM f l = Panic ∧ ∃ x, x ∈ l ∧ f x = Panic.
Proof.
  induction l as [|x l IH]; intros Hl; [left; by exists []|]. simpl.
  destruct (Hl x) as [Hx|[y Hy]]; [left|right; rewrite Hx; split; [done|exists x; set_solver]|].
  rewrite Hy. simpl. destruct IH as [[k ->]|[-> (z & ? & ?)]]; [set_solver|left; by eexists|].
  right. split; [done|]. exists z. set_solver.
Qed.

Lemma edges_closed plan w :
  plan_wiring plan w →
  let r := mapM (tensor_edges w) (go_range (tensorId2Tensor w)).*1 in
  (∃ edges, r = Ok edges) ∧ plan_closed plan ∨ r = Panic ∧ ¬ plan_closed plan.
Proof.
  intros Hw r. destruct (mapM_Ok_or_Panic (tensor_edges w) (go_range (tensorId2Tensor w)).*1)
    as [[edges Hr]|(Hr & t & _ & Ht)].
  - intros t _. unfold tensor_edges.
    destruct (default _ _), (outputTensorFrom w !! t); eauto.
  - left. split; [by eexists|]. intros v t Hc. pose proof Hc as Hc'.
    apply (wiring_consumes _ _ _ _ Hw) in Hc'.
    pose proof (wired_known _ _ Hw _ _ Hc') as Hk.
    apply elem_of_keys_go_range, list_elem_of_lookup_1 in Hk as [i Hi].
    apply mapM_res_Ok in Hr. destruct (Forall2_lookup_l _ _ _ _ _ Hr Hi) as (es & _ & Hes).
    unfold tensor_edges in Hes. destruct (default _ _) as [|v' vs]; [by apply elem_of_nil in Hc'|].
    destruct (outputTensorFrom w !! t) as [u|] eqn:Hu; [|discriminate].
    exists u. by eapply wiring_produces.
  - right. split; [done|]. intros Hcl. unfold tensor_edges in Ht.
    destruct (default _ _) as [|v vs] eqn:Hd; [discriminate|].
    destruct (outputTensorFrom w !! t) as [u|] eqn:Hu; [discriminate|].
    destruct (Hcl v t) as [u Hp].
    + apply (wiring_consumes _ _ _ _ Hw). rewrite Hd. left.
    + apply (wiring_made _ _ _ _ Hw) in Hp as [? Hp]. by rewrite Hu in Hp.
Qed.

(** *** The nodes of the pipelines *)
Lemma pipelines_from_lookup cnt pls i p v n :
  pipelines_from cnt pls !! i = Some p → Nodes p !! v = Some n →
  ∃ j m, (pls ≫= ExecutionNodes) !! j = Some m ∧ v = (cnt + j)%nat
         ∧ n = set_Edges [] (set_node_ID v m).
Proof.
  revert cnt i. induction pls as [|q pls IH]; intros cnt [|i] Hp Hv; simpl in *; [done|done| |].
  - injection Hp as <-. apply node_map_lookup, elem_of_by_id in Hv as (j & m & Hm & -> & ->).
    exists j, m. split; [|done]. by apply lookup_app_l_Some.
  - destruct (IH _ _ Hp Hv) as (j & m & Hm & -> & ->).
    exists (length (ExecutionNodes q) + j)%nat, m. split_and!; [|lia|done].
    rewrite lookup_app_r by lia. by rewrite Nat.add_comm, Nat.add_sub.
Qed.

Lemma pipelines_from_complete cnt pls j m :
  (pls ≫= ExecutionNodes) !! j = Some m →
  ∃ i p, pipelines_from cnt pls !! i = Some p
         ∧ Nodes p !! (cnt + j)%nat = Some (set_Edges [] (set_node_ID (cnt + j) m)).
Proof.
  revert cnt j. induction pls as [|q pls IH]; intros cnt j Hj; [done|]. simpl in Hj.
  apply lookup_app_Some in Hj as [Hj|[Hle Hj]].
  - eexists 0%nat, _. split; [done|]. simpl. apply node_map_lookup, elem_of_by_id. by exists j, m.
  - destruct (IH (cnt + length (ExecutionNodes q))%nat _ Hj) as (i & p & Hp & Hn).
    exists (S i), p. split; [done|].
    by replace (cnt + length (ExecutionNodes q) + (j - length (ExecutionNodes q)))%nat
      with (cnt + j)%nat in Hn by lia.
Qed.

(** Later pipelines hold larger IDs. *)
Lemma pipelines_from_order cnt pls i i' p p' u v :
  pipelines_from cnt pls !! i = Some p → pipelines_from cnt pls !! i' = Some p' →
  is_Some (Nodes p !! u) → is_Some (Nodes p' !! v) → (i < i')%nat → (u < v)%nat.
Proof.
  revert cnt i i'. induction pls as [|q pls IH]; intros cnt i i' Hp Hp' [n Hu] [n' Hv] Hlt; [done|].
  destruct i' as [|i']; [lia|]. destruct i as [|i]; simpl in Hp, Hp'.
  - injection Hp as <-. simpl in Hu.
    apply node_map_lookup, elem_of_by_id in Hu as (j & m & Hm & -> & _).
    apply lookup_lt_Some in Hm.
    destruct (pipelines_from_lookup _ _ _ _ _ _ Hp' Hv) as (j' & m' & _ & -> & _). lia.
  - apply (IH _ _ _ Hp Hp'); [by eexists..|lia].
Qed.

(** *** FillPipeline *)
Definition private_tensor (tensors : list Tensor) (t : nat) : Prop :=
  ∃ x, tensors !! t = Some x ∧ tensor_status x = TENSORSTATUS_PRIVATE.

Lemma all_private_acc tensors ts acc :
  let r := foldlM (λ acc t, match tensors !! t with
                   | Some x => Ok (acc && bool_decide (tensor_status x = TENSORSTATUS_PRIVATE))
                   | None => Panic
                   end) acc ts in
  (∃ b, r = Ok b ∧ (b = true → acc = true ∧ ∀ t, t ∈ ts → private_tensor tensors t))
  ∨ r = Panic ∧ ∃ t, t ∈ ts ∧ tensors !! t = None.
Proof.
  revert acc. induction ts as [|t ts IH]; intros acc; simpl.
  { left. exists acc. set_solver. }
  destruct (tensors !! t) as [x|] eqn:Hx; simpl; [|right; split; [done|exists t; set_solver]].
  destruct (IH (acc && bool_decide (tensor_status x = TENSORSTATUS_PRIVATE)))
    as [(b & -> & Hb)|(-> & t' & ? & ?)].
  - left. exists b. split; [done|]. intros ->. destruct (Hb eq_refl) as [Ha Hall].
    apply andb_true_iff in Ha as [-> Hp%bool_decide_eq_true]. split; [done|].
    intros t' [->|Ht']%elem_of_cons; [by exists x|by apply Hall].
  - right. split; [done|]. exists t'. set_solver.
Qed.

Lemma fill_inputs_Ok tensors p p' :
  fill_inputs tensors p = Ok p' →
  Nodes p' = Nodes p ∧ OutputTensors p' = OutputTensors p
  ∧ (pl_Batched p' = true → pl_Batched p = true
     ∧ ∀ t, t ∈ pipeline_inputs p ++ pipeline_outputs p → private_tensor tensors t)
  ∧ ∀ t, t ∈ InputTensors p' ↔ t ∈ pipeline_inputs p ∧ t ∉ pipeline_outputs p.
Proof.
  unfold fill_inputs. intros (b & Hb & Heq)%res_bind_Ok.
  assert (p' = mkPipeline (pl_Batched p && b)
    (go_sort (elements ((list_to_set (pipeline_inputs p) : gset nat)
                        ∖ list_to_set (pipeline_outputs p)))) (OutputTensors p) (Nodes p)) as ->
    by (by injection Heq).
  split_and!; [done..| |]; simpl.
  - intros [Hp Hpr]%andb_true_iff. subst b. split; [done|].
    destruct (all_private_acc tensors (pipeline_inputs p ++ pipeline_outputs p) true)
      as [(b & Hb' & Hall)|[Hb' _]]; unfold all_private in Hb; rewrite Hb in Hb'; [|discriminate].
    injection Hb' as <-. by apply Hall.
  - intros t. rewrite elem_of_go_sort, elem_of_elements, elem_of_difference.
    by rewrite !elem_of_list_to_set.
Qed.

Lemma fill_inputs_total tensors p :
  (∀ t, t ∈ pipeline_inputs p ++ pipeline_outputs p → is_Some (tensors !! t)) →
  ∃ p', fill_inputs tensors p = Ok p'.
Proof.
  intros Hk. unfold fill_inputs, all_private.
  destruct (all_private_acc tensors (pipeline_inputs p ++ pipeline_outputs p) true)
    as [(b & -> & _)|(_ & t & Ht & Hn)]; [by eexists|].
  apply Hk in Ht as [? Ht]. by rewrite Hn in Ht.
Qed.

(** The second loop changes the output tensors only. *)
Lemma fill_outputs_lookup ps i q :
  fill_outputs ps !! i = Some q →
  ∃ p, ps !! i = Some p ∧ pl_Batched q = pl_Batched p ∧ InputTensors q = InputTensors p
    ∧ Nodes q = Nodes p
    ∧ ∀ t, t ∈ OutputTensors q ↔ t ∈ OutputTensors p ∨
        t ∈ pipeline_outputs p ∧ ∃ j p', (i < j)%nat ∧ ps !! j = Some p' ∧ t ∈ InputTensors p'.
Proof.
  revert i. induction ps as [|p ps IH]; intros [|i] Hq; [done|done| |].
  - assert (q = mkPipeline (pl_Batched p) (InputTensors p)
      (go_sort (OutputTensors p ++ elements ((list_to_set (pipeline_outputs p) : gset nat)
         ∩ list_to_set (mjoin (InputTensors <$> ps))))) (Nodes p)) as -> by (by injection Hq).
    exists p. split_and!; [done..|]. simpl. intros t.
    rewrite elem_of_go_sort, elem_of_app, elem_of_elements, elem_of_intersection.
    rewrite !elem_of_list_to_set, list_elem_of_join.
    setoid_rewrite list_elem_of_fmap. f_equiv. f_equiv. split.
    + intros (l & Ht & p' & -> & Hp'). apply list_elem_of_lookup_1 in Hp' as [j Hj].
      exists (S j), p'. split_and!; [lia|done..].
    + intros (j & p' & Hj & Hp' & Ht). destruct j as [|j]; [lia|].
      exists (InputTensors p'). split; [done|]. exists p'. split; [done|].
      by eapply list_elem_of_lookup_2.
  - destruct (IH i Hq) as (p0 & Hp0 & Hb & Hi & Hn & Ho). exists p0. split_and!; [done..|].
    intros t. rewrite Ho. f_equiv. f_equiv. split.
    + intros (j & p' & ? & ? & ?). exists (S j), p'. split_and!; [lia|done..].
    + intros (j & p' & ? & ? & ?). destruct j as [|j]; [lia|].
      exists j, p'. split_and!; [lia|done..].
Qed.

Lemma length_fill_outputs ps : length (fill_outputs ps) = length ps.
Proof. induction ps; simpl; auto. Qed.

(** What [FillPipeline] makes of pipeline [p] (the [i]-th of [ps]) in [qs]. *)
Definition filled (tensors : list Tensor) (qs : list Pipeline) (i : nat) (q p : Pipeline) : Prop :=
  Nodes q = Nodes p
  ∧ (pl_Batched q = true → pl_Batched p = true
     ∧ ∀ t, t ∈ pipeline_inputs p ++ pipeline_outputs p → private_tensor tensors t)
  ∧ (∀ t, t ∈ InputTensors q ↔ t ∈ pipeline_inputs p ∧ t ∉ pipeline_outputs p)
  ∧ (∀ t, t ∈ OutputTensors q ↔ t ∈ OutputTensors p ∨
       t ∈ pipeline_outputs p ∧ ∃ j q', (i < j)%nat ∧ qs !! j = Some q' ∧ t ∈ InputTensors q').

Lemma pipeline_outputs_nodes p p' : Nodes p = Nodes p' → pipeline_outputs p = pipeline_outputs p'.
Proof. unfold pipeline_outputs. by intros ->. Qed.
Lemma pipeline_inputs_nodes p p' : Nodes p = Nodes p' → pipeline_inputs p = pipeline_inputs p'.
Proof. unfold pipeline_inputs. by intros ->. Qed.

Lemma FillPipeline_Ok tensors ps qs :
  FillPipeline tensors ps = Ok qs →
  length qs = length ps ∧ ∀ i q, qs !! i = Some q → ∃ p, ps !! i = Some p ∧ filled tensors qs i q p.
Proof.
  unfold FillPipeline. intros (ps1 & Hm & Heq)%res_bind_Ok. injection Heq as <-.
  apply mapM_res_Ok in Hm. split.
  { rewrite length_fill_outputs. symmetry. by eapply Forall2_length. }
  intros i q (p1 & Hp1 & Hb & Hi & Hn & Ho)%fill_outputs_lookup.
  destruct (Forall2_lookup_r _ _ _ _ _ Hm Hp1) as (p & Hp & Hf).
  apply fill_inputs_Ok in Hf as (Hn1 & Ho1 & Hb1 & Hi1). exists p. split; [done|]. split_and!.
  - congruence.
  - by rewrite Hb.
  - by rewrite Hi.
  - intros t. rewrite Ho, Ho1, (pipeline_outputs_nodes _ _ Hn1). f_equiv. f_equiv. split.
    + intros (j & p' & Hj & Hp' & Ht).
      destruct (lookup_lt_is_Some_2 (fill_outputs ps1) j) as [q' Hq'].
      { rewrite length_fill_outputs. by eapply lookup_lt_Some. }
      exists j, q'. split_and!; [done..|].
      apply fill_outputs_lookup in Hq' as (p'' & Hp'' & _ & -> & _). congruence.
    + intros (j & q' & Hj & (p' & Hp' & _ & Hi' & _)%fill_outputs_lookup & Ht).
      exists j, p'. rewrite <- Hi'. done.
Qed.

(** *** The graph *)
Definition attached (edges : list Edge) (plan : GraphBuilder) : list Pipeline :=
  (λ p, mkPipeline (pl_Batched p) (InputTensors p) (OutputTensors p)
          (attach_edges edges <$> Nodes p)) <$> pipelines_from 0 (PipelineExeNodes plan).

(** The edges of the graph join the producer the maps of [Build] name with every
    consumer. *)
Definition joins (plan : GraphBuilder) (w : wiring) (edges : list Edge) : Prop :=
  ∀ e, e ∈ edges ↔ outputTensorFrom w !! edge_Value e = Some (From e)
                   ∧ consumes plan (To e) (edge_Value e).

Lemma Build_Ok plan g :
  Build plan = Ok g →
  plan_closed plan ∧ NodeCnt g = length (all_nodes plan) ∧ graph_Tensors g = Tensors plan
  ∧ ∃ w edges, plan_wiring plan w ∧ joins plan w edges
      ∧ if batched plan then FillPipeline (Tensors plan) (attached edges plan) = Ok (Pipelines g)
        else Pipelines g = attached edges plan.
Proof.
  destruct (Build_unfold plan) as (w & Hw & ->). intros (edges & He & Hg)%res_bind_Ok.
  destruct (edges_closed _ _ Hw) as [[_ Hc]|[Hp _]]; [|rewrite He in Hp; discriminate].
  apply res_bind_Ok in Hg as (ps & Hps & Heq).
  assert (g = mkGraph ps (length (all_nodes plan)) (OutputName plan) (plan_partyInfo plan)
                (Tensors plan)) as -> by (by injection Heq).
  split_and!; [done..|]. exists w, (mjoin edges). split_and!; [done| |].
  - intros e. by apply all_edges.
  - destruct (batched plan); [exact Hps|]. simpl. by injection Hps.
Qed.

Lemma graph_pipelines plan g :
  Build plan = Ok g →
  ∃ w edges, plan_wiring plan w ∧ joins plan w edges
    ∧ length (Pipelines g) = length (pipelines_from 0 (PipelineExeNodes plan))
    ∧ ∀ i p, Pipelines g !! i = Some p →
        ∃ q, pipelines_from 0 (PipelineExeNodes plan) !! i = Some q
             ∧ Nodes p = attach_edges edges <$> Nodes q.
Proof.
  intros (_ & _ & _ & w & edges & Hw & Hj & Hf)%Build_Ok. exists w, edges. split; [done|].
  split; [done|].
  assert (∀ i p, attached edges plan !! i = Some p →
            ∃ q, pipelines_from 0 (PipelineExeNodes plan) !! i = Some q
                 ∧ Nodes p = attach_edges edges <$> Nodes q) as Hat.
  { intros i p Hp. unfold attached in Hp. apply list_lookup_fmap_Some in Hp as (q & -> & Hq).
    by exists q. }
  assert (length (attached edges plan) = length (pipelines_from 0 (PipelineExeNodes plan))) as Hl.
  { apply length_fmap. }
  destruct (batched plan).
  - apply FillPipeline_Ok in Hf as [Hlen Hf]. split; [congruence|].
    intros i p (p' & Hp' & -> & _)%Hf. by apply Hat.
  - rewrite Hf. by split.
Qed.

(** The node of ID [u]. *)
Lemma graph_node plan g p u n :
  Build plan = Ok g → p ∈ Pipelines g → Nodes p !! u = Some n →
  ∃ m w, all_nodes plan !! u = Some m ∧ n = set_Edges (Edges n) (set_node_ID u m)
    ∧ plan_wiring plan w
    ∧ ∀ e, e ∈ Edges n ↔ From e = u ∧ outputTensorFrom w !! edge_Value e = Some u
                         ∧ consumes plan (To e) (edge_Value e).
Proof.
  intros (w & edges & Hw & Hj & _ & Hps)%graph_pipelines Hp Hn.
  apply list_elem_of_lookup_1 in Hp as [i Hi].
  destruct (Hps _ _ Hi) as (q & Hq & Heq). rewrite Heq, lookup_fmap in Hn.
  destruct (Nodes q !! u) as [n0|] eqn:Hn0; [|done]. simpl in Hn.
  destruct (pipelines_from_lookup _ _ _ _ _ _ Hq Hn0) as (j & m & Hm & -> & ->).
  assert (n = attach_edges edges (set_Edges [] (set_node_ID (0 + j) m))) as -> by (by injection Hn).
  exists m, w. split_and!; [done..|]. intros e. simpl. rewrite list_elem_of_filter, (Hj e).
  naive_solver.
Qed.

Lemma graph_wires plan g p u n :
  Build plan = Ok g → single_producer plan → p ∈ Pipelines g → Nodes p !! u = Some n →
  ∃ m, all_nodes plan !! u = Some m ∧ n = set_Edges (Edges n) (set_node_ID u m)
    ∧ ∀ e, e ∈ Edges n ↔ From e = u ∧ produces plan u (edge_Value e)
                         ∧ consumes plan (To e) (edge_Value e).
Proof.
  intros Hb Hs Hp Hn.
  destruct (graph_node _ _ _ _ _ Hb Hp Hn) as (m & w & Hm & Heq & Hw & He).
  exists m. split_and!; [done..|]. intros e. rewrite He. split.
  - intros (? & Hf & ?). split_and!; [done| |done]. by eapply wiring_produces.
  - intros (? & Hpr & ?). split_and!; [done| |done].
    pose proof (wiring_made _ _ _ _ Hw Hpr) as [u' Hu']. rewrite Hu'. f_equal.
    apply (Hs u' u (edge_Value e)); [by eapply wiring_produces|done].
Qed.

Lemma graph_complete plan g u :
  Build plan = Ok g → (u < NodeCnt g)%nat → ∃ p, p ∈ Pipelines g ∧ is_Some (Nodes p !! u).
Proof.
  intros Hb Hu. pose proof Hb as (_ & Hcnt & _)%Build_Ok. rewrite Hcnt in Hu.
  apply lookup_lt_is_Some_2 in Hu as [m Hm].
  apply (pipelines_from_complete 0) in Hm as (i & q & Hq & Hn).
  destruct (graph_pipelines _ _ Hb) as (w & edges & _ & _ & Hlen & Hps).
  destruct (lookup_lt_is_Some_2 (Pipelines g) i) as [p Hp].
  { rewrite Hlen. by eapply lookup_lt_Some. }
  exists p. split; [by eapply list_elem_of_lookup_2|].
  destruct (Hps _ _ Hp) as (q' & Hq' & ->). rewrite Hq in Hq'. injection Hq' as <-.
  rewrite lookup_fmap. simpl in Hn. by rewrite Hn.
Qed.

Lemma elem_of_pipeline_inputs p t :
  t ∈ pipeline_inputs p ↔ ∃ v n, Nodes p !! v = Some n ∧ t ∈ arg_tensors (Inputs n).
Proof.
  unfold pipeline_inputs. rewrite list_elem_of_join. setoid_rewrite list_elem_of_fmap. split.
  - intros (l & Ht & n & -> & Hn). apply list_elem_of_fmap in Hn as ([v n'] & -> & Hn).
    exists v, n'. by rewrite <- elem_of_go_range.
  - intros (v & n & Hn & Ht). eexists. split; [done|]. exists n. split; [done|].
    apply elem_of_go_range in Hn. by apply (list_elem_of_fmap_2 snd _ _) in Hn.
Qed.

Lemma elem_of_pipeline_outputs p t :
  t ∈ pipeline_outputs p ↔ ∃ v n, Nodes p !! v = Some n ∧ t ∈ arg_tensors (Outputs n).
Proof.
  unfold pipeline_outputs. rewrite list_elem_of_join. setoid_rewrite list_elem_of_fmap. split.
  - intros (l & Ht & n & -> & Hn). apply list_elem_of_fmap in Hn as ([v n'] & -> & Hn).
    exists v, n'. by rewrite <- elem_of_go_range.
  - intros (v & n & Hn & Ht). eexists. split; [done|]. exists n. split; [done|].
    apply elem_of_go_range in Hn. by apply (list_elem_of_fmap_2 snd _ _) in Hn.
Qed.

(** [Build] cannot fail on a plan that is closed and whose tensors exist. *)
Lemma attached_args edges plan p t :
  p ∈ attached edges plan → t ∈ pipeline_inputs p ++ pipeline_outputs p →
  ∃ u, consumes plan u t ∨ produces plan u t.
Proof.
  intros (q & -> & Hq)%list_elem_of_fmap. apply list_elem_of_lookup_1 in Hq as [i Hq].
  rewrite elem_of_app, elem_of_pipeline_inputs, elem_of_pipeline_outputs. simpl.
  setoid_rewrite lookup_fmap.
  assert (∀ v n, attach_edges edges <$> (Nodes q !! v) = Some n →
            ∃ m, all_nodes plan !! v = Some m ∧ Inputs n = Inputs m ∧ Outputs n = Outputs m) as Hn.
  { intros v n Hv. destruct (Nodes q !! v) as [n0|] eqn:Hn0; [|done].
    destruct (pipelines_from_lookup _ _ _ _ _ _ Hq Hn0) as (j & m & Hm & -> & ->).
    exists m. injection Hv as <-. done. }
  intros [(v & n & Hv & Ht)|(v & n & Hv & Ht)]; destruct (Hn _ _ Hv) as (m & Hm & Hi & Ho);
    exists v; [left|right]; exists m; (split; [done|congruence]).
Qed.

Lemma Build_total plan :
  args_known plan →
  (∃ g, Build plan = Ok g) ∧ plan_closed plan ∨ Build plan = Panic ∧ ¬ plan_closed plan.
Proof.
  intros Hk. destruct (Build_unfold plan) as (w & Hw & ->).
  destruct (edges_closed _ _ Hw) as [[[edges ->] Hc]|[-> Hc]]; [left|right; by split].
  split; [|done]. simpl. destruct (batched plan); [|by eexists].
  fold (attached (mjoin edges) plan). unfold FillPipeline.
  destruct (mapM_Ok_or_Panic (fill_inputs (Tensors plan)) (attached (mjoin edges) plan))
    as [[qs ->]|(_ & p & Hp & Hpanic)].
  - intros p Hp. right. apply fill_inputs_total. intros t Ht.
    destruct (attached_args _ _ _ _ Hp Ht) as [u Hu]. by eapply Hk.
  - by eexists.
  - destruct (fill_inputs_total (Tensors plan) p) as [p' Hp'].
    + intros t Ht. destruct (attached_args _ _ _ _ Hp Ht) as [u Hu]. by eapply Hk.
    + rewrite Hpanic in Hp'. discriminate.
Qed.

(** What flows between the pipelines of a batched plan. *)
Lemma batched_filled plan g i q :
  Build plan = Ok g → batched plan = true → Pipelines g !! i = Some q →
  (∀ t, t ∈ InputTensors q ↔ t ∈ pipeline_inputs q ∧ t ∉ pipeline_outputs q)
  ∧ (∀ t, t ∈ OutputTensors q ↔ t ∈ pipeline_outputs q ∧
       ∃ j q', (i < j)%nat ∧ Pipelines g !! j = Some q' ∧ t ∈ InputTensors q')
  ∧ (pl_Batched q = true → ∀ t, t ∈ pipeline_inputs q ++ pipeline_outputs q →
       private_tensor (graph_Tensors g) t).
Proof.
  intros (_ & _ & Hts & w & edges & _ & _ & Hf)%Build_Ok Hb Hq. rewrite Hb in Hf.
  apply FillPipeline_Ok in Hf as [_ Hf]. destruct (Hf _ _ Hq) as (p & Hp & Hn & Hbt & Hi & Ho).
  rewrite (pipeline_inputs_nodes _ _ Hn), (pipeline_outputs_nodes _ _ Hn), Hts.
  split_and!; [done| |].
  - intros t. rewrite Ho. apply list_lookup_fmap_Some in Hp as (p0 & -> & Hp0). simpl.
    enough (OutputTensors p0 = []) as -> by set_solver.
    clear -Hp0. revert Hp0. generalize 0%nat as c. revert i.
    induction (PipelineExeNodes plan) as [|x pls IH]; intros [|i] c Hp0; simpl in Hp0; [done..| |].
    + by injection Hp0 as <-.
    + by apply (IH _ _ Hp0).
  - intros Ht. by apply Hbt.
Qed.

Lemma precedes_lt plan g p u v :
  Build plan = Ok g → sequenced plan → p ∈ Pipelines g → precedes p u v → (u < v)%nat.
Proof.
  intros Hb Hs Hp [Hu (e & He & HT)]. apply elem_of_keys in Hu as [n Hn].
  unfold edges_of in He. rewrite Hn in He.
  destruct (graph_node _ _ _ _ _ Hb Hp Hn) as (m & w & Hm & _ & Hw & Hes).
  apply Hes in He as (_ & Hfrom & Hc). rewrite HT in Hc. subst v.
  eapply Hs; [|exact Hc]. by eapply wiring_produces.
Qed.

Lemma Build_sorts plan :
  args_known plan → plan_closed plan → sequenced plan →
  ∃ g orders, Build plan = Ok g ∧ TopologicalSort g = Ok orders
              ∧ length orders = length (Pipelines g).
Proof.
  intros Hk Hc Hs. destruct (Build_total plan Hk) as [[[g Hb] _]|[_ Hn]]; [|done].
  assert (∀ p, p ∈ Pipelines g → ∃ o, sort_pipeline p = Ok o) as Hsort.
  { intros p Hp. pose proof (sort_pipeline_spec p) as Hsp.
    destruct (sort_pipeline p) as [o| |]; [by eexists|exfalso|done].
    apply Hsp. exists id. intros u v Huv _. by eapply precedes_lt. }
  destruct (mapM_Ok_or_Panic sort_pipeline (Pipelines g)) as [[orders Ho]|(_ & p & Hp & Hpanic)].
  - intros p Hp. right. by apply Hsort.
  - exists g, orders. split_and!; [done..|]. symmetry. eapply Forall2_length. by apply mapM_res_Ok.
  - destruct (Hsort p Hp) as [o Ho]. rewrite Ho in Hpanic. discriminate.
Qed.

(** ** Theorems *)

(** C14: [Build] numbers the nodes of the plan in the order they were added, puts
    each in a pipeline, keeps everything else of it, and connects two nodes by an edge
    exactly when the first makes a tensor that the second takes. *)
Theorem build_wires_plan plan g :
  Build plan = Ok g → single_producer plan →
  NodeCnt g = length (all_nodes plan)
  ∧ (∀ u, (u < NodeCnt g)%nat → ∃ p, p ∈ Pipelines g ∧ is_Some (Nodes p !! u))
  ∧ ∀ p u n, p ∈ Pipelines g → Nodes p !! u = Some n →
      ∃ m, all_nodes plan !! u = Some m ∧ n = set_Edges (Edges n) (set_node_ID u m)
        ∧ ∀ e, e ∈ Edges n ↔ From e = u ∧ produces plan u (edge_Value e)
                             ∧ consumes plan (To e) (edge_Value e).
Proof.
  intros Hb Hs. split; [by apply Build_Ok in Hb as (_ & ? & _)|].
  split; [intros u; by eapply graph_complete|]. intros p u n. by apply graph_wires.
Qed.

(** C16: On a plan whose nodes refer to its own tensors, [Build] succeeds exactly
    when every tensor that is taken is also made; otherwise it dereferences nil. *)
Theorem build_succeeds_iff_closed plan :
  args_known plan →
  match Build plan with
  | Ok _ => plan_closed plan
  | Err _ => False
  | Panic => ¬ plan_closed plan
  end.
Proof. intros Hk. by destruct (Build_total plan Hk) as [[[g ->] Hc]|[-> Hc]]. Qed.

(** If tensors are made before they are taken, the graph of the plan exists
    and the topological sort of every pipeline succeeds. *)
Theorem build_sequenced_sorts plan :
  args_known plan → plan_closed plan → sequenced plan →
  ∃ g orders, Build plan = Ok g ∧ TopologicalSort g = Ok orders
              ∧ length orders = length (Pipelines g).
Proof. apply Build_sorts. Qed.

(** C15: In the graph of a batched plan the inputs of a pipeline are the tensors it
    takes and does not make, each of them is an output of an earlier pipeline, its
    outputs are the tensors it makes that a later pipeline has as input, and a pipeline
    still marked batched touches private tensors only. *)
Theorem pipeline_flow plan g i q :
  Build plan = Ok g → batched plan = true → sequenced plan → Pipelines g !! i = Some q →
  (∀ t, t ∈ InputTensors q ↔ t ∈ pipeline_inputs q ∧ t ∉ pipeline_outputs q)
  ∧ (∀ t, t ∈ InputTensors q → ∃ j q', (j < i)%nat ∧ Pipelines g !! j = Some q' ∧ t ∈ OutputTensors q')
  ∧ (∀ t, t ∈ OutputTensors q ↔ t ∈ pipeline_outputs q ∧
       ∃ j q', (i < j)%nat ∧ Pipelines g !! j = Some q' ∧ t ∈ InputTensors q')
  ∧ (pl_Batched q = true → ∀ t, t ∈ pipeline_inputs q ++ pipeline_outputs q →
       private_tensor (graph_Tensors g) t).
Proof.
  intros Hb Hbt Hs Hq. pose proof (batched_filled _ _ _ _ Hb Hbt Hq) as (Hi & Ho & Hp).
  split_and!; [done| |done..]. intros t Ht. pose proof Ht as Ht'.
  apply Hi in Ht' as [(v & n & Hn & Htn)%elem_of_pipeline_inputs Hno].
  destruct (graph_node _ _ _ _ _ Hb ltac:(by eapply list_elem_of_lookup_2) Hn)
    as (m & w & Hm & Heq & _).
  assert (consumes plan v t) as Hc. { exists m. split; [done|]. by rewrite Heq in Htn. }
  pose proof Hb as (Hcl & Hcnt & _)%Build_Ok. destruct (Hcl v t Hc) as [u Hu].
  pose proof (Hs _ _ _ Hu Hc) as Hlt. destruct Hu as (m' & Hm' & Htm').
  destruct (graph_complete plan g u Hb) as (q' & Hq' & [n' Hn']).
  { rewrite Hcnt. by eapply lookup_lt_Some. }
  pose proof (graph_node _ _ _ _ _ Hb Hq' Hn') as (m'' & w' & Hm'' & Heq' & _).
  assert (t ∈ pipeline_outputs q') as Htq'.
  { apply elem_of_pipeline_outputs. exists u, n'. split; [done|]. rewrite Heq'. simpl. congruence. }
  apply list_elem_of_lookup_1 in Hq' as [j Hj].
  assert (j < i)%nat as Hji.
  { destruct (decide (j = i)) as [->|Hne]; [congruence|].
    destruct (decide (i < j)%nat) as [Hij|]; [exfalso|lia].
    destruct (graph_pipelines _ _ Hb) as (w0 & edges & _ & _ & _ & Hps).
    destruct (Hps _ _ Hq) as (p0 & Hp0 & Hn0). destruct (Hps _ _ Hj) as (p1 & Hp1 & Hn1).
    assert (v < u)%nat; [|lia].
    eapply (pipelines_from_order 0 _ _ _ _ _ _ _ Hp0 Hp1); [| |done].
    - rewrite Hn0, lookup_fmap in Hn. by destruct (Nodes p0 !! v).
    - rewrite Hn1, lookup_fmap in Hn'. by destruct (Nodes p1 !! u). }
  exists j, q'. split_and!; [done..|].
  apply (batched_filled _ _ _ _ Hb Hbt Hj). split; [done|]. by exists i, q.
Qed.
End build_spec.

(** ** The plan of [Demo] builds *)
#[local] Existing Instance go_range_list.

Definition node_args (plan : GraphBuilder) : list (list nat * list nat) :=
  (λ n, (arg_tensors (Inputs n), arg_tensors (Outputs n))) <$> all_nodes plan.

Lemma consumes_args plan v t :
  consumes plan v t ↔ ∃ io, node_args plan !! v = Some io ∧ t ∈ io.1.
Proof.
  unfold consumes, node_args. setoid_rewrite list_lookup_fmap_Some. split.
  - intros (n & Hn & Ht). eexists. split; [by exists n|done].
  - intros (io & (n & -> & Hn) & Ht). by exists n.
Qed.

Lemma produces_args plan v t :
  produces plan v t ↔ ∃ io, node_args plan !! v = Some io ∧ t ∈ io.2.
Proof.
  unfold produces, node_args. setoid_rewrite list_lookup_fmap_Some. split.
  - intros (n & Hn & Ht). eexists. split; [by exists n|done].
  - intros (io & (n & -> & Hn) & Ht). by exists n.
Qed.

Lemma demo_args : node_args (Demo.plan5 true) = [([], [0]); ([0], [1]); ([1], [2])]%nat.
Proof. vm_compute. reflexivity. Qed.

Lemma demo_consumes v t : consumes (Demo.plan5 true) v t ↔ v = S t ∧ (t < 2)%nat.
Proof.
  rewrite consumes_args, demo_args. split.
  - intros (io & Hio & Ht). destruct v as [|[|[|v]]]; simplify_eq/=; set_solver by lia.
  - intros [-> Ht]. destruct t as [|[|t]]; [| |lia]; eexists; (split; [done|]); simpl; set_solver.
Qed.

Lemma demo_produces v t : produces (Demo.plan5 true) v t ↔ v = t ∧ (t < 3)%nat.
Proof.
  rewrite produces_args, demo_args. split.
  - intros (io & Hio & Ht). destruct v as [|[|[|v]]]; simplify_eq/=; set_solver by lia.
  - intros [-> Ht]. destruct t as [|[|[|t]]]; [| | |lia]; eexists; (split; [done|]); simpl; set_solver.
Qed.

Lemma demo_sequenced : sequenced (Demo.plan5 true).
Proof. intros u v t. rewrite demo_consumes, demo_produces. lia. Qed.
Lemma demo_closed : plan_closed (Demo.plan5 true).
Proof. intros v t. rewrite demo_consumes. intros [-> ?]. exists t. rewrite demo_produces. lia. Qed.
Lemma demo_single : single_producer (Demo.plan5 true).
Proof. intros u u' t. rewrite !demo_produces. lia. Qed.
Lemma demo_known : args_known (Demo.plan5 true).
Proof.
  intros u t. rewrite demo_consumes, demo_produces. intros Ht.
  apply lookup_lt_is_Some_2. enough (length (Tensors (Demo.plan5 true)) = 3%nat) by lia.
  vm_compute. reflexivity.
Qed.

Definition demo_graph : Graph :=
  match Build (Demo.plan5 true) with Ok g => g | _ => mkGraph [] 0 [] (mkPartyInfo []) [] end.
Lemma demo_build : Build (Demo.plan5 true) = Ok demo_graph.
Proof. vm_compute. reflexivity. Qed.

Lemma build_wires_plan_witness :
  NodeCnt demo_graph = 3%nat ∧
  ∀ p u n, p ∈ Pipelines demo_graph → Nodes p !! u = Some n →
    ∃ m, all_nodes (Demo.plan5 true) !! u = Some m ∧ n = set_Edges (Edges n) (set_node_ID u m)
      ∧ ∀ e, e ∈ Edges n ↔ From e = u ∧ produces (Demo.plan5 true) u (edge_Value e)
                           ∧ consumes (Demo.plan5 true) (To e) (edge_Value e).
Proof.
  split; [vm_compute; reflexivity|].
  exact (proj2 (proj2 (build_wires_plan _ _ demo_build demo_single))).
Defined.

Lemma build_succeeds_iff_closed_witness :
  plan_closed (Demo.plan5 true) ∧
  match Build (Demo.plan5 true) with
  | Ok _ => plan_closed (Demo.plan5 true)
  | Err _ => False
  | Panic => ¬ plan_closed (Demo.plan5 true)
  end.
Proof. split; [exact demo_closed|]. exact (build_succeeds_iff_closed _ demo_known). Defined.

Lemma build_sequenced_sorts_witness :
  ∃ g orders, Build (Demo.plan5 true) = Ok g ∧ TopologicalSort g = Ok orders
              ∧ length orders = length (Pipelines g).
Proof. exact (build_sequenced_sorts _ demo_known demo_closed demo_sequenced). Defined.

Lemma pipeline_flow_witness :
  ∃ q, Pipelines demo_graph !! 1%nat = Some q ∧ InputTensors q = [0%nat] ∧
  ∀ t, t ∈ InputTensors q →
    ∃ j q', (j < 1)%nat ∧ Pipelines demo_graph !! j = Some q' ∧ t ∈ OutputTensors q'.
Proof.
  destruct (Pipelines demo_graph !! 1%nat) as [q|] eqn:Hq; [|by vm_compute in Hq].
  exists q. split; [done|]. split.
  - assert (InputTensors <$> (Pipelines demo_graph !! 1%nat) = Some [0%nat]) as Hi
      by (vm_compute; reflexivity).
    rewrite Hq in Hi. by injection Hi.
  - exact (proj1 (proj2 (pipeline_flow _ _ 1 q demo_build ltac:(vm_compute; reflexivity)
             demo_sequenced Hq))).
Defined.
