(* ===== verification/Schedule.v ===== *)
(** * Scheduling (pkg/interpreter/graph/optimizer)

    The graph is cut into sub-graphs that run one after the other, here one per
    node in topological order, and every sub-graph is divided among the parties:
    each party gets the nodes it takes part in, dealt out to its workers, and a flag
    for a barrier with the other parties.  The result is one execution plan per
    party. *)
From S2P Require Import Prelude Sliceutil Operator Ccl Graph GraphBuilder Dag.

(** ** Partition (graph_partitioner.go) *)

(** The nodes of a sub-graph by their IDs. *)
Record SubDAG := mkSubDAG { sub_Nodes : gmap nat ExecutionNode }.

Record PartPipeline := mkPartPipeline {
  part_Batched : bool;
  part_InputTensors : list nat;
  part_OutputTensors : list nat;
  SubDAGs : list SubDAG;
}.

(** ** Plans (graph_mapper.go) *)
Record ParallelJobs := mkParallelJobs {
  Jobs : gmap nat (list nat);
  NeedCallBarrierAfterJobs : bool;
  NeedSyncSymbolBeforeJobs : bool;
}.

Record PipelineJobs := mkPipelineJobs {
  pj_Batched : bool;
  pj_InputTensors : list nat;
  pj_OutputTensors : list nat;
  pj_Jobs : list ParallelJobs;
}.

Record ExecutionPlan := mkExecutionPlan {
  plan_Nodes : gmap nat ExecutionNode;
  WorkerNumber : nat;
  plan_Pipelines : list PipelineJobs;
}.

Definition NewExecutionPlan (workerNum pipelinesNum : nat) : ExecutionPlan :=
  mkExecutionPlan ∅ workerNum (replicate pipelinesNum (mkPipelineJobs false [] [] [])).

Record GraphMapper := mkGraphMapper {
  gm_graph : Graph;
  gm_pipelines : list PartPipeline;
  syncedTensorMap : gmap string bool;
  Codes : gmap string ExecutionPlan;
}.

Definition NewGraphMapper (input : Graph) (pipelines : list PartPipeline) : GraphMapper :=
  mkGraphMapper input pipelines ∅ ∅.

Definition workerNumLevel1 : nat := 8.
Definition workerNumLevel2 : nat := 16.

Definition InferenceWorkerNumber (m : GraphMapper) : nat :=
  let workerNum :=
    foldl (λ w pipeline, foldl (λ w subDAG, if (w <? size (sub_Nodes subDAG))
                                            then size (sub_Nodes subDAG) else w)
                           w (SubDAGs pipeline)) 1 (gm_pipelines m) in
  if workerNum <=? workerNumLevel1 then workerNum
  else if workerNumLevel2 <? workerNum then workerNumLevel1
  else workerNum / 2.

(** A copy of the node without edges and parties (graph_splitter.go). *)
Definition party_node (node : ExecutionNode) : ExecutionNode :=
  mkExecutionNode (node_ID node) (node_Name node) (OpType node) (Inputs node)
    (Outputs node) (Attributes node) [] [].

Definition splitExecutionNode (node : ExecutionNode) : gmap string ExecutionNode :=
  foldl (λ (result : gmap string ExecutionNode) party, <[party:=party_node node]> result) ∅
    (Parties node).

Definition needSyncSymbol (node : ExecutionNode) : bool :=
  bool_decide (OpType node ∈ [OpNameReplicate; OpNameMakeShare]).

(** *** State *)
Definition set_Codes (f : gmap string ExecutionPlan → gmap string ExecutionPlan)
    (m : GraphMapper) : GraphMapper :=
  mkGraphMapper (gm_graph m) (gm_pipelines m) (syncedTensorMap m) (f (Codes m)).
Definition set_synced (f : gmap string bool → gmap string bool) (m : GraphMapper)
    : GraphMapper :=
  mkGraphMapper (gm_graph m) (gm_pipelines m) (f (syncedTensorMap m)) (Codes m).

(** Changing the plan of a party through its pointer; a nil pointer panics. *)
Definition upd_code (k : string) (f : ExecutionPlan → res ExecutionPlan) : M GraphMapper () :=
  λ m, match Codes m !! k with
       | None => (m, Panic)
       | Some plan =>
           match f plan with
           | Ok plan' => (set_Codes <[k:=plan']> m, Ok tt)
           | Err e => (m, Err e)
           | Panic => (m, Panic)
           end
       end.

(** [plan.Policy.PipelineJobs[i]] and [.Jobs[j]]: an index out of range panics. *)
Definition upd_pipeline (i : nat) (f : PipelineJobs → res PipelineJobs) (plan : ExecutionPlan)
    : res ExecutionPlan :=
  pj ← res_of_option Panic (plan_Pipelines plan !! i);
  pj' ← f pj;
  Ok (mkExecutionPlan (plan_Nodes plan) (WorkerNumber plan) (<[i:=pj']> (plan_Pipelines plan))).

Definition job_at (plan : ExecutionPlan) (i j : nat) : res ParallelJobs :=
  pj ← res_of_option Panic (plan_Pipelines plan !! i);
  res_of_option Panic (pj_Jobs pj !! j).

Definition upd_job (i j : nat) (f : ParallelJobs → ParallelJobs) (plan : ExecutionPlan)
    : res ExecutionPlan :=
  upd_pipeline i (λ pj,
    job ← res_of_option Panic (pj_Jobs pj !! j);
    Ok (mkPipelineJobs (pj_Batched pj) (pj_InputTensors pj) (pj_OutputTensors pj)
          (<[j:=f job]> (pj_Jobs pj)))) plan.

Definition append_job (i : nat) (v : ParallelJobs) : ExecutionPlan → res ExecutionPlan :=
  upd_pipeline i (λ pj,
    Ok (mkPipelineJobs (pj_Batched pj) (pj_InputTensors pj) (pj_OutputTensors pj)
          (pj_Jobs pj ++ [v]))).

Definition set_batched (i : nat) (batched : bool) : ExecutionPlan → res ExecutionPlan :=
  upd_pipeline i (λ pj,
    Ok (mkPipelineJobs batched (pj_InputTensors pj) (pj_OutputTensors pj) (pj_Jobs pj))).

Definition append_input (i t : nat) : ExecutionPlan → res ExecutionPlan :=
  upd_pipeline i (λ pj,
    Ok (mkPipelineJobs (pj_Batched pj) (pj_InputTensors pj ++ [t]) (pj_OutputTensors pj)
          (pj_Jobs pj))).
Definition append_output (i t : nat) : ExecutionPlan → res ExecutionPlan :=
  upd_pipeline i (λ pj,
    Ok (mkPipelineJobs (pj_Batched pj) (pj_InputTensors pj) (pj_OutputTensors pj ++ [t])
          (pj_Jobs pj))).

(** The plan of a party is made when it is first needed. *)
Definition ensure_code (k : string) : M GraphMapper () := modify (λ m,
  match Codes m !! k with
  | Some _ => m
  | None => set_Codes <[k:=NewExecutionPlan (InferenceWorkerNumber m)
                             (length (gm_pipelines m))]> m
  end).

Section schedule.
Context `{GoRange}.

(** One sub-graph per node of the sorted pipelines. *)
Definition part_pipeline (p : Pipeline) (ids : list nat) : PartPipeline :=
  mkPartPipeline (pl_Batched p)
    (if pl_Batched p then InputTensors p else []) (if pl_Batched p then OutputTensors p else [])
    ((λ id, mkSubDAG (match Nodes p !! id with Some n => {[id := n]} | None => ∅ end)) <$> ids).

Definition NaivePartition (g : Graph) : res (Graph * list PartPipeline) :=
  let g := UpdateTensorRefNum g in
  pipelineNodes ← TopologicalSort g;
  Ok (g, zip_with part_pipeline (Pipelines g) pipelineNodes).

(** [m.Codes[k]], all keys in the order of the map *)
Definition for_codes (f : string → M GraphMapper ()) : M GraphMapper () :=
  m ← get;
  forM f (go_range (Codes m)).*1.

Definition code_of (k : string) : M GraphMapper ExecutionPlan :=
  m ← get;
  lift (res_of_option Panic (Codes m !! k)).

Definition inferenceNeedCallBarrier (i j : nat) : M GraphMapper () :=
  m ← get;
  partyCodes ← foldlM (λ partyCodes '(k, v),
      job ← lift (job_at v i j);
      mret (if bool_decide (Jobs job = ∅) then partyCodes else partyCodes ++ [k]))
    [] (go_range (Codes m));
  if bool_decide (1 < length (partyCodes : list string)) then
    for_codes (λ k, upd_code k (upd_job i j (λ job,
      mkParallelJobs (Jobs job) true (NeedSyncSymbolBeforeJobs job))))
  else mret tt.

(** The tensors of an argument map; a nil tensor panics. *)
Definition tensors_of (g : Graph) (args : tensor_args) : res (list Tensor) :=
  mapM (λ t, res_of_option Panic (graph_Tensors g !! t)) (arg_tensors args).

Definition IsInputsSynced (node : ExecutionNode) : M GraphMapper bool :=
  m ← get;
  ts ← lift (tensors_of (gm_graph m) (Inputs node));
  mret (forallb (λ t, default false (syncedTensorMap m !! UniqueName t)) ts).

Definition UpdateSyncedTensorMap (args : tensor_args) : M GraphMapper () :=
  m ← get;
  ts ← lift (tensors_of (gm_graph m) args);
  forM (λ t, modify (set_synced (λ synced,
    if default false (synced !! UniqueName t) then synced
    else <[UniqueName t:=false]> synced))) ts.

(** Visit the nodes a plan runs in a sub-graph. *)
Definition for_job_nodes (k : string) (i j : nat) (f : ExecutionNode → M GraphMapper ())
    : M GraphMapper () :=
  v ← code_of k;
  job ← lift (job_at v i j);
  forM (λ id,
      node ← lift (res_of_option Panic (plan_Nodes v !! id));
      f node) (mjoin (go_range (Jobs job)).*2).

Definition inferenceNeedSyncSymbol (i j : nat) : M GraphMapper () :=
  for_codes (λ k, for_job_nodes k i j (λ node,
      if needSyncSymbol node then
        synced ← IsInputsSynced node;
        if synced : bool then mret tt
        else upd_code k (upd_job i j (λ job,
               mkParallelJobs (Jobs job) (NeedCallBarrierAfterJobs job) true))
      else mret tt));;
  (m ← get;
   match go_range (Codes m) with
   | [] => mret tt
   | (_, v) :: _ =>
       job ← lift (job_at v i j);
       if NeedSyncSymbolBeforeJobs job
       then modify (set_synced (λ synced, (λ _, true) <$> synced)) else mret tt
   end);;
  for_codes (λ k, for_job_nodes k i j (λ node, UpdateSyncedTensorMap (Outputs node))).

(** *** [Map] *)
Definition by_id (nodes : list (nat * ExecutionNode)) : list ExecutionNode :=
  let m : gmap nat ExecutionNode := list_to_map nodes in
  omap (λ id, m !! id) (go_sort nodes.*1).

(** Nodes of several parties first, each group by ID. *)
Definition sorted_nodes (sub : SubDAG) : list ExecutionNode :=
  let single '(_, n) := bool_decide (length (Parties (n : ExecutionNode)) = 1) in
  by_id (Filter (go_range (sub_Nodes sub)) (λ n, negb (single n))) ++
  by_id (Filter (go_range (sub_Nodes sub)) single).

Definition deal_party (w : nat) (jobs : gmap string ParallelJobs) (kv : string * ExecutionNode)
    : M GraphMapper (gmap string ParallelJobs) :=
  let '(k, v) := kv in
  ensure_code k;;
  upd_code k (λ plan, Ok (mkExecutionPlan (<[node_ID v:=v]> (plan_Nodes plan))
                            (WorkerNumber plan) (plan_Pipelines plan)));;
  plan ← code_of k;
  let workerID := w mod WorkerNumber plan in
  match jobs !! k with
  | None => panic
  | Some pj =>
      let ids := default [] (Jobs pj !! workerID) ++ [node_ID v] in
      mret (<[k:=mkParallelJobs (<[workerID:=ids]> (Jobs pj))
                   (NeedCallBarrierAfterJobs pj) (NeedSyncSymbolBeforeJobs pj)]> jobs)
  end.

Definition deal_node (jobs : gmap string ParallelJobs) (wn : nat * ExecutionNode)
    : M GraphMapper (gmap string ParallelJobs) :=
  let '(w, node) := wn in
  foldlM (deal_party w) jobs (go_range (splitExecutionNode node)).

Definition empty_jobs (parties : list string) : gmap string ParallelJobs :=
  foldl (λ (jobs : gmap string ParallelJobs) p, <[p:=mkParallelJobs ∅ false false]> jobs) ∅
    parties.

Definition map_subdag (i : nat) (batched : bool) (js : nat * SubDAG) : M GraphMapper () :=
  let '(j, sub) := js in
  m ← get;
  jobs ← foldlM deal_node (empty_jobs (GetParties (graph_PartyInfo (gm_graph m)))) (imap pair (sorted_nodes sub));
  forM (λ '(k, v), ensure_code k;; upd_code k (append_job i v)) (go_range jobs);;
  for_codes (λ k, upd_code k (set_batched i batched));;
  inferenceNeedCallBarrier i j;;
  inferenceNeedSyncSymbol i j.

Definition map_tensor (f : nat → ExecutionPlan → res ExecutionPlan) (t : nat)
    : M GraphMapper () :=
  m ← get;
  x ← lift (res_of_option Panic (graph_Tensors (gm_graph m) !! t));
  upd_code (OwnerPartyCode x) (f t).

Definition map_pipeline (ip : nat * PartPipeline) : M GraphMapper () :=
  let '(i, pipeline) := ip in
  forM (map_subdag i (part_Batched pipeline)) (imap pair (SubDAGs pipeline));;
  if part_Batched pipeline then
    forM (map_tensor (append_input i)) (part_InputTensors pipeline);;
    forM (map_tensor (append_output i)) (part_OutputTensors pipeline)
  else mret tt.

Definition Map : M GraphMapper () :=
  m ← get;
  forM map_pipeline (imap pair (gm_pipelines m)).

(** The scheduling part of [compileCore] (interpreter.go). *)
Definition schedule (g : Graph) : res (gmap string ExecutionPlan) :=
  '(g, pipelines) ← NaivePartition g;
  match Map (NewGraphMapper g pipelines) with
  | (m, Ok _) => Ok (Codes m)
  | (_, Err e) => Err e
  | (_, Panic) => Panic
  end.
End schedule.
