(* ===== verification/ScheduleSpec.v ===== *)
(** * The plan of every party

    With one node per sub-graph the mapper computes, for every party and up to the
    flags for synchronizing symbols, a closed form: in every pipeline the party runs
    the nodes it takes part in, in the order of the topological sort, and all
    parties meet at a barrier after each node that more than one of them runs. *)
From S2P Require Import Prelude Sliceutil Operator Ccl Graph GraphBuilder Dag DagSpec Schedule.

(** ** Plans up to the synchronization of symbols *)
Definition erase_job (job : ParallelJobs) : ParallelJobs :=
  mkParallelJobs (Jobs job) (NeedCallBarrierAfterJobs job) false.
Definition erase_pj (pj : PipelineJobs) : PipelineJobs :=
  mkPipelineJobs (pj_Batched pj) (pj_InputTensors pj) (pj_OutputTensors pj)
    (erase_job <$> pj_Jobs pj).
Definition erase (plan : ExecutionPlan) : ExecutionPlan :=
  mkExecutionPlan (plan_Nodes plan) (WorkerNumber plan) (erase_pj <$> plan_Pipelines plan).

(** ** The specification *)

(** What a party does for a node, and whether the parties meet afterwards. *)
Definition spec_job (p : string) (n : ExecutionNode) : ParallelJobs :=
  mkParallelJobs (if bool_decide (p ∈ Parties n) then {[0 := [node_ID n]]} else ∅)
    (bool_decide (1 < size (list_to_set (Parties n) : gset string))) false.

Definition spec_nodes (p : string) (m : gmap nat ExecutionNode) (ns : list ExecutionNode)
    : gmap nat ExecutionNode :=
  foldl (λ m n, if bool_decide (p ∈ Parties n) then <[node_ID n:=party_node n]> m else m) m ns.

(** The tensors of a list that a party owns. *)
Definition owned_by (tensors : list Tensor) (p : string) (ts : list nat) : list nat :=
  Filter ts (λ t, from_option (λ x, bool_decide (OwnerPartyCode x = p)) false (tensors !! t)).

Section spec.
Context `{GoRange}.
Context (g : Graph) (ps : list PartPipeline).

Definition parties : list string := GetParties (graph_PartyInfo g).

Record meta_ok (m : GraphMapper) : Prop := {
  meta_graph : gm_graph m = g;
  meta_pipelines : gm_pipelines m = ps;
  meta_dom k : is_Some (Codes m !! k) → k ∈ parties;
  meta_plan k plan : Codes m !! k = Some plan →
    WorkerNumber plan = 1 ∧ length (plan_Pipelines plan) = length ps;
}.

Definition new_plan : ExecutionPlan := NewExecutionPlan 1 (length ps).

(** The plan of a party, or the one it gets when it is first needed. *)
Definition plan_of (m : GraphMapper) (k : string) : ExecutionPlan :=
  default new_plan (erase <$> Codes m !! k).

(** Every sub-graph has at most one node. *)
Definition single_nodes : Prop :=
  ∀ pp sub, pp ∈ ps → sub ∈ SubDAGs pp → size (sub_Nodes sub) ≤ 1.
Context (Hsingle : single_nodes).

Lemma worker_number_1 m : meta_ok m → InferenceWorkerNumber m = 1.
Proof.
  intros Hm. unfold InferenceWorkerNumber. rewrite (meta_pipelines _ Hm).
  assert (foldl (λ w pipeline, foldl (λ w subDAG,
      if w <? size (sub_Nodes subDAG) then size (sub_Nodes subDAG) else w) w (SubDAGs pipeline))
    1 ps = 1) as ->; [|done].
  assert (∀ l, l ⊆ ps → foldl (λ w pipeline, foldl (λ w subDAG,
      if w <? size (sub_Nodes subDAG) then size (sub_Nodes subDAG) else w) w (SubDAGs pipeline))
    1 l = 1) as Hl; [|by apply Hl].
  induction l as [|pp l IH]; intros Hsub; simpl; [done|].
  assert (foldl (λ w subDAG, if w <? size (sub_Nodes subDAG) then size (sub_Nodes subDAG) else w)
    1 (SubDAGs pp) = 1) as ->; [|apply IH; set_solver].
  assert (pp ∈ ps) as Hpp by set_solver. pose proof (Hsingle pp) as Hs. revert Hs.
  induction (SubDAGs pp) as [|sub subs IHs]; intros Hs; simpl; [done|].
  destruct (Nat.ltb_spec 1 (size (sub_Nodes sub))) as [Hlt|_].
  - specialize (Hs sub Hpp). lia || (exfalso; assert (size (sub_Nodes sub) ≤ 1) by (apply Hs; left); lia).
  - apply IHs. intros s Hs' ?. apply Hs; [done|by right].
Qed.

(** ** Changing one plan *)

(** The plan of [k] is now [X], and no other plan has changed. *)
Record touches (k : string) (X : ExecutionPlan) (m m' : GraphMapper) : Prop := {
  touches_meta : meta_ok m';
  touches_plan : plan_of m' k = X;
  touches_some : is_Some (Codes m' !! k);
  touches_other k' : k' ≠ k → Codes m' !! k' = Codes m !! k';
}.

Lemma plan_of_Some m k plan : Codes m !! k = Some plan → plan_of m k = erase plan.
Proof. unfold plan_of. by intros ->. Qed.

Lemma set_code_touches k plan m :
  meta_ok m → k ∈ parties → WorkerNumber plan = 1 →
  length (plan_Pipelines plan) = length ps →
  touches k (erase plan) m (set_Codes <[k:=plan]> m).
Proof.
  intros [Hg Hps Hdom Hplan] Hk Hw Hl. split; simpl.
  - split; simpl; [done|done| |].
    + intros k' [->|[_ ?]]%lookup_insert_is_Some; auto.
    + intros k' plan' [[<- <-]|[_ ?]]%lookup_insert_Some; eauto.
  - apply plan_of_Some. simpl. apply lookup_insert_eq.
  - rewrite lookup_insert_eq. eauto.
  - intros k' Hne. by rewrite lookup_insert_ne.
Qed.

Lemma upd_code_touches k f m plan plan' :
  meta_ok m → Codes m !! k = Some plan → f plan = Ok plan' →
  WorkerNumber plan' = WorkerNumber plan →
  length (plan_Pipelines plan') = length (plan_Pipelines plan) →
  ∃ m', upd_code k f m = (m', Ok tt) ∧ touches k (erase plan') m m'.
Proof.
  intros Hm Hk Hf Hw Hl. unfold upd_code. rewrite Hk, Hf. eexists. split; [done|].
  destruct (meta_plan _ Hm _ _ Hk) as [Hw1 Hl1].
  apply set_code_touches; [done| |congruence..]. apply (meta_dom _ Hm). eauto.
Qed.

Lemma touches_trans k X Y m1 m2 m3 :
  touches k X m1 m2 → touches k Y m2 m3 → touches k Y m1 m3.
Proof.
  intros [_ _ _ H1] [Hm Hp Hs H2]. split; [done..|]. intros k' Hk'. by rewrite H2, H1.
Qed.

Lemma touches_refl k m : meta_ok m → is_Some (Codes m !! k) → touches k (plan_of m k) m m.
Proof. intros. by split. Qed.

Lemma ensure_touches k m :
  meta_ok m → k ∈ parties →
  ∃ m', ensure_code k m = (m', Ok tt) ∧ touches k (plan_of m k) m m'.
Proof.
  intros Hm Hk. unfold ensure_code, modify. eexists. split; [done|].
  destruct (Codes m !! k) as [plan|] eqn:Hc.
  - apply touches_refl; eauto.
  - rewrite worker_number_1, (meta_pipelines _ Hm) by done.
    assert (plan_of m k = erase new_plan) as ->.
    { unfold plan_of. rewrite Hc. unfold new_plan, NewExecutionPlan, erase. simpl.
      by rewrite fmap_replicate. }
    apply set_code_touches; [done..|]. simpl. apply length_replicate.
Qed.

(** ** Changing a pipeline of a plan *)
Definition alter_pj (i : nat) (F : PipelineJobs → PipelineJobs) (X : ExecutionPlan)
    : ExecutionPlan :=
  mkExecutionPlan (plan_Nodes X) (WorkerNumber X) (alter F i (plan_Pipelines X)).

Lemma upd_pipeline_erase i f F plan :
  i < length (plan_Pipelines plan) →
  (∀ pj, plan_Pipelines plan !! i = Some pj → ∃ pj', f pj = Ok pj' ∧ erase_pj pj' = F (erase_pj pj)) →
  ∃ plan', upd_pipeline i f plan = Ok plan' ∧ erase plan' = alter_pj i F (erase plan) ∧
    WorkerNumber plan' = WorkerNumber plan ∧
    length (plan_Pipelines plan') = length (plan_Pipelines plan).
Proof.
  intros Hi Hf. unfold upd_pipeline. destruct (lookup_lt_is_Some_2 _ _ Hi) as [pj Hpj].
  destruct (Hf pj Hpj) as (pj' & Hf' & He). rewrite Hpj. simpl. rewrite Hf'. simpl.
  eexists. split; [done|]. split; [|split; [done|apply length_insert]].
  unfold erase, alter_pj. simpl. f_equal. apply list_eq. intros k.
  rewrite !list_lookup_fmap. destruct (decide (k = i)) as [->|Hne].
  - rewrite list_lookup_insert_eq by done.
    by rewrite list_lookup_alter_eq, list_lookup_fmap, Hpj; simpl; rewrite He.
  - by rewrite list_lookup_insert_ne, list_lookup_alter_ne, list_lookup_fmap by done.
Qed.

Lemma upd_pipeline_touches k i f F m :
  meta_ok m → is_Some (Codes m !! k) → i < length ps →
  (∀ plan pj, Codes m !! k = Some plan → plan_Pipelines plan !! i = Some pj →
    ∃ pj', f pj = Ok pj' ∧ erase_pj pj' = F (erase_pj pj)) →
  ∃ m', upd_code k (upd_pipeline i f) m = (m', Ok tt) ∧
    touches k (alter_pj i F (plan_of m k)) m m'.
Proof.
  intros Hm [plan Hk] Hi Hf. destruct (meta_plan _ Hm _ _ Hk) as [Hw Hl].
  destruct (upd_pipeline_erase i f F plan) as (plan' & Hrun & He & Hw' & Hl');
    [lia|eauto|]. rewrite (plan_of_Some _ _ _ Hk), <- He.
  by apply (upd_code_touches _ _ _ plan).
Qed.

(** ** Loops in which every turn changes one plan *)
Lemma forM_touches {B} (key : B → string) (f : B → M GraphMapper ())
    (F : B → ExecutionPlan → ExecutionPlan) l m :
  meta_ok m → NoDup (key <$> l) →
  (∀ b m1, b ∈ l → meta_ok m1 → Codes m1 !! key b = Codes m !! key b →
    ∃ m2, f b m1 = (m2, Ok tt) ∧ touches (key b) (F b (plan_of m (key b))) m1 m2) →
  ∃ m', forM f l m = (m', Ok tt) ∧ meta_ok m' ∧
    (∀ b, b ∈ l → plan_of m' (key b) = F b (plan_of m (key b)) ∧ is_Some (Codes m' !! key b)) ∧
    (∀ k, k ∉ key <$> l → Codes m' !! k = Codes m !! k).
Proof.
  revert m. induction l as [|b l IH]; intros m Hm Hnd Hf; simpl.
  { exists m. split; [done|]. split; [done|]. split; [set_solver|done]. }
  rewrite fmap_cons, NoDup_cons in Hnd. destruct Hnd as [Hb Hnd].
  destruct (Hf b m) as (m1 & Hrun1 & Ht1); [left|done..|].
  rewrite (M_bind_run _ _ _ _ _ Hrun1). destruct Ht1 as [Hm1 Hp1 Hs1 Ho1].
  destruct (IH m1) as (m' & Hrun & Hm' & Hin & Hout); [done..| |].
  { intros b' m2 Hb' Hm2 Hc2. assert (key b' ≠ key b) as Hne.
    { intros Heq. apply Hb. rewrite <- Heq. by apply list_elem_of_fmap_2. }
    unfold plan_of. rewrite (Ho1 _ Hne). apply Hf; [by right|done|].
    by rewrite Hc2, (Ho1 _ Hne). }
  exists m'. split; [done|]. split; [done|]. split.
  - intros b' [->|Hb']%elem_of_cons.
    + unfold plan_of. rewrite (Hout _ Hb). done.
    + destruct (Hin b' Hb') as [Hp Hs]. split; [|done]. rewrite Hp.
      assert (key b' ≠ key b) as Hne.
      { intros Heq. apply Hb. rewrite <- Heq. by apply list_elem_of_fmap_2. }
      unfold plan_of. by rewrite (Ho1 _ Hne).
  - intros k Hk. apply not_elem_of_cons in Hk as [Hk1 Hk2].
    by rewrite (Hout _ Hk2), (Ho1 _ Hk1).
Qed.

(** ** Dealing out a node *)
Lemma foldl_insert_lookup {A} (f : string → A) (l : list string) (m : gmap string A) k :
  foldl (λ m p, <[p:=f p]> m) m l !! k = if bool_decide (k ∈ l) then Some (f k) else m !! k.
Proof.
  revert m. induction l as [|p l IH]; intros m; simpl; [done|]. rewrite IH, lookup_insert.
  destruct (decide (p = k)) as [->|]; repeat case_bool_decide; set_solver.
Qed.

Lemma split_lookup n k :
  splitExecutionNode n !! k = if bool_decide (k ∈ Parties n) then Some (party_node n) else None.
Proof. apply (foldl_insert_lookup (λ _, party_node n)). Qed.

Lemma empty_jobs_lookup l k :
  empty_jobs l !! k = if bool_decide (k ∈ l) then Some (mkParallelJobs ∅ false false) else None.
Proof. apply (foldl_insert_lookup (λ _, mkParallelJobs ∅ false false)). Qed.

Definition add_node (n : ExecutionNode) (X : ExecutionPlan) : ExecutionPlan :=
  mkExecutionPlan (<[node_ID n:=party_node n]> (plan_Nodes X)) (WorkerNumber X) (plan_Pipelines X).

Lemma code_of_run k m plan : Codes m !! k = Some plan → code_of k m = (m, Ok plan).
Proof. intros Hk. unfold code_of, get, lift, mbind, M_bind. by rewrite Hk. Qed.

Definition one_job (id : nat) : ParallelJobs := mkParallelJobs {[0 := [id]]} false false.

Lemma deal_party_run n k jobs m :
  meta_ok m → k ∈ parties → jobs !! k = Some (mkParallelJobs ∅ false false) →
  ∃ m', deal_party 0 jobs (k, party_node n) m = (m', Ok (<[k:=one_job (node_ID n)]> jobs)) ∧
    touches k (add_node n (plan_of m k)) m m'.
Proof.
  intros Hm Hk Hj. unfold deal_party.
  destruct (ensure_touches k m Hm Hk) as (m1 & Hrun1 & Ht1).
  rewrite (M_bind_run _ _ _ _ _ Hrun1).
  destruct (touches_some _ _ _ _ Ht1) as [plan Hplan].
  destruct (upd_code_touches k (λ plan, Ok (mkExecutionPlan
      (<[node_ID (party_node n):=party_node n]> (plan_Nodes plan)) (WorkerNumber plan)
      (plan_Pipelines plan))) m1 plan _ (touches_meta _ _ _ _ Ht1) Hplan eq_refl eq_refl eq_refl)
    as (m2 & Hrun2 & Ht2).
  rewrite (M_bind_run _ _ _ _ _ Hrun2).
  destruct (touches_some _ _ _ _ Ht2) as [plan2 Hplan2].
  rewrite (M_bind_run _ _ _ _ _ (code_of_run _ _ _ Hplan2)), Hj.
  destruct (meta_plan _ (touches_meta _ _ _ _ Ht2) _ _ Hplan2) as [-> _].
  exists m2. split; [done|].
  assert (add_node n (plan_of m k) = erase (mkExecutionPlan
    (<[node_ID n:=party_node n]> (plan_Nodes plan)) (WorkerNumber plan) (plan_Pipelines plan)))
    as ->; [|by eapply touches_trans].
  rewrite <- (touches_plan _ _ _ _ Ht1), (plan_of_Some _ _ _ Hplan). done.
Qed.

Lemma deal_parties_run n l jobs m :
  meta_ok m → NoDup l → (∀ k, k ∈ l → k ∈ parties) →
  (∀ k, k ∈ l → jobs !! k = Some (mkParallelJobs ∅ false false)) →
  ∃ m' jobs', foldlM (deal_party 0) jobs ((λ k, (k, party_node n)) <$> l) m = (m', Ok jobs') ∧
    meta_ok m' ∧
    (∀ k, plan_of m' k = if bool_decide (k ∈ l) then add_node n (plan_of m k) else plan_of m k) ∧
    (∀ k, jobs' !! k = if bool_decide (k ∈ l) then Some (one_job (node_ID n)) else jobs !! k).
Proof.
  revert jobs m. induction l as [|k l IH]; intros jobs m Hm Hnd Hl Hj; simpl.
  { exists m, jobs. done. }
  apply NoDup_cons in Hnd as [Hk Hnd].
  destruct (deal_party_run n k jobs m Hm) as (m1 & Hrun1 & [Hm1 Hp1 _ Ho1]);
    [apply Hl; left|apply Hj; left|]. rewrite (M_bind_run _ _ _ _ _ Hrun1).
  destruct (IH (<[k:=one_job (node_ID n)]> jobs) m1) as (m' & jobs' & Hrun & Hm' & Hp & Hjobs);
    [done|done|set_solver| |].
  { intros k' Hk'. rewrite lookup_insert_ne by set_solver. apply Hj. set_solver. }
  exists m', jobs'. split; [done|]. split; [done|]. split; intros k'.
  - rewrite Hp. destruct (decide (k' = k)) as [->|Hne].
    + rewrite bool_decide_eq_false_2, bool_decide_eq_true_2 by set_solver. done.
    + unfold plan_of. rewrite (Ho1 _ Hne).
      by rewrite (bool_decide_ext (k' ∈ k :: l) (k' ∈ l)) by set_solver.
  - rewrite Hjobs. destruct (decide (k' = k)) as [->|Hne].
    + by rewrite bool_decide_eq_false_2, bool_decide_eq_true_2, lookup_insert_eq by set_solver.
    + by rewrite lookup_insert_ne, (bool_decide_ext (k' ∈ k :: l) (k' ∈ l)) by set_solver.
Qed.

Lemma pairs_const {A} (v : A) (l : list (string * A)) :
  (∀ k x, (k, x) ∈ l → x = v) → l = (λ k, (k, v)) <$> l.*1.
Proof.
  induction l as [|[k x] l IH]; intros Hl; [done|]. simpl.
  rewrite (Hl k x) by left. f_equal. apply IH. intros k' x' ?. apply (Hl k'). by right.
Qed.

Lemma deal_node_run n m :
  meta_ok m → Parties n ⊆ parties →
  ∃ m' jobs, deal_node (empty_jobs parties) (0, n) m = (m', Ok jobs) ∧ meta_ok m' ∧
    (∀ k, plan_of m' k =
      if bool_decide (k ∈ Parties n) then add_node n (plan_of m k) else plan_of m k) ∧
    (∀ k, jobs !! k = if bool_decide (k ∈ parties) then
       Some (if bool_decide (k ∈ Parties n) then one_job (node_ID n)
             else mkParallelJobs ∅ false false) else None).
Proof.
  intros Hm Hsub. unfold deal_node.
  set (l := (go_range (splitExecutionNode n)).*1).
  assert (∀ k, k ∈ l ↔ k ∈ Parties n) as Hl.
  { intros k. unfold l. rewrite elem_of_keys_go_range, split_lookup. case_bool_decide.
    - split; eauto.
    - split; [by intros []|done]. }
  assert (go_range (splitExecutionNode n) = (λ k, (k, party_node n)) <$> l) as ->.
  { apply pairs_const. intros k v Hin%elem_of_go_range. rewrite split_lookup in Hin.
    case_bool_decide; by simplify_eq. }
  destruct (deal_parties_run n l (empty_jobs parties) m) as (m' & jobs & Hrun & Hm' & Hp & Hj);
    [done|apply NoDup_fst_go_range|set_solver| |].
  { intros k Hk%Hl%Hsub. rewrite empty_jobs_lookup. by rewrite bool_decide_eq_true_2. }
  exists m', jobs. split; [done|]. split; [done|]. split; intros k.
  - by rewrite Hp, (bool_decide_ext _ _ (Hl k)).
  - rewrite Hj, (bool_decide_ext _ _ (Hl k)), empty_jobs_lookup.
    repeat case_bool_decide; set_solver.
Qed.

(** ** Appending the jobs and setting the flags *)
Definition push (v : ParallelJobs) (pj : PipelineJobs) : PipelineJobs :=
  mkPipelineJobs (pj_Batched pj) (pj_InputTensors pj) (pj_OutputTensors pj) (pj_Jobs pj ++ [v]).
Definition batch (b : bool) (pj : PipelineJobs) : PipelineJobs :=
  mkPipelineJobs b (pj_InputTensors pj) (pj_OutputTensors pj) (pj_Jobs pj).
Definition barrier (j : nat) (pj : PipelineJobs) : PipelineJobs :=
  mkPipelineJobs (pj_Batched pj) (pj_InputTensors pj) (pj_OutputTensors pj)
    (alter (λ job, mkParallelJobs (Jobs job) true (NeedSyncSymbolBeforeJobs job)) j (pj_Jobs pj)).

Lemma append_jobs_run i (jobs : gmap string ParallelJobs) m :
  meta_ok m → i < length ps → (∀ k, is_Some (jobs !! k) ↔ k ∈ parties) →
  ∃ m', forM (λ '(k, v), ensure_code k;; upd_code k (append_job i v)) (go_range jobs) m = (m', Ok tt) ∧
    meta_ok m' ∧
    ∀ k v, jobs !! k = Some v →
      plan_of m' k = alter_pj i (push (erase_job v)) (plan_of m k) ∧ is_Some (Codes m' !! k).
Proof.
  intros Hm Hi Hjobs.
  destruct (forM_touches fst (λ '(k, v), ensure_code k;; upd_code k (append_job i v))
    (λ kv, alter_pj i (push (erase_job kv.2))) (go_range jobs) m) as (m' & Hrun & Hm' & Hin & _);
    [done|apply NoDup_fst_go_range| |].
  - intros [k v] m1 Hin%elem_of_go_range Hm1 Hc. simpl in *.
    destruct (ensure_touches k m1 Hm1) as (m2 & Hrun2 & Ht2); [apply Hjobs; eauto|].
    rewrite (M_bind_run _ _ _ _ _ Hrun2).
    destruct (upd_pipeline_touches k i (λ pj, Ok (push v pj)) (push (erase_job v)) m2)
      as (m3 & Hrun3 & Ht3); [apply Ht2..|done| |].
    { intros plan pj _ _. eexists. split; [done|]. unfold erase_pj, push. simpl.
      by rewrite fmap_app. }
    exists m3. split; [done|]. rewrite (touches_plan _ _ _ _ Ht2) in Ht3.
    unfold plan_of in Ht3 at 1. rewrite Hc in Ht3. by eapply touches_trans.
  - exists m'. split; [done|]. split; [done|]. intros k v Hk.
    apply (Hin (k, v)). by apply elem_of_go_range.
Qed.

(** A loop over all parties that changes each plan in the same way. *)
Lemma for_codes_run i f F m :
  meta_ok m → i < length ps →
  (∀ k plan pj, Codes m !! k = Some plan → plan_Pipelines plan !! i = Some pj →
    ∃ pj', f pj = Ok pj' ∧ erase_pj pj' = F (erase_pj pj)) →
  ∃ m', for_codes (λ k, upd_code k (upd_pipeline i f)) m = (m', Ok tt) ∧ meta_ok m' ∧
    ∀ k, is_Some (Codes m !! k) →
      plan_of m' k = alter_pj i F (plan_of m k) ∧ is_Some (Codes m' !! k).
Proof.
  intros Hm Hi Hf. unfold for_codes. rewrite (M_bind_run _ _ m m m eq_refl).
  destruct (forM_touches id (λ k, upd_code k (upd_pipeline i f)) (λ _, alter_pj i F)
    (go_range (Codes m)).*1 m) as (m' & Hrun & Hm' & Hin & _).
  - done.
  - rewrite list_fmap_id. apply NoDup_fst_go_range.
  - intros k m1 Hk%elem_of_keys_go_range Hm1 Hc. simpl in *.
    destruct (upd_pipeline_touches k i f F m1) as (m2 & Hrun2 & Ht2);
      [done|by rewrite Hc|done| |].
    { intros plan pj Hplan. rewrite Hc in Hplan. by apply Hf with k. }
    exists m2. split; [done|]. unfold plan_of in Ht2 at 1. by rewrite Hc in Ht2.
  - exists m'. split; [done|]. split; [done|]. intros k Hk.
    apply (Hin k). by apply elem_of_keys_go_range.
Qed.

(** ** Reading the jobs back *)

(** In sub-graph [j] of pipeline [i] the plan [X] of party [k] runs its part of [n]. *)
Definition runs (i j : nat) (n : ExecutionNode) (k : string) (b : bool) (X : ExecutionPlan) : Prop :=
  (∃ pj, plan_Pipelines X !! i = Some pj ∧
    pj_Jobs pj !! j = Some (mkParallelJobs
      (if bool_decide (k ∈ Parties n) then {[0 := [node_ID n]]} else ∅) b false)) ∧
  (k ∈ Parties n → plan_Nodes X !! node_ID n = Some (party_node n)).

Lemma runs_job i j n k b plan :
  runs i j n k b (erase plan) →
  ∃ job, job_at plan i j = Ok job ∧
    Jobs job = (if bool_decide (k ∈ Parties n) then {[0 := [node_ID n]]} else ∅).
Proof.
  intros [(pj & Hpj & Hjob) _]. simpl in Hpj. rewrite list_lookup_fmap in Hpj.
  destruct (plan_Pipelines plan !! i) as [pj0|] eqn:Hpj0; [|done]. injection Hpj as <-.
  simpl in Hjob. rewrite list_lookup_fmap in Hjob.
  destruct (pj_Jobs pj0 !! j) as [job|] eqn:Hj; [|done]. injection Hjob as Hjob _.
  exists job. unfold job_at. rewrite Hpj0. simpl. by rewrite Hj.
Qed.

Definition all_run (i j : nat) (n : ExecutionNode) (b : bool) (m : GraphMapper) : Prop :=
  ∀ k, k ∈ parties → is_Some (Codes m !! k) ∧ runs i j n k b (plan_of m k).

Lemma all_run_code i j n b m k plan :
  meta_ok m → all_run i j n b m → Codes m !! k = Some plan → runs i j n k b (erase plan).
Proof.
  intros Hm Hall Hk. rewrite <- (plan_of_Some _ _ _ Hk). apply Hall, (meta_dom _ Hm). eauto.
Qed.

Lemma count_parties i j n b m (l : list (string * ExecutionPlan)) acc :
  meta_ok m → all_run i j n b m → (∀ k v, (k, v) ∈ l → Codes m !! k = Some v) →
  foldlM (λ partyCodes '(k, v),
      job ← lift (job_at v i j);
      mret (if bool_decide (Jobs job = ∅) then partyCodes else partyCodes ++ [k])) acc l m
  = (m, Ok (acc ++ Filter l.*1 (λ k, bool_decide (k ∈ Parties n)))).
Proof.
  intros Hm Hall. revert acc. induction l as [|[k v] l IH]; intros acc Hl; simpl.
  { by rewrite app_nil_r. }
  destruct (runs_job i j n k b v) as (job & Hjob & Hj).
  { eapply all_run_code; [done..|]. apply Hl. left. }
  assert (lift (job_at v i j) m = (m, Ok job)) as Hrun by (unfold lift; by rewrite Hjob).
  rewrite (M_bind_run (A := list string) _ _ m m
    (if bool_decide (k ∈ Parties n) then acc ++ [k] else acc)).
  - rewrite IH by (intros; apply Hl; by right). f_equal. f_equal.
    case_bool_decide; [by rewrite <- app_assoc|done].
  - rewrite (M_bind_run _ _ _ _ _ Hrun). unfold mret, M_ret. f_equal. f_equal.
    rewrite Hj. destruct (bool_decide (k ∈ Parties n)); [|done].
    rewrite bool_decide_eq_false_2; [done|]. apply insert_non_empty.
Qed.

Lemma length_filter_parties m n :
  meta_ok m → Parties n ⊆ parties → (∀ k, k ∈ parties → is_Some (Codes m !! k)) →
  length (Filter (go_range (Codes m)).*1 (λ k, bool_decide (k ∈ Parties n))) =
  size (list_to_set (Parties n) : gset string).
Proof.
  intros Hm Hsub Hall.
  set (l := Filter _ _). assert (NoDup l) as Hnd.
  { unfold l. rewrite Filter_filter. apply NoDup_filter, NoDup_fst_go_range. }
  rewrite <- (size_list_to_set (C := gset string)) by done. f_equal.
  apply set_eq. intros k. rewrite !elem_of_list_to_set. unfold l.
  rewrite elem_of_Filter, elem_of_keys_go_range, bool_decide_spec. set_solver.
Qed.

Lemma runs_pipeline i j n k b plan pj :
  runs i j n k b (erase plan) → plan_Pipelines plan !! i = Some pj → is_Some (pj_Jobs pj !! j).
Proof.
  intros [(pj' & Hpj' & Hjob) _] Hpj. simpl in Hpj'. rewrite list_lookup_fmap, Hpj in Hpj'.
  injection Hpj' as <-. simpl in Hjob. rewrite list_lookup_fmap in Hjob.
  destruct (pj_Jobs pj !! j); [eauto|done].
Qed.

Lemma barrier_run i j n m :
  meta_ok m → i < length ps → Parties n ⊆ parties → all_run i j n false m →
  ∃ m', inferenceNeedCallBarrier i j m = (m', Ok tt) ∧ meta_ok m' ∧
    ∀ k, k ∈ parties → is_Some (Codes m' !! k) ∧
      plan_of m' k = if bool_decide (1 < size (list_to_set (Parties n) : gset string))
                     then alter_pj i (barrier j) (plan_of m k) else plan_of m k.
Proof.
  intros Hm Hi Hsub Hall. unfold inferenceNeedCallBarrier.
  rewrite (M_bind_run _ _ m m m eq_refl).
  rewrite (M_bind_run _ _ _ _ _ (count_parties i j n false m (go_range (Codes m)) [] Hm Hall
    (λ k v, proj1 (elem_of_go_range _ k v)))).
  rewrite app_nil_l, length_filter_parties by (done || apply Hall).
  destruct (bool_decide (1 < size (list_to_set (Parties n) : gset string))).
  - destruct (for_codes_run i (λ pj,
        job ← res_of_option Panic (pj_Jobs pj !! j);
        Ok (mkPipelineJobs (pj_Batched pj) (pj_InputTensors pj) (pj_OutputTensors pj)
          (<[j:=mkParallelJobs (Jobs job) true (NeedSyncSymbolBeforeJobs job)]> (pj_Jobs pj))))
      (barrier j) m) as (m' & Hrun & Hm' & Hin); [done|done| |].
    + intros k plan pj Hk Hpj.
      destruct (runs_pipeline i j n k false plan pj) as [job Hjob];
        [by eapply all_run_code|done|]. rewrite Hjob. simpl. eexists. split; [done|].
      unfold erase_pj, barrier. simpl. f_equal. rewrite list_fmap_insert.
      apply list_eq. intros x. destruct (decide (x = j)) as [->|Hne].
      * rewrite list_lookup_insert_eq by (rewrite length_fmap; by eapply lookup_lt_Some).
        by rewrite list_lookup_alter_eq, list_lookup_fmap, Hjob.
      * by rewrite list_lookup_insert_ne, list_lookup_alter_ne by done.
    + exists m'. split; [done|]. split; [done|]. intros k Hk.
      destruct (Hin k) as [??]; [by apply Hall|done].
  - exists m. split; [done|]. split; [done|]. intros k Hk. split; [by apply Hall|done].
Qed.

(** ** Synchronizing symbols changes no plan *)
Record same_plans (m m' : GraphMapper) : Prop := {
  same_meta : meta_ok m';
  same_plan k : plan_of m' k = plan_of m k;
  same_some k : is_Some (Codes m !! k) → is_Some (Codes m' !! k);
}.

Lemma same_plans_refl m : meta_ok m → same_plans m m.
Proof. by split. Qed.
Lemma same_plans_trans m1 m2 m3 : same_plans m1 m2 → same_plans m2 m3 → same_plans m1 m3.
Proof.
  intros [_ Hp1 Hs1] [Hm Hp2 Hs2]. split; [done| |auto]. intros k. by rewrite Hp2.
Qed.
Lemma same_plans_all_run i j n b m m' :
  all_run i j n b m → same_plans m m' → all_run i j n b m'.
Proof.
  intros Hall [_ Hp Hs] k Hk. destruct (Hall k Hk) as [??]. rewrite Hp. auto.
Qed.

Lemma set_synced_same f m : meta_ok m → same_plans m (set_synced f m).
Proof. intros [???]. split; [by split|done..]. Qed.

Lemma touches_same k m m' : touches k (plan_of m k) m m' → same_plans m m'.
Proof.
  intros [Hm Hp Hs Ho]. split; [done| |].
  - intros k'. destruct (decide (k' = k)) as [->|Hne]; [done|]. unfold plan_of. by rewrite Ho.
  - intros k' Hk'. destruct (decide (k' = k)) as [->|Hne]; [done|]. by rewrite Ho.
Qed.

Lemma forM_same {B} (f : B → M GraphMapper ()) (I : GraphMapper → Prop) l m :
  meta_ok m → I m → (∀ m1 m2, I m1 → same_plans m1 m2 → I m2) →
  (∀ b m1, b ∈ l → meta_ok m1 → I m1 → ∃ m2, f b m1 = (m2, Ok tt) ∧ same_plans m1 m2) →
  ∃ m', forM f l m = (m', Ok tt) ∧ same_plans m m'.
Proof.
  intros Hm HI Hstable. revert m Hm HI. induction l as [|b l IH]; intros m Hm HI Hf; simpl.
  { exists m. split; [done|]. by apply same_plans_refl. }
  destruct (Hf b m) as (m1 & Hrun1 & Hs1); [left|done..|].
  rewrite (M_bind_run _ _ _ _ _ Hrun1).
  destruct (IH m1) as (m' & Hrun & Hs); [apply Hs1|by eapply Hstable| |].
  { intros b' m2 ?. apply Hf. by right. }
  exists m'. split; [done|]. by eapply same_plans_trans.
Qed.

Definition tensors_known (n : ExecutionNode) : Prop :=
  ∀ t, t ∈ arg_tensors (Inputs n) ++ arg_tensors (Outputs n) → is_Some (graph_Tensors g !! t).

Lemma tensors_of_Ok args :
  (∀ t, t ∈ arg_tensors args → is_Some (graph_Tensors g !! t)) →
  ∃ ts, tensors_of g args = Ok ts.
Proof.
  unfold tensors_of. induction (arg_tensors args) as [|t l IH]; intros Hl; [by eexists|].
  destruct (Hl t) as [x Hx]; [left|]. destruct IH as [ts Hts]; [set_solver|].
  exists (x :: ts). simpl. rewrite Hx. simpl. by rewrite Hts.
Qed.

Lemma job_nodes_same i j n b f m k :
  meta_ok m → all_run i j n b m → k ∈ parties →
  (∀ m1, meta_ok m1 → all_run i j n b m1 → k ∈ Parties n →
    ∃ m2, f (party_node n) m1 = (m2, Ok tt) ∧ same_plans m1 m2) →
  ∃ m', for_job_nodes k i j f m = (m', Ok tt) ∧ same_plans m m'.
Proof.
  intros Hm Hall Hk Hf. unfold for_job_nodes. destruct (Hall k Hk) as [[v Hv] Hr].
  rewrite (M_bind_run _ _ _ _ _ (code_of_run _ _ _ Hv)). rewrite (plan_of_Some _ _ _ Hv) in Hr.
  destruct (runs_job _ _ _ _ _ _ Hr) as (job & Hjob & Hj).
  rewrite (M_bind_run _ _ m m job) by (unfold lift; by rewrite Hjob). rewrite Hj.
  case_bool_decide as Hin.
  - assert (go_range {[0 := [node_ID n]]} = [(0, [node_ID n])]) as ->.
    { apply Permutation_singleton_r. rewrite go_range_perm. by rewrite map_to_list_singleton. }
    destruct (Hf m) as (m' & Hrun & Hs); [done..|]. exists m'. split; [|done]. simpl.
    rewrite (M_bind_run _ _ m m' tt); [done|].
    rewrite (M_bind_run _ _ m m (party_node n)); [done|].
    destruct Hr as [_ Hnode]. unfold lift. simpl in Hnode. by rewrite (Hnode Hin).
  - assert (go_range (∅ : gmap nat (list nat)) = []) as ->.
    { apply Permutation_nil_r. rewrite go_range_perm. by rewrite map_to_list_empty. }
    exists m. split; [done|]. by apply same_plans_refl.
Qed.

Lemma for_codes_same i j n b f m :
  meta_ok m → all_run i j n b m →
  (∀ k m1, k ∈ parties → meta_ok m1 → all_run i j n b m1 →
    ∃ m2, f k m1 = (m2, Ok tt) ∧ same_plans m1 m2) →
  ∃ m', for_codes f m = (m', Ok tt) ∧ same_plans m m'.
Proof.
  intros Hm Hall Hf. unfold for_codes. rewrite (M_bind_run _ _ m m m eq_refl).
  apply (forM_same _ (all_run i j n b)); [done|done|apply same_plans_all_run|].
  intros k m1 Hk%elem_of_keys_go_range Hm1 Hall1. apply Hf; [|done..]. by apply (meta_dom _ Hm).
Qed.

Lemma sync_flag_same k i j n b m :
  meta_ok m → i < length ps → all_run i j n b m → k ∈ parties →
  ∃ m', upd_code k (upd_job i j (λ job,
      mkParallelJobs (Jobs job) (NeedCallBarrierAfterJobs job) true)) m = (m', Ok tt) ∧
    same_plans m m'.
Proof.
  intros Hm Hi Hall Hk. destruct (Hall k Hk) as [Hs Hr].
  destruct (upd_pipeline_touches k i (λ pj,
      job ← res_of_option Panic (pj_Jobs pj !! j);
      Ok (mkPipelineJobs (pj_Batched pj) (pj_InputTensors pj) (pj_OutputTensors pj)
        (<[j:=mkParallelJobs (Jobs job) (NeedCallBarrierAfterJobs job) true]> (pj_Jobs pj))))
    id m) as (m' & Hrun & Ht); [done..| |].
  - intros plan pj Hplan Hpj. rewrite (plan_of_Some _ _ _ Hplan) in Hr.
    destruct (runs_pipeline _ _ _ _ _ _ _ Hr Hpj) as [job Hjob]. rewrite Hjob. simpl.
    eexists. split; [done|]. unfold erase_pj. simpl. f_equal. rewrite list_fmap_insert.
    apply list_insert_id. rewrite list_lookup_fmap, Hjob. done.
  - exists m'. split; [done|]. apply touches_same with k.
    assert (alter_pj i id (plan_of m k) = plan_of m k) as <-; [|done].
    unfold alter_pj. rewrite list_alter_id by done. by destruct (plan_of m k).
Qed.

Lemma update_synced_same args m :
  meta_ok m → (∀ t, t ∈ arg_tensors args → is_Some (graph_Tensors g !! t)) →
  ∃ m', UpdateSyncedTensorMap args m = (m', Ok tt) ∧ same_plans m m'.
Proof.
  intros Hm Hargs. unfold UpdateSyncedTensorMap. rewrite (M_bind_run _ _ m m m eq_refl).
  destruct (tensors_of_Ok args Hargs) as [ts Hts].
  rewrite (M_bind_run _ _ m m ts) by (unfold lift; by rewrite (meta_graph _ Hm), Hts).
  apply (forM_same _ (λ _, True)); [done..|]. intros t m1 _ Hm1 _.
  eexists. split; [done|]. by apply set_synced_same.
Qed.

Lemma sync_run i j n b m :
  meta_ok m → i < length ps → tensors_known n → all_run i j n b m →
  ∃ m', inferenceNeedSyncSymbol i j m = (m', Ok tt) ∧ same_plans m m'.
Proof.
  intros Hm Hi Ht Hall. unfold inferenceNeedSyncSymbol.
  match goal with |- context [for_codes ?f ≫= _] =>
    destruct (for_codes_same i j n b f m Hm Hall) as (m1 & Hrun1 & Hs1) end.
  { intros k m1 Hk Hm1 Hall1. apply (job_nodes_same i j n b); [done..|].
    intros m2 Hm2 Hall2 _. destruct (needSyncSymbol (party_node n));
      [|exists m2; split; [done|by apply same_plans_refl]].
    destruct (tensors_of_Ok (Inputs n)) as [ts Hts]; [intros; apply Ht; set_solver|].
    assert (∃ synced, IsInputsSynced (party_node n) m2 = (m2, Ok synced)) as [synced Hsy].
    { unfold IsInputsSynced. rewrite (M_bind_run _ _ m2 m2 m2 eq_refl).
      rewrite (M_bind_run _ _ m2 m2 ts) by (unfold lift; simpl; by rewrite (meta_graph _ Hm2), Hts).
      by eexists. }
    rewrite (M_bind_run _ _ _ _ _ Hsy). destruct synced;
      [exists m2; split; [done|by apply same_plans_refl]|by eapply sync_flag_same]. }
  rewrite (M_bind_run _ _ _ _ _ Hrun1).
  pose proof (same_plans_all_run _ _ _ _ _ _ Hall Hs1) as Hall1.
  pose proof (same_meta _ _ Hs1) as Hm1.
  match goal with |- context [(?mid ≫= _) m1] =>
    assert (∃ m2, mid m1 = (m2, Ok tt) ∧ same_plans m1 m2) as (m2 & Hrun2 & Hs2) end.
  { rewrite (M_bind_run _ _ m1 m1 m1 eq_refl).
    destruct (go_range (Codes m1)) as [|[k v] l] eqn:Hl;
      [exists m1; split; [done|by apply same_plans_refl]|].
    assert (Codes m1 !! k = Some v) as Hv by (apply elem_of_go_range; rewrite Hl; left).
    destruct (runs_job i j n k b v) as (job & Hjob & _); [by eapply all_run_code|].
    rewrite (M_bind_run _ _ m1 m1 job) by (unfold lift; by rewrite Hjob).
    destruct (NeedSyncSymbolBeforeJobs job);
      [eexists; split; [done|by apply set_synced_same]|].
    exists m1. split; [done|by apply same_plans_refl]. }
  rewrite (M_bind_run _ _ _ _ _ Hrun2).
  match goal with |- context [for_codes ?f m2] =>
    destruct (for_codes_same i j n b f m2) as (m3 & Hrun3 & Hs3) end.
  { apply Hs2. }
  { by eapply same_plans_all_run. }
  { intros k m3 Hk Hm3 Hall3. apply (job_nodes_same i j n b); [done..|].
    intros m4 Hm4 Hall4 _. apply update_synced_same; [done|]. intros t Hin. apply Ht. set_solver. }
  exists m3. split; [done|]. eapply same_plans_trans; [done|]. by eapply same_plans_trans.
Qed.

(** ** A sub-graph *)
Lemma sorted_nodes_single id n : sorted_nodes (mkSubDAG {[id := n]}) = [n].
Proof.
  unfold sorted_nodes. cbn [sub_Nodes].
  assert (go_range {[id := n]} = [(id, n)]) as ->.
  { apply Permutation_singleton_r. rewrite go_range_perm. by rewrite map_to_list_singleton. }
  assert (by_id [(id, n)] = [n]) as Hby.
  { unfold by_id. simpl. by rewrite lookup_insert_eq. }
  simpl. destruct (bool_decide (length (Parties n) = 1)); simpl; by rewrite Hby.
Qed.

(** What a sub-graph adds to the plan of a party. *)
Definition plan_step (i : nat) (batched : bool) (n : ExecutionNode) (k : string) (b : bool)
    (X : ExecutionPlan) : ExecutionPlan :=
  mkExecutionPlan
    (if bool_decide (k ∈ Parties n) then <[node_ID n:=party_node n]> (plan_Nodes X)
     else plan_Nodes X)
    (WorkerNumber X)
    (alter (λ pj, mkPipelineJobs batched (pj_InputTensors pj) (pj_OutputTensors pj)
       (pj_Jobs pj ++ [mkParallelJobs
          (if bool_decide (k ∈ Parties n) then {[0 := [node_ID n]]} else ∅) b false]))
      i (plan_Pipelines X)).

Definition meets (n : ExecutionNode) : bool :=
  bool_decide (1 < size (list_to_set (Parties n) : gset string)).

(** Pipeline [i] of the plan has [j] sub-graphs. *)
Definition has_jobs (i j : nat) (X : ExecutionPlan) : Prop :=
  ∃ pj, plan_Pipelines X !! i = Some pj ∧ length (pj_Jobs pj) = j.

Lemma plan_step_parts i batched n k X :
  alter_pj i (batch batched) (alter_pj i (push (erase_job
    (if bool_decide (k ∈ Parties n) then one_job (node_ID n) else mkParallelJobs ∅ false false)))
    (if bool_decide (k ∈ Parties n) then add_node n X else X)) = plan_step i batched n k false X.
Proof.
  unfold plan_step, alter_pj. simpl.
  destruct (bool_decide (k ∈ Parties n)); simpl; f_equal; by rewrite list_alter_alter_eq.
Qed.

Lemma plan_step_barrier i j batched n k X :
  has_jobs i j X →
  alter_pj i (barrier j) (plan_step i batched n k false X) = plan_step i batched n k true X.
Proof.
  intros (pj & Hpj & Hj). unfold alter_pj, plan_step. simpl. f_equal.
  rewrite list_alter_alter_eq. apply list_alter_ext; [|done].
  intros pj' Hpj'. rewrite Hpj in Hpj'. injection Hpj' as <-. unfold barrier. simpl. f_equal.
  by rewrite alter_app_r_alt, Hj, Nat.sub_diag by lia.
Qed.

Lemma plan_step_runs i j batched n k b X :
  has_jobs i j X → runs i j n k b (plan_step i batched n k b X).
Proof.
  intros (pj & Hpj & Hj). split.
  - eexists. unfold plan_step. simpl. rewrite list_lookup_alter_eq, Hpj. split; [done|]. simpl.
    by rewrite lookup_app_r, Hj, Nat.sub_diag by lia.
  - intros Hk. unfold plan_step. simpl. by rewrite bool_decide_eq_true_2, lookup_insert_eq.
Qed.

Lemma plan_step_has_jobs i j batched n k b X :
  has_jobs i j X → has_jobs i (S j) (plan_step i batched n k b X).
Proof.
  intros (pj & Hpj & Hj). eexists. unfold plan_step. simpl.
  rewrite list_lookup_alter_eq, Hpj. split; [done|]. simpl. rewrite length_app. simpl. lia.
Qed.

Lemma map_subdag_run i j batched id n m :
  meta_ok m → i < length ps → Parties n ⊆ parties → tensors_known n →
  (∀ k, k ∈ parties → has_jobs i j (plan_of m k)) →
  ∃ m', map_subdag i batched (j, mkSubDAG {[id := n]}) m = (m', Ok tt) ∧ meta_ok m' ∧
    ∀ k, k ∈ parties → is_Some (Codes m' !! k) ∧
      plan_of m' k = plan_step i batched n k (meets n) (plan_of m k).
Proof.
  intros Hm Hi Hsub Ht Hj. unfold map_subdag. rewrite (M_bind_run _ _ m m m eq_refl).
  rewrite sorted_nodes_single, (meta_graph _ Hm). fold parties.
  destruct (deal_node_run n m Hm Hsub) as (m1 & jobs & Hrun1 & Hm1 & Hp1 & Hjobs).
  rewrite (M_bind_run _ _ m m1 jobs) by (simpl; by rewrite (M_bind_run _ _ _ _ _ Hrun1)).
  destruct (append_jobs_run i jobs m1 Hm1 Hi) as (m2 & Hrun2 & Hm2 & Hp2).
  { intros k. rewrite Hjobs. case_bool_decide; [by split; eauto|]. split; [by intros []|done]. }
  rewrite (M_bind_run _ _ _ _ _ Hrun2).
  destruct (for_codes_run i (λ pj, Ok (batch batched pj)) (batch batched) m2)
    as (m3 & Hrun3 & Hm3 & Hp3); [done|done|by eexists|].
  rewrite (M_bind_run _ _ _ _ _ Hrun3).
  assert (∀ k, k ∈ parties → is_Some (Codes m3 !! k) ∧
    plan_of m3 k = plan_step i batched n k false (plan_of m k)) as Hstep.
  { intros k Hk. specialize (Hjobs k). rewrite bool_decide_eq_true_2 in Hjobs by done.
    destruct (Hp2 _ _ Hjobs) as [Hp2' Hs2]. destruct (Hp3 k Hs2) as [Hp3' Hs3]. split; [done|].
    rewrite Hp3', Hp2', Hp1. apply plan_step_parts. }
  assert (all_run i j n false m3) as Hall3.
  { intros k Hk. destruct (Hstep k Hk) as [? ->]. split; [done|]. by apply plan_step_runs, Hj. }
  destruct (barrier_run i j n m3) as (m4 & Hrun4 & Hm4 & Hp4); [done..|].
  rewrite (M_bind_run _ _ _ _ _ Hrun4).
  assert (∀ k, k ∈ parties → is_Some (Codes m4 !! k) ∧
    plan_of m4 k = plan_step i batched n k (meets n) (plan_of m k)) as Hstep4.
  { intros k Hk. destruct (Hp4 k Hk) as [? ->], (Hstep k Hk) as [_ ->]. split; [done|].
    unfold meets. case_bool_decide; [|done]. by apply plan_step_barrier, Hj. }
  assert (all_run i j n (meets n) m4) as Hall4.
  { intros k Hk. destruct (Hstep4 k Hk) as [? ->]. split; [done|]. by apply plan_step_runs, Hj. }
  destruct (sync_run i j n (meets n) m4) as (m5 & Hrun5 & [Hm5 Hp5 Hs5]); [done..|].
  exists m5. split; [done|]. split; [done|]. intros k Hk. rewrite Hp5.
  destruct (Hstep4 k Hk). auto.
Qed.

(** ** A pipeline *)
Definition plan_steps (i : nat) (batched : bool) (k : string) (X : ExecutionPlan)
    (ns : list ExecutionNode) : ExecutionPlan :=
  foldl (λ X n, plan_step i batched n k (meets n) X) X ns.

Definition node_ok (n : ExecutionNode) : Prop := Parties n ⊆ parties ∧ tensors_known n.

Lemma subdags_run i batched ns j m :
  meta_ok m → i < length ps → Forall node_ok ns →
  (∀ k, k ∈ parties → has_jobs i j (plan_of m k)) →
  ∃ m', forM (map_subdag i batched)
      (imap (λ x sub, (j + x, sub)) ((λ n, mkSubDAG {[node_ID n := n]}) <$> ns)) m = (m', Ok tt) ∧
    meta_ok m' ∧
    ∀ k, k ∈ parties → (ns ≠ [] ∨ is_Some (Codes m !! k) → is_Some (Codes m' !! k)) ∧
      plan_of m' k = plan_steps i batched k (plan_of m k) ns.
Proof.
  revert j m. induction ns as [|n ns IH]; intros j m Hm Hi Hok Hj.
  { exists m. split; [done|]. split; [done|]. intros k Hk. split; [by intros [?|?]|done]. }
  apply Forall_cons in Hok as [[Hsub Ht] Hok]. cbn [fmap list_fmap imap forM].
  rewrite Nat.add_0_r.
  destruct (map_subdag_run i j batched (node_ID n) n m) as (m1 & Hrun1 & Hm1 & Hp1); [done..|].
  rewrite (M_bind_run _ _ _ _ _ Hrun1).
  destruct (IH (S j) m1) as (m' & Hrun & Hm' & Hp); [done..| |].
  { intros k Hk. destruct (Hp1 k Hk) as [_ ->]. by apply plan_step_has_jobs, Hj. }
  exists m'. split.
  { rewrite <- Hrun. f_equal. apply imap_ext. intros x sub _. simpl. f_equal. lia. }
  split; [done|]. intros k Hk. destruct (Hp1 k Hk) as [Hs1 Hq1], (Hp k Hk) as [Hs Hq].
  split; [auto|]. by rewrite Hq, Hq1.
Qed.

Definition add_ins (ts : list nat) (pj : PipelineJobs) : PipelineJobs :=
  mkPipelineJobs (pj_Batched pj) (pj_InputTensors pj ++ ts) (pj_OutputTensors pj) (pj_Jobs pj).
Definition add_outs (ts : list nat) (pj : PipelineJobs) : PipelineJobs :=
  mkPipelineJobs (pj_Batched pj) (pj_InputTensors pj) (pj_OutputTensors pj ++ ts) (pj_Jobs pj).

Definition tensor_ok (t : nat) : Prop :=
  ∃ x, graph_Tensors g !! t = Some x ∧ OwnerPartyCode x ∈ parties.

(** All parties have a plan, and it is the image of the one they had. *)
Definition all_plans (F : string → ExecutionPlan → ExecutionPlan) (m m' : GraphMapper) : Prop :=
  meta_ok m' ∧ ∀ k, k ∈ parties → is_Some (Codes m' !! k) ∧ plan_of m' k = F k (plan_of m k).

Lemma alter_pj_alter_pj i F G X : alter_pj i F (alter_pj i G X) = alter_pj i (F ∘ G) X.
Proof. unfold alter_pj. simpl. by rewrite list_alter_alter_eq. Qed.
Lemma alter_pj_id i F X : (∀ pj, F pj = pj) → alter_pj i F X = X.
Proof. intros HF. unfold alter_pj. rewrite list_alter_id by auto. by destruct X. Qed.

(** [f t] appends the tensor [t] as [F [t]] does. *)
Lemma map_tensors_run i f (F : list nat → PipelineJobs → PipelineJobs) ts m :
  (∀ t plan, i < length (plan_Pipelines plan) → f t plan = upd_pipeline i (λ pj, Ok (F [t] pj)) plan) →
  (∀ ts pj, erase_pj (F ts pj) = F ts (erase_pj pj)) →
  (∀ pj, F [] pj = pj) → (∀ l1 l2 pj, F l2 (F l1 pj) = F (l1 ++ l2) pj) →
  i < length ps → meta_ok m → Forall tensor_ok ts → (∀ k, k ∈ parties → is_Some (Codes m !! k)) →
  ∃ m', forM (map_tensor f) ts m = (m', Ok tt) ∧
    all_plans (λ k, alter_pj i (F (owned_by (graph_Tensors g) k ts))) m m'.
Proof.
  intros Hf He Hnil Happ Hi. revert m. induction ts as [|t ts IH]; intros m Hm Hts Hall.
  { exists m. split; [done|]. split; [done|]. intros k Hk. split; [auto|].
    symmetry. by apply alter_pj_id. }
  apply Forall_cons in Hts as [(x & Hx & Hxp) Hts]. cbn [forM].
  destruct (upd_pipeline_touches (OwnerPartyCode x) i (λ pj, Ok (F [t] pj)) (F [t]) m)
    as (m1 & Hrun1 & Ht1); [by auto..|by eexists|].
  assert (map_tensor f t m = (m1, Ok tt)) as Hrun1'.
  { unfold map_tensor. rewrite (M_bind_run _ _ m m m eq_refl), (meta_graph _ Hm), Hx.
    rewrite (M_bind_run _ _ m m x eq_refl). rewrite <- Hrun1. unfold upd_code.
    destruct (Codes m !! OwnerPartyCode x) as [plan|] eqn:Hplan; [|done].
    rewrite Hf; [done|]. destruct (meta_plan _ Hm _ _ Hplan) as [_ ->]. done. }
  rewrite (M_bind_run _ _ _ _ _ Hrun1').
  assert (∀ k, k ≠ OwnerPartyCode x → plan_of m1 k = plan_of m k) as Hother.
  { intros k Hne. unfold plan_of. by rewrite (touches_other _ _ _ _ Ht1). }
  destruct (IH m1) as (m' & Hrun & Hm' & Hp).
  { apply Ht1. }
  { done. }
  { intros k Hk. destruct (decide (k = OwnerPartyCode x)) as [->|Hne];
      [apply Ht1|rewrite (touches_other _ _ _ _ Ht1) by done; auto]. }
  exists m'. split; [done|]. split; [done|]. intros k Hk. destruct (Hp k Hk) as [Hs ->].
  split; [done|]. unfold owned_by. cbn [Filter]. rewrite Hx. simpl.
  destruct (decide (OwnerPartyCode x = k)) as [<-|Hne].
  - rewrite (touches_plan _ _ _ _ Ht1), alter_pj_alter_pj, bool_decide_eq_true_2 by done.
    unfold alter_pj. f_equal. apply list_alter_ext; [|done]. intros pj _. simpl. by rewrite Happ.
  - by rewrite bool_decide_eq_false_2, Hother by done.
Qed.

Lemma plan_steps_closed i batched k X ns pj :
  plan_Pipelines X !! i = Some pj → ns ≠ [] →
  plan_steps i batched k X ns =
  mkExecutionPlan (spec_nodes k (plan_Nodes X) ns) (WorkerNumber X)
    (<[i:=mkPipelineJobs batched (pj_InputTensors pj) (pj_OutputTensors pj)
            (pj_Jobs pj ++ (spec_job k <$> ns))]> (plan_Pipelines X)).
Proof.
  revert X pj. induction ns as [|n ns IH]; intros X pj Hpj Hne; [done|]. clear Hne.
  assert (plan_Pipelines (plan_step i batched n k (meets n) X) =
    <[i:=mkPipelineJobs batched (pj_InputTensors pj) (pj_OutputTensors pj)
           (pj_Jobs pj ++ [spec_job k n])]> (plan_Pipelines X)) as Hstep.
  { unfold plan_step. simpl. rewrite list_insert_alter. apply list_alter_ext; [|done].
    intros pj' Hpj'. rewrite Hpj in Hpj'. by injection Hpj' as <-. }
  destruct ns as [|n' ns].
  - simpl. destruct (plan_step _ _ _ _ _ _) as [nodes w pls] eqn:E. simpl in Hstep.
    unfold plan_step in E. by simplify_eq.
  - change (plan_steps i batched k X (n :: n' :: ns))
      with (plan_steps i batched k (plan_step i batched n k (meets n) X) (n' :: ns)).
    rewrite (IH _ _ ltac:(rewrite Hstep; apply list_lookup_insert_eq;
      by eapply lookup_lt_Some)) by done.
    rewrite Hstep, list_insert_insert_eq. simpl. by rewrite <- app_assoc.
Qed.

(** What the pipeline becomes in the plan of a party. *)
Definition spec_pipeline (k : string) (pp : PartPipeline) (ns : list ExecutionNode)
    : PipelineJobs :=
  mkPipelineJobs (part_Batched pp)
    (if part_Batched pp then owned_by (graph_Tensors g) k (part_InputTensors pp) else [])
    (if part_Batched pp then owned_by (graph_Tensors g) k (part_OutputTensors pp) else [])
    (spec_job k <$> ns).

Record pipe_ok (pp : PartPipeline) (ns : list ExecutionNode) : Prop := {
  pipe_subdags : SubDAGs pp = (λ n, mkSubDAG {[node_ID n := n]}) <$> ns;
  pipe_nonempty : ns ≠ [];
  pipe_nodes : Forall node_ok ns;
  pipe_tensors : part_Batched pp = true →
    Forall tensor_ok (part_InputTensors pp) ∧ Forall tensor_ok (part_OutputTensors pp);
}.

Definition fresh_pipeline (i : nat) (m : GraphMapper) : Prop :=
  ∀ k, k ∈ parties → plan_Pipelines (plan_of m k) !! i = Some (mkPipelineJobs false [] [] []).

Definition with_pipeline (i : nat) (pp : PartPipeline) (ns : list ExecutionNode) (k : string)
    (X : ExecutionPlan) : ExecutionPlan :=
  mkExecutionPlan (spec_nodes k (plan_Nodes X) ns) (WorkerNumber X)
    (<[i:=spec_pipeline k pp ns]> (plan_Pipelines X)).

Lemma map_pipeline_run i pp ns m :
  meta_ok m → i < length ps → pipe_ok pp ns → fresh_pipeline i m →
  ∃ m', map_pipeline (i, pp) m = (m', Ok tt) ∧ all_plans (with_pipeline i pp ns) m m'.
Proof.
  intros Hm Hi [Hsubs Hne Hns Hts] Hfresh. unfold map_pipeline.
  destruct (subdags_run i (part_Batched pp) ns 0 m) as (m1 & Hrun1 & Hm1 & Hp1); [done..| |].
  { intros k Hk. eexists. by rewrite (Hfresh k Hk). }
  rewrite <- Hsubs in Hrun1. rewrite (M_bind_run _ _ _ _ _ Hrun1).
  assert (∀ k, k ∈ parties → is_Some (Codes m1 !! k) ∧ plan_of m1 k =
    mkExecutionPlan (spec_nodes k (plan_Nodes (plan_of m k)) ns) (WorkerNumber (plan_of m k))
      (<[i:=mkPipelineJobs (part_Batched pp) [] [] (spec_job k <$> ns)]>
         (plan_Pipelines (plan_of m k)))) as Hp1'.
  { intros k Hk. destruct (Hp1 k Hk) as [Hs ->]. split; [auto|].
    by rewrite (plan_steps_closed _ _ _ _ _ _ (Hfresh k Hk) Hne). }
  unfold all_plans, with_pipeline, spec_pipeline.
  destruct (part_Batched pp); [|by exists m1].
  destruct (Hts eq_refl) as [Hin Hout].
  destruct (map_tensors_run i (append_input i) add_ins (part_InputTensors pp) m1)
    as (m2 & Hrun2 & Hm2 & Hp2); try done.
  { intros []. unfold add_ins. simpl. by rewrite app_nil_r. }
  { intros ?? []. unfold add_ins. simpl. by rewrite <- app_assoc. }
  { intros k Hk. by apply Hp1'. }
  rewrite (M_bind_run _ _ _ _ _ Hrun2).
  destruct (map_tensors_run i (append_output i) add_outs (part_OutputTensors pp) m2)
    as (m3 & Hrun3 & Hm3 & Hp3); try done.
  { intros []. unfold add_outs. simpl. by rewrite app_nil_r. }
  { intros ?? []. unfold add_outs. simpl. by rewrite <- app_assoc. }
  { intros k Hk. by apply Hp2. }
  exists m3. split; [done|]. split; [done|]. intros k Hk.
  destruct (Hp3 k Hk) as [? ->], (Hp2 k Hk) as [_ ->], (Hp1' k Hk) as [_ ->]. split; [done|].
  rewrite alter_pj_alter_pj. unfold alter_pj. simpl. f_equal.
  rewrite !list_insert_alter. by rewrite list_alter_alter_eq.
Qed.

(** ** All pipelines *)
Lemma pipelines_run pps nss i (nodes : string → gmap nat ExecutionNode)
    (done_jobs : string → list PipelineJobs) m :
  Forall2 pipe_ok pps nss → meta_ok m → i + length pps = length ps →
  (∀ k, k ∈ parties → length (done_jobs k) = i ∧ plan_of m k = mkExecutionPlan (nodes k) 1
    (done_jobs k ++ replicate (length pps) (mkPipelineJobs false [] [] []))) →
  ∃ m', forM map_pipeline (imap (λ x pp, (i + x, pp)) pps) m = (m', Ok tt) ∧ meta_ok m' ∧
    ∀ k, k ∈ parties → (pps ≠ [] ∨ is_Some (Codes m !! k) → is_Some (Codes m' !! k)) ∧
      plan_of m' k = mkExecutionPlan (foldl (spec_nodes k) (nodes k) nss) 1
        (done_jobs k ++ zip_with (spec_pipeline k) pps nss).
Proof.
  intros Hok. revert i nodes done_jobs m.
  induction Hok as [|pp ns pps nss Hpp _ IH]; intros i nodes done_jobs m Hm Hlen Hplan.
  { exists m. split; [done|]. split; [done|]. intros k Hk. split; [by intros [?|?]|].
    by destruct (Hplan k Hk). }
  cbn [imap forM]. rewrite Nat.add_0_r. simpl in Hlen.
  destruct (map_pipeline_run i pp ns m) as (m1 & Hrun1 & Hm1 & Hp1); [done|lia|done| |].
  { intros k Hk. destruct (Hplan k Hk) as [Hl ->]. simpl. by rewrite lookup_app_r, Hl, Nat.sub_diag by lia. }
  rewrite (M_bind_run _ _ _ _ _ Hrun1).
  destruct (IH (S i) (λ k, spec_nodes k (nodes k) ns)
    (λ k, done_jobs k ++ [spec_pipeline k pp ns]) m1) as (m' & Hrun & Hm' & Hp); [done|lia| |].
  { intros k Hk. destruct (Hp1 k Hk) as [_ ->], (Hplan k Hk) as [Hl ->].
    rewrite length_app. split; [simpl; lia|]. unfold with_pipeline. simpl. f_equal.
    rewrite insert_app_r_alt, Hl, Nat.sub_diag by lia. by rewrite <- app_assoc. }
  exists m'. split.
  { rewrite <- Hrun. f_equal. apply imap_ext. intros x q _. simpl. f_equal. lia. }
  split; [done|]. intros k Hk. destruct (Hp1 k Hk) as [Hs1 _], (Hp k Hk) as [Hs ->].
  split; [auto|]. simpl. by rewrite <- app_assoc.
Qed.

Lemma Map_run nss :
  Forall2 pipe_ok ps nss → ps ≠ [] →
  ∃ m', Map (NewGraphMapper g ps) = (m', Ok tt) ∧ meta_ok m' ∧
    ∀ k, k ∈ parties → is_Some (Codes m' !! k) ∧
      plan_of m' k = mkExecutionPlan (foldl (spec_nodes k) ∅ nss) 1
        (zip_with (spec_pipeline k) ps nss).
Proof.
  intros Hok Hne. unfold Map. set (m := NewGraphMapper g ps).
  rewrite (M_bind_run _ _ m m m eq_refl).
  destruct (pipelines_run ps nss 0 (λ _, ∅) (λ _, []) (NewGraphMapper g ps))
    as (m' & Hrun & Hm' & Hp); try done.
  { split; [done..| |]; intros k; [intros []|intros plan]; done. }
  exists m'. split; [done|]. split; [done|]. intros k Hk. destruct (Hp k Hk). auto.
Qed.
End spec.

(** ** The schedule of a graph *)
Section schedule_spec.
Context `{GoRange}.

Lemma UpdateTensorRefNum_owner g t :
  OwnerPartyCode <$> graph_Tensors (UpdateTensorRefNum g) !! t =
  OwnerPartyCode <$> graph_Tensors g !! t.
Proof.
  unfold UpdateTensorRefNum. simpl. generalize (mjoin (pipeline_inputs <$> Pipelines g)) as l.
  generalize (graph_Tensors g) as ts. intros ts l. revert ts.
  induction l as [|u l IH]; intros ts; simpl; [done|]. rewrite IH.
  destruct (decide (u = t)) as [->|Hne]; [|by rewrite list_lookup_alter_ne].
  rewrite list_lookup_alter_eq. by destruct (ts !! t) as [[]|].
Qed.

Lemma owned_by_ext ts ts' k l :
  (∀ t, OwnerPartyCode <$> ts !! t = OwnerPartyCode <$> ts' !! t) →
  owned_by ts k l = owned_by ts' k l.
Proof.
  intros Hts. unfold owned_by. induction l as [|t l IH]; simpl; [done|]. rewrite IH.
  specialize (Hts t). by destruct (ts !! t) eqn:?, (ts' !! t) eqn:?; simplify_eq/=; rewrite ?Hts.
Qed.

(** The nodes of a pipeline in the given order. *)
Definition nodes_of (p : Pipeline) (order : list nat) : list ExecutionNode :=
  omap (λ id, Nodes p !! id) order.

(** What a graph must satisfy to be scheduled. *)
Record graph_ok (g : Graph) : Prop := {
  graph_pipes : Pipelines g ≠ [];
  graph_nodes p : p ∈ Pipelines g → Nodes p ≠ ∅;
  graph_ids p id n : p ∈ Pipelines g → Nodes p !! id = Some n → node_ID n = id;
  graph_parties p id n : p ∈ Pipelines g → Nodes p !! id = Some n →
    Parties n ⊆ GetParties (graph_PartyInfo g);
  graph_args p id n t : p ∈ Pipelines g → Nodes p !! id = Some n →
    t ∈ arg_tensors (Inputs n) ++ arg_tensors (Outputs n) → is_Some (graph_Tensors g !! t);
  graph_owners p t : p ∈ Pipelines g → pl_Batched p = true →
    t ∈ InputTensors p ++ OutputTensors p →
    ∃ x, graph_Tensors g !! t = Some x ∧ OwnerPartyCode x ∈ GetParties (graph_PartyInfo g);
}.

(** The plan of a party: all its nodes, one worker, and for every pipeline the tensors
    it owns and the nodes it takes part in, in the given order. *)
Definition spec_plan (g : Graph) (orders : list (list nat)) (k : string) : ExecutionPlan :=
  let nss := zip_with nodes_of (Pipelines g) orders in
  mkExecutionPlan (foldl (spec_nodes k) ∅ nss) 1
    (zip_with (λ p ns, mkPipelineJobs (pl_Batched p)
       (if pl_Batched p then owned_by (graph_Tensors g) k (InputTensors p) else [])
       (if pl_Batched p then owned_by (graph_Tensors g) k (OutputTensors p) else [])
       (spec_job k <$> ns)) (Pipelines g) nss).

Lemma part_pipeline_ok g p order :
  let g' := UpdateTensorRefNum g in
  graph_ok g → p ∈ Pipelines g → order ≡ₚ keys p →
  pipe_ok g' (part_pipeline p order) (nodes_of p order).
Proof.
  intros g' Hg Hp Hperm.
  assert (∀ id, id ∈ order → is_Some (Nodes p !! id)) as Hids.
  { intros id Hid. apply elem_of_keys. by rewrite <- Hperm. }
  assert (∀ n, n ∈ nodes_of p order → ∃ id, Nodes p !! id = Some n) as Hnodes.
  { intros n (id & _ & Hn)%list_elem_of_omap. eauto. }
  assert (∀ t, is_Some (graph_Tensors g' !! t) ↔ is_Some (graph_Tensors g !! t)) as Hts.
  { intros t. pose proof (UpdateTensorRefNum_owner g t) as Ho. fold g' in Ho.
    by destruct (graph_Tensors g' !! t), (graph_Tensors g !! t). }
  assert (∀ t x, graph_Tensors g !! t = Some x → OwnerPartyCode x ∈ GetParties (graph_PartyInfo g) →
    tensor_ok g' t) as Hown.
  { intros t x Hx Hin. pose proof (UpdateTensorRefNum_owner g t) as Ho. rewrite Hx in Ho.
    apply fmap_Some in Ho as (y & Hy & Heq). exists y. by rewrite <- Heq. }
  split.
  - unfold part_pipeline, nodes_of. simpl. clear Hperm Hnodes.
    induction order as [|id order IH]; [done|]. simpl.
    destruct (Hids id) as [n Hn]; [left|]. rewrite Hn. simpl.
    rewrite (graph_ids _ Hg _ _ _ Hp Hn). f_equal. apply IH. intros; apply Hids; by right.
  - intros Hnil. apply (graph_nodes _ Hg p Hp). apply map_empty. intros id.
    destruct (Nodes p !! id) as [n|] eqn:Hn; [|done].
    assert (n ∈ nodes_of p order) as Hin; [|rewrite Hnil in Hin; by apply elem_of_nil in Hin].
    apply list_elem_of_omap. exists id. split; [|done]. rewrite Hperm. apply elem_of_keys. eauto.
  - apply Forall_forall. intros n (id & Hn)%Hnodes. split.
    + exact (graph_parties _ Hg _ _ _ Hp Hn).
    + intros t Ht. apply Hts. by eapply graph_args.
  - simpl. intros Hb. rewrite Hb, <- Forall_app, Forall_forall. intros t Ht.
    destruct (graph_owners _ Hg p t Hp Hb Ht) as (x & Hx & Hin). by eapply Hown.
Qed.

Lemma pipe_ok_single g pps nss : Forall2 (pipe_ok g) pps nss → single_nodes pps.
Proof.
  intros Hok pp sub Hpp Hsub. apply list_elem_of_lookup in Hpp as [i Hi].
  destruct (Forall2_lookup_l _ _ _ _ _ Hok Hi) as (ns & _ & Hns).
  rewrite (pipe_subdags _ _ _ Hns) in Hsub.
  apply list_elem_of_fmap in Hsub as (n & -> & _). simpl. by rewrite map_size_singleton.
Qed.

Lemma schedule_plans g orders :
  graph_ok g → TopologicalSort g = Ok orders →
  ∃ codes, schedule g = Ok codes ∧
    ∀ k, erase <$> codes !! k =
      if bool_decide (k ∈ GetParties (graph_PartyInfo g)) then Some (spec_plan g orders k)
      else None.
Proof.
  intros Hg Hsort. unfold schedule, NaivePartition.
  change (TopologicalSort (UpdateTensorRefNum g)) with (TopologicalSort g).
  rewrite Hsort. simpl. apply mapM_res_Ok in Hsort.
  set (g' := UpdateTensorRefNum g). set (ps := zip_with part_pipeline (Pipelines g) orders).
  set (nss := zip_with nodes_of (Pipelines g) orders).
  assert (Forall2 (pipe_ok g') ps nss) as Hok.
  { apply Forall2_same_length_lookup_2.
    - unfold ps, nss. by rewrite !length_zip_with.
    - intros i pp ns (p & o & -> & Hp & Ho)%lookup_zip_with_Some Hns.
      apply lookup_zip_with_Some in Hns as (p' & o' & -> & Hp' & Ho').
      rewrite Hp in Hp'. rewrite Ho in Ho'. injection Hp' as <-. injection Ho' as <-.
      apply part_pipeline_ok; [done|by eapply list_elem_of_lookup_2|].
      pose proof (Forall2_lookup_lr _ _ _ _ _ _ Hsort Hp Ho) as Hs.
      pose proof (sort_pipeline_spec p) as Hspec. rewrite Hs in Hspec. apply Hspec. }
  destruct (Map_run g' ps (pipe_ok_single _ _ _ Hok) nss Hok) as (m & Hrun & Hm & Hp).
  { intros Hnil. apply (f_equal length) in Hnil. unfold ps in Hnil.
    rewrite length_zip_with, (Forall2_length _ _ _ Hsort), Nat.min_id in Hnil.
    apply (graph_pipes _ Hg). apply length_zero_iff_nil.
    by rewrite (Forall2_length _ _ _ Hsort). }
  rewrite Hrun. exists (Codes m). split; [done|]. intros k. case_bool_decide as Hk.
  - destruct (Hp k Hk) as [[plan Hplan] Heq]. rewrite Hplan. simpl. f_equal.
    rewrite <- (plan_of_Some ps _ _ _ Hplan), Heq. unfold spec_plan. fold nss. f_equal.
    apply list_eq. intros i. unfold ps, nss. rewrite !lookup_zip_with.
    destruct (Pipelines g !! i) as [p|]; [|done]. destruct (orders !! i) as [o|]; [simpl|done].
    f_equal. unfold spec_pipeline, part_pipeline. simpl. f_equal;
      destruct (pl_Batched p); try done; apply owned_by_ext; apply UpdateTensorRefNum_owner.
  - destruct (Codes m !! k) eqn:Hc; [|done]. exfalso. apply Hk. apply (meta_dom _ _ _ Hm). eauto.
Qed.

(** C18: On a graph that sorts, every party is given exactly one plan: all its nodes, one
    worker, and for every pipeline the input and output tensors it owns and the nodes it
    takes part in, in the order of the topological sort, with a barrier for all parties
    after each node that more than one of them runs. *)
Theorem schedule_correct g orders :
  graph_ok g → TopologicalSort g = Ok orders →
  ∃ codes, schedule g = Ok codes ∧
    ∀ k, erase <$> codes !! k =
      if bool_decide (k ∈ GetParties (graph_PartyInfo g)) then Some (spec_plan g orders k)
      else None.
Proof. apply schedule_plans. Qed.
End schedule_spec.

(** ** The graph of the demo plan *)
#[local] Existing Instance go_range_list.

(** A test for the hypotheses. *)
Definition node_okb (g : Graph) (idn : nat * ExecutionNode) : bool :=
  let '(id, n) := idn in
  bool_decide (node_ID n = id)
  && forallb (λ k, bool_decide (k ∈ GetParties (graph_PartyInfo g))) (Parties n)
  && forallb (λ t, bool_decide (is_Some (graph_Tensors g !! t)))
       (arg_tensors (Inputs n) ++ arg_tensors (Outputs n)).
Definition tensor_okb (g : Graph) (t : nat) : bool :=
  match graph_Tensors g !! t with
  | Some x => bool_decide (OwnerPartyCode x ∈ GetParties (graph_PartyInfo g))
  | None => false
  end.
Definition pipeline_okb (g : Graph) (p : Pipeline) : bool :=
  bool_decide (Nodes p ≠ ∅) && forallb (node_okb g) (map_to_list (Nodes p))
  && (negb (pl_Batched p) || forallb (tensor_okb g) (InputTensors p ++ OutputTensors p)).

Lemma graph_okb_ok g :
  Pipelines g ≠ [] → forallb (pipeline_okb g) (Pipelines g) = true → graph_ok g.
Proof.
  intros Hne Hall. rewrite forallb_forall in Hall.
  assert (∀ p, p ∈ Pipelines g → pipeline_okb g p = true) as Hp.
  { intros p Hp. by apply Hall, list_elem_of_In. }
  assert (∀ p id n, p ∈ Pipelines g → Nodes p !! id = Some n → node_okb g (id, n) = true) as Hn.
  { intros p id n Hin Hid. specialize (Hp p Hin). unfold pipeline_okb in Hp.
    rewrite !andb_true_iff, forallb_forall in Hp. apply Hp.
    by apply list_elem_of_In, elem_of_map_to_list. }
  unfold node_okb in Hn. split; [done|..].
  - intros p Hin. specialize (Hp p Hin). unfold pipeline_okb in Hp.
    rewrite !andb_true_iff in Hp. apply (bool_decide_eq_true_1 _ (proj1 (proj1 Hp))).
  - intros p id n Hin Hid. specialize (Hn p id n Hin Hid).
    rewrite !andb_true_iff, bool_decide_eq_true in Hn. apply Hn.
  - intros p id n Hin Hid k Hk. specialize (Hn p id n Hin Hid).
    rewrite !andb_true_iff, !forallb_forall in Hn.
    apply (bool_decide_eq_true_1 (k ∈ _)). apply Hn. by apply list_elem_of_In.
  - intros p id n t Hin Hid Ht. specialize (Hn p id n Hin Hid).
    rewrite !andb_true_iff, !forallb_forall in Hn.
    apply (bool_decide_eq_true_1 (is_Some _)). apply Hn. by apply list_elem_of_In.
  - intros p t Hin Hb Ht. specialize (Hp p Hin). unfold pipeline_okb in Hp.
    rewrite !andb_true_iff, Hb in Hp. destruct Hp as [_ Hp]. simpl in Hp.
    rewrite forallb_forall in Hp. specialize (Hp t (proj1 (list_elem_of_In _ _) Ht)).
    unfold tensor_okb in Hp. destruct (graph_Tensors g !! t) as [x|]; [|done].
    exists x. split; [done|]. by apply bool_decide_eq_true_1 in Hp.
Qed.

Lemma schedule_correct_witness :
  ∃ codes, schedule demo_graph = Ok codes ∧
    ∀ k, erase <$> codes !! k =
      if bool_decide (k ∈ GetParties (graph_PartyInfo demo_graph))
      then Some (spec_plan demo_graph [[0]; [1; 2]] k) else None.
Proof.
  apply schedule_correct.
  - apply graph_okb_ok; [by vm_compute|]. vm_compute. reflexivity.
  - vm_compute. reflexivity.
Defined.
