(* ===== verification/Codec.v ===== *)
(** * Key and value encoding (pkg/util/codec)

    The memory-comparable encoding of integers, floats and byte strings
    (number.go, float.go, bytes.go) and the encoding of datums built on them
    (codec.go), which the planner uses for the hash codes of expressions.

    A byte slice is the list of its bytes: the capacity that [reallocBytes] and
    [preRealloc] reserve and the scratch buffer of [decodeBytes] do not show.  A
    float64 is its bit pattern ([math.Float64bits]). *)
From S2P Require Import Prelude GoInt.

(** ** Fixed-width integers (number.go) *)
Definition signMask : Z := 9223372036854775808.

Definition EncodeIntToCmpUint (v : Z) : Z := Z.lxor (u64 v) signMask.
Definition DecodeCmpUintToInt (u : Z) : Z := i64 (Z.lxor u signMask).

Definition EncodeUint (b : list Z) (v : Z) : list Z := b ++ be_bytes 8 v.
Definition EncodeUintDesc (b : list Z) (v : Z) : list Z := b ++ be_bytes 8 (not64 v).
Definition EncodeInt (b : list Z) (v : Z) : list Z := b ++ be_bytes 8 (EncodeIntToCmpUint v).
Definition EncodeIntDesc (b : list Z) (v : Z) : list Z :=
  b ++ be_bytes 8 (not64 (EncodeIntToCmpUint v)).

Definition DecodeUint (b : list Z) : res (list Z * Z) :=
  if (length b <? 8)%nat then Err "insufficient bytes to decode value"
  else Ok (drop 8 b, be_value (take 8 b)).
Definition DecodeUintDesc (b : list Z) : res (list Z * Z) :=
  if (length b <? 8)%nat then Err "insufficient bytes to decode value"
  else Ok (drop 8 b, not64 (be_value (take 8 b))).
Definition DecodeInt (b : list Z) : res (list Z * Z) :=
  if (length b <? 8)%nat then Err "insufficient bytes to decode value"
  else Ok (drop 8 b, DecodeCmpUintToInt (be_value (take 8 b))).
Definition DecodeIntDesc (b : list Z) : res (list Z * Z) :=
  if (length b <? 8)%nat then Err "insufficient bytes to decode value"
  else Ok (drop 8 b, DecodeCmpUintToInt (not64 (be_value (take 8 b)))).

(** ** Variable-length integers (number.go, on encoding/binary) *)

(** [binary.PutUvarint]; ten turns are enough for 64 bits. *)
Fixpoint put_uvarint (fuel : nat) (x : Z) : list Z :=
  match fuel with
  | 0%nat => []
  | S fuel =>
      if x >=? 128 then Z.lor (byte_of x) 128 :: put_uvarint fuel (Z.shiftr x 7)
      else [byte_of x]
  end.
Definition PutUvarint (x : Z) : list Z := put_uvarint 10 x.

(** [binary.PutVarint]: zig-zag. *)
Definition PutVarint (x : Z) : list Z :=
  let ux := u64 (Z.shiftl (u64 x) 1) in
  PutUvarint (if x <? 0 then not64 ux else ux).

(** [binary.Uvarint]: the value and the number of bytes read; a count that is not
    positive is an error. *)
Fixpoint uvarint (buf : list Z) (i : nat) (x s : Z) : Z * Z :=
  match buf with
  | [] => (0, 0)
  | b :: buf =>
      if bool_decide (i = 10%nat) then (0, - (Z.of_nat i + 1))
      else if b <? 128 then
        if bool_decide (i = 9%nat) && (b >? 1) then (0, - (Z.of_nat i + 1))
        else (Z.lor x (u64 (Z.shiftl b s)), Z.of_nat i + 1)
      else uvarint buf (S i) (Z.lor x (u64 (Z.shiftl (Z.land b 127) s))) (s + 7)
  end.
Definition Uvarint (buf : list Z) : Z * Z := uvarint buf 0 0 0.
Definition Varint (buf : list Z) : Z * Z :=
  let '(ux, n) := Uvarint buf in
  let x := i64 (Z.shiftr ux 1) in
  (if bool_decide (Z.land ux 1 ≠ 0) then i64 (Z.lnot x) else x, n).

Definition EncodeVarint (b : list Z) (v : Z) : list Z := b ++ PutVarint v.
Definition EncodeUvarint (b : list Z) (v : Z) : list Z := b ++ PutUvarint v.

Definition varint_result (b : list Z) (r : Z * Z) : res (list Z * Z) :=
  let '(v, n) := r in
  if n >? 0 then Ok (drop (Z.to_nat n) b, v)
  else if n <? 0 then Err "value larger than 64 bits"
  else Err "insufficient bytes to decode value".
Definition DecodeVarint (b : list Z) : res (list Z * Z) := varint_result b (Varint b).
Definition DecodeUvarint (b : list Z) : res (list Z * Z) := varint_result b (Uvarint b).

(** ** Comparable variable-length integers (number.go) *)
Definition negativeTagEnd : Z := 8.
Definition positiveTagStart : Z := 247.

Definition EncodeComparableUvarint (b : list Z) (v : Z) : list Z :=
  if v <=? positiveTagStart - negativeTagEnd then b ++ [byte_of (byte_of v + negativeTagEnd)]
  else if v <=? 0xff then b ++ (positiveTagStart + 1) :: be_bytes 1 v
  else if v <=? 0xffff then b ++ (positiveTagStart + 2) :: be_bytes 2 v
  else if v <=? 0xffffff then b ++ (positiveTagStart + 3) :: be_bytes 3 v
  else if v <=? 0xffffffff then b ++ (positiveTagStart + 4) :: be_bytes 4 v
  else if v <=? 0xffffffffff then b ++ (positiveTagStart + 5) :: be_bytes 5 v
  else if v <=? 0xffffffffffff then b ++ (positiveTagStart + 6) :: be_bytes 6 v
  else if v <=? 0xffffffffffffff then b ++ (positiveTagStart + 7) :: be_bytes 7 v
  else b ++ (positiveTagStart + 8) :: be_bytes 8 v.

Definition EncodeComparableVarint (b : list Z) (v : Z) : list Z :=
  if v <? 0 then
    if v >=? -0xff then b ++ (negativeTagEnd - 1) :: be_bytes 1 v
    else if v >=? -0xffff then b ++ (negativeTagEnd - 2) :: be_bytes 2 v
    else if v >=? -0xffffff then b ++ (negativeTagEnd - 3) :: be_bytes 3 v
    else if v >=? -0xffffffff then b ++ (negativeTagEnd - 4) :: be_bytes 4 v
    else if v >=? -0xffffffffff then b ++ (negativeTagEnd - 5) :: be_bytes 5 v
    else if v >=? -0xffffffffffff then b ++ (negativeTagEnd - 6) :: be_bytes 6 v
    else if v >=? -0xffffffffffffff then b ++ (negativeTagEnd - 7) :: be_bytes 7 v
    else b ++ (negativeTagEnd - 8) :: be_bytes 8 v
  else EncodeComparableUvarint b (u64 v).

(** [for _, c := range bs { v = (v << 8) | uint64(c) }] on uint64. *)
Definition shift_in (v : Z) (bs : list Z) : Z :=
  foldl (λ v c, Z.lor (u64 (Z.shiftl v 8)) c) v bs.

Definition DecodeComparableUvarint (b : list Z) : res (list Z * Z) :=
  match b with
  | [] => Err "insufficient bytes to decode value"
  | first :: b =>
      if first <? negativeTagEnd then Err "invalid bytes to decode value"
      else if first <=? positiveTagStart then Ok (b, first - negativeTagEnd)
      else
        let len := Z.to_nat (first - positiveTagStart) in
        if (length b <? len)%nat then Err "insufficient bytes to decode value"
        else Ok (drop len b, shift_in 0 (take len b))
  end.

(** The one-byte case returns the slice it was given. *)
Definition DecodeComparableVarint (b : list Z) : res (list Z * Z) :=
  match b with
  | [] => Err "insufficient bytes to decode value"
  | first :: b' =>
      if (negativeTagEnd <=? first) && (first <=? positiveTagStart)
      then Ok (b, first - negativeTagEnd)
      else
        let '(len, v) := if first <? negativeTagEnd
                         then (Z.to_nat (negativeTagEnd - first), MaxUint64)
                         else (Z.to_nat (first - positiveTagStart), 0) in
        if (length b' <? len)%nat then Err "insufficient bytes to decode value"
        else
          let v := shift_in v (take len b') in
          if (first >? positiveTagStart) && (v >? MaxInt64) then Err "invalid bytes to decode value"
          else if (first <? negativeTagEnd) && (v <=? MaxInt64)
               then Err "invalid bytes to decode value"
          else Ok (drop len b', i64 v)
  end.

(** ** Floats (float.go) *)

(** [f >= 0] on the bits of [f]: positive or minus zero, and not a NaN. *)
Definition float_nan (u : Z) : bool := Z.land u 0x7fffffffffffffff >? 0x7ff0000000000000.
Definition float_nonneg (u : Z) : bool :=
  negb (float_nan u) && ((u <? signMask) || (u =? signMask)).

Definition encodeFloatToCmpUint64 (u : Z) : Z :=
  if float_nonneg u then Z.lor u signMask else not64 u.
Definition decodeCmpUintToFloat (u : Z) : Z :=
  if Z.land u signMask >? 0 then Z.land u (not64 signMask) else not64 u.
Definition EncodeFloat (b : list Z) (v : Z) : list Z := EncodeUint b (encodeFloatToCmpUint64 v).
Definition EncodeFloatDesc (b : list Z) (v : Z) : list Z :=
  EncodeUintDesc b (encodeFloatToCmpUint64 v).
Definition DecodeFloat (b : list Z) : res (list Z * Z) :=
  '(b, u) ← DecodeUint b; Ok (b, decodeCmpUintToFloat u).
Definition DecodeFloatDesc (b : list Z) : res (list Z * Z) :=
  '(b, u) ← DecodeUintDesc b; Ok (b, decodeCmpUintToFloat u).

(** ** Byte strings (bytes.go) *)
Definition encGroupSize : nat := 8.
Definition encMarker : Z := 255.
Definition encPad : Z := 0.

Definition reverseBytes (b : list Z) : list Z := not8 <$> b.

(** The loop on [idx]; it makes [len/8 + 1] turns. *)
Fixpoint encode_groups (fuel : nat) (data : list Z) (idx : nat) (result : list Z) : list Z :=
  match fuel with
  | 0%nat => result
  | S fuel =>
      if (idx <=? length data)%nat then
        let remain := (length data - idx)%nat in
        let '(group, padCount) :=
          if (encGroupSize <=? remain)%nat
          then (take encGroupSize (drop idx data), 0%nat)
          else (drop idx data ++ replicate (encGroupSize - remain) encPad,
                (encGroupSize - remain)%nat) in
        let marker := byte_of (encMarker - Z.of_nat padCount) in
        encode_groups fuel data (idx + encGroupSize) (result ++ group ++ [marker])
      else result
  end.
Definition EncodeBytes (b data : list Z) : list Z :=
  encode_groups (length data / encGroupSize + 2) data 0 b.
Definition EncodeBytesDesc (b data : list Z) : list Z :=
  b ++ reverseBytes (drop (length b) (EncodeBytes b data)).

(** Each turn reads nine bytes, so the length of [b] bounds the turns. *)
Fixpoint decode_groups (fuel : nat) (b buf : list Z) (reverse : bool) : res (list Z * list Z) :=
  match fuel with
  | 0%nat => Err "insufficient bytes to decode value"
  | S fuel =>
      if (length b <? encGroupSize + 1)%nat then Err "insufficient bytes to decode value"
      else
        let group := take encGroupSize b in
        let marker := nth encGroupSize b 0 in
        let padCount := if reverse then marker else byte_of (encMarker - marker) in
        if padCount >? Z.of_nat encGroupSize then Err "invalid marker byte, group bytes "
        else
          let realGroupSize := (encGroupSize - Z.to_nat padCount)%nat in
          let buf := buf ++ take realGroupSize group in
          let b := drop (encGroupSize + 1) b in
          if bool_decide (padCount ≠ 0) then
            let padByte := if reverse then encMarker else encPad in
            if forallb (λ v, v =? padByte) (drop realGroupSize group)
            then Ok (b, if reverse then reverseBytes buf else buf)
            else Err "invalid padding byte, group bytes "
          else decode_groups fuel b buf reverse
  end.
Definition decodeBytes (b : list Z) (reverse : bool) : res (list Z * list Z) :=
  decode_groups (S (length b)) b [] reverse.
Definition DecodeBytes (b : list Z) : res (list Z * list Z) := decodeBytes b false.
Definition DecodeBytesDesc (b : list Z) : res (list Z * list Z) := decodeBytes b true.

Definition EncodeCompactBytes (b data : list Z) : list Z :=
  EncodeVarint b (i64 (Z.of_nat (length data))) ++ data.
(** [b[n:]] and [b[:n]] panic when [n] is negative. *)
Definition DecodeCompactBytes (b : list Z) : res (list Z * list Z) :=
  '(b, n) ← DecodeVarint b;
  if Z.of_nat (length b) <? n
  then Err "insufficient bytes to decode value, expected length: "
  else if n <? 0 then Panic
  else Ok (drop (Z.to_nat n) b, take (Z.to_nat n) b).

(** ** Datums (the fields of types.Datum that codec.go reads) *)
Record Datum := mkDatum {
  datum_k : Z;
  datum_i : Z;
  datum_b : list Z;
}.
Definition KindNull : Z := 0.
Definition KindInt64 : Z := 1.
Definition KindUint64 : Z := 2.
Definition KindFloat32 : Z := 3.
Definition KindFloat64 : Z := 4.
Definition KindString : Z := 5.
Definition KindBytes : Z := 6.
Definition KindMinNotNull : Z := 15.
Definition KindMaxValue : Z := 16.

Definition zero_Datum : Datum := mkDatum 0 0 [].
Definition GetUint64 (d : Datum) : Z := u64 (datum_i d).
Definition GetFloat64 (d : Datum) : Z := u64 (datum_i d).
Definition SetInt64 (i : Z) (d : Datum) : Datum := mkDatum KindInt64 i (datum_b d).
Definition SetUint64 (i : Z) (d : Datum) : Datum := mkDatum KindUint64 (i64 i) (datum_b d).
Definition SetFloat64 (f : Z) (d : Datum) : Datum := mkDatum KindFloat64 (i64 f) (datum_b d).
Definition SetBytes (b : list Z) (d : Datum) : Datum := mkDatum KindBytes (datum_i d) b.

(** ** codec.go *)
Definition NilFlag : Z := 0.
Definition bytesFlag : Z := 1.
Definition compactBytesFlag : Z := 2.
Definition intFlag : Z := 3.
Definition uintFlag : Z := 4.
Definition floatFlag : Z := 5.
Definition varintFlag : Z := 8.
Definition uvarintFlag : Z := 9.
Definition maxFlag : Z := 250.

Definition encodeSignedInt (b : list Z) (v : Z) (isComparable : bool) : list Z :=
  if isComparable then EncodeInt (b ++ [intFlag]) v else EncodeVarint (b ++ [varintFlag]) v.
Definition encodeUnsignedInt (b : list Z) (v : Z) (isComparable : bool) : list Z :=
  if isComparable then EncodeUint (b ++ [uintFlag]) v else EncodeUvarint (b ++ [uvarintFlag]) v.
Definition encodeBytes (b v : list Z) (isComparable : bool) : list Z :=
  if isComparable then EncodeBytes (b ++ [bytesFlag]) v
  else EncodeCompactBytes (b ++ [compactBytesFlag]) v.

(** One turn of the loop of [encode]. *)
Definition encode_one (isComparable : bool) (b : list Z) (d : Datum) : res (list Z) :=
  let k := datum_k d in
  if k =? KindInt64 then Ok (encodeSignedInt b (datum_i d) isComparable)
  else if k =? KindUint64 then Ok (encodeUnsignedInt b (GetUint64 d) isComparable)
  else if (k =? KindFloat32) || (k =? KindFloat64)
    then Ok (EncodeFloat (b ++ [floatFlag]) (GetFloat64 d))
  else if (k =? KindString) || (k =? KindBytes) then Ok (encodeBytes b (datum_b d) isComparable)
  else if k =? KindNull then Ok (b ++ [NilFlag])
  else if k =? KindMinNotNull then Ok (b ++ [bytesFlag])
  else if k =? KindMaxValue then Ok (b ++ [maxFlag])
  else Err "unsupport encode type ".
Definition encode (b : list Z) (vals : list Datum) (isComparable : bool) : res (list Z) :=
  foldlM (encode_one isComparable) b vals.
Definition EncodeKey (b : list Z) (v : list Datum) : res (list Z) := encode b v true.
Definition EncodeValue (b : list Z) (v : list Datum) : res (list Z) := encode b v false.

Definition DecodeOne (b : list Z) : res (list Z * Datum) :=
  match b with
  | [] => Err "invalid encoded key"
  | flag :: b =>
      let d := zero_Datum in
      if flag =? intFlag then '(b, v) ← DecodeInt b; Ok (b, SetInt64 v d)
      else if flag =? uintFlag then '(b, v) ← DecodeUint b; Ok (b, SetUint64 v d)
      else if flag =? varintFlag then '(b, v) ← DecodeVarint b; Ok (b, SetInt64 v d)
      else if flag =? uvarintFlag then '(b, v) ← DecodeUvarint b; Ok (b, SetUint64 v d)
      else if flag =? floatFlag then '(b, v) ← DecodeFloat b; Ok (b, SetFloat64 v d)
      else if flag =? bytesFlag then '(b, v) ← DecodeBytes b; Ok (b, SetBytes v d)
      else if flag =? compactBytesFlag then '(b, v) ← DecodeCompactBytes b; Ok (b, SetBytes v d)
      else if flag =? NilFlag then Ok (b, d)
      else Err "invalid encoded key flag "
  end.

(** Every turn reads at least the flag. *)
Fixpoint decode_loop (fuel : nat) (b : list Z) (values : list Datum) : res (list Datum) :=
  match b with
  | [] => Ok values
  | _ =>
      match fuel with
      | 0%nat => Err "out of fuel"
      | S fuel => '(b, d) ← DecodeOne b; decode_loop fuel b (values ++ [d])
      end
  end.
Definition Decode (b : list Z) : res (list Datum) :=
  if (length b <? 1)%nat then Err "invalid encoded key" else decode_loop (length b) b [].

(** [for v > 0 { size++; v = v >> 7 }] *)
Fixpoint size_loop (fuel : nat) (v size : Z) : Z :=
  match fuel with
  | 0%nat => size
  | S fuel => if v >? 0 then size_loop fuel (Z.shiftr v 7) (size + 1) else size
  end.
Definition valueSizeOfUnsignedInt (v : Z) : Z := size_loop 10 (Z.shiftr v 7) 2.
Definition valueSizeOfSignedInt (v : Z) : Z :=
  let v := if v <? 0 then i64 (i64 (0 - v) - 1) else v in
  size_loop 10 (Z.shiftr v 6) 2.
Definition valueSizeOfBytes (v : list Z) : Z :=
  valueSizeOfSignedInt (i64 (Z.of_nat (length v))) + Z.of_nat (length v).
Definition EstimateValueSize (d : Datum) : res Z :=
  let k := datum_k d in
  if k =? KindInt64 then Ok (valueSizeOfSignedInt (datum_i d))
  else if k =? KindUint64 then Ok (valueSizeOfUnsignedInt (GetUint64 d))
  else if (k =? KindFloat32) || (k =? KindFloat64) || (k =? 13) || (k =? 9) then Ok 9
  else if (k =? KindString) || (k =? KindBytes) then Ok (valueSizeOfBytes (datum_b d))
  else if (k =? KindNull) || (k =? KindMinNotNull) || (k =? KindMaxValue) then Ok 1
  else Err "unsupported encode type ".

(** ** Fixed-width integers: round trips and order *)
Lemma pow256_8 : 256 ^ Z.of_nat 8 = 18446744073709551616.
Proof. reflexivity. Qed.

Lemma be8_value v : is_u64 v → be_value (be_bytes 8 v) = v.
Proof.
  intros Hv. rewrite be_value_bytes, pow256_8. apply Z.mod_small. int_range. lia.
Qed.

Lemma take_be8 v r : take 8 (be_bytes 8 v ++ r) = be_bytes 8 v.
Proof. apply take_app_length'. by rewrite length_be_bytes. Qed.
Lemma drop_be8 v r : drop 8 (be_bytes 8 v ++ r) = r.
Proof. apply drop_app_length'. by rewrite length_be_bytes. Qed.
Lemma length_be8 v r : (length (be_bytes 8 v ++ r) <? 8)%nat = false.
Proof. apply Nat.ltb_ge. rewrite length_app, length_be_bytes. lia. Qed.

Lemma be8_cmp x y rx ry :
  is_u64 x → is_u64 y →
  bytes_cmp (be_bytes 8 x ++ rx) (be_bytes 8 y ++ ry) = then_cmp (x ?= y) (bytes_cmp rx ry).
Proof.
  intros Hx Hy. rewrite bytes_cmp_app by (by rewrite !length_be_bytes).
  rewrite be_bytes_cmp; [done|rewrite pow256_8; int_range; lia..].
Qed.

Lemma EncodeIntToCmpUint_spec v : is_i64 v → EncodeIntToCmpUint v = v + signMask.
Proof.
  intros Hv. unfold EncodeIntToCmpUint, signMask. rewrite lxor_top by apply u64_range.
  rewrite u64_cases by done. int_range. destruct (Z.ltb_spec v 0); case_match; lia.
Qed.

Lemma EncodeIntToCmpUint_range v : is_i64 v → is_u64 (EncodeIntToCmpUint v).
Proof. intros Hv. rewrite EncodeIntToCmpUint_spec by done. unfold signMask. int_range. lia. Qed.

Lemma DecodeCmpUintToInt_spec u : is_u64 u → DecodeCmpUintToInt u = u - signMask.
Proof.
  intros Hu. unfold DecodeCmpUintToInt, signMask. rewrite lxor_top by done.
  destruct (Z.ltb_spec u 9223372036854775808); rewrite i64_cases by (int_range; lia);
    int_range; case_match; lia.
Qed.

Lemma CmpUint_roundtrip v : is_i64 v → DecodeCmpUintToInt (EncodeIntToCmpUint v) = v.
Proof.
  intros Hv. rewrite DecodeCmpUintToInt_spec by by apply EncodeIntToCmpUint_range.
  rewrite EncodeIntToCmpUint_spec by done. lia.
Qed.

Lemma DecodeUint_roundtrip v r : is_u64 v → DecodeUint (be_bytes 8 v ++ r) = Ok (r, v).
Proof. intros Hv. unfold DecodeUint. by rewrite length_be8, drop_be8, take_be8, be8_value. Qed.

Lemma DecodeInt_roundtrip v r :
  is_i64 v → DecodeInt (be_bytes 8 (EncodeIntToCmpUint v) ++ r) = Ok (r, v).
Proof.
  intros Hv. unfold DecodeInt. rewrite length_be8, drop_be8, take_be8.
  by rewrite be8_value, CmpUint_roundtrip by auto using EncodeIntToCmpUint_range.
Qed.

Lemma not64_range x : is_u64 (not64 x).
Proof. apply u64_range. Qed.
Lemma not64_invol x : is_u64 x → not64 (not64 x) = x.
Proof. intros Hx. rewrite !not64_spec by auto using not64_range. lia. Qed.

(** ** Floats *)

(** The order of the float with bits [u], which is not a NaN; both zeros are 0. *)
Definition float_key (u : Z) : Z := if u <? signMask then u else signMask - u.

Lemma float_nonneg_spec u :
  is_u64 u → float_nan u = false → float_nonneg u = (u <=? signMask).
Proof.
  intros Hu Hn. unfold float_nonneg. rewrite Hn. simpl.
  destruct (Z.ltb_spec u signMask), (Z.eqb_spec u signMask), (Z.leb_spec u signMask); simpl; done || lia.
Qed.

Lemma encode_float_spec u :
  is_u64 u → float_nan u = false →
  encodeFloatToCmpUint64 u
  = if float_key u <? 0 then signMask - 1 + float_key u else signMask + float_key u.
Proof.
  intros Hu Hn. unfold encodeFloatToCmpUint64, float_key. rewrite float_nonneg_spec by done.
  destruct (Z.leb_spec u signMask); destruct (Z.ltb_spec u signMask); unfold signMask in *.
  - rewrite lor_top by (int_range; lia). int_range; case_match; lia.
  - replace u with 9223372036854775808 by lia. reflexivity.
  - lia.
  - rewrite not64_spec by done. int_range. case_match; lia.
Qed.

Lemma encode_float_range u : is_u64 u → float_nan u = false → is_u64 (encodeFloatToCmpUint64 u).
Proof.
  intros Hu Hn. rewrite encode_float_spec by done. unfold float_key, signMask. int_range.
  repeat case_match; lia.
Qed.

Lemma encode_float_cmp u v :
  is_u64 u → is_u64 v → float_nan u = false → float_nan v = false →
  (encodeFloatToCmpUint64 u ?= encodeFloatToCmpUint64 v) = (float_key u ?= float_key v).
Proof.
  intros Hu Hv Hun Hvn. rewrite !encode_float_spec by done.
  destruct (Z.compare_spec (float_key u) (float_key v)) as [->|Hlt|Hgt].
  - by rewrite Z.compare_refl.
  - apply Z.compare_lt_iff. repeat case_match; lia.
  - apply Z.compare_gt_iff. repeat case_match; lia.
Qed.

(** Decoding gives the float back; minus zero becomes zero. *)
Definition float_canonical (u : Z) : Z := if u =? signMask then 0 else u.

Lemma land_sign u : is_u64 u → Z.land u signMask = if u <? signMask then 0 else signMask.
Proof.
  intros Hu. unfold signMask. pose proof (lxor_top u Hu) as Hx.
  pose proof (Z.add_lxor_2land u 9223372036854775808) as Ha. rewrite Hx in Ha.
  destruct (Z.ltb_spec u 9223372036854775808); lia.
Qed.

Lemma float_roundtrip u :
  is_u64 u → float_nan u = false →
  decodeCmpUintToFloat (encodeFloatToCmpUint64 u) = float_canonical u.
Proof.
  intros Hu Hn. pose proof (encode_float_range u Hu Hn) as Hr. unfold decodeCmpUintToFloat.
  rewrite land_sign by done. rewrite encode_float_spec in * by done.
  unfold float_canonical, float_key in *. assert (not64 signMask = Z.ones 63) as -> by reflexivity.
  rewrite Z.land_ones by lia. change (2 ^ 63) with signMask.
  destruct (Z.ltb_spec u signMask) as [Hlt|Hge].
  - rewrite (proj2 (Z.ltb_ge u 0)) in * by (int_range; lia).
    rewrite (proj2 (Z.ltb_ge (signMask + u) signMask)) by (int_range; lia). simpl.
    rewrite <- (Z_mod_plus_full _ (-1)), Z.mod_small by (unfold signMask in *; int_range; lia).
    rewrite (proj2 (Z.eqb_neq u signMask)) by lia. lia.
  - destruct (Z.eqb_spec u signMask) as [->|Hne]; [reflexivity|].
    rewrite (proj2 (Z.ltb_lt (signMask - u) 0)) in * by lia.
    rewrite (proj2 (Z.ltb_lt (signMask - 1 + (signMask - u)) signMask)) by lia. simpl.
    rewrite not64_spec by done. unfold signMask. int_range. lia.
Qed.

(** ** Variable-length integers *)
Lemma byte_forall (P : Z → bool) :
  forallb P (seqZ 0 256) = true → ∀ a, is_byte a → P a = true.
Proof.
  intros Hf a Ha. rewrite forallb_forall in Hf. apply Hf, list_elem_of_In, elem_of_seqZ.
  unfold is_byte in Ha. lia.
Qed.

(** The continuation byte of [PutUvarint]. *)
Lemma continuation_byte a :
  is_byte a → 128 ≤ Z.lor a 128 < 256 ∧ Z.land (Z.lor a 128) 127 = a `mod` 128.
Proof.
  intros Ha.
  pose proof (byte_forall (λ a, (128 <=? Z.lor a 128) && (Z.lor a 128 <? 256)
    && (Z.land (Z.lor a 128) 127 =? a `mod` 128)) ltac:(vm_compute; reflexivity) a Ha) as Hb.
  simpl in Hb. apply andb_true_iff in Hb as [Hb Hm]. apply andb_true_iff in Hb as [Hl Hu]. lia.
Qed.

Lemma lor_shifted acc y s : 0 ≤ s → 0 ≤ acc < 2 ^ s → Z.lor acc (y * 2 ^ s) = acc + y * 2 ^ s.
Proof.
  intros Hs Ha. symmetry. apply Z.add_nocarry_lor. rewrite Z.land_comm. by apply land_shifted.
Qed.

Lemma byte_of_mod128 x : byte_of x `mod` 128 = x `mod` 128.
Proof. unfold byte_of. apply Z.mod_mod_divide. by exists 2. Qed.

Lemma uvarint_roundtrip fuel i x acc r :
  (i + fuel = 10)%nat → 0 ≤ x < 2 ^ (64 - 7 * Z.of_nat i) → 0 ≤ acc < 2 ^ (7 * Z.of_nat i) →
  uvarint (put_uvarint fuel x ++ r) i acc (7 * Z.of_nat i)
  = (acc + x * 2 ^ (7 * Z.of_nat i), Z.of_nat i + Z.of_nat (length (put_uvarint fuel x))).
Proof.
  revert i x acc. induction fuel as [|fuel IH]; intros i x acc Hi Hx Hacc.
  { assert (i = 10%nat) as -> by lia. change (64 - 7 * Z.of_nat 10) with (-6) in Hx.
    rewrite Z.pow_neg_r in Hx; lia. }
  set (s := 7 * Z.of_nat i) in *. assert (0 ≤ s) by lia. assert (0 < 2 ^ s) by (apply Z.pow_pos_nonneg; lia).
  assert (2 ^ (64 - s) * 2 ^ s = 18446744073709551616) as Hpow.
  { rewrite <- Z.pow_add_r by lia. by replace (64 - s + s) with 64 by lia. }
  assert (x * 2 ^ s < 18446744073709551616) by nia.
  cbn [put_uvarint]. destruct (Z.geb_spec x 128) as [Hge|Hlt].
  - destruct (continuation_byte (byte_of x) (byte_of_range x)) as [Hb Hm].
    cbn [app uvarint length]. rewrite bool_decide_false by lia.
    rewrite (proj2 (Z.ltb_ge _ _)) by lia. rewrite Hm, byte_of_mod128.
    assert (i ≠ 9%nat). { intros ->. change (64 - s) with 1 in Hx. lia. }
    pose proof (Z.mod_pos_bound x 128 ltac:(lia)) as Hmod.
    assert (x `mod` 128 ≤ x) by (apply Z.mod_le; lia).
    rewrite Z.shiftl_mul_pow2, u64_small by (int_range; nia).
    rewrite lor_shifted by done. replace (s + 7) with (7 * Z.of_nat (S i)) by lia.
    rewrite Z.shiftr_div_pow2 by lia. change (2 ^ 7) with 128.
    assert (2 ^ (7 * Z.of_nat (S i)) = 128 * 2 ^ s) as Hs'.
    { replace (7 * Z.of_nat (S i)) with (7 + s) by lia. by rewrite Z.pow_add_r by lia. }
    rewrite IH; [|lia| |].
    + rewrite Hs'. f_equal; [|lia]. pose proof (Z.div_mod x 128 ltac:(lia)). nia.
    + split; [apply Z.div_pos; lia|]. apply Z.div_lt_upper_bound; [lia|].
      replace (64 - s) with (7 + (64 - 7 * Z.of_nat (S i))) in Hx by lia.
      rewrite Z.pow_add_r in Hx by lia. lia.
    + rewrite Hs'. nia.
  - cbn [app uvarint length]. rewrite byte_of_small by (unfold is_byte; lia).
    rewrite bool_decide_false by lia. rewrite (proj2 (Z.ltb_lt x 128)) by lia.
    assert (bool_decide (i = 9%nat) && (x >? 1) = false) as ->.
    { case_bool_decide as H9; [|done]. simpl. subst i. change (64 - s) with 1 in Hx.
      rewrite Z.gtb_ltb. apply Z.ltb_ge. lia. }
    rewrite Z.shiftl_mul_pow2, u64_small by (int_range; nia).
    rewrite lor_shifted by done. done.
Qed.

Lemma length_put_uvarint fuel x : (0 < length (put_uvarint (S fuel) x))%nat.
Proof. cbn [put_uvarint]. destruct (x >=? 128); cbn [length]; lia. Qed.

Lemma length_PutUvarint x : (0 < length (PutUvarint x))%nat.
Proof. apply (length_put_uvarint 9). Qed.

Lemma Uvarint_roundtrip x r :
  is_u64 x → Uvarint (PutUvarint x ++ r) = (x, Z.of_nat (length (PutUvarint x))).
Proof.
  intros Hx. unfold Uvarint. pose proof (uvarint_roundtrip 10 0 x 0 r) as Hr.
  unfold PutUvarint. change (7 * Z.of_nat 0) with 0 in Hr. rewrite Hr; [f_equal; lia|lia| |lia].
  change (2 ^ (64 - 0)) with 18446744073709551616. int_range. lia.
Qed.

Lemma varint_result_app e r v :
  (0 < length e)%nat → varint_result (e ++ r) (v, Z.of_nat (length e)) = Ok (r, v).
Proof.
  intros He. unfold varint_result. rewrite Z.gtb_ltb, (proj2 (Z.ltb_lt _ _)) by lia.
  by rewrite Nat2Z.id, drop_app_length.
Qed.

Lemma DecodeUvarint_roundtrip v r : is_u64 v → DecodeUvarint (PutUvarint v ++ r) = Ok (r, v).
Proof.
  intros Hv. unfold DecodeUvarint. rewrite Uvarint_roundtrip by done.
  apply varint_result_app, length_PutUvarint.
Qed.

(** The zig-zag image of [v]. *)
Definition zigzag (v : Z) : Z := if v <? 0 then - 2 * v - 1 else 2 * v.

Lemma PutVarint_zigzag v : is_i64 v → PutVarint v = PutUvarint (zigzag v).
Proof.
  intros Hv. unfold PutVarint, zigzag. f_equal. rewrite Z.shiftl_mul_pow2 by lia.
  rewrite (u64_cases v Hv). destruct (Z.ltb_spec v 0).
  - assert (u64 ((v + 18446744073709551616) * 2 ^ 1) = 2 * v + 18446744073709551616) as ->.
    { unfold u64. rewrite <- (Z_mod_plus_full _ (-1)), Z.mod_small; int_range; lia. }
    rewrite not64_spec; int_range; lia.
  - rewrite u64_small; int_range; lia.
Qed.

Lemma zigzag_range v : is_i64 v → is_u64 (zigzag v).
Proof. unfold zigzag. int_range. intros. case_match; lia. Qed.

Lemma DecodeVarint_roundtrip v r : is_i64 v → DecodeVarint (PutVarint v ++ r) = Ok (r, v).
Proof.
  intros Hv. unfold DecodeVarint, Varint. rewrite PutVarint_zigzag by done.
  rewrite Uvarint_roundtrip by by apply zigzag_range.
  assert ((if bool_decide (Z.land (zigzag v) 1 ≠ 0)
           then i64 (Z.lnot (i64 (Z.shiftr (zigzag v) 1))) else i64 (Z.shiftr (zigzag v) 1)) = v) as ->.
  { pose proof (Z.land_ones (zigzag v) 1 ltac:(lia)) as Hl. change (Z.ones 1) with 1 in Hl.
    rewrite Hl, Z.shiftr_div_pow2 by lia.
    change (2 ^ 1) with 2. unfold zigzag, Z.lnot. destruct (Z.ltb_spec v 0).
    - replace (-2 * v - 1) with (1 + (- v - 1) * 2) by lia.
      rewrite Z_mod_plus_full, Z_div_plus_full by lia. change (1 `div` 2) with 0.
      rewrite Z.add_0_l, bool_decide_true by done.
      rewrite (i64_small (- v - 1)) by (int_range; lia). rewrite i64_small; int_range; lia.
    - rewrite (Z.mul_comm 2), Z_mod_mult, Z_div_mult by lia. simpl. by apply i64_small. }
  apply varint_result_app, length_PutUvarint.
Qed.

(** ** Byte strings *)

(** The first [n] bytes of [d], padded with zeros. *)
Definition pad (n : nat) (d : list Z) : list Z := take n (d ++ replicate n 0).

Lemma pad_nil n : pad n [] = replicate n 0.
Proof. unfold pad. apply take_ge. by rewrite length_replicate. Qed.
Lemma pad_cons n x d : pad (S n) (x :: d) = x :: pad n d.
Proof.
  unfold pad. cbn [app take]. f_equal. rewrite replicate_S_end, (assoc_L (++)).
  apply take_app_le. rewrite length_app, length_replicate. lia.
Qed.
Lemma length_pad n d : length (pad n d) = n.
Proof. unfold pad. rewrite length_take, length_app, length_replicate. lia. Qed.
Lemma pad_long n d : (n ≤ length d)%nat → pad n d = take n d.
Proof. apply take_app_le. Qed.
Lemma pad_short n d : (length d ≤ n)%nat → pad n d = d ++ replicate (n - length d) 0.
Proof.
  intros Hl. unfold pad. rewrite take_app_ge, take_replicate by done. do 2 f_equal. lia.
Qed.
Lemma pad_bytes n d : is_bytes d → is_bytes (pad n d).
Proof.
  intros Hd. apply Forall_take, Forall_app. split; [done|]. apply Forall_replicate.
  unfold is_byte. lia.
Qed.

Lemma encode_groups_acc fuel data idx result :
  encode_groups fuel data idx result = result ++ encode_groups fuel data idx [].
Proof.
  revert idx result. induction fuel as [|fuel IH]; intros idx result; cbn [encode_groups].
  { by rewrite app_nil_r. }
  destruct (idx <=? length data)%nat; [|by rewrite app_nil_r].
  destruct (encGroupSize <=? length data - idx)%nat;
    rewrite (IH _ (result ++ _)), (IH _ ([] ++ _)), app_nil_l; by rewrite <- !(assoc_L (++)).
Qed.

Lemma encode_groups_drop fuel data idx :
  (8 ≤ length data)%nat →
  encode_groups fuel data (8 + idx) [] = encode_groups fuel (drop 8 data) idx [].
Proof.
  intros Hd. revert idx. induction fuel as [|fuel IH]; intros idx; [done|]. cbn [encode_groups].
  rewrite length_drop, drop_drop.
  replace (8 + idx <=? length data)%nat with (idx <=? length data - 8)%nat
    by (destruct (Nat.leb_spec idx (length data - 8)), (Nat.leb_spec (8 + idx) (length data)); lia).
  replace (length data - (8 + idx))%nat with (length data - 8 - idx)%nat by lia.
  destruct (idx <=? length data - 8)%nat; [|done].
  destruct (encGroupSize <=? length data - 8 - idx)%nat;
    rewrite encode_groups_acc, (encode_groups_acc _ (drop 8 data)); f_equal;
    rewrite <- Nat.add_assoc; apply IH.
Qed.

Lemma EncodeBytes_acc b d : EncodeBytes b d = b ++ EncodeBytes [] d.
Proof. apply encode_groups_acc. Qed.

(** One group, its marker, and the groups of the rest. *)
Lemma EncodeBytes_unfold d :
  EncodeBytes [] d
  = pad 8 d ++ (247 + Z.of_nat (length d `min` 8))
    :: (if (8 <=? length d)%nat then EncodeBytes [] (drop 8 d) else []).
Proof.
  unfold EncodeBytes at 1. replace (length d / encGroupSize + 2)%nat
    with (S (S (length d / encGroupSize))) by lia.
  remember (S (length d / encGroupSize)) as fuel eqn:Hfuel. cbn [encode_groups].
  rewrite Nat.sub_0_r, drop_0. unfold encGroupSize. change (0 <=? length d)%nat with true. cbn [app].
  destruct (Nat.leb_spec 8 (length d)) as [Hl|Hl].
  - rewrite encode_groups_acc, <- (assoc_L (++)), pad_long by done. f_equal. cbn [app]. f_equal.
    + rewrite Nat.min_r by lia. reflexivity.
    + pose proof (encode_groups_drop fuel d 0 Hl) as Hdrop.
      rewrite Nat.add_0_r in Hdrop. cbn [Nat.add] in *. rewrite Hdrop, Hfuel.
      unfold EncodeBytes, encGroupSize. f_equal. rewrite length_drop.
      replace (length d) with ((length d - 8) + 1 * 8)%nat at 1 by lia.
      rewrite Nat.div_add by lia. lia.
  - rewrite Hfuel. cbn [Nat.add encode_groups].
    rewrite (proj2 (Nat.leb_gt 8 (length d))) by done.
    rewrite (pad_short 8) by lia. f_equal. f_equal.
    rewrite Nat.min_l, byte_of_small by (unfold is_byte, encMarker; lia). unfold encMarker. lia.
Qed.

(** Strong induction on the length. *)
Lemma list_len_ind {A} (P : list A → Prop) :
  (∀ d, (∀ d', (length d' < length d)%nat → P d') → P d) → ∀ d, P d.
Proof. intros HP d. induction (Wf_nat.well_founded_ltof _ (@length A) d) as [d _ IH]. by apply HP. Qed.

Lemma EncodeBytes_bytes d : is_bytes d → is_bytes (EncodeBytes [] d).
Proof.
  induction d as [d IH] using list_len_ind. intros Hd. rewrite EncodeBytes_unfold.
  apply Forall_app. split; [by apply pad_bytes|]. constructor; [unfold is_byte; lia|].
  destruct (Nat.leb_spec 8 (length d)); [|constructor]. apply IH; [|by apply Forall_drop].
  rewrite length_drop. lia.
Qed.

(** Comparing padded groups. *)
Lemma pad_cmp n d1 d2 :
  is_bytes d1 → is_bytes d2 →
  bytes_cmp d1 d2
  = then_cmp (bytes_cmp (pad n d1) (pad n d2))
      (then_cmp (Nat.compare (length d1 `min` n) (length d2 `min` n))
         (bytes_cmp (drop n d1) (drop n d2))).
Proof.
  revert d1 d2. induction n as [|n IH]; intros d1 d2 H1 H2.
  { rewrite !Nat.min_0_r. by destruct d1, d2. }
  destruct H1 as [|x d1 Hx H1], H2 as [|y d2 Hy H2]; rewrite ?pad_cons, ?pad_nil.
  - by rewrite (bytes_cmp_refl (replicate _ _)).
  - cbn [replicate bytes_cmp]. unfold is_byte in Hy.
    destruct (Z.compare_spec 0 y) as [<-|?|?]; [|done|lia].
    specialize (IH [] d2 (Forall_nil_2 _) H2). rewrite pad_nil in IH.
    destruct (bytes_cmp (replicate n 0) (pad n d2)); [done|done|]. simpl in IH. by destruct d2.
  - cbn [replicate bytes_cmp]. unfold is_byte in Hx.
    destruct (Z.compare_spec x 0) as [->|?|?]; [|lia|done].
    specialize (IH d1 [] H1 (Forall_nil_2 _)). rewrite pad_nil in IH.
    destruct (bytes_cmp (pad n d1) (replicate n 0)); [done| |done]. simpl in IH. by destruct d1.
  - cbn [bytes_cmp length Nat.min drop Nat.compare]. destruct (x ?= y); [|done..]. by apply IH.
Qed.

Lemma then_cmp_assoc a b c : then_cmp (then_cmp a b) c = then_cmp a (then_cmp b c).
Proof. by destruct a. Qed.

(** [EncodeBytes] keeps the order, whatever follows. *)
Lemma EncodeBytes_cmp d1 d2 r1 r2 :
  is_bytes d1 → is_bytes d2 →
  bytes_cmp (EncodeBytes [] d1 ++ r1) (EncodeBytes [] d2 ++ r2)
  = then_cmp (bytes_cmp d1 d2) (bytes_cmp r1 r2).
Proof.
  revert d2. induction d1 as [d1 IH] using list_len_ind. intros d2 H1 H2.
  rewrite (EncodeBytes_unfold d1), (EncodeBytes_unfold d2), <- !(assoc_L (++)).
  rewrite bytes_cmp_app by (by rewrite !length_pad). rewrite (pad_cmp 8 d1 d2) by done.
  rewrite !then_cmp_assoc. f_equal. cbn [app bytes_cmp].
  destruct (Nat.compare_spec (length d1 `min` 8) (length d2 `min` 8)) as [He|Hl|Hg].
  - rewrite He, Z.compare_refl. cbn [then_cmp].
    destruct (Nat.leb_spec 8 (length d1)), (Nat.leb_spec 8 (length d2)); [|lia|lia|].
    + apply IH; [rewrite length_drop; lia|by apply Forall_drop..].
    + by rewrite !drop_ge by lia.
  - by rewrite (proj2 (Z.compare_lt_iff _ _)) by lia.
  - by rewrite (proj2 (Z.compare_gt_iff _ _)) by lia.
Qed.

(** Decoding, in both directions: [orient true] is the descending form. *)
Definition orient (reverse : bool) (l : list Z) : list Z :=
  if reverse then reverseBytes l else l.

Lemma orient_app v l k : orient v (l ++ k) = orient v l ++ orient v k.
Proof. destruct v; [|done]. apply fmap_app. Qed.
Lemma orient_take v n l : take n (orient v l) = orient v (take n l).
Proof. destruct v; [|done]. symmetry. apply fmap_take. Qed.
Lemma orient_drop v n l : drop n (orient v l) = orient v (drop n l).
Proof. destruct v; [|done]. symmetry. apply fmap_drop. Qed.
Lemma length_orient v l : length (orient v l) = length l.
Proof. destruct v; [|done]. apply length_fmap. Qed.
Lemma not8_invol x : is_byte x → not8 (not8 x) = x.
Proof.
  intros Hx. rewrite (not8_spec x) by done. rewrite not8_spec; unfold is_byte in *; lia.
Qed.
Lemma orient_invol v l : is_bytes l → orient v (orient v l) = l.
Proof.
  destruct v; [|done]. unfold orient, reverseBytes. rewrite <- list_fmap_compose.
  induction 1 as [|x l Hx Hl IH]; [done|]. cbn [fmap list_fmap]. f_equal; [by apply not8_invol|exact IH].
Qed.

(** A turn of the loop on a group [g] with marker [m]. *)
Lemma decode_groups_step fuel g m b buf v :
  length g = 8%nat →
  decode_groups (S fuel) (g ++ m :: b) buf v =
  let padCount := if v then m else byte_of (encMarker - m) in
  if padCount >? 8 then Err "invalid marker byte, group bytes "
  else
    let n := (8 - Z.to_nat padCount)%nat in
    if bool_decide (padCount ≠ 0) then
      if forallb (λ x, x =? if v then encMarker else encPad) (drop n g)
      then Ok (b, orient v (buf ++ take n g))
      else Err "invalid padding byte, group bytes "
    else decode_groups fuel b (buf ++ take n g) v.
Proof.
  intros Hg. cbn [decode_groups]. unfold encGroupSize.
  rewrite (proj2 (Nat.ltb_ge _ _)) by (rewrite length_app, Hg; cbn [length]; lia).
  rewrite (take_app_length' g _ 8) by done.
  assert (nth 8 (g ++ m :: b) 0 = m) as -> by (rewrite <- Hg; apply nth_middle).
  assert (drop (8 + 1) (g ++ m :: b) = b) as ->.
  { rewrite <- drop_drop, drop_app_length' by done. done. }
  by destruct v.
Qed.

Lemma forallb_replicate n x : forallb (λ y, y =? x) (replicate n x) = true.
Proof. induction n; cbn; [done|]. by rewrite Z.eqb_refl. Qed.

Lemma orient_pads v n :
  orient v (replicate n 0) = replicate n (if v then encMarker else encPad).
Proof. destruct v; [|done]. unfold orient, reverseBytes. by rewrite fmap_replicate. Qed.

Lemma decode_groups_roundtrip fuel d r buf v :
  is_bytes d → is_bytes buf → (length d < 8 * fuel)%nat →
  decode_groups fuel (orient v (EncodeBytes [] d) ++ r) (orient v buf) v = Ok (r, buf ++ d).
Proof.
  revert d buf. induction fuel as [|fuel IH]; intros d buf Hd Hbuf Hf; [lia|].
  rewrite EncodeBytes_unfold.
  change (?x :: ?l) with ([x] ++ l). rewrite !orient_app, <- !(assoc_L (++)).
  set (m := 247 + Z.of_nat (length d `min` 8)).
  assert (orient v [m] = [if v then 255 - m else m]) as ->.
  { destruct v; [|done]. unfold orient, reverseBytes. cbn. f_equal. apply not8_spec.
    unfold m, is_byte. lia. }
  cbn [app]. rewrite decode_groups_step by (by rewrite length_orient, length_pad).
  assert ((if v then if v then 255 - m else m else byte_of (encMarker - (if v then 255 - m else m)))
          = 8 - Z.of_nat (length d `min` 8)) as ->.
  { destruct v; [unfold m; lia|]. unfold encMarker. rewrite byte_of_small; unfold m, is_byte; lia. }
  cbn zeta. rewrite Z.gtb_ltb, (proj2 (Z.ltb_ge _ _)) by lia.
  replace (8 - Z.to_nat (8 - Z.of_nat (length d `min` 8)))%nat with (length d `min` 8)%nat by lia.
  rewrite orient_take, orient_drop, <- orient_app.
  destruct (Nat.leb_spec 8 (length d)) as [Hl|Hl].
  - rewrite Nat.min_r by lia. rewrite bool_decide_false by lia.
    rewrite pad_long, take_take, Nat.min_id by done.
    rewrite IH; [|by apply Forall_drop| |rewrite length_drop; lia];
      [|apply Forall_app; split; [done|by apply Forall_take]].
    by rewrite <- (assoc_L (++)), take_drop.
  - rewrite Nat.min_l by lia. rewrite bool_decide_true by lia.
    rewrite (pad_short 8) by lia. rewrite drop_app_length, take_app_length, orient_pads.
    rewrite forallb_replicate. rewrite orient_invol; [by destruct v|by apply Forall_app].
Qed.

Lemma length_EncodeBytes d : (length d ≤ length (EncodeBytes [] d))%nat.
Proof.
  induction d as [d IH] using list_len_ind. rewrite EncodeBytes_unfold, length_app, length_pad.
  cbn [length]. destruct (Nat.leb_spec 8 (length d)); [|lia].
  specialize (IH (drop 8 d)). rewrite length_drop in IH. lia.
Qed.

Lemma decodeBytes_roundtrip d r v :
  is_bytes d → decodeBytes (orient v (EncodeBytes [] d) ++ r) v = Ok (r, d).
Proof.
  intros Hd. unfold decodeBytes.
  pose proof (decode_groups_roundtrip (S (length (orient v (EncodeBytes [] d) ++ r))) d r [] v Hd)
    as Hrt.
  assert (orient v [] = []) as Hnil by by destruct v. rewrite Hnil in Hrt.
  apply Hrt; [constructor|]. rewrite length_app, length_orient. pose proof (length_EncodeBytes d). lia.
Qed.

Lemma DecodeBytes_roundtrip d r : is_bytes d → DecodeBytes (EncodeBytes [] d ++ r) = Ok (r, d).
Proof. apply (decodeBytes_roundtrip d r false). Qed.

(** What decodes is an encoding. *)
Lemma forallb_eq_replicate x l : forallb (λ y, y =? x) l = true → l = replicate (length l) x.
Proof.
  induction l as [|y l IH]; cbn; [done|]. intros [Hy Hl]%andb_true_iff.
  apply Z.eqb_eq in Hy as ->. f_equal. by apply IH.
Qed.

Lemma decode_groups_canonical fuel b buf r out :
  is_bytes b → decode_groups fuel b buf false = Ok (r, out) →
  ∃ d, out = buf ++ d ∧ b = EncodeBytes [] d ++ r.
Proof.
  revert b buf. induction fuel as [|fuel IH]; intros b buf Hb Hd; [discriminate|].
  assert (9 ≤ length b)%nat as Hlen.
  { cbn [decode_groups] in Hd. unfold encGroupSize in Hd.
    destruct (Nat.ltb_spec (length b) (8 + 1)); [discriminate|lia]. }
  destruct (drop 8 b) as [|m b'] eqn:Hdrop.
  { apply (f_equal length) in Hdrop. rewrite length_drop in Hdrop. simpl in Hdrop. lia. }
  assert (∃ g, length g = 8%nat ∧ b = g ++ m :: b') as (g & Hg & ->).
  { exists (take 8 b). rewrite <- Hdrop, take_drop, length_take. split; [lia|done]. }
  apply Forall_app in Hb as [Hbg Hb]. apply Forall_cons in Hb as [Hm Hb'].
  rewrite decode_groups_step in Hd by done. cbn zeta in Hd.
  assert (byte_of (encMarker - m) = 255 - m) as Hpad.
  { unfold encMarker. apply byte_of_small. unfold is_byte in *. lia. }
  rewrite Hpad in Hd. rewrite Z.gtb_ltb in Hd.
  destruct (Z.ltb_spec 8 (255 - m)) as [|Hm8]; [discriminate|].
  set (n := (8 - Z.to_nat (255 - m))%nat) in *. unfold is_byte in Hm.
  case_bool_decide as Hz.
  - destruct (forallb _ _) eqn:Hall; [|discriminate]. apply forallb_eq_replicate in Hall.
    injection Hd as <- <-. exists (take n g). split; [done|].
    assert (length (take n g) = n) as Hn by (rewrite length_take; lia).
    rewrite EncodeBytes_unfold, Hn, (pad_short 8) by lia.
    rewrite (proj2 (Nat.leb_gt _ _)), Nat.min_l, Hn by lia.
    rewrite <- (assoc_L (++)). cbn [app]. rewrite length_drop, Hg in Hall.
    rewrite <- (take_drop n g) at 1. rewrite Hall, <- !(assoc_L (++)).
    do 2 f_equal. cbn [app]. f_equal. lia.
  - assert (n = 8%nat) as Hn by lia. rewrite Hn, take_ge in Hd by lia.
    destruct (IH _ _ Hb' Hd) as (d & -> & ->). exists (g ++ d). rewrite <- (assoc_L (++)).
    split; [done|]. rewrite (EncodeBytes_unfold (g ++ d)).
    rewrite (proj2 (Nat.leb_le _ _)) by (rewrite length_app; lia).
    rewrite pad_long, take_app_length', drop_app_length' by (rewrite ?length_app; lia).
    rewrite <- (assoc_L (++)). cbn [app]. do 2 f_equal. rewrite length_app. lia.
Qed.

Lemma EncodeBytes_bytes_inv d : is_bytes (EncodeBytes [] d) → is_bytes d.
Proof.
  induction d as [d IH] using list_len_ind. rewrite EncodeBytes_unfold.
  intros [Hp Hr]%Forall_app. apply Forall_cons in Hr as [_ Hr].
  destruct (Nat.leb_spec 8 (length d)) as [Hl|Hl].
  - rewrite pad_long in Hp by done. rewrite <- (take_drop 8 d). apply Forall_app.
    split; [done|]. apply IH; [rewrite length_drop; lia|done].
  - rewrite pad_short in Hp by lia. by apply Forall_app in Hp as [].
Qed.

Lemma DecodeBytes_canonical b r d :
  is_bytes b → DecodeBytes b = Ok (r, d) → is_bytes d ∧ b = EncodeBytes [] d ++ r.
Proof.
  intros Hb Hd. apply decode_groups_canonical in Hd as (d' & -> & ->); [|done].
  split; [|done]. apply Forall_app in Hb as [Hb _]. by apply EncodeBytes_bytes_inv.
Qed.

(** ** Comparable variable-length integers *)

(** The three shapes of an encoding. *)
Inductive varint_code : Z → list Z → Prop :=
| code_single v : 0 ≤ v ≤ 239 → varint_code v [v + 8]
| code_positive (k : nat) v :
    (k < 8)%nat → 256 ^ Z.of_nat k ≤ Z.max v 1 → 240 ≤ v < 256 ^ Z.of_nat (S k) →
    varint_code v (248 + Z.of_nat k :: be_bytes (S k) v)
| code_negative (k : nat) v :
    (k < 8)%nat → - 256 ^ Z.of_nat (S k) < v ≤ - 256 ^ Z.of_nat k →
    varint_code v (7 - Z.of_nat k :: be_bytes (S k) v).

Lemma comparable_uvarint_code v : is_u64 v → varint_code v (EncodeComparableUvarint [] v).
Proof.
  int_range. intros Hv. unfold EncodeComparableUvarint, positiveTagStart, negativeTagEnd.
  cbn [app]. destruct (Z.leb_spec v (247 - 8)).
  { rewrite (byte_of_small v) by (unfold is_byte; lia).
    rewrite byte_of_small by (unfold is_byte; lia). constructor. lia. }
  repeat match goal with
  | |- context [if v <=? ?c then _ else _] => destruct (Z.leb_spec v c)
  end;
  match goal with |- varint_code v (?t :: be_bytes (S ?k) v) => apply (code_positive k) end;
  cbn; lia.
Qed.

Lemma comparable_varint_code v : is_i64 v → varint_code v (EncodeComparableVarint [] v).
Proof.
  intros Hv. unfold EncodeComparableVarint. destruct (Z.ltb_spec v 0).
  2: { rewrite u64_small by (int_range; lia). apply comparable_uvarint_code. int_range. lia. }
  unfold negativeTagEnd. int_range. cbn [app].
  repeat match goal with
  | |- context [if v >=? ?c then _ else _] => destruct (Z.geb_spec v c)
  end;
  match goal with |- varint_code v (?t :: be_bytes (S ?k) v) => apply (code_negative k) end;
  cbn; lia.
Qed.

Lemma pow256_le (k l : nat) : (k ≤ l)%nat → 256 ^ Z.of_nat k ≤ 256 ^ Z.of_nat l.
Proof. intros. apply Z.pow_le_mono_r; lia. Qed.

Lemma pow256_1 : 256 ^ Z.of_nat 1 = 256.
Proof. reflexivity. Qed.

(** Bytes of numbers that agree on everything above [n] bytes. *)
Lemma be_bytes_cmp_block n q x y rx ry :
  q * 256 ^ Z.of_nat n ≤ x < (q + 1) * 256 ^ Z.of_nat n →
  q * 256 ^ Z.of_nat n ≤ y < (q + 1) * 256 ^ Z.of_nat n →
  bytes_cmp (be_bytes n x ++ rx) (be_bytes n y ++ ry) = then_cmp (x ?= y) (bytes_cmp rx ry).
Proof.
  intros Hx Hy. pose proof (pow256_pos n).
  assert (∀ m z, (m ≤ n)%nat → be_bytes m z = be_bytes m (z - q * 256 ^ Z.of_nat n)) as Hshift.
  { induction m as [|m IH]; intros z Hm; [done|]. cbn [be_bytes]. f_equal; [|apply IH; lia].
    rewrite !be_head. unfold byte_of.
    replace (256 ^ Z.of_nat n) with (256 ^ Z.of_nat (n - S m) * 256 * 256 ^ Z.of_nat m).
    - replace (z - q * (256 ^ Z.of_nat (n - S m) * 256 * 256 ^ Z.of_nat m))
        with (z + (- q * 256 ^ Z.of_nat (n - S m) * 256) * 256 ^ Z.of_nat m) by lia.
      rewrite Z_div_plus_full by (pose proof (pow256_pos m); lia). symmetry. apply Z_mod_plus_full.
    - rewrite <- Z.mul_assoc, <- pow256_succ, <- Z.pow_add_r by lia. f_equal. lia. }
  rewrite bytes_cmp_app by by rewrite !length_be_bytes. f_equal.
  rewrite (Hshift n x), (Hshift n y), be_bytes_cmp by lia.
  destruct (Z.compare_spec x y) as [->|?|?];
    [apply Z.compare_refl|apply Z.compare_lt_iff; lia|apply Z.compare_gt_iff; lia].
Qed.

Lemma varint_code_cmp x y cx cy rx ry :
  varint_code x cx → varint_code y cy →
  bytes_cmp (cx ++ rx) (cy ++ ry) = then_cmp (x ?= y) (bytes_cmp rx ry).
Proof.
  assert (∀ a b l1 l2 : Z, a < b → l1 < l2 → ∀ p q, match l1 ?= l2 with Eq => p | c => c end
            = then_cmp (a ?= b) q) as Hlt.
  { intros a b l1 l2 H1 H2 p q. by rewrite (proj2 (Z.compare_lt_iff a b) H1), (proj2 (Z.compare_lt_iff _ _) H2). }
  assert (∀ a b l1 l2 : Z, b < a → l2 < l1 → ∀ p q, match l1 ?= l2 with Eq => p | c => c end
            = then_cmp (a ?= b) q) as Hgt.
  { intros a b l1 l2 H1 H2 p q. by rewrite (proj2 (Z.compare_gt_iff a b) H1), (proj2 (Z.compare_gt_iff _ _) H2). }
  destruct 1 as [x Hx|k x Hk Hlow Hx|k x Hk Hx], 1 as [y Hy|l y Hl Hlowy Hy|l y Hl Hy];
    cbn [app bytes_cmp];
    try (pose proof (pow256_pos k)); try (pose proof (pow256_pos l));
    try (apply Hlt; lia); try (apply Hgt; lia).
  - destruct (Z.compare_spec x y); [subst; by rewrite Z.compare_refl| |];
      [rewrite (proj2 (Z.compare_lt_iff _ _)) by lia|rewrite (proj2 (Z.compare_gt_iff _ _)) by lia]; done.
  - destruct (lt_eq_lt_dec k l) as [[Hkl| ->]|Hkl].
    + pose proof (pow256_le (S k) l Hkl). apply Hlt; lia.
    + rewrite Z.compare_refl. apply (be_bytes_cmp_block (S l) 0); lia.
    + pose proof (pow256_le (S l) k Hkl). apply Hgt; lia.
  - destruct (lt_eq_lt_dec k l) as [[Hkl| ->]|Hkl].
    + pose proof (pow256_le (S k) l Hkl). apply Hgt; lia.
    + rewrite Z.compare_refl. apply (be_bytes_cmp_block (S l) (-1)); lia.
    + pose proof (pow256_le (S l) k Hkl). apply Hlt; lia.
Qed.

(** Shifting bytes into a word. *)
Lemma shift_in_spec v l :
  is_bytes l → is_u64 v → shift_in v l = u64 (v * 256 ^ Z.of_nat (length l) + be_value l).
Proof.
  intros Hl. revert v. induction Hl as [|c l Hc Hl IH]; intros v Hv.
  { cbn. rewrite Z.mul_1_r, Z.add_0_r. symmetry. by apply u64_small. }
  unfold shift_in. cbn [foldl]. fold (shift_in (Z.lor (u64 (Z.shiftl v 8)) c) l).
  assert (Z.lor (u64 (Z.shiftl v 8)) c = u64 (v * 256 + c)) as ->.
  { rewrite Z.shiftl_mul_pow2 by lia. change (2 ^ 8) with 256. unfold u64.
    change 18446744073709551616 with (72057594037927936 * 256).
    rewrite Z.mul_mod_distr_r by lia.
    rewrite <- Z.add_nocarry_lor by (apply (land_shifted _ c 8); unfold is_byte in *; lia).
    rewrite (Z.add_mod (v * 256)), Z.mul_mod_distr_r by lia. unfold is_byte in Hc.
    rewrite (Z.mod_small c) by lia. symmetry. apply Z.mod_small.
    pose proof (Z.mod_pos_bound v 72057594037927936 ltac:(lia)). lia. }
  rewrite IH by apply u64_range. rewrite be_value_cons by done. cbn [length]. rewrite pow256_succ.
  unfold u64. rewrite <- (Z.add_mod_idemp_l (_ * _)), Z.mul_mod_idemp_l, Z.add_mod_idemp_l by lia.
  f_equal. lia.
Qed.

Lemma take_be_bytes n v r : take n (be_bytes n v ++ r) = be_bytes n v.
Proof. apply take_app_length'. by rewrite length_be_bytes. Qed.
Lemma drop_be_bytes n v r : drop n (be_bytes n v ++ r) = r.
Proof. apply drop_app_length'. by rewrite length_be_bytes. Qed.

Lemma shift_in_be_bytes (k : nat) c v :
  (k < 8)%nat → c = 0 ∧ 0 ≤ v < 256 ^ Z.of_nat (S k)
                ∨ c = MaxUint64 ∧ - 256 ^ Z.of_nat (S k) ≤ v < 0 →
  shift_in c (be_bytes (S k) v) = u64 v.
Proof.
  intros Hk Hc. pose proof (pow256_pos (S k)).
  rewrite shift_in_spec, length_be_bytes, be_value_bytes
    by (apply be_bytes_bytes || (int_range; lia)).
  destruct Hc as [[-> Hv]|[-> Hv]].
  - by rewrite Z.mod_small.
  - rewrite <- (Z_mod_plus_full v 1), Z.mod_small by lia. unfold u64, MaxUint64.
    replace (18446744073709551615 * 256 ^ Z.of_nat (S k) + (v + 1 * 256 ^ Z.of_nat (S k)))
      with (v + 256 ^ Z.of_nat (S k) * 18446744073709551616) by lia.
    apply Z_mod_plus_full.
Qed.

Lemma DecodeComparableUvarint_roundtrip v r :
  is_u64 v → DecodeComparableUvarint (EncodeComparableUvarint [] v ++ r) = Ok (r, v).
Proof.
  intros Hv. destruct (comparable_uvarint_code v Hv) as [v Hs|k v Hk Hlow Hr|k v Hk Hr];
    cbn [app DecodeComparableUvarint]; unfold negativeTagEnd, positiveTagStart.
  - rewrite (proj2 (Z.ltb_ge _ _)), (proj2 (Z.leb_le _ _)) by lia. do 2 f_equal. lia.
  - rewrite (proj2 (Z.ltb_ge _ _)), (proj2 (Z.leb_gt _ _)) by lia.
    replace (Z.to_nat (248 + Z.of_nat k - 247)) with (S k) by lia.
    rewrite (proj2 (Nat.ltb_ge _ _)) by (rewrite length_app, length_be_bytes; lia).
    rewrite drop_be_bytes, take_be_bytes, shift_in_be_bytes by (done || (left; lia)).
    by rewrite u64_small.
  - pose proof (pow256_pos k). int_range. lia.
Qed.

Lemma DecodeComparableVarint_spec v r :
  is_i64 v →
  let code := EncodeComparableVarint [] v in
  DecodeComparableVarint (code ++ r)
  = Ok (if (0 <=? v) && (v <=? 239) then code ++ r else r, v).
Proof.
  intros Hv code. destruct (comparable_varint_code v Hv) as [v Hs|k v Hk Hlow Hr|k v Hk Hr];
    subst code; cbn [app DecodeComparableVarint]; unfold negativeTagEnd, positiveTagStart.
  - rewrite !(proj2 (Z.leb_le _ _)) by lia. cbn [andb]. do 2 f_equal. lia.
  - assert ((8 <=? 248 + Z.of_nat k) && (248 + Z.of_nat k <=? 247) = false) as ->.
    { apply andb_false_iff. right. apply Z.leb_gt. lia. }
    rewrite (proj2 (Z.ltb_ge _ _)) by lia.
    replace (Z.to_nat (248 + Z.of_nat k - 247)) with (S k) by lia.
    rewrite (proj2 (Nat.ltb_ge _ _)) by (rewrite length_app, length_be_bytes; lia).
    rewrite drop_be_bytes, take_be_bytes, shift_in_be_bytes by (done || (left; lia)).
    rewrite u64_small by (int_range; lia).
    rewrite (Z.gtb_ltb v), (proj2 (Z.ltb_ge MaxInt64 v)), andb_false_r by (int_range; lia). cbn [andb].
    rewrite i64_small by done. rewrite (proj2 (Z.leb_gt v 239)), andb_false_r by lia. done.
  - pose proof (pow256_pos k).
    assert ((8 <=? 7 - Z.of_nat k) && (7 - Z.of_nat k <=? 247) = false) as ->.
    { apply andb_false_iff. left. apply Z.leb_gt. lia. }
    rewrite (proj2 (Z.ltb_lt (7 - Z.of_nat k) 8)) by lia.
    replace (Z.to_nat (8 - (7 - Z.of_nat k))) with (S k) by lia.
    rewrite (proj2 (Nat.ltb_ge _ _)) by (rewrite length_app, length_be_bytes; lia).
    rewrite drop_be_bytes, take_be_bytes, shift_in_be_bytes by (done || (right; lia)).
    rewrite (Z.gtb_ltb _ 247), (proj2 (Z.ltb_ge 247 _)) by lia. cbn [andb].
    assert (MaxInt64 < u64 v).
    { rewrite (u64_cases v Hv), (proj2 (Z.ltb_lt v 0)) by lia. int_range. lia. }
    rewrite (proj2 (Z.leb_gt _ MaxInt64)), i64_u64 by done. cbn [andb].
    rewrite (proj2 (Z.leb_gt 0 v)) by lia. done.
Qed.

(** ** Datums *)

(** The values of the kinds [EncodeKey] can order. *)
Definition wf_datum (d : Datum) : Prop :=
  is_i64 (datum_i d) ∧ is_bytes (datum_b d) ∧ Z.of_nat (length (datum_b d)) ≤ MaxInt64
  ∧ ((datum_k d = KindFloat32 ∨ datum_k d = KindFloat64) → float_nan (GetFloat64 d) = false).

Definition kind_flag (isComparable : bool) (k : Z) : option Z :=
  if k =? KindInt64 then Some (if isComparable then intFlag else varintFlag)
  else if k =? KindUint64 then Some (if isComparable then uintFlag else uvarintFlag)
  else if (k =? KindFloat32) || (k =? KindFloat64) then Some floatFlag
  else if (k =? KindString) || (k =? KindBytes)
    then Some (if isComparable then bytesFlag else compactBytesFlag)
  else if k =? KindNull then Some NilFlag
  else if k =? KindMinNotNull then Some bytesFlag
  else if k =? KindMaxValue then Some maxFlag
  else None.

(** The bytes that follow the flag. *)
Definition payload (isComparable : bool) (d : Datum) : list Z :=
  let k := datum_k d in
  if k =? KindInt64 then
    if isComparable then be_bytes 8 (EncodeIntToCmpUint (datum_i d)) else PutVarint (datum_i d)
  else if k =? KindUint64 then
    if isComparable then be_bytes 8 (GetUint64 d) else PutUvarint (GetUint64 d)
  else if (k =? KindFloat32) || (k =? KindFloat64)
    then be_bytes 8 (encodeFloatToCmpUint64 (GetFloat64 d))
  else if (k =? KindString) || (k =? KindBytes) then
    if isComparable then EncodeBytes [] (datum_b d)
    else PutVarint (i64 (Z.of_nat (length (datum_b d)))) ++ datum_b d
  else [].

Lemma encode_one_spec c b d :
  encode_one c b d = match kind_flag c (datum_k d) with
                     | Some f => Ok (b ++ f :: payload c d)
                     | None => Err "unsupport encode type "
                     end.
Proof.
  unfold encode_one, kind_flag, payload.
  destruct (datum_k d =? KindInt64).
  { unfold encodeSignedInt, EncodeInt, EncodeVarint. destruct c; by rewrite <- (assoc_L (++)). }
  destruct (datum_k d =? KindUint64).
  { unfold encodeUnsignedInt, EncodeUint, EncodeUvarint. destruct c; by rewrite <- (assoc_L (++)). }
  destruct (_ || _).
  { unfold EncodeFloat, EncodeUint. by rewrite <- (assoc_L (++)). }
  destruct (_ || _).
  { unfold encodeBytes. destruct c.
    - by rewrite EncodeBytes_acc, <- (assoc_L (++)).
    - unfold EncodeCompactBytes, EncodeVarint. by rewrite <- !(assoc_L (++)). }
  repeat (destruct (_ =? _); [done|]). done.
Qed.

(** The kinds whose encoding can be decoded. *)
Definition decodable (d : Datum) : Prop :=
  datum_k d ∈ [KindNull; KindInt64; KindUint64; KindFloat32; KindFloat64; KindString; KindBytes].

(** What decoding gives: strings come back as bytes, floats as float64. *)
Definition normalized (d : Datum) : Datum :=
  let k := datum_k d in
  if k =? KindInt64 then mkDatum KindInt64 (datum_i d) []
  else if k =? KindUint64 then mkDatum KindUint64 (datum_i d) []
  else if (k =? KindFloat32) || (k =? KindFloat64)
    then mkDatum KindFloat64 (i64 (float_canonical (GetFloat64 d))) []
  else if (k =? KindString) || (k =? KindBytes) then mkDatum KindBytes 0 (datum_b d)
  else zero_Datum.

Lemma DecodeCompactBytes_roundtrip d r :
  Z.of_nat (length d) ≤ MaxInt64 →
  DecodeCompactBytes (PutVarint (i64 (Z.of_nat (length d))) ++ d ++ r) = Ok (r, d).
Proof.
  intros Hd. rewrite i64_small by (int_range; lia). unfold DecodeCompactBytes.
  rewrite DecodeVarint_roundtrip by (int_range; lia). cbn [mbind res_bind].
  rewrite (proj2 (Z.ltb_ge _ _)) by (rewrite length_app; lia).
  rewrite (proj2 (Z.ltb_ge _ _)) by lia. by rewrite Nat2Z.id, drop_app_length, take_app_length.
Qed.

Lemma DecodeCompactBytes_negative n r :
  MinInt64 ≤ n < 0 → DecodeCompactBytes (PutVarint n ++ r) = Panic.
Proof.
  intros Hn. unfold DecodeCompactBytes.
  rewrite DecodeVarint_roundtrip by (int_range; lia). cbn [mbind res_bind].
  by rewrite (proj2 (Z.ltb_ge _ _)), (proj2 (Z.ltb_lt _ _)) by lia.
Qed.

#[local] Opaque be_bytes EncodeBytes PutVarint PutUvarint EncodeIntToCmpUint
  encodeFloatToCmpUint64 DecodeInt DecodeUint DecodeVarint DecodeUvarint DecodeBytes
  DecodeCompactBytes u64 i64.

Lemma DecodeOne_roundtrip c d r :
  wf_datum d → decodable d →
  ∃ f, kind_flag c (datum_k d) = Some f
       ∧ DecodeOne (f :: payload c d ++ r) = Ok (r, normalized d).
Proof.
  destruct d as [k i b]. intros (Hi & Hb & Hlen & Hnan) Hk. cbn [datum_k datum_i datum_b] in *.
  pose proof (u64_range i) as Hu.
  unfold decodable in Hk. cbn [datum_k] in Hk.
  unfold kind_flag, payload, normalized, GetFloat64, GetUint64 in *. cbn [datum_k datum_i datum_b] in *.
  repeat (apply elem_of_cons in Hk as [->|Hk]); [..|by apply elem_of_nil in Hk].
  - by exists NilFlag.
  - exists (if c then intFlag else varintFlag). split; [done|]. cbn. destruct c; cbn.
    + by rewrite DecodeInt_roundtrip.
    + by rewrite DecodeVarint_roundtrip.
  - exists (if c then uintFlag else uvarintFlag). split; [done|]. cbn. destruct c; cbn.
    + rewrite DecodeUint_roundtrip by done. cbn. unfold SetUint64. by rewrite i64_u64.
    + rewrite DecodeUvarint_roundtrip by done. cbn. unfold SetUint64. by rewrite i64_u64.
  - exists floatFlag. split; [done|]. cbn. unfold DecodeFloat.
    rewrite DecodeUint_roundtrip by (apply encode_float_range; auto). cbn.
    rewrite float_roundtrip; auto.
  - exists floatFlag. split; [done|]. cbn. unfold DecodeFloat.
    rewrite DecodeUint_roundtrip by (apply encode_float_range; auto). cbn.
    rewrite float_roundtrip; auto.
  - exists (if c then bytesFlag else compactBytesFlag). split; [done|]. cbn. destruct c; cbn.
    + by rewrite DecodeBytes_roundtrip.
    + rewrite <- (assoc_L (++)). by rewrite DecodeCompactBytes_roundtrip.
  - exists (if c then bytesFlag else compactBytesFlag). split; [done|]. cbn. destruct c; cbn.
    + by rewrite DecodeBytes_roundtrip.
    + rewrite <- (assoc_L (++)). by rewrite DecodeCompactBytes_roundtrip.
Qed.

(** The order of keys: null, then byte strings, signed, unsigned, floats, and the
    largest value; values of one kind by their value. *)
Inductive key_class := CNull | CBytes | CInt | CUint | CFloat | CMax.

Definition class_of (k : Z) : option key_class :=
  if k =? KindInt64 then Some CInt
  else if k =? KindUint64 then Some CUint
  else if (k =? KindFloat32) || (k =? KindFloat64) then Some CFloat
  else if (k =? KindString) || (k =? KindBytes) then Some CBytes
  else if k =? KindNull then Some CNull
  else if k =? KindMaxValue then Some CMax
  else None.
Definition class_rank (c : key_class) : Z :=
  match c with CNull => 0 | CBytes => 1 | CInt => 2 | CUint => 3 | CFloat => 4 | CMax => 5 end.
Definition value_cmp (c : key_class) (d1 d2 : Datum) : comparison :=
  match c with
  | CInt => datum_i d1 ?= datum_i d2
  | CUint => GetUint64 d1 ?= GetUint64 d2
  | CFloat => float_key (GetFloat64 d1) ?= float_key (GetFloat64 d2)
  | CBytes => bytes_cmp (datum_b d1) (datum_b d2)
  | CNull | CMax => Eq
  end.
Definition datum_cmp (d1 d2 : Datum) : comparison :=
  match class_of (datum_k d1), class_of (datum_k d2) with
  | Some c1, Some c2 => then_cmp (class_rank c1 ?= class_rank c2) (value_cmp c1 d1 d2)
  | _, _ => Eq
  end.
Fixpoint list_cmp {A} (cmp : A → A → comparison) (l k : list A) : comparison :=
  match l, k with
  | [], [] => Eq
  | [], _ => Lt
  | _, [] => Gt
  | x :: l, y :: k => then_cmp (cmp x y) (list_cmp cmp l k)
  end.
Definition orderable (d : Datum) : Prop := is_Some (class_of (datum_k d)).

Definition class_flag (c : key_class) : Z :=
  match c with
  | CNull => NilFlag | CBytes => bytesFlag | CInt => intFlag | CUint => uintFlag
  | CFloat => floatFlag | CMax => maxFlag
  end.
Definition class_payload (c : key_class) (d : Datum) : list Z :=
  match c with
  | CInt => be_bytes 8 (EncodeIntToCmpUint (datum_i d))
  | CUint => be_bytes 8 (GetUint64 d)
  | CFloat => be_bytes 8 (encodeFloatToCmpUint64 (GetFloat64 d))
  | CBytes => EncodeBytes [] (datum_b d)
  | CNull | CMax => []
  end.

Lemma class_spec d c :
  class_of (datum_k d) = Some c →
  kind_flag true (datum_k d) = Some (class_flag c) ∧ payload true d = class_payload c d
  ∧ (c = CFloat → datum_k d = KindFloat32 ∨ datum_k d = KindFloat64).
Proof.
  unfold class_of, kind_flag, payload. intros Hc.
  destruct (_ =? KindInt64); [by simplify_eq|].
  destruct (_ =? KindUint64); [by simplify_eq|].
  destruct (Z.eqb_spec (datum_k d) KindFloat32), (Z.eqb_spec (datum_k d) KindFloat64);
    cbn [orb] in *; try (simplify_eq; split_and!; [done..|by auto]).
  destruct (_ || _); [by simplify_eq|].
  destruct (Z.eqb_spec (datum_k d) KindNull) as [Hn|]; [by simplify_eq|].
  destruct (Z.eqb_spec (datum_k d) KindMinNotNull) as [Hm|]; [by rewrite Hm in Hc|].
  destruct (_ =? KindMaxValue); by simplify_eq.
Qed.

Lemma class_payload_cmp c d1 d2 r1 r2 :
  wf_datum d1 → wf_datum d2 → class_of (datum_k d1) = Some c → class_of (datum_k d2) = Some c →
  bytes_cmp (class_payload c d1 ++ r1) (class_payload c d2 ++ r2)
  = then_cmp (value_cmp c d1 d2) (bytes_cmp r1 r2).
Proof.
  intros (Hi1 & Hb1 & _ & Hn1) (Hi2 & Hb2 & _ & Hn2) Hc1 Hc2.
  apply class_spec in Hc1 as (_ & _ & Hf1). apply class_spec in Hc2 as (_ & _ & Hf2).
  destruct c; cbn [class_payload value_cmp].
  - done.
  - by apply EncodeBytes_cmp.
  - rewrite be8_cmp, !EncodeIntToCmpUint_spec by auto using EncodeIntToCmpUint_range.
    by rewrite !(Z.add_comm _ signMask), Z.add_compare_mono_l.
  - apply be8_cmp; apply u64_range.
  - pose proof (u64_range (datum_i d1)) as Hu1. pose proof (u64_range (datum_i d2)) as Hu2.
    rewrite be8_cmp by (apply encode_float_range; auto). by rewrite encode_float_cmp by auto.
  - done.
Qed.

(** The code of one datum. *)
Definition datum_code (c : bool) (d : Datum) : list Z :=
  default 0 (kind_flag c (datum_k d)) :: payload c d.

Lemma encode_codes c vals b :
  Forall (λ d, is_Some (kind_flag c (datum_k d))) vals →
  encode b vals c = Ok (b ++ (vals ≫= datum_code c)).
Proof.
  intros Hv. revert b. induction Hv as [|d vals [f Hf] Hv IH]; intros b.
  { by rewrite app_nil_r. }
  unfold encode in *. cbn [foldlM]. rewrite encode_one_spec, Hf. cbn [mbind res_bind].
  rewrite IH, <- (assoc_L (++)).
  assert (datum_code c d = f :: payload c d) as Hcode by (unfold datum_code; by rewrite Hf).
  cbn [mbind list_bind]. by rewrite Hcode.
Qed.

Lemma datum_code_cmp d1 d2 r1 r2 :
  wf_datum d1 → wf_datum d2 → orderable d1 → orderable d2 →
  bytes_cmp (datum_code true d1 ++ r1) (datum_code true d2 ++ r2)
  = then_cmp (datum_cmp d1 d2) (bytes_cmp r1 r2).
Proof.
  intros H1 H2 [c1 Hc1] [c2 Hc2]. unfold datum_code, datum_cmp. rewrite Hc1, Hc2.
  destruct (class_spec d1 c1 Hc1) as (-> & -> & _), (class_spec d2 c2 Hc2) as (-> & -> & _).
  cbn [from_option id app bytes_cmp].
  assert (c1 = c2 ∨ (class_flag c1 ?= class_flag c2) = (class_rank c1 ?= class_rank c2)
                    ∧ (class_rank c1 ?= class_rank c2) ≠ Eq) as [<-|[-> Hne]]
    by (destruct c1, c2; (by left) || (right; split; [reflexivity|discriminate])).
  - rewrite !Z.compare_refl. cbn [then_cmp]. by apply class_payload_cmp.
  - by destruct (class_rank c1 ?= class_rank c2).
Qed.

Lemma codes_cmp v1 v2 :
  Forall wf_datum v1 → Forall wf_datum v2 → Forall orderable v1 → Forall orderable v2 →
  bytes_cmp (v1 ≫= datum_code true) (v2 ≫= datum_code true) = list_cmp datum_cmp v1 v2.
Proof.
  intros Hw1 Hw2 Ho1. revert v2 Hw2.
  induction Ho1 as [|d1 v1 Hd1 Ho1 IH]; intros v2 Hw2 Ho2; destruct Ho2 as [|d2 v2 Hd2 Ho2]; try done.
  apply Forall_cons in Hw1 as [Hw1 Hws1]. apply Forall_cons in Hw2 as [Hw2 Hws2].
  cbn [mbind list_bind list_cmp]. rewrite datum_code_cmp by done. f_equal. by apply IH.
Qed.

Lemma orderable_flag d : orderable d → is_Some (kind_flag true (datum_k d)).
Proof. intros [c (Hf & _)%class_spec]. by eexists. Qed.

Lemma decodable_flag c d : wf_datum d → decodable d → is_Some (kind_flag c (datum_k d)).
Proof. intros Hw Hd. destruct (DecodeOne_roundtrip c d [] Hw Hd) as (f & -> & _). by eexists. Qed.

Lemma decode_loop_roundtrip c vals fuel out :
  Forall wf_datum vals → Forall decodable vals → (length (vals ≫= datum_code c) ≤ fuel)%nat →
  decode_loop fuel (vals ≫= datum_code c) out = Ok (out ++ (normalized <$> vals)).
Proof.
  intros Hw Hd. revert fuel out. induction Hd as [|d vals Hd Hds IH]; intros fuel out Hf.
  { destruct fuel; cbn; by rewrite app_nil_r. }
  apply Forall_cons in Hw as [Hw Hws].
  destruct (DecodeOne_roundtrip c d (vals ≫= datum_code c) Hw Hd) as (f & Hk & Hone).
  assert (datum_code c d = f :: payload c d) as Hcode by (unfold datum_code; by rewrite Hk).
  cbn [mbind list_bind] in *. rewrite Hcode in *. cbn [app] in *.
  destruct fuel as [|fuel]; [cbn in Hf; lia|]. cbn [decode_loop]. rewrite Hone. cbn [mbind res_bind].
  rewrite IH; [|done|cbn [length] in Hf; rewrite length_app in Hf; unfold mbind in *; lia].
  by rewrite <- (assoc_L (++)).
Qed.

(** ** Sizes *)
Lemma size_loop_acc fuel v s : size_loop fuel v (s + 1) = size_loop fuel v s + 1.
Proof.
  revert v s. induction fuel as [|fuel IH]; intros v s; cbn [size_loop]; [done|].
  destruct (v >? 0); [apply IH|done].
Qed.

Lemma put_uvarint_size fuel x :
  0 ≤ x < 2 ^ (7 * Z.of_nat (S fuel)) →
  Z.of_nat (length (put_uvarint (S fuel) x)) = size_loop (S fuel) (Z.shiftr x 7) 1.
Proof.
  revert x. induction fuel as [|fuel IH]; intros x Hx.
  { change (2 ^ (7 * Z.of_nat 1)) with 128 in Hx. cbn [put_uvarint size_loop].
    rewrite Z.shiftr_div_pow2, Z.div_small, Z.geb_leb, (proj2 (Z.leb_gt _ _)) by lia. done. }
  remember (S fuel) as f eqn:Hf. cbn [put_uvarint size_loop].
  rewrite Z.shiftr_div_pow2 by lia. change (2 ^ 7) with 128.
  destruct (Z.geb_spec x 128) as [Hge|Hlt]; [|by rewrite Z.div_small by lia].
  assert (1 ≤ x / 128) by (apply Z.div_le_lower_bound; lia).
  rewrite Z.gtb_ltb, (proj2 (Z.ltb_lt _ _)) by lia. cbn [length].
  rewrite size_loop_acc, Nat2Z.inj_succ, IH; [lia|]. split; [lia|].
  apply Z.div_lt_upper_bound; [lia|].
  replace (7 * Z.of_nat (S f)) with (7 + 7 * Z.of_nat f) in Hx by lia.
  rewrite Z.pow_add_r in Hx by lia. lia.
Qed.

Lemma PutUvarint_size x :
  is_u64 x → Z.of_nat (length (PutUvarint x)) + 1 = valueSizeOfUnsignedInt x.
Proof.
  intros Hx. pose proof (put_uvarint_size 9 x) as Hs. unfold valueSizeOfUnsignedInt.
  rewrite (size_loop_acc _ _ 1 : size_loop 10 _ 2 = _), <- Hs; [done|].
  change (2 ^ (7 * Z.of_nat 10)) with 1180591620717411303424. int_range. lia.
Qed.

Lemma PutVarint_size v :
  is_i64 v → Z.of_nat (length (PutVarint v)) + 1 = valueSizeOfSignedInt v.
Proof.
  intros Hv. rewrite PutVarint_zigzag, PutUvarint_size by auto using zigzag_range.
  unfold valueSizeOfUnsignedInt, valueSizeOfSignedInt. f_equal.
  rewrite !Z.shiftr_div_pow2 by lia. change (2 ^ 7) with (2 * 2 ^ 6).
  rewrite <- Z.div_div by lia. f_equal. unfold zigzag. destruct (Z.ltb_spec v 0).
  - assert (i64 (i64 (0 - v) - 1) = - v - 1) as ->.
    { destruct (decide (v = MinInt64)) as [->|Hne]; [by vm_compute|].
      rewrite (i64_small (0 - v)), i64_small; int_range; lia. }
    symmetry. apply (Z.div_unique _ _ _ 1); lia.
  - rewrite (Z.mul_comm 2). by apply Z.div_mul.
Qed.

(** ** Theorems *)


(** C24: Decoding inverts both encodings: [Decode] gives back the values that
    [EncodeKey] or [EncodeValue] encoded, strings as bytes, float32 as float64 and
    minus zero as zero. *)
Theorem encode_decode_roundtrip (isComparable : bool) (vals : list Datum) :
  Forall wf_datum vals → Forall decodable vals → vals ≠ [] →
  ∃ b, encode [] vals isComparable = Ok b ∧ Decode b = Ok (normalized <$> vals).
Proof.
  intros Hw Hd Hne. exists (vals ≫= datum_code isComparable). split.
  - apply encode_codes. rewrite Forall_forall in *. auto using decodable_flag.
  - unfold Decode. destruct vals as [|d vals]; [done|].
    rewrite (proj2 (Nat.ltb_ge _ _)) by (cbn; lia). by rewrite decode_loop_roundtrip.
Qed.

(** [DecodeBytes] accepts exactly the encodings that [EncodeBytes] makes, and
    returns the encoded string and whatever follows it. *)
Theorem decode_bytes_exact (b r d : list Z) :
  is_bytes b → DecodeBytes b = Ok (r, d) ↔ is_bytes d ∧ b = EncodeBytes [] d ++ r.
Proof.
  intros Hb. split.
  - by apply DecodeBytes_canonical.
  - intros [Hd ->]. by apply DecodeBytes_roundtrip.
Qed.

(** [EncodeBytes] keeps the order of byte strings and [EncodeBytesDesc] reverses
    it, whatever is appended to the encodings of different strings. *)
Theorem encode_bytes_order (d1 d2 r1 r2 : list Z) :
  is_bytes d1 → is_bytes d2 → d1 ≠ d2 →
  bytes_cmp (EncodeBytes [] d1 ++ r1) (EncodeBytes [] d2 ++ r2) = bytes_cmp d1 d2
  ∧ bytes_cmp (EncodeBytesDesc [] d1 ++ r1) (EncodeBytesDesc [] d2 ++ r2)
    = CompOpp (bytes_cmp d1 d2).
Proof.
  intros H1 H2 Hne.
  assert (bytes_cmp d1 d2 ≠ Eq) as Hc by (intros ?%bytes_cmp_eq; done).
  assert (∀ ra rb, bytes_cmp (EncodeBytes [] d1 ++ ra) (EncodeBytes [] d2 ++ rb)
                   = bytes_cmp d1 d2) as Hall.
  { intros ra rb. rewrite EncodeBytes_cmp by done. by destruct (bytes_cmp d1 d2). }
  split; [apply Hall|]. unfold EncodeBytesDesc, reverseBytes. cbn [app length]. rewrite !drop_0.
  apply bytes_cmp_not; auto using EncodeBytes_bytes.
Qed.

(** [EstimateValueSize] is the exact number of bytes [EncodeValue] produces. *)
Theorem estimate_value_size_exact (d : Datum) (b : list Z) :
  wf_datum d → EncodeValue [] [d] = Ok b → EstimateValueSize d = Ok (Z.of_nat (length b)).
Proof.
  intros (Hi & _ & Hlen & _). unfold EncodeValue, encode. cbn [foldlM]. rewrite encode_one_spec.
  unfold EstimateValueSize, kind_flag, payload.
  pose proof (PutUvarint_size (GetUint64 d) (u64_range _)) as Hu.
  pose proof (PutVarint_size (datum_i d) Hi) as Hs.
  pose proof (PutVarint_size (i64 (Z.of_nat (length (datum_b d)))) (i64_range _)) as Hb.
  assert (∀ f l n, (Ok ([] ++ f :: l) ≫= (λ acc, Ok acc)) = Ok b → n = 1 + Z.of_nat (length l) →
            Ok n = Ok (Z.of_nat (length b))) as Hfin.
  { intros f l n Heq ->. injection Heq as <-. f_equal. cbn [app length]. lia. }
  destruct (datum_k d =? KindInt64); [intros Heq; apply (Hfin _ _ _ Heq); lia|].
  destruct (datum_k d =? KindUint64); [intros Heq; apply (Hfin _ _ _ Heq); lia|].
  destruct ((datum_k d =? KindFloat32) || (datum_k d =? KindFloat64)).
  { intros Heq. apply (Hfin _ _ _ Heq). by rewrite length_be_bytes. }
  cbn [orb]. destruct (Z.eqb_spec (datum_k d) 13) as [->|]; [discriminate|].
  destruct (Z.eqb_spec (datum_k d) 9) as [->|]; [discriminate|]. cbn [orb].
  destruct (_ || _); [intros Heq; apply (Hfin _ _ _ Heq); unfold valueSizeOfBytes;
                      rewrite length_app; lia|].
  repeat (destruct (datum_k d =? _); [intros Heq; by apply (Hfin _ _ _ Heq)|cbn [orb]]).
  discriminate.
Qed.

(** Comparable variable-length integers compare as the integers, and
    [DecodeComparableUvarint] inverts [EncodeComparableUvarint]. *)
Theorem comparable_varint_order (x y u v : Z) (rx ry r : list Z) :
  is_i64 x → is_i64 y → is_u64 u → is_u64 v →
  bytes_cmp (EncodeComparableVarint [] x ++ rx) (EncodeComparableVarint [] y ++ ry)
  = then_cmp (x ?= y) (bytes_cmp rx ry)
  ∧ bytes_cmp (EncodeComparableUvarint [] u ++ rx) (EncodeComparableUvarint [] v ++ ry)
    = then_cmp (u ?= v) (bytes_cmp rx ry)
  ∧ DecodeComparableUvarint (EncodeComparableUvarint [] u ++ r) = Ok (r, u).
Proof.
  intros. split_and!; [apply varint_code_cmp; by apply comparable_varint_code
                      |apply varint_code_cmp; by apply comparable_uvarint_code
                      |by apply DecodeComparableUvarint_roundtrip].
Qed.

(** [DecodeComparableVarint] returns the encoded value, but for the values that
    take one byte the slice it returns still starts with that byte. *)
Theorem comparable_varint_leftover (v : Z) (r : list Z) :
  is_i64 v →
  let code := EncodeComparableVarint [] v in
  DecodeComparableVarint (code ++ r)
  = Ok (if (0 <=? v) && (v <=? 239) then code ++ r else r, v).
Proof. apply DecodeComparableVarint_spec. Qed.

(** [DecodeCompactBytes] panics on a negative length, and [Decode] with it. *)
Theorem decode_negative_length_panics (n : Z) (r : list Z) :
  MinInt64 ≤ n < 0 →
  DecodeCompactBytes (EncodeVarint [] n ++ r) = Panic
  ∧ Decode (compactBytesFlag :: EncodeVarint [] n ++ r) = Panic.
Proof.
  intros Hn. unfold EncodeVarint. cbn [app]. pose proof (DecodeCompactBytes_negative n r Hn) as Hp.
  split; [done|]. unfold Decode. cbn [length Nat.ltb Nat.leb decode_loop].
  unfold DecodeOne. cbn. by rewrite Hp.
Qed.

(** ** Examples *)
Definition int_datum (v : Z) : Datum := mkDatum KindInt64 v [].
Definition str_datum (b : list Z) : Datum := mkDatum KindString 0 b.

Lemma demo_wf k i b :
  is_i64 i → is_bytes b → (length b ≤ 100)%nat → k ≠ KindFloat32 → k ≠ KindFloat64 →
  wf_datum (mkDatum k i b).
Proof. intros ? ? ? ? ?. split_and!; cbn; [done|done|int_range; lia|by intros [?|?]]. Qed.

Ltac demo_datum :=
  apply demo_wf; [int_range; lia|repeat constructor; unfold is_byte; lia|cbn; lia|discriminate|discriminate].
Ltac demo_data := repeat (apply Forall_cons_2; [demo_datum|]); apply Forall_nil_2.


Lemma encode_decode_roundtrip_witness :
  ∃ b, encode [] [int_datum 300; str_datum [7; 8]] false = Ok b
       ∧ Decode b = Ok [int_datum 300; mkDatum KindBytes 0 [7; 8]].
Proof.
  apply (encode_decode_roundtrip false [int_datum 300; str_datum [7; 8]]); [demo_data| |discriminate].
  repeat constructor.
Defined.

Lemma decode_bytes_exact_witness :
  DecodeBytes [1; 2; 3; 0; 0; 0; 0; 0; 250; 9] = Ok ([9], [1; 2; 3])
  ↔ is_bytes [1; 2; 3] ∧ [1; 2; 3; 0; 0; 0; 0; 0; 250; 9] = EncodeBytes [] [1; 2; 3] ++ [9].
Proof. apply decode_bytes_exact. repeat constructor; unfold is_byte; lia. Defined.

Lemma encode_bytes_order_witness :
  bytes_cmp (EncodeBytes [] [1; 2] ++ [5]) (EncodeBytes [] [1; 2; 0] ++ [4]) = Lt
  ∧ bytes_cmp (EncodeBytesDesc [] [1; 2] ++ [5]) (EncodeBytesDesc [] [1; 2; 0] ++ [4]) = Gt.
Proof.
  apply (encode_bytes_order [1; 2] [1; 2; 0] [5] [4]);
    [repeat constructor; unfold is_byte; lia..|discriminate].
Defined.

Lemma estimate_value_size_exact_witness :
  EncodeValue [] [int_datum 300] = Ok [8; 216; 4] ∧ EstimateValueSize (int_datum 300) = Ok 3.
Proof.
  split; [vm_compute; reflexivity|].
  apply (estimate_value_size_exact (int_datum 300) [8; 216; 4]); [demo_datum|].
  vm_compute. reflexivity.
Defined.

Lemma comparable_varint_order_witness :
  bytes_cmp (EncodeComparableVarint [] (-70000)) (EncodeComparableVarint [] 3) = Lt
  ∧ bytes_cmp (EncodeComparableUvarint [] 1000) (EncodeComparableUvarint [] 999) = Gt
  ∧ DecodeComparableUvarint (EncodeComparableUvarint [] 1000 ++ [1]) = Ok ([1], 1000).
Proof.
  destruct (comparable_varint_order (-70000) 3 1000 999 [] [] [1]) as (H1 & H2 & H3);
    [int_range; lia..|].
  rewrite !app_nil_r in H1, H2. split_and!; [exact H1|exact H2|exact H3].
Defined.

Lemma comparable_varint_leftover_witness :
  DecodeComparableVarint ([13] ++ [1; 2]) = Ok ([13; 1; 2], 5)
  ∧ DecodeComparableVarint (EncodeComparableVarint [] 300 ++ [1; 2]) = Ok ([1; 2], 300).
Proof.
  split.
  - apply (comparable_varint_leftover 5 [1; 2]). int_range. lia.
  - apply (comparable_varint_leftover 300 [1; 2]). int_range. lia.
Defined.

Lemma decode_negative_length_panics_witness : Decode [compactBytesFlag; 1] = Panic.
Proof. apply (decode_negative_length_panics (-1) []). int_range. lia. Defined.
