(* ===== verification/Stringutil.v ===== *)
(** * LIKE patterns and date formats (pkg/util/stringutil/string_util.go)

    [CompilePattern] turns the text of a LIKE pattern into characters and types,
    [DoMatch] is the backtracking matcher, and [MySQLDateFormatToArrowFormat]
    rewrites date formats.  Strings are lists of bytes. *)
From S2P Require Import Prelude.
From Stdlib Require Import Ascii.

(** ** LIKE patterns *)
Definition patMatch : Z := 1.
Definition patOne : Z := 2.
Definition patAny : Z := 3.

(** The loop of [CompilePattern] on what is left of the pattern. *)
Fixpoint compile_loop (escape : ascii) (pattern : list ascii) (lastAny : bool)
    : list (ascii * Z) :=
  match pattern with
  | [] => []
  | c :: rest =>
      if bool_decide (c = escape) then
        match rest with
        | c' :: rest' =>
            if bool_decide (c' = escape ∨ c' = "_"%char ∨ c' = "%"%char)
            then (c', patMatch) :: compile_loop escape rest' false
            else (escape, patMatch) :: compile_loop escape rest false
        | [] => [(c, patMatch)]
        end
      else if bool_decide (c = "_"%char) then
        if lastAny then compile_loop escape rest lastAny
        else (c, patOne) :: compile_loop escape rest lastAny
      else if bool_decide (c = "%"%char) then
        if lastAny then compile_loop escape rest lastAny
        else (c, patAny) :: compile_loop escape rest true
      else (c, patMatch) :: compile_loop escape rest false
  end.
Definition CompilePattern (pattern : list ascii) (escape : ascii) : list ascii * list Z :=
  let l := compile_loop escape pattern false in (l.*1, l.*2).

Definition matchByteCI (a b : ascii) : bool := bool_decide (a = b).

(** The loop of [DoMatch]. *)
Fixpoint match_loop (fuel : nat) (str patChars : list ascii) (patTypes : list Z)
    (sIdx pIdx nextSIdx nextPIdx : nat) : res bool :=
  match fuel with
  | 0%nat => Err "out of fuel"
  | S fuel =>
      if (pIdx <? length patChars)%nat || (sIdx <? length str)%nat then
        let mismatch :=
          if (0 <? nextSIdx)%nat && (nextSIdx <=? length str)%nat
          then match_loop fuel str patChars patTypes nextSIdx nextPIdx nextSIdx nextPIdx
          else Ok false in
        match patChars !! pIdx with
        | None => mismatch
        | Some pc =>
            match patTypes !! pIdx with
            | None => Panic
            | Some tp =>
                if bool_decide (tp = patMatch) then
                  match str !! sIdx with
                  | Some c =>
                      if matchByteCI c pc
                      then match_loop fuel str patChars patTypes (S sIdx) (S pIdx) nextSIdx nextPIdx
                      else mismatch
                  | None => mismatch
                  end
                else if bool_decide (tp = patOne) then
                  if (sIdx <? length str)%nat
                  then match_loop fuel str patChars patTypes (S sIdx) (S pIdx) nextSIdx nextPIdx
                  else mismatch
                else if bool_decide (tp = patAny) then
                  match_loop fuel str patChars patTypes sIdx (S pIdx) (S sIdx) pIdx
                else mismatch
            end
        end
      else Ok true
  end.

(** Between two restarts the pattern index grows, and a restart moves on in the
    string: [(|str| + 2) * (|pat| + 2)] turns are enough. *)
Definition DoMatch (str patChars : list ascii) (patTypes : list Z) : res bool :=
  match_loop ((length str + 2) * (length patChars + 2)) str patChars patTypes 0 0 0 0.

Definition IsExactMatch (patTypes : list Z) : bool :=
  forallb (λ pt, bool_decide (pt = patMatch)) patTypes.

(** ** Date formats *)
Definition kMySQLToArrowFormatMapping (c : ascii) : option string :=
  match c with
  | "Y"%char => Some "%Y" | "y"%char => Some "%y" | "m"%char => Some "%m"
  | "c"%char => Some "%-m" | "d"%char => Some "%d" | "e"%char => Some "%-d"
  | "H"%char => Some "%H" | "k"%char => Some "%-H" | "h"%char => Some "%I"
  | "I"%char => Some "%I" | "l"%char => Some "%-I" | "i"%char => Some "%M"
  | "S"%char => Some "%S" | "s"%char => Some "%S" | "f"%char => Some "%f"
  | "p"%char => Some "%p" | "T"%char => Some "%H:%M:%S" | "r"%char => Some "%I:%M:%S %p"
  | "b"%char => Some "%b" | "M"%char => Some "%B" | "a"%char => Some "%a"
  | "W"%char => Some "%A"
  | _ => None
  end.

Fixpoint MySQLDateFormatToArrowFormat (mysqlFormat : string) : res string :=
  match mysqlFormat with
  | EmptyString => Ok ""
  | String c rest =>
      if bool_decide (c = "%"%char) then
        match rest with
        | EmptyString => Err "invalid format string: trailing %"
        | String c' rest' =>
            if bool_decide (c' = "%"%char) then
              r ← MySQLDateFormatToArrowFormat rest'; Ok (String "%" r)
            else match kMySQLToArrowFormatMapping c' with
                 | Some f => r ← MySQLDateFormatToArrowFormat rest'; Ok (f +:+ r)
                 | None => Err "unsupported MySQL format specifier: "
                 end
        end
      else r ← MySQLDateFormatToArrowFormat rest; Ok (String c r)
  end.

(** The layouts of Go's [time] package; the mapping is local to the function. *)
Definition goLayoutMapping (c : ascii) : option string :=
  match c with
  | "Y"%char => Some "2006" | "y"%char => Some "06" | "m"%char => Some "01"
  | "c"%char => Some "1" | "d"%char => Some "02" | "e"%char => Some "2"
  | "H"%char => Some "15" | "k"%char => Some "15" | "h"%char => Some "03"
  | "I"%char => Some "03" | "l"%char => Some "3" | "i"%char => Some "04"
  | "S"%char => Some "05" | "s"%char => Some "05" | "f"%char => Some "000000"
  | "p"%char => Some "PM" | "T"%char => Some "15:04:05" | "r"%char => Some "03:04:05 PM"
  | "b"%char => Some "Jan" | "M"%char => Some "January" | "a"%char => Some "Mon"
  | "W"%char => Some "Monday"
  | _ => None
  end.

Fixpoint MySQLDateFormatToGoLayout (mysqlFormat : string) : res string :=
  match mysqlFormat with
  | EmptyString => Ok ""
  | String c rest =>
      if bool_decide (c = "%"%char) then
        match rest with
        | EmptyString => Err "invalid format string: trailing %"
        | String c' rest' =>
            if bool_decide (c' = "%"%char) then
              r ← MySQLDateFormatToGoLayout rest'; Ok (String "%" r)
            else match goLayoutMapping c' with
                 | Some f => r ← MySQLDateFormatToGoLayout rest'; Ok (f +:+ r)
                 | None => Err "unsupported MySQL format specifier: "
                 end
        end
      else r ← MySQLDateFormatToGoLayout rest; Ok (String c r)
  end.

(** ** What a compiled pattern means *)
Inductive likes : list (ascii * Z) → list ascii → Prop :=
| likes_nil : likes [] []
| likes_match c p s : likes p s → likes ((c, patMatch) :: p) (c :: s)
| likes_one c x p s : likes p s → likes ((c, patOne) :: p) (x :: s)
| likes_any_stop c p s : likes p s → likes ((c, patAny) :: p) s
| likes_any_take c x p s : likes ((c, patAny) :: p) s → likes ((c, patAny) :: p) (x :: s).

(** The items of the pattern as SQL reads them. *)
Fixpoint tokens (escape : ascii) (pattern : list ascii) : list (ascii * Z) :=
  match pattern with
  | [] => []
  | c :: rest =>
      if bool_decide (c = escape) then
        match rest with
        | c' :: rest' =>
            if bool_decide (c' = escape ∨ c' = "_"%char ∨ c' = "%"%char)
            then (c', patMatch) :: tokens escape rest'
            else (escape, patMatch) :: tokens escape rest
        | [] => [(c, patMatch)]
        end
      else if bool_decide (c = "_"%char) then (c, patOne) :: tokens escape rest
      else if bool_decide (c = "%"%char) then (c, patAny) :: tokens escape rest
      else (c, patMatch) :: tokens escape rest
  end.

(** No [_] after a [%] (possibly with other [%] between them). *)
Fixpoint no_one_after_any (after : bool) (l : list (ascii * Z)) : bool :=
  match l with
  | [] => true
  | (_, t) :: l =>
      if bool_decide (t = patOne) then negb after && no_one_after_any false l
      else no_one_after_any (bool_decide (t = patAny)) l
  end.

(** ** The matcher *)
Lemma likes_match_inv c p x s : likes ((c, patMatch) :: p) (x :: s) ↔ x = c ∧ likes p s.
Proof.
  split; [|intros [-> ?]; by constructor]. intros Hl. inversion Hl; subst; done.
Qed.
Lemma likes_match_nil c p : ¬ likes ((c, patMatch) :: p) [].
Proof. intros Hl. inversion Hl. Qed.
Lemma likes_one_inv c p x s : likes ((c, patOne) :: p) (x :: s) ↔ likes p s.
Proof. split; [|by constructor]. intros Hl. inversion Hl; subst; done. Qed.
Lemma likes_one_nil c p : ¬ likes ((c, patOne) :: p) [].
Proof. intros Hl. inversion Hl. Qed.
Lemma likes_nil_inv s : likes [] s ↔ s = [].
Proof. split; [|intros ->; constructor]. intros Hl. by inversion Hl. Qed.
Lemma likes_unknown c t p s :
  t ≠ patMatch → t ≠ patOne → t ≠ patAny → ¬ likes ((c, t) :: p) s.
Proof. intros ??? Hl. inversion Hl; subst; done. Qed.

Lemma likes_any c p s :
  likes ((c, patAny) :: p) s ↔ likes p s ∨ match s with [] => False | _ :: s => likes ((c, patAny) :: p) s end.
Proof.
  split.
  - intros Hl. inversion Hl; subst; auto.
  - destruct s as [|x s]; intros [?|?]; try done; by constructor.
Qed.

Lemma likes_any_drop c p s : likes ((c, patAny) :: p) s ↔ ∃ k, likes p (drop k s).
Proof.
  split.
  - induction s as [|x s IH]; intros [Hl|Hl]%likes_any; [by exists 0%nat|done|by exists 0%nat|].
    destruct (IH Hl) as [k Hk]. by exists (S k).
  - intros [k Hl]. revert s Hl. induction k as [|k IH]; intros s Hl; [by constructor|].
    destruct s as [|x s]; [by apply likes_any_stop|]. apply likes_any_take. by apply IH.
Qed.

(** A star that matches a later part of the string matches an earlier one. *)
Lemma likes_any_mono c p s j k :
  (j ≤ k)%nat → likes ((c, patAny) :: p) (drop k s) → likes ((c, patAny) :: p) (drop j s).
Proof.
  intros Hjk. rewrite !likes_any_drop. intros [i Hi]. exists (k - j + i)%nat.
  rewrite drop_drop in *. by replace (j + (k - j + i))%nat with (k + i)%nat by lia.
Qed.

Section matcher.
Context (str patChars : list ascii) (patTypes : list Z).
Context (Hlen : length patChars = length patTypes).

Definition pats : list (ascii * Z) := zip patChars patTypes.
Definition matches (p s : nat) : Prop := likes (drop p pats) (drop s str).

Lemma pats_lookup p c t :
  patChars !! p = Some c → patTypes !! p = Some t → drop p pats = (c, t) :: drop (S p) pats.
Proof.
  intros Hc Ht. apply drop_S. apply lookup_zip_with_Some. by exists c, t.
Qed.

Lemma pats_end p : patChars !! p = None → drop p pats = [].
Proof.
  intros Hp%lookup_ge_None. apply drop_ge. unfold pats. rewrite length_zip_with. lia.
Qed.

(** The pattern between the last star and [p] has no star, and has been matched
    from the place where the star stopped; or [DoMatch] has just gone back to the
    star. *)
Definition segment (s p ns np : nat) : Prop :=
  (∃ c, patChars !! np = Some c) ∧ patTypes !! np = Some patAny ∧
  (p = np ∧ s = ns ∨
   (np < p)%nat ∧ (s + np + 2 = ns + p)%nat ∧
   ∀ i t, (np < i < p)%nat → patTypes !! i = Some t → t ≠ patAny).

Definition loop_inv (s p ns np : nat) : Prop :=
  (p ≤ length patChars)%nat ∧ (s ≤ length str)%nat ∧
  (matches 0 0 ↔ matches p s ∨ (0 < ns ≤ length str)%nat ∧ matches np ns) ∧
  ((0 < ns)%nat → segment s p ns np).

Lemma matches_step p s c t :
  patChars !! p = Some c → patTypes !! p = Some t → t ≠ patAny →
  matches p s → matches (S p) (S s).
Proof.
  intros Hc Ht Hne. unfold matches. rewrite (pats_lookup _ _ _ Hc Ht). intros Hl.
  destruct (drop s str) as [|x l] eqn:Heq; [exfalso; inversion Hl; by subst|].
  assert (drop (S s) str = l) as ->.
  { rewrite <- Nat.add_1_r, <- drop_drop, Heq. done. }
  inversion Hl; by subst.
Qed.

(** What the previous star could still match, the star at [p] can. *)
Lemma star_absorbs s p ns np c :
  (p < length patChars)%nat → patChars !! p = Some c → patTypes !! p = Some patAny →
  segment s p ns np → matches np ns → matches p s.
Proof.
  intros Hp Hc Ht ([c0 Hc0] & Ht0 & [[-> ->]|(Hlt & Hs & Hseg)]) Hm; [done|].
  unfold matches in Hm. rewrite (pats_lookup _ _ _ Hc0 Ht0), likes_any_drop in Hm.
  destruct Hm as [k Hm]. rewrite drop_drop in Hm.
  assert (∀ n, (S np + n ≤ p)%nat → matches (S np + n) (ns + k + n)) as Hwalk.
  { induction n as [|n IH]; intros Hn; [by rewrite !Nat.add_0_r|].
    destruct (lookup_lt_is_Some_2 patChars (S np + n)) as [c' Hc']; [lia|].
    destruct (lookup_lt_is_Some_2 patTypes (S np + n)) as [t' Ht']; [lia|].
    rewrite !Nat.add_succ_r. eapply matches_step; [exact Hc'|exact Ht'| |apply IH; lia].
    apply (Hseg (S np + n)%nat); [lia|done]. }
  specialize (Hwalk (p - S np)%nat ltac:(lia)).
  replace (S np + (p - S np))%nat with p in Hwalk by lia.
  unfold matches in *. rewrite (pats_lookup _ _ _ Hc Ht) in *.
  eapply likes_any_mono; [|exact Hwalk]. lia.
Qed.

Lemma matches_star p s c :
  patChars !! p = Some c → patTypes !! p = Some patAny → (s ≤ length str)%nat →
  matches p s ↔ matches (S p) s ∨ (0 < S s ≤ length str)%nat ∧ matches p (S s).
Proof.
  intros Hc Ht Hs. unfold matches. rewrite (pats_lookup _ _ _ Hc Ht), likes_any.
  destruct (drop s str) as [|x l] eqn:Hd.
  - assert (length str ≤ s)%nat.
    { apply (f_equal length) in Hd. rewrite length_drop in Hd. simpl in Hd. lia. }
    split; [intros [?|[]]; by left|intros [?|[? _]]; [by left|lia]].
  - assert (drop (S s) str = l) as ->.
    { rewrite <- Nat.add_1_r, <- drop_drop, Hd. done. }
    assert (s < length str)%nat.
    { apply (f_equal length) in Hd. rewrite length_drop in Hd. simpl in Hd. lia. }
    split; (intros [?|?]; [by left|right]); [split; [lia|done]|by destruct_and!].
Qed.

(** The star at [p] becomes the place to go back to. *)
Lemma inv_star s p ns np c :
  patChars !! p = Some c → patTypes !! p = Some patAny →
  loop_inv s p ns np → loop_inv s (S p) (S s) p.
Proof.
  intros Hc Ht (Hp & Hs & Hm & Hseg). pose proof (lookup_lt_Some _ _ _ Hc) as Hlt.
  split_and!; [lia|done| |].
  - rewrite Hm, <- (matches_star p s c) by done. split; [|by left].
    intros [?|[Hns Hold]]; [done|]. eapply star_absorbs; [done..|apply Hseg; lia|done].
  - intros _. split_and!; [by eexists|done|]. right. split_and!; [lia|lia|]. intros; lia.
Qed.

Lemma inv_step s p ns np c t x :
  patChars !! p = Some c → patTypes !! p = Some t → t ≠ patAny → str !! s = Some x →
  (matches p s ↔ matches (S p) (S s)) →
  loop_inv s p ns np → loop_inv (S s) (S p) ns np.
Proof.
  intros Hc Ht Hne Hx Hiff (Hp & Hs & Hm & Hseg). pose proof (lookup_lt_Some _ _ _ Hc) as Hlt.
  pose proof (lookup_lt_Some _ _ _ Hx) as Hlts.
  split_and!; [lia|lia|by rewrite Hm, Hiff|]. intros Hns.
  destruct (Hseg Hns) as (Hc0 & Ht0 & [[-> ->]|(Hl & Heq & Hno)]); [congruence|].
  split_and!; [done..|]. right. split_and!; [lia|lia|]. intros i t' Hi Ht'.
  destruct (decide (i = p)) as [->|]; [congruence|]. apply (Hno i t'); [lia|done].
Qed.

Lemma inv_restart s p ns np :
  (0 < ns ≤ length str)%nat → ¬ matches p s → loop_inv s p ns np → loop_inv ns np ns np.
Proof.
  intros Hns Hno (Hp & Hs & Hm & Hseg). destruct (Hseg ltac:(lia)) as ([c Hc] & Ht & _).
  pose proof (lookup_lt_Some _ _ _ Hc). split_and!; [lia|lia| |].
  - rewrite Hm. tauto.
  - intros _. split_and!; [by eexists|done|by left].
Qed.

(** Fuel: [rounds ns] is what is left when the star is at [ns]. *)
Definition rounds (ns : nat) : nat := (length str + 1 - ns) * (length patChars + 2).

Definition enough (fuel s p ns np : nat) : Prop :=
  (0 < ns)%nat ∧ (s ≤ length str)%nat ∧ p = np ∧ s = ns ∧ (rounds ns ≤ fuel)%nat
  ∨ (rounds ns + (length patChars - p) < fuel)%nat.

Lemma rounds_mono ns ns' : (ns ≤ ns')%nat → (rounds ns' ≤ rounds ns)%nat.
Proof. intros. unfold rounds. apply Nat.mul_le_mono_r. lia. Qed.

Lemma rounds_succ ns : (ns ≤ length str)%nat → rounds ns = (rounds (S ns) + (length patChars + 2))%nat.
Proof.
  intros. unfold rounds. replace (length str + 1 - ns)%nat with (S (length str + 1 - S ns)) by lia. lia.
Qed.

Lemma enough_star fuel s p ns np c :
  patChars !! p = Some c → loop_inv s p ns np → enough (S fuel) s p ns np →
  enough fuel s (S p) (S s) p.
Proof.
  intros Hc%lookup_lt_Some (Hp & Hs & _ & Hseg) [(Hns & _ & -> & -> & Hf)|Hf]; right.
  - rewrite rounds_succ in Hf by done. lia.
  - assert (ns ≤ S s)%nat as Hle.
    { destruct (decide (0 < ns)%nat) as [Hns|]; [|lia].
      destruct (Hseg Hns) as (_ & _ & [[-> ->]|(? & ? & _)]); lia. }
    pose proof (rounds_mono _ _ Hle). lia.
Qed.

Lemma not_restart fuel s p ns np :
  loop_inv s p ns np → patTypes !! p ≠ Some patAny → enough (S fuel) s p ns np →
  (rounds ns + (length patChars - p) ≤ fuel)%nat.
Proof.
  intros (_ & _ & _ & Hseg) Hne [(Hns & _ & -> & -> & _)|Hf]; [|lia].
  by destruct (Hseg Hns) as (_ & ? & _).
Qed.

(** The answer of the loop, and that it is right with [fuel] turns. *)
Definition answers (r : res bool) : Prop := ∃ b, r = Ok b ∧ (b = true ↔ matches 0 0).
Definition loop_ok (fuel : nat) : Prop :=
  ∀ s p ns np, loop_inv s p ns np → enough fuel s p ns np →
               answers (match_loop fuel str patChars patTypes s p ns np).

Lemma mismatch_answers fuel s p ns np :
  loop_ok fuel → loop_inv s p ns np → enough (S fuel) s p ns np →
  patTypes !! p ≠ Some patAny → ¬ matches p s →
  answers (if (0 <? ns)%nat && (ns <=? length str)%nat
           then match_loop fuel str patChars patTypes ns np ns np else Ok false).
Proof.
  intros IH Hinv Hf Hne Hno. pose proof (not_restart _ _ _ _ _ Hinv Hne Hf) as Hfuel.
  pose proof Hinv as (_ & _ & Hm & _).
  destruct (Nat.ltb_spec 0 ns), (Nat.leb_spec ns (length str)); cbn [andb];
    try (exists false; split; [done|]; rewrite Hm; split; [done|]; intros [?|[? _]]; [done|lia]).
  apply IH; [by eapply inv_restart|]. left. split_and!; [done..|lia].
Qed.

Lemma advance_answers fuel s p ns np c t x :
  loop_ok fuel → loop_inv s p ns np → enough (S fuel) s p ns np →
  patChars !! p = Some c → patTypes !! p = Some t → t ≠ patAny → str !! s = Some x →
  (matches p s ↔ matches (S p) (S s)) →
  answers (match_loop fuel str patChars patTypes (S s) (S p) ns np).
Proof.
  intros IH Hinv Hf Hc Ht Hne Hx Hiff. apply IH; [by eapply inv_step|]. right.
  pose proof (lookup_lt_Some _ _ _ Hc).
  pose proof (not_restart _ _ _ _ _ Hinv ltac:(congruence) Hf). lia.
Qed.

Lemma match_loop_correct fuel : loop_ok fuel.
Proof.
  induction fuel as [|fuel IH]; intros s p ns np Hinv Hf.
  { exfalso. destruct Hf as [(? & Hs & _ & -> & Hf)|Hf]; [rewrite rounds_succ in Hf by done|]; lia. }
  pose proof (mismatch_answers _ _ _ _ _ IH Hinv Hf) as Hmis.
  pose proof (λ c t x, advance_answers _ _ _ _ _ c t x IH Hinv Hf) as Hgo.
  cbn [match_loop]. set (mismatch := if (0 <? ns)%nat && _ then _ else _) in *. clearbody mismatch.
  destruct (patChars !! p) as [c|] eqn:Hc.
  - pose proof (lookup_lt_Some _ _ _ Hc) as Hlt. rewrite (proj2 (Nat.ltb_lt _ _)) by done. cbn [orb].
    destruct (lookup_lt_is_Some_2 patTypes p) as [t Ht]; [lia|]. rewrite Ht in *.
    specialize (Hgo c t). unfold matches in Hgo, Hmis. rewrite (pats_lookup _ _ _ Hc Ht) in Hgo, Hmis.
    assert (∀ x, str !! s = Some x → drop s str = x :: drop (S s) str) as Hdrop.
    { intros x Hx. by apply drop_S. }
    case_bool_decide as H1; [|case_bool_decide as H2; [|case_bool_decide as H3]]; subst.
    + destruct (str !! s) as [x|] eqn:Hx.
      * specialize (Hdrop x eq_refl). unfold matchByteCI. case_bool_decide as Heq.
        -- apply (Hgo x); [done..|]. rewrite Hdrop, likes_match_inv. tauto.
        -- apply Hmis; [done|]. rewrite Hdrop, likes_match_inv. tauto.
      * apply Hmis; [done|]. rewrite (drop_ge str s) by (by apply lookup_ge_None_1).
        apply likes_match_nil.
    + destruct (Nat.ltb_spec s (length str)) as [Hsl|Hsl].
      * destruct (lookup_lt_is_Some_2 _ _ Hsl) as [x Hx]. apply (Hgo x); [done..|].
        by rewrite (Hdrop _ Hx), likes_one_inv.
      * apply Hmis; [done|]. rewrite (drop_ge str s) by done. apply likes_one_nil.
    + apply IH; [by eapply inv_star|by eapply enough_star].
    + apply Hmis; [congruence|]. by apply likes_unknown.
  - pose proof (proj1 (lookup_ge_None _ _) Hc). rewrite (proj2 (Nat.ltb_ge _ _)) by done. cbn [orb].
    unfold matches in Hmis. rewrite pats_end, likes_nil_inv in Hmis by done.
    destruct (Nat.ltb_spec s (length str)) as [Hsl|Hsl].
    + apply Hmis; [by rewrite lookup_ge_None_2 by lia|]. intros Hd%(f_equal length).
      rewrite length_drop in Hd. simpl in Hd. lia.
    + exists true. split; [done|]. destruct Hinv as (_ & _ & Hm & _). rewrite Hm.
      split; [intros _; left|done]. unfold matches. rewrite pats_end, (drop_ge str s) by done.
      constructor.
Qed.
End matcher.

(** ** Compiled patterns and SQL patterns *)
Lemma likes_cons_mono t p q s :
  (∀ s, likes p s → likes q s) → likes (t :: p) s → likes (t :: q) s.
Proof.
  intros Hpq Hl. remember (t :: p) as tp eqn:Heq. revert Heq.
  induction Hl; intros Heq; simplify_eq.
  - apply likes_match. auto.
  - apply likes_one. auto.
  - apply likes_any_stop. auto.
  - apply likes_any_take. auto.
Qed.

Lemma likes_any_any c c' p s :
  likes ((c, patAny) :: (c', patAny) :: p) s ↔ likes ((c, patAny) :: p) s.
Proof.
  rewrite !likes_any_drop. split.
  - intros [k Hk]. apply likes_any_drop in Hk as [j Hj]. rewrite drop_drop in Hj. by eexists.
  - intros [k Hk]. exists k. by constructor.
Qed.

Lemma likes_any_one c c' p s :
  likes ((c, patAny) :: (c', patOne) :: p) s → likes ((c, patAny) :: p) s.
Proof.
  rewrite !likes_any_drop. intros [k Hk]. destruct (drop k s) as [|x l] eqn:Hd.
  - by apply likes_one_nil in Hk.
  - apply likes_one_inv in Hk. exists (S k). by rewrite <- Nat.add_1_r, <- drop_drop, Hd.
Qed.

(** What the loop makes of the rest of a pattern, after a [%] or not. *)
Lemma compile_weaker escape n pattern :
  (length pattern ≤ n)%nat →
  (∀ s, likes (tokens escape pattern) s → likes (compile_loop escape pattern false) s)
  ∧ ∀ c s, likes ((c, patAny) :: tokens escape pattern) s →
           likes ((c, patAny) :: compile_loop escape pattern true) s.
Proof.
  revert pattern. induction n as [|n IH]; intros [|x rest] Hn; simpl in Hn; try lia; [done..|].
  destruct (IH rest ltac:(lia)) as [IHf IHt]. cbn [tokens compile_loop].
  case_bool_decide as He.
  { destruct rest as [|c' rest']; [done|]. simpl in Hn.
    destruct (IH rest' ltac:(lia)) as [IHf' _]. case_bool_decide; split; intros; eauto using likes_cons_mono. }
  case_bool_decide.
  { split; [intros; eapply likes_cons_mono; eauto|].
    intros c s Hl%likes_any_one. by apply IHt. }
  case_bool_decide.
  { split; [apply IHt|]. intros c s Hl%likes_any_any. by apply IHt. }
  split; intros; eauto using likes_cons_mono.
Qed.

Lemma compile_exact escape n pattern :
  (length pattern ≤ n)%nat →
  (no_one_after_any false (tokens escape pattern) = true →
   ∀ s, likes (compile_loop escape pattern false) s → likes (tokens escape pattern) s)
  ∧ (no_one_after_any true (tokens escape pattern) = true →
     ∀ c s, likes ((c, patAny) :: compile_loop escape pattern true) s →
            likes ((c, patAny) :: tokens escape pattern) s).
Proof.
  revert pattern. induction n as [|n IH]; intros [|x rest] Hn; simpl in Hn; try lia; [done..|].
  destruct (IH rest ltac:(lia)) as [IHf IHt]. cbn [tokens compile_loop].
  case_bool_decide as He.
  { destruct rest as [|c' rest']; [done|]. simpl in Hn.
    destruct (IH rest' ltac:(lia)) as [IHf' _].
    case_bool_decide; split; intros Hno; cbn in Hno; intros; eauto using likes_cons_mono. }
  case_bool_decide.
  { split; intros Hno; cbn in Hno; [intros; eauto using likes_cons_mono|done]. }
  case_bool_decide.
  { split; intros Hno; cbn in Hno; [by apply IHt|].
    intros c s Hl. apply likes_any_any. by apply IHt. }
  split; intros Hno; cbn in Hno; intros; eauto using likes_cons_mono.
Qed.

(** ** Theorems *)

(** C25: [DoMatch] always returns, and it returns true exactly when the string
    matches the compiled pattern: literally, one character per [_], any number per
    [%]. *)
Theorem do_match_correct (str patChars : list ascii) (patTypes : list Z) :
  length patChars = length patTypes →
  ∃ b, DoMatch str patChars patTypes = Ok b ∧ (b = true ↔ likes (zip patChars patTypes) str).
Proof.
  intros Hlen. unfold DoMatch.
  apply (match_loop_correct str patChars patTypes Hlen ((length str + 2) * (length patChars + 2))).
  - split_and!; [lia|lia|tauto|lia].
  - right. unfold rounds. rewrite !Nat.sub_0_r. lia.
Qed.


(** The pattern [%_] asks for at least one character, but it is compiled to
    the pattern that matches every string, the empty one included. *)
Theorem percent_underscore_matches_empty (escape : ascii) :
  escape ≠ "%"%char → escape ≠ "_"%char →
  let '(patChars, patTypes) := CompilePattern ["%"; "_"]%char escape in
  DoMatch [] patChars patTypes = Ok true ∧ ¬ likes (tokens escape ["%"; "_"]%char) [].
Proof.
  intros H1 H2. unfold CompilePattern. cbn [compile_loop tokens].
  rewrite !(bool_decide_false (_ = escape)) by done. cbn. split; [done|].
  intros [k Hk]%likes_any_drop. rewrite drop_nil in Hk. by apply likes_one_nil in Hk.
Qed.

(** An escaped percent sign of a date format is written unescaped: for the
    specifiers Arrow shares with MySQL, the format that asks for a literal percent
    sign followed by the letter is rewritten to the specifier itself. *)
Theorem arrow_percent_collision (c : ascii) (rest : string) :
  kMySQLToArrowFormatMapping c = Some (String "%" (String c "")) →
  MySQLDateFormatToArrowFormat (String "%" (String "%" (String c rest)))
  = MySQLDateFormatToArrowFormat (String "%" (String c rest)).
Proof.
  intros Hc. assert (c ≠ "%"%char) as Hne by (intros ->; discriminate).
  cbn [MySQLDateFormatToArrowFormat]. rewrite !bool_decide_true, !(bool_decide_false (c = _)), Hc by done.
  by destruct (MySQLDateFormatToArrowFormat rest).
Qed.

(** ** Examples *)
Lemma do_match_correct_witness :
  let p := CompilePattern ["a"; "%"; "b"; "_"]%char "\"%char in
  DoMatch ["a"; "x"; "b"; "b"; "c"]%char p.1 p.2 = Ok true
  ∧ ∃ b, DoMatch ["a"; "x"; "b"; "b"; "c"]%char p.1 p.2 = Ok b
         ∧ (b = true ↔ likes (zip p.1 p.2) ["a"; "x"; "b"; "b"; "c"]%char).
Proof.
  intros p. split; [vm_compute; reflexivity|].
  apply (do_match_correct ["a"; "x"; "b"; "b"; "c"]%char p.1 p.2). vm_compute. reflexivity.
Defined.

Lemma percent_underscore_matches_empty_witness :
  let '(patChars, patTypes) := CompilePattern ["%"; "_"]%char "\"%char in
  DoMatch [] patChars patTypes = Ok true ∧ ¬ likes (tokens "\"%char ["%"; "_"]%char) [].
Proof. apply percent_underscore_matches_empty; discriminate. Defined.

Lemma arrow_percent_collision_witness :
  MySQLDateFormatToArrowFormat "%%Y-%m" = MySQLDateFormatToArrowFormat "%Y-%m".
Proof. apply (arrow_percent_collision "Y"%char "-%m"). vm_compute. reflexivity. Defined.
