(* ===== verification/Strconv.v ===== *)
(** * Numbers as text (the parts of Go's strconv and fmt the compiler uses)

    [ParseInt] and [FormatInt] in base ten, [FormatBool], the verb [%f] of [fmt.Sprintf],
    and the conversions between [int64] and [float64].  Floating point numbers are those
    of [SpecFloat]. *)
From Stdlib Require Import Ascii SpecFloat DecimalString DecimalN DecimalZ.
From S2P Require Import Prelude GoInt.

(** ** Integers *)

(** [strconv.ParseUint] in base ten, before the range is looked at. *)
Definition parse_digits (s : string) : res Z :=
  if bool_decide (s = "") then Err "invalid syntax"
  else match NilEmpty.uint_of_string s with
       | Some d => Ok (Z.of_N (N.of_uint d))
       | None => Err "invalid syntax"
       end.

(** [strconv.ParseInt(s, 10, 64)] *)
Definition ParseInt (s : string) : res Z :=
  let in_range (n : Z) := if bool_decide (is_i64 n) then Ok n else Err "value out of range" in
  match s with
  | String "+"%char s => n ← parse_digits s; in_range n
  | String "-"%char s => n ← parse_digits s; in_range (- n)
  | _ => n ← parse_digits s; in_range n
  end.

(** [strconv.FormatInt(n, 10)] *)
Definition FormatInt (n : Z) : string := NilZero.string_of_int (Z.to_int n).

Definition FormatBool (b : bool) : string := if b then "true" else "false".

(** ** Floating point numbers *)

(** [float64(n)]: to the nearest, ties to even. *)
Definition float64_of_int (n : Z) : spec_float := binary_normalize 53 1024 n 0 false.

(** [int64(f)] truncates; when the result does not fit the language leaves it to the
    implementation, which is [overflow]. *)
Definition int64_of_float (overflow : spec_float → Z) (f : spec_float) : Z :=
  match f with
  | S754_zero _ => 0
  | S754_finite s m e =>
      let mag := if (0 <=? e)%Z then (Zpos m * 2 ^ e)%Z else (Zpos m / 2 ^ (- e))%Z in
      let v := if s then (- mag)%Z else mag in
      if bool_decide (is_i64 v) then v else overflow f
  | _ => overflow f
  end.

(** The quotient rounded to the nearest, ties to even. *)
Definition div_round (a b : Z) : Z :=
  let q := (a / b)%Z in
  let r := (a mod b)%Z in
  match (2 * r ?= b)%Z with
  | Lt => q
  | Gt => (q + 1)%Z
  | Eq => if Z.even q then q else (q + 1)%Z
  end.

(** [n] in six digits. *)
Definition six_digits (n : Z) : string :=
  let s := FormatInt n in
  String.concat "" (replicate (6 - String.length s) "0") +:+ s.

(** [fmt.Sprintf("%f", f)]: six digits after the point. *)
Definition Sprintf_f (f : spec_float) : string :=
  match f with
  | S754_nan => "NaN"
  | S754_infinity s => if s then "-Inf" else "+Inf"
  | S754_zero s => if s then "-0.000000" else "0.000000"
  | S754_finite s m e =>
      let q := if (0 <=? e)%Z then (Zpos m * 10 ^ 6 * 2 ^ e)%Z
               else div_round (Zpos m * 10 ^ 6) (2 ^ (- e)) in
      (if s then "-" else "") +:+ FormatInt (q / 10 ^ 6) +:+ "." +:+ six_digits (q mod 10 ^ 6)
  end.

(** ** Round trips *)
Lemma uint_string_start d : ∃ c s, NilZero.string_of_uint d = String c s ∧ c ≠ "+"%char ∧ c ≠ "-"%char.
Proof. destruct d; simpl; eauto. Qed.

Lemma parse_digits_of_uint d :
  parse_digits (NilZero.string_of_uint d) = Ok (Z.of_N (N.of_uint d)).
Proof.
  unfold parse_digits. destruct (uint_string_start d) as (c & s & Heq & _).
  rewrite bool_decide_false by (by rewrite Heq).
  assert (d = Decimal.Nil ∨ NilZero.string_of_uint d = NilEmpty.string_of_uint d) as [-> | ->]
    by (destruct d; auto); [done|]. by rewrite NilEmpty.usu.
Qed.

Lemma ParseInt_FormatInt n : is_i64 n → ParseInt (FormatInt n) = Ok n.
Proof.
  intros Hn. unfold FormatInt, NilZero.string_of_int.
  assert (Z.of_int (Z.to_int n) = n) as Hof by apply DecimalZ.of_to.
  destruct (Z.to_int n) as [d|d]; simpl in Hof.
  - destruct (uint_string_start d) as (c & s & Heq & Hp & Hm). unfold ParseInt.
    assert (parse_digits (String c s) = Ok n) as Hd.
    { rewrite <- Heq, parse_digits_of_uint. f_equal. by rewrite <- Hof. }
    rewrite Heq. destruct c as [[] [] [] [] [] [] [] []]; simpl; try by rewrite Hd; simpl; rewrite bool_decide_true.
    all: done.
  - simpl. rewrite parse_digits_of_uint. simpl.
    assert (- Z.of_N (N.of_uint d) = n)%Z as -> by done. by rewrite bool_decide_true.
Qed.

Lemma parse_digits_total s : parse_digits s ≠ Panic.
Proof. unfold parse_digits. by repeat case_match. Qed.
Lemma ParseInt_total s : ParseInt s ≠ Panic.
Proof.
  assert (∀ s (f : Z → Z), (n ← parse_digits s;
    if bool_decide (is_i64 (f n)) then Ok (f n) else Err "value out of range") ≠ Panic) as Hd.
  { intros s' f. pose proof (parse_digits_total s'). destruct (parse_digits s'); simpl; [|done..].
    by case_bool_decide. }
  unfold ParseInt. repeat case_match; try apply (Hd _ id); apply (Hd _ Z.opp).
Qed.
