(* ===== verification/Overflow.v ===== *)
(** * Checked integer arithmetic (pkg/types/overflow.go)

    The arithmetic of SQL integers: every operation either returns the exact result
    or [ErrOverflow].  The machine operations wrap as Go's do. *)
From S2P Require Import Prelude GoInt.

Definition ErrOverflow {A} : res A := Err "value is out of range in ".

(** Go's [+], [-], [*] and unary [-] on int64 and uint64. *)
Definition add64 (a b : Z) : Z := i64 (a + b).
Definition sub64 (a b : Z) : Z := i64 (a - b).
Definition neg64 (a : Z) : Z := i64 (- a).

Definition AddUint64 (a b : Z) : res Z :=
  if u64 (MaxUint64 - a) <? b then ErrOverflow else Ok (u64 (a + b)).

Definition AddInt64 (a b : Z) : res Z :=
  if ((a >? 0) && (b >? 0) && (sub64 MaxInt64 a <? b))
     || ((a <? 0) && (b <? 0) && (sub64 MinInt64 a >? b))
  then ErrOverflow else Ok (add64 a b).

(** A [time.Duration] is an int64. *)
Definition AddDuration (a b : Z) : res Z :=
  if ((a >? 0) && (b >? 0) && (sub64 MaxInt64 a <? b))
     || ((a <? 0) && (b <? 0) && (sub64 MinInt64 a >? b))
  then ErrOverflow else Ok (add64 a b).

Definition SubDuration (a b : Z) : res Z :=
  if ((a >? 0) && (b <? 0) && (sub64 MaxInt64 a <? neg64 b))
     || ((a <? 0) && (b >? 0) && (sub64 MinInt64 a >? neg64 b))
     || ((a =? 0) && (b =? MinInt64))
  then ErrOverflow else Ok (sub64 a b).

Definition AddInteger (a b : Z) : res Z :=
  if b >=? 0 then AddUint64 a (u64 b)
  else if u64 (neg64 b) >? a then ErrOverflow
  else Ok (u64 (a - u64 (neg64 b))).

Definition SubUint64 (a b : Z) : res Z :=
  if a <? b then ErrOverflow else Ok (u64 (a - b)).

Definition SubInt64 (a b : Z) : res Z :=
  if ((a >? 0) && (b <? 0) && (sub64 MaxInt64 a <? neg64 b))
     || ((a <? 0) && (b >? 0) && (sub64 MinInt64 a >? neg64 b))
     || ((a =? 0) && (b =? MinInt64))
  then ErrOverflow else Ok (sub64 a b).

Definition SubUintWithInt (a b : Z) : res Z :=
  if b <? 0 then AddUint64 a (u64 (neg64 b)) else SubUint64 a (u64 b).

Definition SubIntWithUint (a b : Z) : res Z :=
  if (a <? 0) || (u64 a <? b) then ErrOverflow else Ok (u64 (u64 a - b)).

Definition MulUint64 (a b : Z) : res Z :=
  if (b >? 0) && (a >? MaxUint64 `div` b) then ErrOverflow else Ok (u64 (a * b)).

Definition MulInt64 (a b : Z) : res Z :=
  if (a =? 0) || (b =? 0) then Ok 0
  else
    let '(r, negative) :=
      if (a >? 0) && (b >? 0) then (MulUint64 (u64 a) (u64 b), false)
      else if (a <? 0) && (b <? 0) then (MulUint64 (u64 (neg64 a)) (u64 (neg64 b)), false)
      else if (a <? 0) && (b >? 0) then (MulUint64 (u64 (neg64 a)) (u64 b), true)
      else (MulUint64 (u64 a) (u64 (neg64 b)), true) in
    r ← r;
    if negative : bool then
      if r >? MaxInt64 + 1 then ErrOverflow else Ok (neg64 (i64 r))
    else if r >? MaxInt64 then ErrOverflow else Ok (i64 r).

Definition MulInteger (a b : Z) : res Z :=
  if (a =? 0) || (b =? 0) then Ok 0
  else if b <? 0 then ErrOverflow
  else MulUint64 a (u64 b).

(** Go's [/] truncates and panics on zero. *)
Definition DivInt64 (a b : Z) : res Z :=
  if (a =? MinInt64) && (b =? -1) then ErrOverflow
  else if b =? 0 then Panic else Ok (i64 (Z.quot a b)).

Definition DivUintWithInt (a b : Z) : res Z :=
  if b <? 0 then
    if negb (a =? 0) && (u64 (neg64 b) <=? a) then ErrOverflow else Ok 0
  else if u64 b =? 0 then Panic else Ok (u64 (Z.quot a (u64 b))).

Definition DivIntWithUint (a b : Z) : res Z :=
  if a <? 0 then
    if u64 (neg64 a) >=? b then ErrOverflow else Ok 0
  else if b =? 0 then Panic else Ok (u64 (Z.quot (u64 a) b)).

(** ** Specification: the exact result, or an error when it does not fit. *)
Definition exact (lo hi z : Z) : res Z :=
  if (lo <=? z) && (z <=? hi) then Ok z else ErrOverflow.
Definition exact_i64 : Z → res Z := exact MinInt64 MaxInt64.
Definition exact_u64 : Z → res Z := exact 0 MaxUint64.

Lemma exact_in lo hi z : lo ≤ z ≤ hi → exact lo hi z = Ok z.
Proof. intros. unfold exact. by rewrite !(proj2 (Z.leb_le _ _)) by lia. Qed.
Lemma exact_out lo hi z : z < lo ∨ hi < z → exact lo hi z = ErrOverflow.
Proof.
  intros. unfold exact. destruct (Z.leb_spec lo z), (Z.leb_spec z hi); simpl; try done; lia.
Qed.

(** Each operation by cases on its comparisons. *)
Ltac reflect_cmp :=
  repeat match goal with
  | |- context [?a <? ?b] => destruct (Z.ltb_spec a b)
  | |- context [?a >? ?b] => rewrite (Z.gtb_ltb a b)
  | |- context [?a >=? ?b] => rewrite (Z.geb_leb a b)
  | |- context [?a <=? ?b] => destruct (Z.leb_spec a b)
  | |- context [?a =? ?b] => destruct (Z.eqb_spec a b)
  end; cbn [andb orb negb].
Ltac exact_cases :=
  first [ rewrite exact_in by lia; f_equal | rewrite exact_out by lia; reflexivity ].

Lemma neg64_u64 b : MinInt64 ≤ b ≤ 0 → u64 (neg64 b) = - b.
Proof.
  int_range. intros. unfold neg64. destruct (decide (b = MinInt64)) as [->|]; [by vm_compute|].
  int_range. rewrite i64_small, u64_small by (int_range; lia). done.
Qed.

Lemma neg64_small b : MinInt64 < b ≤ MaxInt64 → neg64 b = - b.
Proof. int_range. intros. unfold neg64. apply i64_small. int_range. lia. Qed.

Lemma add_uint64_exact a b : is_u64 a → is_u64 b → AddUint64 a b = exact_u64 (a + b).
Proof.
  intros Ha Hb. unfold AddUint64, exact_u64. rewrite (u64_small (MaxUint64 - a)) by (int_range; lia).
  int_range. reflect_cmp; exact_cases. apply u64_small. int_range. lia.
Qed.

Lemma sub_uint64_exact a b : is_u64 a → is_u64 b → SubUint64 a b = exact_u64 (a - b).
Proof.
  intros Ha Hb. unfold SubUint64, exact_u64. int_range. reflect_cmp; exact_cases.
  apply u64_small. int_range. lia.
Qed.

Lemma add_int64_exact a b : is_i64 a → is_i64 b → AddInt64 a b = exact_i64 (a + b).
Proof.
  intros Ha Hb. unfold AddInt64, exact_i64, sub64, add64. int_range.
  destruct (Z.lt_trichotomy a 0) as [|[->|]].
  - rewrite (i64_small (-9223372036854775808 - a)) by (int_range; lia).
    reflect_cmp; try lia; exact_cases; apply i64_small; int_range; lia.
  - reflect_cmp; try lia; exact_cases; apply i64_small; int_range; lia.
  - rewrite (i64_small (9223372036854775807 - a)) by (int_range; lia).
    reflect_cmp; try lia; exact_cases; apply i64_small; int_range; lia.
Qed.

Lemma sub_int64_exact a b :
  is_i64 a → is_i64 b → b ≠ MinInt64 ∨ a ≤ 0 → SubInt64 a b = exact_i64 (a - b).
Proof.
  intros Ha Hb Hn. unfold SubInt64, exact_i64, sub64.
  destruct (decide (b = MinInt64)) as [->|Hne].
  - destruct Hn as [?|Hn]; [done|]. int_range. reflect_cmp; try lia; exact_cases;
      apply i64_small; int_range; lia.
  - rewrite neg64_small by (int_range; lia). int_range. destruct (Z.lt_trichotomy a 0) as [|[->|]].
    + rewrite (i64_small (-9223372036854775808 - a)) by (int_range; lia).
      reflect_cmp; try lia; exact_cases; apply i64_small; int_range; lia.
    + reflect_cmp; try lia; exact_cases; apply i64_small; int_range; lia.
    + rewrite (i64_small (9223372036854775807 - a)) by (int_range; lia).
      reflect_cmp; try lia; exact_cases; apply i64_small; int_range; lia.
Qed.

Lemma mul_uint64_exact a b : is_u64 a → is_u64 b → MulUint64 a b = exact_u64 (a * b).
Proof.
  intros Ha Hb. unfold MulUint64, exact_u64. rewrite !Z.gtb_ltb.
  destruct (Z.ltb_spec 0 b) as [Hpos|Hz]; cbn [andb].
  - pose proof (Z.div_mod MaxUint64 b ltac:(lia)) as Hdm.
    pose proof (Z.mod_pos_bound MaxUint64 b Hpos) as Hm.
    destruct (Z.ltb_spec (MaxUint64 `div` b) a) as [Hgt|Hle].
    + rewrite exact_out; [done|]. right. nia.
    + assert (0 ≤ a * b ≤ MaxUint64) as Hr by (int_range; nia).
      rewrite exact_in by done. f_equal. by apply u64_small.
  - assert (b = 0) as -> by (int_range; lia). rewrite Z.mul_0_r. by rewrite exact_in by (int_range; lia).
Qed.

Lemma mul_int64_exact a b : is_i64 a → is_i64 b → MulInt64 a b = exact_i64 (a * b).
Proof.
  intros Ha Hb. unfold MulInt64, exact_i64.
  destruct (Z.eqb_spec a 0) as [->|Ha0]; [by rewrite exact_in by (int_range; lia)|].
  destruct (Z.eqb_spec b 0) as [->|Hb0]; cbn [orb].
  { rewrite Z.mul_0_r. by rewrite exact_in by (int_range; lia). }
  assert (∀ x y (neg : bool), is_u64 x → is_u64 y → a * b = (if neg then - (x * y) else x * y) →
    (r ← MulUint64 x y;
     if neg then if r >? MaxInt64 + 1 then ErrOverflow else Ok (neg64 (i64 r))
     else if r >? MaxInt64 then ErrOverflow else Ok (i64 r)) = exact MinInt64 MaxInt64 (a * b)) as Hcase.
  { intros x y neg Hx Hy Hab. rewrite mul_uint64_exact, Hab by done. unfold exact_u64.
    assert (0 ≤ x * y) by (int_range; nia). generalize dependent (x * y). intros z _ Hz.
    destruct (Z.leb_spec z MaxUint64) as [Hf|Ho].
    - rewrite (exact_in 0 MaxUint64 z) by lia. cbn [mbind res_bind]. rewrite !Z.gtb_ltb.
      destruct neg.
      + destruct (Z.ltb_spec (MaxInt64 + 1) z); [rewrite exact_out by (int_range; lia); done|].
        rewrite exact_in by (int_range; lia). f_equal.
        destruct (decide (z = MaxInt64 + 1)) as [->|]; [by vm_compute|].
        rewrite i64_small, neg64_small by (int_range; lia). done.
      + destruct (Z.ltb_spec MaxInt64 z); [rewrite exact_out by (int_range; lia); done|].
        rewrite exact_in by (int_range; lia). f_equal. apply i64_small. int_range. lia.
    - rewrite (exact_out 0 MaxUint64 z) by lia. cbn [mbind res_bind].
      rewrite exact_out by (destruct neg; int_range; lia). done. }
  rewrite !Z.gtb_ltb. destruct (Z.ltb_spec a 0), (Z.ltb_spec b 0), (Z.ltb_spec 0 a), (Z.ltb_spec 0 b);
    try lia; cbn [andb]; (first [eapply (Hcase _ _ false)|eapply (Hcase _ _ true)]; [apply u64_range..|]);
    rewrite ?neg64_u64, ?u64_small by (int_range; lia); lia.
Qed.

Lemma add_integer_exact a b : is_u64 a → is_i64 b → AddInteger a b = exact_u64 (a + b).
Proof.
  intros Ha Hb. unfold AddInteger. rewrite Z.geb_leb, Z.gtb_ltb. destruct (Z.leb_spec 0 b).
  - rewrite u64_small by (int_range; lia). apply add_uint64_exact; int_range; lia.
  - rewrite neg64_u64 by (int_range; lia). unfold exact_u64. int_range.
    destruct (Z.ltb_spec a (- b)); exact_cases. rewrite u64_small; int_range; lia.
Qed.

Lemma sub_uint_with_int_exact a b : is_u64 a → is_i64 b → SubUintWithInt a b = exact_u64 (a - b).
Proof.
  intros Ha Hb. unfold SubUintWithInt. destruct (Z.ltb_spec b 0).
  - rewrite neg64_u64 by (int_range; lia). by rewrite add_uint64_exact by (int_range; lia).
  - rewrite u64_small by (int_range; lia). apply sub_uint64_exact; int_range; lia.
Qed.

Lemma sub_int_with_uint_exact a b : is_i64 a → is_u64 b → SubIntWithUint a b = exact_u64 (a - b).
Proof.
  intros Ha Hb. unfold SubIntWithUint, exact_u64. destruct (Z.ltb_spec a 0); cbn [orb].
  - rewrite exact_out by (int_range; lia). done.
  - rewrite (u64_small a) by (int_range; lia). int_range.
    destruct (Z.ltb_spec a b); exact_cases. apply u64_small. int_range. lia.
Qed.

Lemma mul_integer_exact a b : is_u64 a → is_i64 b → MulInteger a b = exact_u64 (a * b).
Proof.
  intros Ha Hb. unfold MulInteger.
  destruct (Z.eqb_spec a 0) as [->|]; [by unfold exact_u64; rewrite exact_in by (int_range; lia)|].
  destruct (Z.eqb_spec b 0) as [->|]; cbn [orb].
  { rewrite Z.mul_0_r. unfold exact_u64. by rewrite exact_in by (int_range; lia). }
  destruct (Z.ltb_spec b 0).
  - unfold exact_u64. rewrite exact_out by (int_range; nia). done.
  - rewrite u64_small by (int_range; lia). apply mul_uint64_exact; int_range; lia.
Qed.

Lemma div_int64_exact a b :
  is_i64 a → is_i64 b → DivInt64 a b = if b =? 0 then Panic else exact_i64 (Z.quot a b).
Proof.
  intros Ha Hb. unfold DivInt64, exact_i64. destruct (Z.eqb_spec b (-1)) as [->|Hne].
  - rewrite andb_true_r. change (-1 =? 0) with false.
    assert (Z.quot a (-1) = - a) as -> by (change (-1) with (- (1)); by rewrite Z.quot_opp_r, Z.quot_1_r by lia).
    destruct (Z.eqb_spec a MinInt64) as [->|]; [by vm_compute|]. int_range.
    rewrite exact_in by lia. f_equal. apply i64_small. int_range. lia.
  - rewrite andb_false_r. destruct (Z.eqb_spec b 0) as [|Hnz]; [done|].
    assert (is_i64 (Z.quot a b)) as Hq.
    { int_range. pose proof (Z.quot_rem a b Hnz). pose proof (Z.rem_bound_abs a b Hnz).
      pose proof (Z.quot_abs a b Hnz). assert (2 ≤ Z.abs b ∨ b = 1) as [Hb2| ->] by lia.
      - assert (Z.quot (Z.abs a) (Z.abs b) ≤ Z.abs a / 2) by
          (rewrite Z.quot_div_nonneg by lia; apply Z.div_le_compat_l; lia).
        assert (Z.abs a / 2 ≤ 9223372036854775808 / 2) by (apply Z.div_le_mono; lia). 
        change (9223372036854775808 / 2) with 4611686018427387904 in *. lia.
      - rewrite Z.quot_1_r. lia. }
    rewrite exact_in by done. f_equal. by apply i64_small.
Qed.

Lemma div_uint_with_int_exact u b :
  is_u64 u → is_i64 b → DivUintWithInt u b = if b =? 0 then Panic else exact_u64 (Z.quot u b).
Proof.
  intros Hu Hb. unfold DivUintWithInt, exact_u64. destruct (Z.ltb_spec b 0).
  - rewrite (proj2 (Z.eqb_neq b 0)), neg64_u64 by (int_range; lia).
    assert (Z.quot u b = - (u / - b)) as ->.
    { rewrite <- (Z.opp_involutive b) at 1. rewrite Z.quot_opp_r, Z.quot_div_nonneg by (int_range; lia). done. }
    destruct (Z.leb_spec (- b) u); [|].
    + rewrite andb_true_r, (proj2 (Z.eqb_neq u 0)) by lia. cbn [negb].
      assert (1 ≤ u / - b) by (apply Z.div_le_lower_bound; lia). by rewrite exact_out by lia.
    + rewrite andb_false_r, Z.div_small by (int_range; lia). by rewrite exact_in by (int_range; lia).
  - rewrite u64_small by (int_range; lia). destruct (Z.eqb_spec b 0); [done|].
    rewrite Z.quot_div_nonneg by (int_range; lia).
    assert (is_u64 (u / b)). { int_range. split; [apply Z.div_pos; lia|].
      apply Z.div_le_upper_bound; [lia|]. nia. }
    rewrite exact_in by done. f_equal. by apply u64_small.
Qed.

Lemma div_int_with_uint_exact a v :
  is_i64 a → is_u64 v →
  DivIntWithUint a v
  = if v =? 0 then if a <? 0 then ErrOverflow else Panic else exact_u64 (Z.quot a v).
Proof.
  intros Ha Hv. unfold DivIntWithUint, exact_u64. rewrite Z.geb_leb. destruct (Z.ltb_spec a 0).
  - rewrite neg64_u64 by (int_range; lia). destruct (Z.eqb_spec v 0) as [->|].
    { by rewrite (proj2 (Z.leb_le 0 (- a))) by lia. }
    assert (Z.quot a v = - ((- a) / v)) as ->.
    { rewrite <- (Z.opp_involutive a) at 1. rewrite Z.quot_opp_l, Z.quot_div_nonneg by (int_range; lia). done. }
    destruct (Z.leb_spec v (- a)).
    + assert (1 ≤ - a / v) by (apply Z.div_le_lower_bound; int_range; lia). by rewrite exact_out by lia.
    + rewrite Z.div_small by (int_range; lia). by rewrite exact_in by (int_range; lia).
  - rewrite (u64_small a) by (int_range; lia). destruct (Z.eqb_spec v 0); [done|].
    rewrite Z.quot_div_nonneg by (int_range; lia).
    assert (is_u64 (a / v)). { int_range. split; [apply Z.div_pos; lia|].
      apply Z.div_le_upper_bound; [lia|]. nia. }
    rewrite exact_in by done. f_equal. by apply u64_small.
Qed.

(** ** Theorems *)


(** Signed subtraction is exact except for the smallest subtrahend and a
    positive minuend, where the negation in the check wraps: then the wrapped
    difference is returned as if it were the result. *)
Theorem sub_int64_misses_overflow (a b : Z) :
  is_i64 a → is_i64 b →
  SubInt64 a b = SubDuration a b
  ∧ SubInt64 a b = if (a >? 0) && (b =? MinInt64) then Ok (a + MinInt64) else exact_i64 (a - b).
Proof.
  intros Ha Hb. split; [done|]. rewrite Z.gtb_ltb.
  destruct (Z.ltb_spec 0 a) as [Hpos|]; cbn [andb]; [|apply sub_int64_exact; auto].
  destruct (Z.eqb_spec b MinInt64) as [->|]; [|apply sub_int64_exact; auto].
  unfold SubInt64, sub64. rewrite (i64_small (MaxInt64 - a)) by (int_range; lia).
  assert (neg64 MinInt64 = MinInt64) as -> by by vm_compute.
  assert (i64 (a - MinInt64) = a + MinInt64) as ->.
  { rewrite <- (i64_small (a + MinInt64)) by (int_range; lia). unfold i64, MinInt64.
    rewrite <- (Z_mod_plus_full (a - _ + _) (-1)). do 2 f_equal. lia. }
  int_range. reflect_cmp; try done; lia.
Qed.

(** Division truncates towards zero, is exact when the quotient fits, panics
    on a zero divisor -- and, against its documentation, reports an overflow when a
    negative number is divided by an unsigned zero. *)
Theorem division_exact (a b u v : Z) :
  is_i64 a → is_i64 b → is_u64 u → is_u64 v →
  DivInt64 a b = (if b =? 0 then Panic else exact_i64 (Z.quot a b))
  ∧ DivUintWithInt u b = (if b =? 0 then Panic else exact_u64 (Z.quot u b))
  ∧ DivIntWithUint a v
    = (if v =? 0 then if a <? 0 then ErrOverflow else Panic else exact_u64 (Z.quot a v)).
Proof.
  intros. split_and!; [by apply div_int64_exact|by apply div_uint_with_int_exact
                      |by apply div_int_with_uint_exact].
Qed.


Lemma sub_int64_misses_overflow_witness : SubInt64 1 MinInt64 = Ok (-9223372036854775807).
Proof. apply (sub_int64_misses_overflow 1 MinInt64); int_range; lia. Defined.

Lemma division_exact_witness :
  DivInt64 (-7) 2 = Ok (-3) ∧ DivUintWithInt 7 (-2) = ErrOverflow ∧ DivIntWithUint (-1) 0 = ErrOverflow.
Proof.
  destruct (division_exact (-7) 2 0 1) as (H1 & _); [int_range; lia..|].
  destruct (division_exact 0 (-2) 7 1) as (_ & H2 & _); [int_range; lia..|].
  destruct (division_exact (-1) 1 0 0) as (_ & _ & H3); [int_range; lia..|].
  rewrite H1, H2, H3. vm_compute. split_and!; reflexivity.
Defined.
