(* ===== verification/Mytime.v ===== *)
(** * Calendar arithmetic (pkg/types/mytime.go)

    Day numbers, weeks, time differences and the mixing of a date with a time, as
    MySQL defines them.  [int] arithmetic stays far below 64 bits for the ranges of the
    fields and is plain [Z] with Go's truncating division; the [uint] arithmetic of
    [getDateFromDaynr] and the conversions to narrower fields wrap.  The conversions
    from and to Go's [time.Time], and the location kept for them, are left out. *)
From S2P Require Import Prelude GoInt.

Record MysqlTime := mkMysqlTime {
  hour : Z;
  microsecond : Z;
  year : Z;
  month : Z;
  day : Z;
  minute : Z;
  second : Z;
}.

Definition u32 (x : Z) : Z := x `mod` 4294967296.
Definition u16 (x : Z) : Z := x `mod` 65536.
Definition u8 (x : Z) : Z := x `mod` 256.

Definition isLeapYear (year : Z) : bool :=
  ((Z.rem year 4 =? 0) && negb (Z.rem year 100 =? 0)) || (Z.rem year 400 =? 0).

Definition daysByMonth : list Z := [31; 28; 31; 30; 31; 30; 31; 31; 30; 31; 30; 31].

Definition GetLastDay (year month : Z) : Z :=
  let day := if (month >? 0) && (month <=? 12) then nth (Z.to_nat (month - 1)) daysByMonth 0 else 0 in
  if (month =? 2) && isLeapYear (u16 year) then 29 else day.

(** Days since 0000-00-00. *)
Definition calcDaynr (year month day : Z) : Z :=
  if (year =? 0) && (month =? 0) then 0
  else
    let delsum := 365 * year + 31 * (month - 1) + day in
    let '(year, delsum) :=
      if month <=? 2 then (year - 1, delsum)
      else (year, delsum - Z.quot (month * 4 + 23) 10) in
    let temp := Z.quot ((Z.quot year 100 + 1) * 3) 4 in
    delsum + Z.quot year 4 - temp.

Definition DateDiff (startTime endTime : MysqlTime) : Z :=
  calcDaynr (year startTime) (month startTime) (day startTime)
  - calcDaynr (year endTime) (month endTime) (day endTime).

Definition YearDay (t : MysqlTime) : Z :=
  if (month t =? 0) || (day t =? 0) then 0
  else calcDaynr (year t) (month t) (day t) - calcDaynr (year t) 1 1 + 1.

Definition calcDaysInYear (year : Z) : Z :=
  if (Z.land year 3 =? 0)
     && (negb (Z.rem year 100 =? 0) || ((Z.rem year 400 =? 0) && negb (year =? 0)))
  then 366 else 365.

Definition calcWeekday (daynr : Z) (sundayFirstDayOfWeek : bool) : Z :=
  Z.rem (daynr + 5 + if sundayFirstDayOfWeek then 1 else 0) 7.

(** *** Weeks *)
Definition weekBehaviourMondayFirst : Z := 1.
Definition weekBehaviourYear : Z := 2.
Definition weekBehaviourFirstWeekday : Z := 4.
Definition week_test (v flag : Z) : bool := negb (Z.land v flag =? 0).

Definition weekMode (mode : Z) : Z :=
  let weekFormat := Z.land mode 7 in
  if Z.land weekFormat weekBehaviourMondayFirst =? 0
  then Z.lxor weekFormat weekBehaviourFirstWeekday else weekFormat.

(** Year and week. *)
Definition calcWeek (t : MysqlTime) (wb : Z) : Z * Z :=
  let daynr := calcDaynr (year t) (month t) (day t) in
  let firstDaynr := calcDaynr (year t) 1 1 in
  let mondayFirst := week_test wb weekBehaviourMondayFirst in
  let weekYear := week_test wb weekBehaviourYear in
  let firstWeekday := week_test wb weekBehaviourFirstWeekday in
  let weekday := calcWeekday firstDaynr (negb mondayFirst) in
  let skips (weekday : Z) :=
    (firstWeekday && negb (weekday =? 0)) || (negb firstWeekday && (weekday >=? 4)) in
  let finish (yr firstDaynr weekday : Z) (weekYear : bool) :=
    let days := if skips weekday then daynr - (firstDaynr + 7 - weekday)
                else daynr - (firstDaynr - weekday) in
    let weekday' := Z.rem (weekday + calcDaysInYear yr) 7 in
    if weekYear && (days >=? 52 * 7)
       && ((negb firstWeekday && (weekday' <? 4)) || (firstWeekday && (weekday' =? 0)))
    then (yr + 1, 1)
    else (yr, Z.quot days 7 + 1) in
  if (month t =? 1) && (day t <=? 7 - weekday) then
    if negb weekYear && skips weekday then (year t, 0)
    else
      let yr := year t - 1 in
      let days := calcDaysInYear yr in
      finish yr (firstDaynr - days) (Z.rem (weekday + 53 * 7 - days) 7) true
  else finish (year t) firstDaynr weekday weekYear.

Definition YearWeek (t : MysqlTime) (mode : Z) : Z * Z :=
  calcWeek t (Z.lor (weekMode mode) weekBehaviourYear).
Definition Week (t : MysqlTime) (mode : Z) : Z :=
  if (month t =? 0) || (day t =? 0) then 0 else (calcWeek t (weekMode mode)).2.

(** *** Times *)
Definition secondsIn24Hour : Z := 86400.

Definition calcTimeFromSec (to : MysqlTime) (seconds microseconds : Z) : MysqlTime :=
  let rest := Z.rem seconds 3600 in
  mkMysqlTime (u32 (Z.quot seconds 3600)) (u32 microseconds) (year to) (month to) (day to)
    (u8 (Z.quot rest 60)) (u8 (Z.rem rest 60)).

(** Seconds, microseconds and whether the difference is negative. *)
Definition calcTimeDiff (t1 t2 : MysqlTime) (sign : Z) : Z * Z * bool :=
  let days := calcDaynr (year t1) (month t1) (day t1)
              - sign * calcDaynr (year t2) (month t2) (day t2) in
  let tmp := (days * secondsIn24Hour + hour t1 * 3600 + minute t1 * 60 + second t1
              - sign * (hour t2 * 3600 + minute t2 * 60 + second t2)) * 1000000
             + microsecond t1 - sign * microsecond t2 in
  let '(tmp, neg) := if tmp <? 0 then (- tmp, true) else (tmp, false) in
  (Z.quot tmp 1000000, Z.rem tmp 1000000, neg).

Definition dateToUint64 (t : MysqlTime) : Z := year t * 10000 + month t * 100 + day t.
Definition timeToUint64 (t : MysqlTime) : Z := hour t * 10000 + minute t * 100 + second t.
Definition datetimeToUint64 (t : MysqlTime) : Z := dateToUint64 t * 1000000 + timeToUint64 t.

Definition daysInMonth : list Z := [31; 28; 31; 30; 31; 30; 31; 31; 30; 31; 30; 31].

(** [for dayOfYear > daysInYear]; each turn takes at least 365 days. *)
Fixpoint year_loop (fuel : nat) (dayOfYear yr : Z) : Z * Z :=
  match fuel with
  | 0%nat => (dayOfYear, yr)
  | S fuel =>
      if dayOfYear >? calcDaysInYear yr
      then year_loop fuel (dayOfYear - calcDaysInYear yr) (yr + 1)
      else (dayOfYear, yr)
  end.

(** [for _, days := range daysInMonth] *)
Fixpoint month_loop (months : list Z) (dayOfYear m : Z) : Z * Z :=
  match months with
  | [] => (dayOfYear, m)
  | days :: months =>
      if dayOfYear <=? days then (dayOfYear, m) else month_loop months (dayOfYear - days) (m + 1)
  end.

Definition month_day (daysInYear dayOfYear : Z) : Z * Z :=
  let '(dayOfYear, leapDay) :=
    if (daysInYear =? 366) && (dayOfYear >? 31 + 28)
    then (dayOfYear - 1, if dayOfYear - 1 =? 31 + 28 then 1 else 0)
    else (dayOfYear, 0) in
  let '(dayOfYear, m) := month_loop daysInMonth dayOfYear 1 in
  (m, dayOfYear + leapDay).

Definition getDateFromDaynr (daynr : Z) : Z * Z * Z :=
  if (daynr <=? 365) || (daynr >=? 3652500) then (0, 0, 0)
  else
    let yr := Z.quot (u64 (daynr * 100)) 36525 in
    let temp := Z.quot ((Z.quot (u64 (yr - 1)) 100 + 1) * 3) 4 in
    let dayOfYear := u64 (daynr - yr * 365 - Z.quot (u64 (yr - 1)) 4 + temp) in
    let '(dayOfYear, yr) := year_loop (Z.to_nat (dayOfYear `div` 365 + 1)) dayOfYear yr in
    let '(m, d) := month_day (calcDaysInYear yr) dayOfYear in
    (yr, m, d).

Definition mixDateAndTime (date time : MysqlTime) (neg : bool) : MysqlTime :=
  if negb neg && (hour time <? 24) then
    mkMysqlTime (hour time) (microsecond time) (year date) (month date) (day date)
      (minute time) (second time)
  else
    let sign := if neg then 1 else -1 in
    let '(seconds, microseconds, _) := calcTimeDiff date time sign in
    let days := Z.quot seconds secondsIn24Hour in
    let date := calcTimeFromSec date (Z.rem seconds secondsIn24Hour) microseconds in
    let '(yr, m, d) := getDateFromDaynr (u64 days) in
    mkMysqlTime (hour date) (microsecond date) (u16 yr) (u8 m) (u8 d) (minute date) (second date).

(** Months between two points, [uint] arithmetic. *)
Definition clock (t : MysqlTime) : Z := hour t * 3600 + minute t * 60 + second t.
Definition months_between (beg fin : MysqlTime) : Z :=
  let earlier := (month fin <? month beg) || ((month fin =? month beg) && (day fin <? day beg)) in
  let years := u64 (year fin - year beg) in
  let years := if earlier then u64 (years - 1) else years in
  let months := u64 (12 * years) in
  let months := if earlier then u64 (months + u64 (12 - u64 (month beg - month fin)))
                else u64 (months + u64 (month fin - month beg)) in
  if day fin <? day beg then u64 (months - 1)
  else if (day fin =? day beg)
          && ((clock fin <? clock beg)
              || ((clock fin =? clock beg) && (microsecond fin <? microsecond beg)))
       then u64 (months - 1)
  else months.

Definition timestampDiff (intervalType : string) (t1 t2 : MysqlTime) : Z :=
  let '(seconds, microseconds, neg) := calcTimeDiff t2 t1 1 in
  let months := if neg : bool then months_between t2 t1 else months_between t1 t2 in
  let negV := if neg then -1 else 1 in
  if String.eqb intervalType "YEAR" then Z.quot (i64 months) 12 * negV
  else if String.eqb intervalType "QUARTER" then Z.quot (i64 months) 3 * negV
  else if String.eqb intervalType "MONTH" then i64 months * negV
  else if String.eqb intervalType "WEEK" then Z.quot (Z.quot seconds secondsIn24Hour) 7 * negV
  else if String.eqb intervalType "DAY" then Z.quot seconds secondsIn24Hour * negV
  else if String.eqb intervalType "HOUR" then Z.quot seconds 3600 * negV
  else if String.eqb intervalType "MINUTE" then Z.quot seconds 60 * negV
  else if String.eqb intervalType "SECOND" then seconds * negV
  else if String.eqb intervalType "MICROSECOND" then (seconds * 1000000 + microseconds) * negV
  else 0.

(** ** Day numbers *)
Ltac divs := Z.to_euclidean_division_equations; lia.

(** The day number of the last day before year [y]. *)
Definition year_start (y : Z) : Z :=
  365 * y + (y - 1) `div` 4 - (((y - 1) `div` 100 + 1) * 3) `div` 4.
Definition leap (y : Z) : Z := if isLeapYear y then 1 else 0.
(** The number of the day in its year. *)
Definition ordinal (l m d : Z) : Z :=
  31 * (m - 1) + d - if m <=? 2 then 0 else (m * 4 + 23) `div` 10 - l.

Definition valid_date (y m d : Z) : Prop :=
  1 ≤ y ≤ 9999 ∧ 1 ≤ m ≤ 12 ∧ 1 ≤ d ≤ GetLastDay y m.

Lemma leap_cases y :
  0 ≤ y →
  leap y = if bool_decide (y `mod` 4 = 0 ∧ (y `mod` 100 ≠ 0 ∨ y `mod` 400 = 0)) then 1 else 0.
Proof.
  intros Hy. unfold leap, isLeapYear. rewrite !Z.rem_mod_nonneg by lia.
  destruct (Z.eqb_spec (y `mod` 4) 0), (Z.eqb_spec (y `mod` 100) 0), (Z.eqb_spec (y `mod` 400) 0);
    cbn [andb orb negb]; case_bool_decide; try done; exfalso; divs.
Qed.

Lemma days_in_year y : 1 ≤ y → calcDaysInYear y = 365 + leap y.
Proof.
  intros Hy. unfold calcDaysInYear. rewrite leap_cases by lia. rewrite !Z.rem_mod_nonneg by lia.
  change 3 with (Z.ones 2). rewrite Z.land_ones by lia. change (2 ^ 2) with 4.
  rewrite (proj2 (Z.eqb_neq y 0)) by lia.
  destruct (Z.eqb_spec (y `mod` 4) 0), (Z.eqb_spec (y `mod` 100) 0), (Z.eqb_spec (y `mod` 400) 0);
    cbn [andb orb negb]; case_bool_decide; try done; exfalso; divs.
Qed.

Lemma year_start_succ y : 1 ≤ y → year_start (y + 1) = year_start y + 365 + leap y.
Proof.
  intros Hy. rewrite leap_cases by lia. unfold year_start. replace (y + 1 - 1) with y by lia.
  case_bool_decide as Hl; divs.
Qed.

Lemma calcDaynr_ordinal y m d :
  1 ≤ y → 1 ≤ m → calcDaynr y m d = year_start y + ordinal (leap y) m d.
Proof.
  intros Hy Hm. unfold calcDaynr, ordinal. rewrite (proj2 (Z.eqb_neq y 0)) by lia. cbn [andb].
  destruct (Z.leb_spec m 2).
  - rewrite !Z.quot_div_nonneg by divs. unfold year_start. lia.
  - rewrite !Z.quot_div_nonneg by divs. rewrite leap_cases by lia. unfold year_start.
    case_bool_decide; divs.
Qed.

Lemma GetLastDay_spec y m :
  1 ≤ y ≤ 9999 → GetLastDay y m = if m =? 2 then 28 + leap y
                                  else if (m >? 0) && (m <=? 12)
                                       then nth (Z.to_nat (m - 1)) daysByMonth 0 else 0.
Proof.
  intros Hy. unfold GetLastDay, leap. unfold u16. rewrite Z.mod_small by lia.
  destruct (Z.eqb_spec m 2) as [->|]; [|done]. cbn [andb]. by destruct (isLeapYear y).
Qed.

Lemma months_cases m (P : Z → Prop) :
  1 ≤ m ≤ 12 → P 1 → P 2 → P 3 → P 4 → P 5 → P 6 → P 7 → P 8 → P 9 → P 10 → P 11 → P 12 → P m.
Proof.
  intros Hm. intros. 
  assert (m = 1 ∨ m = 2 ∨ m = 3 ∨ m = 4 ∨ m = 5 ∨ m = 6 ∨ m = 7 ∨ m = 8 ∨ m = 9 ∨ m = 10
          ∨ m = 11 ∨ m = 12) as Hc by lia.
  by destruct_or! Hc; subst.
Qed.

(** Computes the comparisons, divisions and lookups of a given month. *)
Ltac eval_months :=
  repeat match goal with
  | |- context [?a `div` 10] => let v := eval vm_compute in (a `div` 10) in change (a `div` 10) with v
  | |- context [?a <=? ?b] => let v := eval vm_compute in (a <=? b) in change (a <=? b) with v
  | |- context [?a =? ?b] => let v := eval vm_compute in (a =? b) in change (a =? b) with v
  | |- context [?a >? ?b] => let v := eval vm_compute in (a >? b) in change (a >? b) with v
  | |- context [nth ?i daysByMonth 0] =>
      let v := eval vm_compute in (nth i daysByMonth 0) in change (nth i daysByMonth 0) with v
  end; cbn [andb].

Lemma leap_01 y : leap y = 0 ∨ leap y = 1.
Proof. unfold leap. destruct (isLeapYear y); auto. Qed.

Lemma ordinal_range y m d :
  valid_date y m d → 1 ≤ ordinal (leap y) m d ≤ 365 + leap y.
Proof.
  intros (Hy & Hm & Hd). rewrite GetLastDay_spec in Hd by done. revert Hd.
  pose proof (leap_01 y). unfold ordinal.
  pattern m. apply months_cases; [done|..]; eval_months; intros; lia.
Qed.

(** Month and day from the number of the day, by computing all days of a common and
    of a leap year. *)
Definition month_day_ok (l m d : Z) : bool :=
  negb (d <=? (if m =? 2 then 28 + l else nth (Z.to_nat (m - 1)) daysByMonth 0))
  || (let '(m', d') := month_day (365 + l) (ordinal l m d) in (m' =? m) && (d' =? d)).

Lemma month_day_all :
  forallb (λ l, forallb (λ m, forallb (month_day_ok l m) (seqZ 1 31)) (seqZ 1 12)) [0; 1] = true.
Proof. vm_compute. reflexivity. Qed.

Lemma forallb_elem {A} (f : A → bool) l x : forallb f l = true → x ∈ l → f x = true.
Proof. rewrite forallb_forall. intros Hf Hx. by apply Hf, list_elem_of_In. Qed.

Lemma month_day_inverse y m d :
  valid_date y m d → month_day (365 + leap y) (ordinal (leap y) m d) = (m, d).
Proof.
  intros (Hy & Hm & Hd). rewrite GetLastDay_spec in Hd by done.
  rewrite (proj2 (Z.leb_le m 12)), Z.gtb_ltb, (proj2 (Z.ltb_lt 0 m)) in Hd by lia. cbn [andb] in Hd.
  assert (d ≤ 31).
  { revert Hd. pose proof (leap_01 y). pattern m. apply months_cases; [done|..]; eval_months; lia. }
  assert (leap y ∈ [0; 1]) as Hl by (destruct (leap_01 y) as [-> | ->]; [left|right; left]).
  pose proof (forallb_elem _ _ _ month_day_all Hl) as Hall. cbn beta in Hall.
  pose proof (forallb_elem _ _ m Hall ltac:(apply elem_of_seqZ; lia)) as Hall1. cbn beta in Hall1.
  pose proof (forallb_elem _ _ d Hall1 ltac:(apply elem_of_seqZ; lia)) as Hall2. clear Hall Hall1.
  rename Hall2 into Hall.
  unfold month_day_ok in Hall. rewrite (proj2 (Z.leb_le d _)) in Hall by lia. cbn [negb orb] in Hall.
  destruct (month_day _ _) as [m' d']. apply andb_true_iff in Hall as [Hm'%Z.eqb_eq Hd'%Z.eqb_eq].
  by subst.
Qed.

(** The estimate of the year is right or one too small. *)
Lemma year_estimate y o :
  1 ≤ y ≤ 9999 → 1 ≤ o ≤ 365 + leap y →
  let n := year_start y + o in
  366 ≤ n ≤ 3652424 ∧ ((n * 100) `div` 36525 = y ∨ (n * 100) `div` 36525 = y - 1 ∧ 2 ≤ y).
Proof.
  intros Hy Ho. rewrite leap_cases in Ho by lia. unfold year_start. cbn zeta.
  case_bool_decide; split; divs.
Qed.

Lemma year_loop_spec y o e :
  1 ≤ e → 1 ≤ o ≤ 365 + leap y → e = y ∨ e = y - 1 →
  let n := year_start y + o - year_start e in
  year_loop (Z.to_nat (n `div` 365 + 1)) n e = (o, y).
Proof.
  intros He Ho Hc n.
  assert (∀ fuel, year_loop (S fuel) o y = (o, y)) as Hdone.
  { intros fuel. cbn [year_loop]. rewrite days_in_year, Z.gtb_ltb, (proj2 (Z.ltb_ge _ _)) by lia. done. }
  destruct Hc as [->| ->].
  - replace n with o by (subst n; lia).
    replace (Z.to_nat (o `div` 365 + 1)) with (S (Z.to_nat (o `div` 365))) by divs. apply Hdone.
  - assert (n = o + 365 + leap (y - 1)) as Hn.
    { subst n. pose proof (year_start_succ (y - 1) He) as Hs. replace (y - 1 + 1) with y in Hs by lia. lia. }
    pose proof (leap_01 (y - 1)).
    replace (Z.to_nat (n `div` 365 + 1)) with (S (S (Z.to_nat (n `div` 365 - 1)))) by divs.
    cbn [year_loop]. fold (year_loop (S (Z.to_nat (n `div` 365 - 1)))).
    rewrite days_in_year, (Z.gtb_ltb n), (proj2 (Z.ltb_lt _ n)) by lia.
    replace (n - (365 + leap (y - 1))) with o by lia. replace (y - 1 + 1) with y by lia.
    apply (Hdone (Z.to_nat (n `div` 365 - 1))).
Qed.

Lemma getDateFromDaynr_spec y m d :
  valid_date y m d → getDateFromDaynr (calcDaynr y m d) = (y, m, d).
Proof.
  intros Hv. pose proof (ordinal_range _ _ _ Hv) as Ho. pose proof Hv as (Hy & Hm & Hd).
  rewrite calcDaynr_ordinal by lia. unfold getDateFromDaynr.
  destruct (year_estimate y (ordinal (leap y) m d) Hy Ho) as [Hn He].
  set (n := year_start y + ordinal (leap y) m d) in *.
  rewrite (proj2 (Z.leb_gt n 365)), Z.geb_leb, (proj2 (Z.leb_gt 3652500 n)) by lia. cbn [orb].
  rewrite (u64_small (n * 100)), Z.quot_div_nonneg by (int_range; lia).
  set (e := (n * 100) `div` 36525) in *.
  assert (1 ≤ e ≤ 9999) by lia.
  rewrite (u64_small (e - 1)) by (int_range; lia). rewrite !Z.quot_div_nonneg by divs.
  assert (n - e * 365 - (e - 1) `div` 4 + (((e - 1) `div` 100 + 1) * 3) `div` 4 = n - year_start e)
    as -> by (unfold year_start; lia).
  assert (0 ≤ n - year_start e ≤ 1000).
  { pose proof (leap_01 y). subst n. destruct He as [->|[-> ?]]; [lia|].
    pose proof (year_start_succ (y - 1) ltac:(lia)) as Hs. replace (y - 1 + 1) with y in Hs by lia.
    pose proof (leap_01 (y - 1)). lia. }
  rewrite u64_small by (int_range; lia). subst n.
  rewrite (year_loop_spec y (ordinal (leap y) m d) e) by lia.
  by rewrite days_in_year, month_day_inverse by (done || lia).
Qed.

(** The following day. *)
Definition next_day (y m d : Z) : Z * Z * Z :=
  if d <? GetLastDay y m then (y, m, d + 1)
  else if m <? 12 then (y, m + 1, 1) else (y + 1, 1, 1).

Lemma calcDaynr_next y m d :
  valid_date y m d → let '(y', m', d') := next_day y m d in calcDaynr y' m' d' = calcDaynr y m d + 1.
Proof.
  intros (Hy & Hm & Hd). unfold next_day. destruct (Z.ltb_spec d (GetLastDay y m)) as [Hlt|Hge].
  { rewrite !calcDaynr_ordinal by lia. unfold ordinal. lia. }
  assert (d = GetLastDay y m) as -> by lia. clear Hd Hge. rewrite GetLastDay_spec by done.
  pose proof (leap_01 y). pose proof (year_start_succ y ltac:(lia)).
  destruct (Z.ltb_spec m 12) as [Hm12|Hm12].
  - rewrite !calcDaynr_ordinal by lia. unfold ordinal. revert Hm12.
    pattern m. apply months_cases; [done|..]; eval_months; lia.
  - assert (m = 12) as -> by lia. rewrite !calcDaynr_ordinal by lia. unfold ordinal. eval_months. lia.
Qed.

(** ** The order of dates *)
Lemma year_start_mono y y' : 1 ≤ y ≤ y' → year_start y ≤ year_start y'.
Proof. intros. unfold year_start. divs. Qed.

Lemma ordinal_mono l m m' d d' :
  l = 0 ∨ l = 1 → 1 ≤ m → m < m' ≤ 12 → 1 ≤ d' →
  d ≤ (if m =? 2 then 28 + l else nth (Z.to_nat (m - 1)) daysByMonth 0) →
  ordinal l m d < ordinal l m' d'.
Proof.
  intros Hl Hm Hm' Hd' Hd.
  assert (ordinal l (m + 1) 1 ≤ ordinal l m' 1) as Hstep.
  { unfold ordinal. destruct (Z.leb_spec (m + 1) 2), (Z.leb_spec m' 2); divs. }
  assert (ordinal l m d < ordinal l (m + 1) 1) as Hnext.
  { revert Hd. unfold ordinal. pattern m. apply months_cases; [lia|..]; eval_months; lia. }
  unfold ordinal in *. lia.
Qed.

Definition date_lt (y m d y' m' d' : Z) : Prop :=
  y < y' ∨ y = y' ∧ (m < m' ∨ m = m' ∧ d < d').

Lemma calcDaynr_mono y m d y' m' d' :
  valid_date y m d → valid_date y' m' d' → date_lt y m d y' m' d' →
  calcDaynr y m d < calcDaynr y' m' d'.
Proof.
  intros Hv Hv'. pose proof (ordinal_range _ _ _ Hv) as Ho. pose proof (ordinal_range _ _ _ Hv') as Ho'.
  destruct Hv as (Hy & Hm & Hd), Hv' as (Hy' & Hm' & Hd'). rewrite !calcDaynr_ordinal by lia.
  intros [Hlt|[<- [Hlt|[<- Hlt]]]].
  - pose proof (year_start_succ y ltac:(lia)). pose proof (year_start_mono (y + 1) y'). lia.
  - assert (ordinal (leap y) m d < ordinal (leap y) m' d'); [|lia].
    apply ordinal_mono; [apply leap_01|lia..|]. rewrite GetLastDay_spec in Hd by done.
    rewrite (proj2 (Z.leb_le m 12)), Z.gtb_ltb, (proj2 (Z.ltb_lt 0 m)) in Hd by lia.
    cbn [andb] in Hd. lia.
  - unfold ordinal. lia.
Qed.

(** ** Differences *)
Definition valid_time (t : MysqlTime) : Prop :=
  valid_date (year t) (month t) (day t) ∧ 0 ≤ hour t < 24 ∧ 0 ≤ minute t < 60
  ∧ 0 ≤ second t < 60 ∧ 0 ≤ microsecond t < 1000000.

(** Microseconds since the beginning of the calendar. *)
Definition instant (t : MysqlTime) : Z :=
  (calcDaynr (year t) (month t) (day t) * secondsIn24Hour + clock t) * 1000000 + microsecond t.

Lemma calcTimeDiff_spec t1 t2 :
  valid_time t1 → valid_time t2 →
  calcTimeDiff t1 t2 1
  = (Z.abs (instant t1 - instant t2) `div` 1000000, Z.abs (instant t1 - instant t2) `mod` 1000000,
     instant t1 <? instant t2).
Proof.
  intros H1 H2. unfold calcTimeDiff.
  replace (_ * 1000000 + microsecond t1 - 1 * microsecond t2) with (instant t1 - instant t2)
    by (unfold instant, clock; lia).
  destruct (Z.ltb_spec (instant t1 - instant t2) 0), (Z.ltb_spec (instant t1) (instant t2)); try lia;
    rewrite Z.quot_div_nonneg, Z.rem_mod_nonneg by lia; do 3 f_equal; lia.
Qed.

(** The time of month, and its order. *)
Definition month_no (t : MysqlTime) : Z := 12 * year t + month t.
Definition rest_lt (t t' : MysqlTime) : Prop :=
  day t < day t' ∨ day t = day t' ∧
  (clock t < clock t' ∨ clock t = clock t' ∧ microsecond t < microsecond t').
(** [k] months after [t] is at or before [t']. *)
Definition months_reach (k : Z) (t t' : MysqlTime) : Prop :=
  month_no t + k < month_no t' ∨ month_no t + k = month_no t' ∧ ¬ rest_lt t' t.

Global Instance date_lt_dec y m d y' m' d' : Decision (date_lt y m d y' m' d').
Proof. unfold date_lt. apply _. Defined.
Global Instance rest_lt_dec t t' : Decision (rest_lt t t').
Proof. unfold rest_lt. apply _. Defined.

Lemma instant_le_reach t t' :
  valid_time t → valid_time t' → instant t ≤ instant t' → months_reach 0 t t'.
Proof.
  intros (Hd & Hh & Hm & Hs & Hu) (Hd' & Hh' & Hm' & Hs' & Hu') Hle.
  unfold months_reach, month_no. unfold instant, secondsIn24Hour, clock in Hle.
  destruct (decide (date_lt (year t') (month t') (day t') (year t) (month t) (day t))) as [Hlt|Hge].
  - pose proof (calcDaynr_mono _ _ _ _ _ _ Hd' Hd Hlt). lia.
  - unfold date_lt, rest_lt, clock in *. destruct Hd as (? & ? & _), Hd' as (? & ? & _).
    destruct (decide (12 * year t + month t + 0 < 12 * year t' + month t')) as [|Hge']; [by left|right].
    assert (year t = year t' ∧ month t = month t') as [Ey Em] by lia. split; [lia|].
    intros [Hlt|[Ed Hlt]]; [lia|]. rewrite Ey, Em, Ed in Hle. lia.
Qed.

(** [months_between] computes modulo 2^64: the intermediate wraps do not show. *)
Lemma months_between_wrap t t' :
  months_between t t'
  = u64 (month_no t' - month_no t - if bool_decide (rest_lt t' t) then 1 else 0).
Proof.
  unfold months_between, month_no.
  set (rl := (day t' =? day t) && _). set (e := (month t' <? month t) || _). clearbody e.
  assert ((if bool_decide (rest_lt t' t) then 1 else 0)
          = if day t' <? day t then 1 else if rl then 1 else 0) as ->.
  { subst rl. unfold rest_lt.
    destruct (Z.ltb_spec (day t') (day t)), (Z.eqb_spec (day t') (day t)),
      (Z.ltb_spec (clock t') (clock t)), (Z.eqb_spec (clock t') (clock t)),
      (Z.ltb_spec (microsecond t') (microsecond t)); cbn [andb orb]; case_bool_decide; lia. }
  assert (∀ years, years = (if e then u64 (u64 (year t' - year t) - 1) else u64 (year t' - year t)) →
    (if e then u64 (u64 (12 * years) + u64 (12 - u64 (month t - month t')))
     else u64 (u64 (12 * years) + u64 (month t' - month t)))
    = u64 (12 * year t' + month t' - (12 * year t + month t))) as Hmonths.
  { intros years ->. destruct e; rewrite ?u64_sub_l, u64_mul_r; autorewrite with u64_wrap; f_equal; lia. }
  rewrite (Hmonths _ eq_refl). destruct (day t' <? day t), rl; autorewrite with u64_wrap; f_equal; lia.
Qed.

Lemma months_between_spec t t' :
  valid_time t → valid_time t' → months_reach 0 t t' →
  let k := months_between t t' in
  0 ≤ k ≤ 200000 ∧ months_reach k t t' ∧ ¬ months_reach (k + 1) t t'.
Proof.
  intros [(Hy & Hmo & _) _] [(Hy' & Hmo' & _) _] Hr. cbn zeta. rewrite months_between_wrap.
  unfold months_reach, month_no in *.
  assert (is_u64 (12 * year t' + month t' - (12 * year t + month t)
                  - if bool_decide (rest_lt t' t) then 1 else 0)) as Hu.
  { int_range. case_bool_decide; destruct Hr as [|[? ?]]; try done; lia. }
  rewrite u64_small by done. int_range. clear Hr. case_bool_decide as Hb.
  - split_and!; [lia|lia|left; lia|]. intros [?|[_ ?]]; [lia|done].
  - split_and!; [lia|lia|right; split; [lia|done]|]. intros [?|[? _]]; lia.
Qed.

(** ** Theorems *)

(** C27: Day numbers and dates correspond: the following day has the following
    number, numbers are ordered as dates, and [getDateFromDaynr] gives the date back. *)
Theorem daynr_calendar (y m d : Z) :
  valid_date y m d →
  getDateFromDaynr (calcDaynr y m d) = (y, m, d)
  ∧ (let '(y', m', d') := next_day y m d in calcDaynr y' m' d' = calcDaynr y m d + 1)
  ∧ (∀ y' m' d', valid_date y' m' d' → date_lt y m d y' m' d' →
                 calcDaynr y m d < calcDaynr y' m' d').
Proof.
  intros Hv. split_and!; [by apply getDateFromDaynr_spec|by apply calcDaynr_next|].
  intros y' m' d' Hv' Hlt. by apply calcDaynr_mono.
Qed.

(** [timestampDiff] counts whole units: in months, the largest number of months
    after which the earlier point is not past the later one, negative when the second
    point is the earlier; years and quarters are its whole twelfths and thirds; days
    and microseconds are those of the difference of the two instants. *)
Theorem timestamp_diff_whole_units (t1 t2 : MysqlTime) :
  valid_time t1 → valid_time t2 →
  let sign := if instant t2 <? instant t1 then -1 else 1 in
  let '(beg, fin) := if instant t2 <? instant t1 then (t2, t1) else (t1, t2) in
  ∃ k, 0 ≤ k ∧ months_reach k beg fin ∧ ¬ months_reach (k + 1) beg fin
    ∧ timestampDiff "MONTH" t1 t2 = k * sign
    ∧ timestampDiff "QUARTER" t1 t2 = k `div` 3 * sign
    ∧ timestampDiff "YEAR" t1 t2 = k `div` 12 * sign
    ∧ timestampDiff "DAY" t1 t2 = (instant fin - instant beg) `div` 86400000000 * sign
    ∧ timestampDiff "MICROSECOND" t1 t2 = instant t2 - instant t1.
Proof.
  intros H1 H2. cbn zeta. unfold timestampDiff. rewrite calcTimeDiff_spec by done.
  destruct (Z.ltb_spec (instant t2) (instant t1)) as [Hlt|Hge].
  - destruct (months_between_spec t2 t1) as (Hk & Hr & Hn); [done..|apply instant_le_reach; auto; lia|].
    exists (months_between t2 t1). cbn [String.eqb Ascii.eqb Bool.eqb].
    rewrite i64_small, !Z.quot_div_nonneg by (int_range; divs).
    rewrite Z.abs_neq by lia. unfold secondsIn24Hour. split_and!; try done; try lia; divs.
  - destruct (months_between_spec t1 t2) as (Hk & Hr & Hn); [done..|apply instant_le_reach; auto; lia|].
    exists (months_between t1 t2). cbn [String.eqb Ascii.eqb Bool.eqb].
    rewrite i64_small, !Z.quot_div_nonneg by (int_range; divs).
    rewrite Z.abs_eq by lia. unfold secondsIn24Hour. split_and!; try done; try lia; divs.
Qed.

(** ** Examples *)
Lemma daynr_calendar_witness :
  calcDaynr 2024 2 29 = 739310 ∧ getDateFromDaynr 739310 = (2024, 2, 29)
  ∧ calcDaynr 2024 3 1 = calcDaynr 2024 2 29 + 1.
Proof.
  assert (valid_date 2024 2 29) as Hv.
  { split_and!; try lia. apply Z.leb_le. vm_compute. reflexivity. }
  destruct (daynr_calendar 2024 2 29 Hv) as (Hr & Hn & _).
  split; [vm_compute; reflexivity|split; [exact Hr|exact Hn]].
Defined.

Lemma timestamp_diff_whole_units_witness :
  let t1 := mkMysqlTime 10 0 2024 1 31 0 0 in
  let t2 := mkMysqlTime 9 0 2024 3 31 0 0 in
  timestampDiff "MONTH" t1 t2 = 1 ∧ timestampDiff "MICROSECOND" t1 t2 = instant t2 - instant t1.
Proof.
  intros t1 t2.
  assert (∀ h mo, 0 ≤ h < 24 → mo = 1 ∨ mo = 3 → valid_time (mkMysqlTime h 0 2024 mo 31 0 0)) as Hv.
  { intros h mo Hh [-> | ->]; unfold valid_time, valid_date;
      cbn [year month day hour minute second microsecond]; split_and!;
      try lia; apply Z.leb_le; vm_compute; reflexivity. }
  pose proof (timestamp_diff_whole_units t1 t2 (Hv 10 1 ltac:(lia) ltac:(lia))
                (Hv 9 3 ltac:(lia) ltac:(lia))) as Ht. cbn zeta in Ht.
  assert ((instant t2 <? instant t1) = false) as Hlt by (vm_compute; reflexivity).
  rewrite Hlt in Ht. destruct Ht as (k & _ & _ & _ & _ & _ & _ & _ & Hus).
  split; [vm_compute; reflexivity|exact Hus].
Defined.
