(* ===== verification/LogicalNode.v ===== *)
(** * Logical nodes (pkg/interpreter/translator/logical_node*.go)

    The part of a logical plan the interpreter reads (pkg/planner/core), the
    logical nodes the translator wraps around it, and their builder.

    A node holds the CCLs of its columns in a map from column IDs to pointers:
    nodes pass the pointers of their children on, and a join changes a CCL it
    shares with its child.  CCL objects therefore live in a heap, and a map holds
    references into it. *)
From S2P Require Import Prelude Sliceutil Expression Operator Ccl Graph.

(** ** Logical plans (planner/core/logical_plans.go) *)
Module core.
Inductive JoinType :=
| InnerJoin
| LeftOuterJoin
| RightOuterJoin
| SemiJoin
| AntiSemiJoin
| LeftOuterSemiJoin
| AntiLeftOuterSemiJoin.

#[global] Instance JoinType_eq_dec : EqDecision JoinType.
Proof. solve_decision. Defined.
End core.

(** A pointer to a scalar function: its name, its arguments and its type. *)
Record ScalarFunction := mkScalarFunction {
  FuncName : string;
  GetArgs : list Expr;
  sf_RetType : FieldType;
}.

Definition sf_expr (sf : ScalarFunction) : Expr :=
  EScalarFunction (FuncName sf) (GetArgs sf) (sf_RetType sf).

(** [aggregation.AggFunctionMode] *)
Inductive AggFunctionMode := CompleteMode | FinalMode | Partial1Mode | Partial2Mode | DedupMode.

Record AggFuncDesc := mkAggFuncDesc {
  Agg_Name : string;
  Agg_Args : list Expr;
  Agg_Mode : AggFunctionMode;
  HasDistinct : bool;
  Agg_UseAsThreshold : bool;
}.

(** A key of an ordering: [core.ByItems] and [property.Item] *)
Record ByItems := mkByItems { by_Expr : Expr; by_Desc : bool }.
Record Item := mkItem { Col : Column; Desc : bool }.

(** What the operator of a plan holds; schema and children are those of the plan.
    A data source is left with the number of its [Columns]. *)
Inductive PlanOp :=
| DataSource (DBName TableName : string) (numColumns : nat)
| LogicalSelection (Conditions : list Expr) (AffectedByGroupThreshold : bool)
| LogicalJoin (tp : core.JoinType) (EqualConditions : list ScalarFunction)
    (LeftConditions RightConditions OtherConditions : list Expr)
| LogicalApply (tp : core.JoinType) (EqualConditions : list ScalarFunction)
    (LeftConditions RightConditions OtherConditions : list Expr)
| LogicalAggregation (AggFuncs : list AggFuncDesc) (GroupByItems : list Expr)
    (ProducedByDistinct : bool)
| LogicalProjection (Exprs : list Expr)
| LogicalUnionAll
| LogicalLimit (Offset Count : Z)
| LogicalSort (SortItems : list ByItems)
| LogicalWindow (WindowFuncDescs : list string) (PartitionBy OrderBy : list Item)
| LogicalMaxOneRow
| LogicalOther (TP : string).

Inductive LogicalPlan :=
| Plan (op : PlanOp) (schema : list Column) (children : list LogicalPlan).

(** ** Heap *)

(** A [*CCL]: nil, or the position of an object in the heap. *)
Notation ref := (option nat).

Record store := mkStore {
  heap : list CCL;
  colTracer : ColumnTracer;
}.

Definition alloc (cc : CCL) : M store ref := λ s,
  (mkStore (heap s ++ [cc]) (colTracer s), Ok (Some (length (heap s)))).

Definition deref (h : list CCL) (r : ref) : option CCL := r ≫= λ a, h !! a.

(** Reading through a nil pointer panics. *)
Definition load (r : ref) : M store CCL := λ s,
  match deref (heap s) r with Some cc => (s, Ok cc) | None => (s, Panic) end.

Definition write (r : ref) (cc : CCL) : M store () := λ s,
  match r with
  | Some a => (mkStore (<[a:=cc]> (heap s)) (colTracer s), Ok tt)
  | None => (s, Panic)
  end.

Definition trace (f : ColumnTracer → ColumnTracer) : M store () :=
  modify (λ s, mkStore (heap s) (f (colTracer s))).

(** The objects a map of pointers refers to. *)
Definition env_of (h : list CCL) (m : gmap Z ref) : gmap Z CCL := omap (deref h) m.

(** All objects of a map are read: the first nil pointer panics. *)
Definition load_env (m : gmap Z ref) : M store (gmap Z CCL) := λ s,
  if bool_decide (map_Forall (λ _ r, is_Some (deref (heap s) r)) m)
  then (s, Ok (env_of (heap s) m)) else (s, Panic).

(** ** Nodes (logical_node.go)

    [baseNode] with the fields the kinds of nodes add: the parties of the children
    of a join, and the CCL of the condition of a selection.  A nil map of CCLs
    reads as the empty map. *)
Record baseNode := mkBaseNode {
  lp : PlanOp;
  schema : list Column;
  rt : list nat;
  ccl : gmap Z ref;
  dataSourceParties : list string;
  childDataSourceParties : list (list string);
  condVis : CCL;
}.

Inductive logicalNode :=
| Node (b : baseNode) (nchildren : list logicalNode).

Definition base (n : logicalNode) : baseNode := let '(Node b _) := n in b.
Definition Children (n : logicalNode) : list logicalNode := let '(Node _ c) := n in c.
Definition node_Schema (n : logicalNode) : list Column := schema (base n).
Definition node_CCL (n : logicalNode) : gmap Z ref := ccl (base n).
Definition DataSourceParty (n : logicalNode) : list string := dataSourceParties (base n).
Definition ResultTable (n : logicalNode) : list nat := rt (base n).

Section node_ind.
Context (P : logicalNode → Prop).
Context (Pnode : ∀ b children, Forall P children → P (Node b children)).

Fixpoint logicalNode_nested_ind (n : logicalNode) : P n :=
  let '(Node b children) := n in
  Pnode b children
    ((fix go (l : list logicalNode) : Forall P l :=
        match l with
        | [] => Forall_nil_2 _
        | x :: l => Forall_cons_2 _ _ _ (logicalNode_nested_ind x) (go l)
        end) children).
End node_ind.

Definition set_ccl (b : baseNode) (m : gmap Z ref) : baseNode :=
  mkBaseNode (lp b) (schema b) (rt b) m (dataSourceParties b) (childDataSourceParties b)
    (condVis b).
Definition set_dataSourceParties (b : baseNode) (ps : list string) : baseNode :=
  mkBaseNode (lp b) (schema b) (rt b) (ccl b) ps (childDataSourceParties b) (condVis b).
Definition set_childDataSourceParties (b : baseNode) (pss : list (list string)) : baseNode :=
  mkBaseNode (lp b) (schema b) (rt b) (ccl b) (dataSourceParties b) pss (condVis b).
Definition set_condVis (b : baseNode) (cc : CCL) : baseNode :=
  mkBaseNode (lp b) (schema b) (rt b) (ccl b) (dataSourceParties b)
    (childDataSourceParties b) cc.
Definition set_lp (b : baseNode) (op : PlanOp) : baseNode :=
  mkBaseNode op (schema b) (rt b) (ccl b) (dataSourceParties b)
    (childDataSourceParties b) (condVis b).

Definition set_rt (b : baseNode) (ts : list nat) : baseNode :=
  mkBaseNode (lp b) (schema b) ts (ccl b) (dataSourceParties b) (childDataSourceParties b)
    (condVis b).

Fixpoint find_column (cols : list Column) (ts : list nat) (id : Z) : option (res nat) :=
  match cols with
  | [] => None
  | col :: cols =>
      if bool_decide (UniqueID col = id) then Some (res_of_option Panic (head ts))
      else find_column cols (tail ts) id
  end.

Definition FindTensorByColumnId (n : logicalNode) (id : Z) : res nat :=
  if bool_decide (ResultTable n = [] ∨ length (ResultTable n) ≠ length (node_Schema n))
  then Err "findTensorByColumnId: invalid result table"
  else default (Err "findTensorByColumnId: column id doesn't exists")
         (find_column (node_Schema n) (ResultTable n) id).

Section nodes.
Context `{GoRange}.

Definition VisibleParty (n : logicalNode) : M store (list string) :=
  env ← load_env (node_CCL n);
  let ccls := (go_range env).*2 in
  let partyCodes := ExtractPartyCodes ccls in
  mret (Filter partyCodes (λ party, AllOf ccls (λ cc, IsVisibleFor cc party))).
End nodes.

(** ** The builder (logical_node_builder.go) *)
Record logicalNodeBuilder := mkLogicalNodeBuilder {
  enginesInfo : EnginesInfo;
  originCCL : gmap string CCL;
  groupByThreshold : N;
  psiType : Z;
}.

(** [&XNode{baseNode{lp: x, children: children, ...}, ...}] *)
Definition newNode (op : PlanOp) (sch : list Column) (children : list logicalNode)
    (parties : list string) (childParties : list (list string)) : logicalNode :=
  Node (mkBaseNode op sch [] ∅ parties childParties NewCCL) children.

(** The expected number of children, if it is checked. *)
Definition expectChildNum (op : PlanOp) : res (option nat) :=
  match op with
  | DataSource _ _ _ => Ok (Some 0)
  | LogicalSelection _ _ => Ok (Some 1)
  | LogicalJoin _ _ _ _ _ => Ok (Some 2)
  | LogicalApply _ _ _ _ _ => Ok (Some 2)
  | LogicalAggregation _ _ _ => Ok (Some 1)
  | LogicalProjection _ => Ok (Some 1)
  | LogicalUnionAll => Ok None
  | LogicalLimit _ _ => Ok (Some 1)
  | LogicalSort _ => Ok (Some 1)
  | LogicalWindow _ _ _ => Ok (Some 1)
  | LogicalMaxOneRow => Ok (Some 1)
  | LogicalOther _ => Err "logicalNodeBuilder.build: unsupported logical plan type"
  end.

Fixpoint build (b : logicalNodeBuilder) (p : LogicalPlan) : res logicalNode :=
  let '(Plan op sch plans) := p in
  children ← mapM (build b) plans;
  parties ← match op with
            | DataSource db table _ =>
                dt ← NewDbTableFromString (db +:+ "." +:+ table);
                let sourceParty := GetPartyByTable (enginesInfo b) dt in
                if bool_decide (sourceParty = "") then Err "fail to get party by table: "
                else Ok [sourceParty]
            | _ => Ok []
            end;
  expect ← expectChildNum op;
  let childParties := match op with LogicalJoin _ _ _ _ _ => [[]; []] | _ => [] end in
  let ln := newNode op sch children parties childParties in
  match expect with
  | None => Ok ln
  | Some k => if bool_decide (length children = k) then Ok ln
              else Err "unexpected number of children"
  end.
