(* ===== verification/Preprocess.v ===== *)
(** * Group thresholds (logical_plan_pre_process.go, planner/core)

    The planner marks one COUNT of every grouping aggregation
    ([MarkAggCountFunc] of rule_aggregation_push_down.go); the preprocessor of the
    translator puts a selection on that count above the aggregation ([addThreshold],
    with [AddSelection] of rule_predicate_push_down.go) and merges selections
    ([mergeSelection]).

    The code changes the plan in place; here an operation gives the new plan, and
    [addThreshold] what is put into the slot of the father.  Columns are values: a mark
    is set on the column of the schema and in the new condition, and expressions
    elsewhere that may share the pointer keep theirs. *)
From S2P Require Import Prelude Expression Operator Ccl Graph LogicalNode.
#[local] Open Scope nat_scope.

(** ** Marking counts *)
Definition set_threshold (f : AggFuncDesc) : AggFuncDesc :=
  mkAggFuncDesc (Agg_Name f) (Agg_Args f) (Agg_Mode f) (HasDistinct f) true.

Definition is_count (f : AggFuncDesc) : bool :=
  bool_decide (Agg_Name f = ast.AggFuncCount) && negb (HasDistinct f).

(** The first plain COUNT gets the mark. *)
Fixpoint mark_count (fs : list AggFuncDesc) : option (list AggFuncDesc) :=
  match fs with
  | [] => None
  | f :: fs => if is_count f then Some (set_threshold f :: fs) else (f ::.) <$> mark_count fs
  end.

(** [expression.One] and the type of COUNT ([typeInfer4Count]) *)
Definition One : Expr := EConstant (NewIntDatum 1) (mkFieldType mysql.TypeTiny 0).
Definition BinaryFlag : Z := Z.shiftl 1 7.
Definition count_type : FieldType := mkFieldType mysql.TypeLonglong BinaryFlag.
Definition count_one : AggFuncDesc := mkAggFuncDesc ast.AggFuncCount [One] CompleteMode false true.

(** The state is [PlanColumnID], the last column ID that was given out. *)
Definition mark_agg (fs : list AggFuncDesc) (sch : list Column) (planColumnID : Z)
    : Z * (list AggFuncDesc * list Column) :=
  match mark_count fs with
  | Some fs => (planColumnID, (fs, sch))
  | None =>
      (planColumnID + 1,
       (fs ++ [count_one], sch ++ [mkColumn count_type (planColumnID + 1) "" false]))%Z
  end.

(** Visit the children from left to right. *)
Definition mark_all (mark : LogicalPlan → Z → Z * LogicalPlan) : list LogicalPlan → Z → Z * list LogicalPlan :=
  fix go ps id :=
    match ps with
    | [] => (id, [])
    | p :: ps =>
        let '(id, p) := mark p id in
        let '(id, ps) := go ps id in
        (id, p :: ps)
    end.

Fixpoint MarkAggCountFunc (p : LogicalPlan) (planColumnID : Z) : Z * LogicalPlan :=
  let '(Plan op sch children) := p in
  let '(planColumnID, children) := mark_all MarkAggCountFunc children planColumnID in
  match op with
  | LogicalAggregation fs GroupByItems ProducedByDistinct =>
      if bool_decide (GroupByItems = []) || ProducedByDistinct
      then (planColumnID, Plan op sch children)
      else
        let '(planColumnID, (fs, sch)) := mark_agg fs sch planColumnID in
        (planColumnID, Plan (LogicalAggregation fs GroupByItems ProducedByDistinct) sch children)
  | _ => (planColumnID, Plan op sch children)
  end.

(** ** The preprocessor *)

(** [col.UseAsThreshold = true] *)
Definition mark (c : Column) : Column := mkColumn (RetType c) (UniqueID c) (OrigName c) true.

(** [addSelection] in a slot of the father that is left with [child]. *)
Definition AddSelection (child : LogicalPlan) (conditions : list Expr) : LogicalPlan :=
  if bool_decide (conditions = []) then child
  else let '(Plan _ sch _) := child in Plan (LogicalSelection conditions false) sch [child].

(** The loop over the functions of an aggregation: the schema, and the column of the last
    selection that was put into the slot of the father. *)
Definition mark_columns (fs : list AggFuncDesc) (sch : list Column)
    : res (list Column * option Column) :=
  foldlM (λ '(sch, slot) '(i, f),
      if Agg_UseAsThreshold f then
        col ← res_of_option Panic (sch !! i);
        Ok (<[i := mark col]> sch, Some (mark col))
      else Ok (sch, slot))
    (sch, None) (imap pair fs).

Fixpoint addThreshold (father : bool) (lp : LogicalPlan) : res LogicalPlan :=
  let '(Plan op sch children) := lp in
  children ← mapM (addThreshold true) children;
  match father, op with
  | true, LogicalAggregation AggFuncs _ _ =>
      '(sch, slot) ← mark_columns AggFuncs sch;
      let agg := Plan op sch children in
      Ok (match slot with Some col => AddSelection agg [EColumn col] | None => agg end)
  | _, _ => Ok (Plan op sch children)
  end.

(** A selection takes over the conditions of the selection below it, once. *)
Fixpoint mergeSelection (lp : LogicalPlan) : res LogicalPlan :=
  match lp with
  | Plan (LogicalSelection Conditions affected) sch
      [Plan (LogicalSelection Conditions' _) _ grandchildren] =>
      match grandchildren with
      | [] => Panic
      | grandchild :: _ =>
          child ← mergeSelection grandchild;
          Ok (Plan (LogicalSelection (Conditions ++ Conditions') affected) sch [child])
      end
  | Plan op sch children =>
      children ← mapM mergeSelection children;
      Ok (Plan op sch children)
  end.

Definition process (lp : LogicalPlan) : res LogicalPlan :=
  lp ← addThreshold false lp;
  mergeSelection lp.

(** ** Plans *)
Definition plan_op (p : LogicalPlan) : PlanOp := let '(Plan op _ _) := p in op.
Definition plan_schema (p : LogicalPlan) : list Column := let '(Plan _ sch _) := p in sch.
Definition plan_children (p : LogicalPlan) : list LogicalPlan := let '(Plan _ _ ch) := p in ch.

(** A property of all nodes of a plan. *)
Inductive every (P : PlanOp → list Column → list LogicalPlan → Prop) : LogicalPlan → Prop :=
| every_intro op sch ch : P op sch ch → Forall (every P) ch → every P (Plan op sch ch).

Lemma LogicalPlan_ind' (P : LogicalPlan → Prop) :
  (∀ op sch ch, Forall P ch → P (Plan op sch ch)) → ∀ p, P p.
Proof.
  intros Hp. fix IH 1. intros [op sch ch]. apply Hp. induction ch as [|c ch IHch]; constructor; auto.
Qed.

(** A selection has one child, and an aggregation a column for every function. *)
Definition op_wf (op : PlanOp) (sch : list Column) (ch : list LogicalPlan) : Prop :=
  match op with
  | LogicalSelection _ _ => length ch = 1
  | LogicalAggregation fs _ _ => length fs = length sch
  | _ => True
  end.
Definition plan_wf : LogicalPlan → Prop := every op_wf.

(** What the loop over the functions makes of the schema, and the last marked column. *)
Fixpoint marked_schema (fs : list AggFuncDesc) (sch : list Column) : list Column :=
  match fs, sch with
  | f :: fs, c :: sch => (if Agg_UseAsThreshold f then mark c else c) :: marked_schema fs sch
  | _, _ => sch
  end.
Fixpoint threshold_column (fs : list AggFuncDesc) (sch : list Column) : option Column :=
  match fs, sch with
  | f :: fs, c :: sch =>
      match threshold_column fs sch with
      | Some x => Some x
      | None => if Agg_UseAsThreshold f then Some (mark c) else None
      end
  | _, _ => None
  end.

(** ** What a plan computes

    [eval] is any meaning of the other operators, which name columns by their IDs, and
    [holds] any meaning of conditions on rows. *)
Section semantics.
Context {row : Type} (eval : PlanOp → list Z → list (list row) → list row)
  (holds : Expr → row → bool).

Definition select (conds : list Expr) (rows : list row) : list row :=
  filter (λ r, forallb (λ c, holds c r) conds) rows.

Definition meaning (op : PlanOp) (sch : list Column) (rows : list (list row)) : list row :=
  match op, rows with
  | LogicalSelection conds _, [rows] => select conds rows
  | _, _ => eval op (UniqueID <$> sch) rows
  end.

Fixpoint sem (p : LogicalPlan) : list row :=
  let '(Plan op sch ch) := p in meaning op sch (sem <$> ch).

(** The same, where every aggregation that is not the root gives only the rows that
    satisfy the condition on its marked column. *)
Fixpoint filtered (father : bool) (p : LogicalPlan) : list row :=
  let '(Plan op sch ch) := p in
  let rows := meaning op sch (filtered true <$> ch) in
  match father, op with
  | true, LogicalAggregation fs _ _ =>
      match threshold_column fs sch with
      | Some c => select [EColumn c] rows
      | None => rows
      end
  | _, _ => rows
  end.
End semantics.

(** ** The loop over the functions of an aggregation *)
Lemma mark_columns_from fs pre suf slot :
  length fs ≤ length suf →
  foldlM (λ '(sch, slot) '(i, f),
      if Agg_UseAsThreshold f then
        col ← res_of_option Panic (sch !! i);
        Ok (<[i := mark col]> sch, Some (mark col))
      else Ok (sch, slot))
    (pre ++ suf, slot) (imap (λ i f, (length pre + i, f)) fs)
  = Ok (pre ++ marked_schema fs suf,
        match threshold_column fs suf with Some c => Some c | None => slot end).
Proof.
  revert pre suf slot. induction fs as [|f fs IH]; intros pre suf slot Hl; [done|].
  destruct suf as [|c suf]; simpl in Hl; [lia|]. simpl. rewrite Nat.add_0_r.
  assert (∀ c', imap ((λ i f, (length pre + i, f)) ∘ S) fs
                = imap (λ i (f : AggFuncDesc), (length (pre ++ [c']) + i, f)) fs) as E.
  { intros c'. apply imap_ext. intros i x _. simpl. rewrite length_app. simpl. f_equal. lia. }
  assert (∀ c', pre ++ c' :: suf = (pre ++ [c']) ++ suf) as E' by (intros; by rewrite <- app_assoc).
  assert (∀ c' l, (pre ++ [c']) ++ l = pre ++ c' :: l) as E'' by (intros; by rewrite <- app_assoc).
  destruct (Agg_UseAsThreshold f); simpl.
  - rewrite list_lookup_middle by done. simpl. rewrite insert_app_r_alt by lia.
    rewrite Nat.sub_diag. simpl. rewrite (E (mark c)), E', IH, E'' by lia.
    by destruct (threshold_column fs suf).
  - rewrite (E c), E', IH, E'' by lia. by destruct (threshold_column fs suf).
Qed.

Lemma mark_columns_spec fs sch :
  length fs ≤ length sch → mark_columns fs sch = Ok (marked_schema fs sch, threshold_column fs sch).
Proof.
  intros Hl. unfold mark_columns. pose proof (mark_columns_from fs [] sch None Hl) as Hm.
  simpl in Hm. etrans; [exact Hm|]. by destruct (threshold_column fs sch).
Qed.

Lemma marked_schema_ids fs sch : UniqueID <$> marked_schema fs sch = UniqueID <$> sch.
Proof.
  revert sch. induction fs as [|f fs IH]; intros [|c sch]; simpl; [done..|]. rewrite IH.
  by destruct (Agg_UseAsThreshold f).
Qed.
Lemma marked_schema_length fs sch : length (marked_schema fs sch) = length sch.
Proof. rewrite <- (length_fmap UniqueID), marked_schema_ids. apply length_fmap. Qed.

Lemma marked_schema_twice fs sch : marked_schema fs (marked_schema fs sch) = marked_schema fs sch.
Proof.
  revert sch. induction fs as [|f fs IH]; intros [|c sch]; simpl; [done..|].
  destruct (Agg_UseAsThreshold f); by rewrite IH.
Qed.
Lemma threshold_column_marked fs sch :
  threshold_column fs (marked_schema fs sch) = threshold_column fs sch.
Proof.
  revert sch. induction fs as [|f fs IH]; intros [|c sch]; simpl; [done..|].
  destruct (Agg_UseAsThreshold f); by rewrite IH.
Qed.

Lemma threshold_column_Some fs sch c :
  threshold_column fs sch = Some c →
  ∃ i f, fs !! i = Some f ∧ Agg_UseAsThreshold f = true ∧ marked_schema fs sch !! i = Some c
         ∧ UseAsThreshold c = true.
Proof.
  revert sch. induction fs as [|f fs IH]; intros [|c0 sch]; simpl; [done..|].
  destruct (threshold_column fs sch) as [x|] eqn:Hx.
  - intros [= ->]. destruct (IH _ Hx) as (i & f' & ? & ? & ? & ?). by exists (S i), f'.
  - destruct (Agg_UseAsThreshold f) eqn:Hf; [|done]. intros [= <-]. by exists 0, f.
Qed.
Lemma threshold_column_is_Some fs sch :
  length fs = length sch → existsb Agg_UseAsThreshold fs = true → is_Some (threshold_column fs sch).
Proof.
  revert sch. induction fs as [|f fs IH]; intros [|c sch]; simpl; [done..|]. intros [= Hl] Hf.
  destruct (threshold_column fs sch) eqn:Hx; [by eexists|].
  destruct (Agg_UseAsThreshold f); [by eexists|]. simpl in Hf. destruct (IH sch Hl Hf) as [? E].
  by rewrite Hx in E.
Qed.

(** ** The preprocessor on well-formed plans *)

(** The father of a marked aggregation is a selection on its marked column. *)
Definition has_threshold (p : LogicalPlan) : bool :=
  match plan_op p with
  | LogicalAggregation fs _ _ => existsb Agg_UseAsThreshold fs
  | _ => false
  end.
Definition guarded_by (f c : LogicalPlan) : Prop :=
  has_threshold c = true →
  ∃ conds affected col, plan_op f = LogicalSelection conds affected ∧ EColumn col ∈ conds
    ∧ ∃ fs gs d, plan_op c = LogicalAggregation fs gs d
        ∧ threshold_column fs (plan_schema c) = Some col
        ∧ marked_schema fs (plan_schema c) = plan_schema c.
Definition all_guarded : LogicalPlan → Prop :=
  every (λ op sch ch, Forall (guarded_by (Plan op sch ch)) ch).

(** Operators other than selections are kept. *)
Definition keeps_ops (p p' : LogicalPlan) : Prop :=
  ∀ P : PlanOp → Prop, (∀ conds a, P (LogicalSelection conds a)) →
    every (λ op _ _, P op) p → every (λ op _ _, P op) p'.

Section spec.
Context {row : Type} (eval : PlanOp → list Z → list (list row) → list row)
  (holds : Expr → row → bool).
Local Notation sem := (sem eval holds).
Local Notation filtered := (filtered eval holds).

Lemma select_app conds conds' (rows : list row) :
  select holds conds (select holds conds' rows) = select holds (conds ++ conds') rows.
Proof.
  unfold select. rewrite list_filter_filter. apply list_filter_iff. intros r.
  rewrite forallb_app, andb_True. tauto.
Qed.

(** Marks do not change what an operator means. *)
Lemma meaning_ids op sch sch' rows :
  UniqueID <$> sch = UniqueID <$> sch' → meaning eval holds op sch rows = meaning eval holds op sch' rows.
Proof. intros E. unfold meaning. by rewrite E. Qed.

Lemma AddSelection_sem agg c :
  sem (AddSelection agg [EColumn c]) = select holds [EColumn c] (sem agg).
Proof. by destruct agg. Qed.

(** The result of [addThreshold] below a father is not a marked aggregation. *)
Definition thresholded (father : bool) (p p' : LogicalPlan) : Prop :=
  plan_wf p' ∧ sem p' = filtered father p ∧ all_guarded p'
  ∧ (father = true → has_threshold p' = false) ∧ keeps_ops p p'.

Lemma keeps_children op sch ch sch' ch' :
  Forall2 keeps_ops ch ch' → keeps_ops (Plan op sch ch) (Plan op sch' ch').
Proof.
  intros Hf P HP Hp. inversion Hp as [? ? ? Hop Hch]; subst. constructor; [done|].
  apply Forall_forall. intros c' (i & Hi)%list_elem_of_lookup_1.
  destruct (Forall2_lookup_r _ _ _ _ _ Hf Hi) as (c & Hc & Hk). by eapply Hk, Forall_lookup_1.
Qed.

Lemma unmarked_guarded op sch ch :
  Forall (λ c, all_guarded c ∧ has_threshold c = false) ch → all_guarded (Plan op sch ch).
Proof.
  intros Hch. constructor; (eapply Forall_impl; [exact Hch|]); [|naive_solver].
  intros c [_ Hc] Ht. by rewrite Hc in Ht.
Qed.

Lemma addThreshold_agg fs gs d sch ch ch' :
  length fs = length sch → Forall plan_wf ch' → sem <$> ch' = filtered true <$> ch →
  Forall (λ c, all_guarded c ∧ has_threshold c = false) ch' → Forall2 keeps_ops ch ch' →
  let agg := Plan (LogicalAggregation fs gs d) (marked_schema fs sch) ch' in
  thresholded true (Plan (LogicalAggregation fs gs d) sch ch)
    (match threshold_column fs sch with Some col => AddSelection agg [EColumn col] | None => agg end).
Proof.
  intros Hl Hwf Hsem Hg Hk agg.
  assert (plan_wf agg) as Hagg.
  { constructor; [|done]. simpl. by rewrite marked_schema_length. }
  assert (sem agg = meaning eval holds (LogicalAggregation fs gs d) sch (filtered true <$> ch)) as Hs.
  { cbn [Preprocess.sem agg]. rewrite Hsem. apply meaning_ids, marked_schema_ids. }
  assert (all_guarded agg) as Hga by (by apply unmarked_guarded).
  apply (keeps_children (LogicalAggregation fs gs d) sch _ (marked_schema fs sch)) in Hk.
  destruct (threshold_column fs sch) as [c|] eqn:Hc.
  - split_and!; [| | |done|].
    + constructor; [done|]. by constructor.
    + rewrite AddSelection_sem, Hs. cbn [Preprocess.filtered]. by rewrite Hc.
    + constructor; [|by constructor]. constructor; [|done]. intros _.
      exists [EColumn c], false, c. split_and!; [done|set_solver|]. exists fs, gs, d. simpl.
      by rewrite threshold_column_marked, marked_schema_twice.
    + intros P HP Hp. constructor; [done|]. constructor; [by apply Hk|done].
  - split_and!; [done| |done| |done].
    + rewrite Hs. cbn [Preprocess.filtered]. by rewrite Hc.
    + intros _. unfold has_threshold. cbn [plan_op agg]. apply not_true_iff_false. intros Ht.
      destruct (threshold_column_is_Some fs sch Hl Ht) as [? E]. by rewrite Hc in E.
Qed.

Lemma mapM_thresholded ch :
  Forall (λ p, plan_wf p → ∀ father, ∃ p', addThreshold father p = Ok p' ∧ thresholded father p p') ch →
  Forall plan_wf ch →
  ∃ ch', mapM (addThreshold true) ch = Ok ch' ∧ Forall plan_wf ch'
    ∧ sem <$> ch' = filtered true <$> ch ∧ length ch' = length ch
    ∧ Forall (λ c, all_guarded c ∧ has_threshold c = false) ch' ∧ Forall2 keeps_ops ch ch'.
Proof.
  induction 1 as [|p ch Hp _ IH]; intros Hwf; [by exists []|]. apply Forall_cons in Hwf as [Hw Hwf].
  destruct (Hp Hw true) as (p' & Hp' & W & S & G & T & K). destruct (IH Hwf) as (ch' & Hch & ? & HS & HL & ? & ?).
  exists (p' :: ch'). split; [simpl; by rewrite Hp', Hch|].
  split_and!; [by constructor|by rewrite !fmap_cons, S, HS|simpl; by rewrite HL| |by constructor].
  constructor; [|done]. split; [done|by apply T].
Qed.

Lemma addThreshold_spec p :
  plan_wf p → ∀ father, ∃ p', addThreshold father p = Ok p' ∧ thresholded father p p'.
Proof.
  induction p as [op sch ch IH] using LogicalPlan_ind'. intros Hwf father.
  inversion Hwf as [? ? ? Hop Hch]; subst.
  destruct (mapM_thresholded ch IH Hch) as (ch' & Hm & Hw & Hs & Hl & Hg & Hk). simpl. rewrite Hm. simpl.
  assert (op_wf op sch ch') as Hop' by (destruct op; simpl in *; by rewrite ?Hl).
  assert (∀ father, (father = true → has_threshold (Plan op sch ch') = false) →
    filtered father (Plan op sch ch) = meaning eval holds op sch (filtered true <$> ch) →
    thresholded father (Plan op sch ch) (Plan op sch ch')) as Hplain.
  { intros f Hf Hfil. split_and!; [by constructor| |by apply unmarked_guarded|done|by apply keeps_children].
    rewrite Hfil, <- Hs. done. }
  destruct father; [|eexists; split; [done|]; by apply Hplain].
  destruct op; try (eexists; split; [done|]; by apply Hplain).
  simpl in Hop. rewrite mark_columns_spec by lia. simpl. eexists. split; [done|].
  by apply addThreshold_agg.
Qed.

(** *** Merging *)

(** The plan on top changes only from a selection to a selection. *)
Definition same_top (p p' : LogicalPlan) : Prop :=
  plan_schema p' = plan_schema p
  ∧ (plan_op p' = plan_op p ∨ (∃ c a c' a', plan_op p = LogicalSelection c a
                                 ∧ plan_op p' = LogicalSelection c' a' ∧ c ⊆ c')).

Definition merged (p p' : LogicalPlan) : Prop :=
  plan_wf p' ∧ sem p' = sem p ∧ same_top p p' ∧ (all_guarded p → all_guarded p') ∧ keeps_ops p p'.

Lemma same_top_threshold p p' : same_top p p' → has_threshold p' = has_threshold p.
Proof.
  unfold has_threshold. intros (_ & [->|(c & a & c' & a' & -> & -> & _)]); done.
Qed.

(** A father that keeps its conditions guards what it guarded. *)
Lemma guarded_by_top f f' c c' :
  (∀ conds a, plan_op f = LogicalSelection conds a →
     ∃ conds' a', plan_op f' = LogicalSelection conds' a' ∧ conds ⊆ conds') →
  same_top c c' → guarded_by f c → guarded_by f' c'.
Proof.
  intros Hf Hc Hg Ht. rewrite (same_top_threshold _ _ Hc) in Ht.
  destruct (Hg Ht) as (conds & a & col & Hop & Hin & fs & gs & d & Hopc & Hc1 & Hm).
  destruct (Hf _ _ Hop) as (conds' & a' & ? & ?).
  assert (plan_op c' = plan_op c) as Hopc'.
  { destruct Hc as (_ & [E|(? & ? & ? & ? & E & _)]); [done|]. by rewrite Hopc in E. }
  exists conds', a', col. split_and!; [done|set_solver|]. exists fs, gs, d.
  destruct Hc as [-> _]. by rewrite Hopc'.
Qed.

Lemma mapM_merged ch :
  Forall (λ p, plan_wf p → ∃ p', mergeSelection p = Ok p' ∧ merged p p') ch → Forall plan_wf ch →
  ∃ ch', mapM mergeSelection ch = Ok ch' ∧ Forall2 merged ch ch'.
Proof.
  induction 1 as [|p ch Hp _ IH]; intros Hwf; [by exists []|]. apply Forall_cons in Hwf as [Hw Hwf].
  destruct (Hp Hw) as (p' & Hp' & Hm). destruct (IH Hwf) as (ch' & Hch & Hf).
  exists (p' :: ch'). simpl. rewrite Hp', Hch. by split; [|constructor].
Qed.

Lemma merged_children op sch ch ch' :
  op_wf op sch ch → Forall2 merged ch ch' → merged (Plan op sch ch) (Plan op sch ch').
Proof.
  intros Hop Hf. pose proof (Forall2_length _ _ _ Hf) as Hl. split_and!.
  - constructor; [destruct op; simpl in *; by rewrite <- ?Hl|].
    eapply Forall2_Forall_r; [exact Hf|]. apply Forall_true. by intros p p' (? & _).
  - cbn [Preprocess.sem]. f_equal. symmetry. apply list_eq_Forall2, Forall2_fmap.
    eapply Forall2_impl; [exact Hf|]. by intros p p' (_ & -> & _).
  - by split; [|left].
  - intros Hg. inversion Hg as [? ? ? Hby Hall]; subst. constructor.
    + apply Forall_forall. intros c' (i & Hi)%list_elem_of_lookup_1.
      destruct (Forall2_lookup_r _ _ _ _ _ Hf Hi) as (c & Hc & _ & _ & Ht & _).
      eapply guarded_by_top; [by intros conds a E; exists conds, a|exact Ht|].
      by eapply Forall_lookup_1 in Hby.
    + apply Forall_forall. intros c' (i & Hi)%list_elem_of_lookup_1.
      destruct (Forall2_lookup_r _ _ _ _ _ Hf Hi) as (c & Hc & _ & _ & _ & Hm & _).
      by eapply Hm, Forall_lookup_1.
  - apply keeps_children. eapply Forall2_impl; [exact Hf|]. by intros c c' (_ & _ & _ & _ & ?).
Qed.

Lemma merged_pair conds a sch conds' a' sch' g g' :
  merged g g' →
  merged (Plan (LogicalSelection conds a) sch [Plan (LogicalSelection conds' a') sch' [g]])
    (Plan (LogicalSelection (conds ++ conds') a) sch [g']).
Proof.
  intros (Hwf & Hs & Ht & Hg & Hk). split_and!.
  - constructor; [done|]. by constructor.
  - cbn [Preprocess.sem fmap list_fmap meaning]. by rewrite Hs, select_app.
  - split; [done|]. right. exists conds, a, (conds ++ conds'), a. split_and!; [done..|set_solver].
  - intros H0. inversion H0 as [? ? ? _ H1]; subst. rewrite Forall_singleton in H1.
    inversion H1 as [? ? ? H2 H3]; subst. rewrite Forall_singleton in H2, H3.
    constructor; (constructor; [|done]); [|by apply Hg].
    eapply guarded_by_top; [|exact Ht|exact H2]. intros c0 a0 [= <- <-].
    exists (conds ++ conds'), a. split; [done|set_solver].
  - intros P HP H0. inversion H0 as [? ? ? _ H1]; subst. rewrite Forall_singleton in H1.
    inversion H1 as [? ? ? _ H2]; subst. rewrite Forall_singleton in H2.
    constructor; [done|]. constructor; [by apply Hk|done].
Qed.

Lemma mergeSelection_plain op sch ch :
  (∀ conds a conds' a' sch' ch', op = LogicalSelection conds a →
     ch ≠ [Plan (LogicalSelection conds' a') sch' ch']) →
  mergeSelection (Plan op sch ch) = (ch ← mapM mergeSelection ch; Ok (Plan op sch ch)).
Proof.
  intros Hne. destruct op; try done. destruct ch as [|[op' sch' ch'] [|? ?]]; [done| |by destruct op'].
  destruct op'; try done. by destruct (Hne _ _ _ _ _ _ eq_refl eq_refl).
Qed.

Lemma mergeSelection_spec p : plan_wf p → ∃ p', mergeSelection p = Ok p' ∧ merged p p'.
Proof.
  enough (∀ p, (plan_wf p → ∃ p', mergeSelection p = Ok p' ∧ merged p p')
    ∧ Forall (λ c, plan_wf c → ∃ p', mergeSelection c = Ok p' ∧ merged c p') (plan_children p)) as Hp
    by apply Hp.
  clear p. intros p. induction p as [op sch ch IH] using LogicalPlan_ind'.
  apply Forall_and in IH as [IH IH']. split; [|done]. intros Hwf.
  inversion Hwf as [? ? ? Hop Hch]; subst.
  assert ((∃ conds a conds' a' sch' ch', op = LogicalSelection conds a
            ∧ ch = [Plan (LogicalSelection conds' a') sch' ch'])
          ∨ ∀ conds a conds' a' sch' ch', op = LogicalSelection conds a →
              ch ≠ [Plan (LogicalSelection conds' a') sch' ch'])
    as [(conds & a & conds' & a' & sch' & ch' & -> & ->)|Hne].
  { destruct op; try (right; by intros; discriminate).
    destruct ch as [|[op' sch' ch'] [|? ?]]; try (right; by intros; discriminate).
    destruct op'; try (right; by intros; discriminate). left. by do 6 eexists. }
  - rewrite Forall_singleton in IH', Hch. inversion Hch as [? ? ? Hop' Hch']; subst. simpl in Hop'.
    destruct ch' as [|g [|? ?]]; [done| |done]. simpl in IH'. rewrite Forall_singleton in IH', Hch'.
    destruct (IH' Hch') as (g' & Hg' & Hm). simpl. rewrite Hg'. eexists. split; [done|].
    by apply merged_pair.
  - rewrite mergeSelection_plain by done. destruct (mapM_merged ch IH Hch) as (ch' & Hc & Hf).
    rewrite Hc. eexists. split; [done|]. by apply merged_children.
Qed.

Lemma process_spec p :
  plan_wf p →
  ∃ p', process p = Ok p' ∧ plan_wf p' ∧ sem p' = filtered false p ∧ all_guarded p' ∧ keeps_ops p p'.
Proof.
  intros Hwf. destruct (addThreshold_spec p Hwf false) as (p1 & H1 & W1 & S1 & G1 & _ & K1).
  destruct (mergeSelection_spec p1 W1) as (p2 & H2 & W2 & S2 & _ & G2 & K2).
  exists p2. unfold process. rewrite H1. simpl. split_and!; [done..|by rewrite S2|by apply G2|].
  intros P HP Hp. by apply K2, K1.
Qed.

(** *** Processing a processed plan *)
Lemma select_twice conds c (rows : list row) :
  c ∈ conds → select holds conds (select holds [c] rows) = select holds conds rows.
Proof.
  intros Hc. rewrite select_app. unfold select. apply list_filter_iff. intros r.
  rewrite forallb_app, andb_True. split; [tauto|]. intros Hr. split; [done|].
  simpl. rewrite andb_true_r. apply Is_true_true in Hr. rewrite forallb_forall in Hr.
  by apply Is_true_true, Hr, list_elem_of_In.
Qed.

Lemma filtered_agg p :
  filtered true p = if has_threshold p then
      match plan_op p with
      | LogicalAggregation fs _ _ =>
          match threshold_column fs (plan_schema p) with
          | Some c => select holds [EColumn c] (filtered false p)
          | None => filtered false p
          end
      | _ => filtered false p
      end
    else filtered false p.
Proof.
  destruct p as [op sch ch]. destruct op; try done. cbn [Preprocess.filtered plan_op plan_schema has_threshold].
  unfold has_threshold. cbn [plan_op]. destruct (existsb Agg_UseAsThreshold AggFuncs) eqn:He; [done|].
  destruct (threshold_column AggFuncs sch) as [c|] eqn:Hc; [|done].
  destruct (threshold_column_Some _ _ _ Hc) as (i & f & Hf & Hm & _). exfalso.
  assert (existsb Agg_UseAsThreshold AggFuncs = true) as E; [|by rewrite He in E].
  apply existsb_exists. exists f. split; [|done]. by eapply list_elem_of_In, list_elem_of_lookup_2.
Qed.

Lemma guarded_filtered p : plan_wf p → all_guarded p → filtered false p = sem p.
Proof.
  induction p as [op sch ch IH] using LogicalPlan_ind'. intros Hwf Hg.
  inversion Hwf as [? ? ? Hop Hch]; inversion Hg as [? ? ? Hby Hall]; subst.
  cbn [Preprocess.filtered Preprocess.sem].
  assert (∀ c, c ∈ ch → has_threshold c = false → filtered true c = sem c) as Hplain.
  { intros c Hc Hn. rewrite filtered_agg, Hn. rewrite Forall_forall in IH, Hch, Hall.
    apply IH; [done|by apply Hch|by apply Hall]. }
  assert ((∀ c, c ∈ ch → has_threshold c = false) ∨ ∃ c, c ∈ ch ∧ has_threshold c = true)
    as [Hno|(c & Hc & Ht)].
  { destruct (existsb has_threshold ch) eqn:He.
    - apply existsb_exists in He as (c & Hc%list_elem_of_In & Ht). eauto.
    - left. intros c Hc. apply not_true_iff_false. intros Ht. apply not_true_iff_false in He.
      apply He, existsb_exists. exists c. by rewrite <- list_elem_of_In. }
  - f_equal. apply list_fmap_ext. intros i c Hi%list_elem_of_lookup_2. auto.
  - rewrite Forall_forall in Hby. destruct (Hby c Hc Ht)
      as (conds & a & col & Hsel & Hin & fs & gs & d & Hagg & Hcol & _).
    simpl in Hsel. subst op. simpl in Hop. destruct ch as [|c0 [|? ?]]; [done| |done].
    apply list_elem_of_singleton in Hc as <-. cbn [fmap list_fmap meaning].
    rewrite filtered_agg, Ht, Hagg, Hcol, select_twice by done.
    rewrite Forall_singleton in IH, Hch, Hall. by rewrite IH.
Qed.
End spec.

(** ** The planner marks a COUNT in every grouping aggregation *)
Definition unmarked_op (op : PlanOp) : Prop :=
  match op with
  | LogicalAggregation fs _ _ => Forall (λ f, Agg_UseAsThreshold f = false) fs
  | _ => True
  end.
Definition counted_op (op : PlanOp) : Prop :=
  match op with
  | LogicalAggregation fs gs d =>
      Forall (λ f, Agg_UseAsThreshold f = true → is_count f = true) fs
      ∧ (gs ≠ [] → d = false → existsb Agg_UseAsThreshold fs = true)
  | _ => True
  end.

Lemma mark_count_spec fs :
  Forall (λ f, Agg_UseAsThreshold f = false) fs →
  match mark_count fs with
  | Some fs' => length fs' = length fs ∧ existsb Agg_UseAsThreshold fs' = true
                ∧ Forall (λ f, Agg_UseAsThreshold f = true → is_count f = true) fs'
  | None => True
  end.
Proof.
  induction 1 as [|f fs Hf Hfs IH]; [done|]. simpl. destruct (is_count f) eqn:Hc.
  - split_and!; [done|done|]. constructor; [done|]. eapply Forall_impl; [exact Hfs|].
    intros x Hx. simpl. by rewrite Hx.
  - destruct (mark_count fs) as [fs'|]; [|done]. simpl. destruct IH as (-> & He & Hall).
    split_and!; [done|by rewrite He, orb_true_r|]. constructor; [|done]. by rewrite Hf.
Qed.

Lemma mark_agg_spec fs sch id :
  length fs = length sch → Forall (λ f, Agg_UseAsThreshold f = false) fs →
  let '(_, (fs', sch')) := mark_agg fs sch id in
  length fs' = length sch' ∧ existsb Agg_UseAsThreshold fs' = true
  ∧ Forall (λ f, Agg_UseAsThreshold f = true → is_count f = true) fs'.
Proof.
  intros Hl Hu. unfold mark_agg. pose proof (mark_count_spec fs Hu) as Hm.
  destruct (mark_count fs) as [fs'|]; [by destruct Hm as (-> & ? & ?)|].
  rewrite !length_app, existsb_app, Hl. simpl. rewrite orb_true_r. split_and!; [done..|].
  apply Forall_app. split; [|by repeat constructor].
  eapply Forall_impl; [exact Hu|]. intros x Hx. simpl. by rewrite Hx.
Qed.

Definition marked_plan (q : LogicalPlan) : Prop := plan_wf q ∧ every (λ op _ _, counted_op op) q.

Lemma mark_all_spec ps id :
  Forall (λ p, plan_wf p → every (λ op _ _, unmarked_op op) p →
            ∀ id, marked_plan (MarkAggCountFunc p id).2) ps →
  Forall plan_wf ps → Forall (every (λ op _ _, unmarked_op op)) ps →
  let qs := (mark_all MarkAggCountFunc ps id).2 in length qs = length ps ∧ Forall marked_plan qs.
Proof.
  intros Hps. revert id. induction Hps as [|p ps Hp _ IH]; intros id Hw Hu; simpl; [done|].
  apply Forall_cons in Hw as [Hw Hws], Hu as [Hu Hus]. specialize (Hp Hw Hu id).
  destruct (MarkAggCountFunc p id) as [id1 q]. specialize (IH id1 Hws Hus).
  destruct (mark_all MarkAggCountFunc ps id1) as [id2 qs]. simpl in *. destruct IH as [-> ?].
  by split; [|constructor].
Qed.

Lemma MarkAggCountFunc_spec p :
  plan_wf p → every (λ op _ _, unmarked_op op) p → ∀ id, marked_plan (MarkAggCountFunc p id).2.
Proof.
  induction p as [op sch ch IH] using LogicalPlan_ind'. intros Hw Hu id.
  inversion Hw as [? ? ? Hop Hws]; inversion Hu as [? ? ? Huop Hus]; subst.
  pose proof (mark_all_spec ch id IH Hws Hus) as Hall. simpl.
  destruct (mark_all MarkAggCountFunc ch id) as [id1 qs]. simpl in Hall. destruct Hall as [Hl Hqs].
  apply Forall_and in Hqs as [Hq1 Hq2].
  assert (op_wf op sch qs) as Hop' by (destruct op; simpl in *; by rewrite ?Hl).
  assert (counted_op op → marked_plan (Plan op sch qs)) as Hplain by (split; by constructor).
  destruct op; try by apply Hplain. simpl in Hop, Huop.
  assert (Forall (λ f, Agg_UseAsThreshold f = true → is_count f = true) AggFuncs) as Hcnt.
  { eapply Forall_impl; [exact Huop|]. intros x Hx. simpl. by rewrite Hx. }
  destruct (bool_decide (GroupByItems = []) || ProducedByDistinct) eqn:Hg.
  - apply Hplain. split; [done|]. intros Hne ->. rewrite orb_false_r in Hg.
    by apply bool_decide_eq_true in Hg.
  - pose proof (mark_agg_spec AggFuncs sch id1 Hop Huop) as Hm.
    destruct (mark_agg AggFuncs sch id1) as [id2 [fs' sch']]. destruct Hm as (? & ? & ?).
    split; by constructor.
Qed.

(** ** Theorems *)

(** C8: groups below the threshold do not get through: in a plan the planner has marked
    and the translator has preprocessed, every grouping aggregation below the root
    stands directly under a selection, one of whose conditions is the marked column of a
    plain COUNT of that aggregation.  Preprocessing does not fail on such plans. *)
Theorem threshold_guards_groups p id :
  plan_wf p → every (λ op _ _, unmarked_op op) p →
  ∃ q, process (MarkAggCountFunc p id).2 = Ok q
    ∧ every (λ op _ ch, ∀ c fs gs, c ∈ ch → plan_op c = LogicalAggregation fs gs false → gs ≠ [] →
        ∃ conds affected col i f, op = LogicalSelection conds affected ∧ EColumn col ∈ conds
          ∧ UseAsThreshold col = true ∧ fs !! i = Some f ∧ is_count f = true
          ∧ plan_schema c !! i = Some col) q.
Proof.
  intros Hw Hu. destruct (MarkAggCountFunc_spec p Hw Hu id) as [Hmw Hmc].
  destruct (process_spec (row := unit) (λ _ _ _, []) (λ _ _, true) _ Hmw) as (q & Hq & _ & _ & Hg & Hk).
  exists q. split; [done|]. apply Hk in Hmc; [|done]. clear -Hg Hmc.
  induction q as [op sch ch IH] using LogicalPlan_ind'.
  inversion Hg as [? ? ? Hby Hall]; inversion Hmc as [? ? ? _ Hcs]; subst. constructor.
  - intros c fs gs Hc Hop Hgs. rewrite Forall_forall in Hby, Hcs. specialize (Hcs c Hc).
    destruct c as [op' sch' ch']. simpl in Hop. subst op'.
    inversion Hcs as [? ? ? Hco _]; subst. simpl in Hco. destruct Hco as [Hcnt Hthr].
    specialize (Hthr Hgs eq_refl).
    destruct (Hby _ Hc Hthr) as (conds & a & col & ? & ? & fs' & gs' & d & E & Hcol & Hms).
    simpl in *. injection E as <- <- <-.
    destruct (threshold_column_Some fs sch' col Hcol) as (i & f & Hf & Hm & Hi & Hu).
    rewrite Hms in Hi. exists conds, a, col, i, f. split_and!; [done..| |done].
    eapply Forall_lookup_1 in Hcnt; [|done]. by apply Hcnt.
  - rewrite Forall_forall in IH, Hall, Hcs. apply Forall_forall. intros c Hc.
    apply IH; [done|by apply Hcs|by apply Hall].
Qed.


(** ** Witnesses *)
Module Example.
Definition a : Column := mkColumn (mkFieldType mysql.TypeLonglong 0) 1 "db.ta.a" false.
Definition total : Column := mkColumn (mkFieldType mysql.TypeLonglong 0) 2 "" false.
(** [SELECT sum(a) FROM ta GROUP BY a HAVING sum(a)] *)
Definition groups : LogicalPlan :=
  Plan (LogicalProjection [EColumn total]) [total]
    [Plan (LogicalSelection [EColumn total] false) [total]
      [Plan (LogicalAggregation
         [mkAggFuncDesc ast.AggFuncSum [EColumn a] CompleteMode false false] [EColumn a] false) [total]
        [Plan (DataSource "db" "ta" 1) [a] []]]].
Definition count_col : Column := mkColumn count_type 3 "" true.
Definition processed : LogicalPlan :=
  match process (MarkAggCountFunc groups 2).2 with Ok q => q | _ => groups end.
Lemma groups_wf : plan_wf groups.
Proof. repeat constructor. Qed.
Lemma groups_unmarked : every (λ op _ _, unmarked_op op) groups.
Proof. repeat constructor. Qed.
End Example.

Lemma threshold_guards_groups_witness :
  plan_op <$> head (plan_children Example.processed)
    = Some (LogicalSelection [EColumn Example.total; EColumn Example.count_col] false)
  ∧ every (λ op _ ch, ∀ c fs gs, c ∈ ch → plan_op c = LogicalAggregation fs gs false → gs ≠ [] →
        ∃ conds affected col i f, op = LogicalSelection conds affected ∧ EColumn col ∈ conds
          ∧ UseAsThreshold col = true ∧ fs !! i = Some f ∧ is_count f = true
          ∧ plan_schema c !! i = Some col) Example.processed.
Proof.
  split; [vm_compute; reflexivity|].
  destruct (threshold_guards_groups Example.groups 2 Example.groups_wf Example.groups_unmarked)
    as (q & Hq & Hg).
  assert (process (MarkAggCountFunc Example.groups 2).2 = Ok Example.processed) as E
    by (vm_compute; reflexivity).
  rewrite E in Hq. injection Hq as <-. exact Hg.
Defined.


