(* ===== verification/BuildCcl.v ===== *)
(** * CCLs of logical plans (pkg/interpreter/translator/build_ccl.go)

    Every logical node computes the CCLs of its columns from those of its
    children.  This file models [buildCCL] for every kind of node, the helpers it
    uses, and the checks of [Translate] on the result. *)
From S2P Require Import Prelude GoInt Sliceutil Expression Operator Graph Ccl LogicalNode.
#[local] Open Scope nat_scope.

(** [scql.PsiAlgorithmType_OPRF] *)
Definition PsiAlgorithmType_OPRF : Z := 2%Z.

Definition isTrivialUnaryAstFuncMap (name : string) : bool :=
  bool_decide (name ∈ [ast.Trim; ast.Upper; ast.Lower]).

(** ** Helpers *)

(** [extractEQColumns] (build_helper.go) *)
Definition extractEQColumns (exp : ScalarFunction) : res (Column * Column) :=
  if bool_decide (FuncName exp ≠ ast.EQ) then Err "extractEQColumns: unsupported eq condition"
  else match GetArgs exp with
       | [EColumn leftCol; EColumn rightCol] => Ok (leftCol, rightCol)
       | _ => Err "extractEQColumns: unsupported eq condition"
       end.

(** The loop of [findThenRecordRootArg]: the argument under a chain of trivial
    unary functions that starts with [f]. *)
Fixpoint root_arg (e : Expr) : res Expr :=
  match e with
  | EScalarFunction f args _ =>
      if isTrivialUnaryAstFuncMap f then
        match args with
        | [arg] => root_arg arg
        | _ => Err "the number of arguments does not meet the definition of TrivialUnaryFunc"
        end
      else Ok e
  | _ => Ok e
  end.

(** The entry of the tracer the loop makes for one expression, if any. *)
Definition root_pair (sch : list Column) (ie : nat * Expr) : res (option (Z * Z)) :=
  let '(i, expr) := ie in
  match expr with
  | EScalarFunction f _ _ =>
      if isTrivialUnaryAstFuncMap f then
        arg ← root_arg expr;
        match arg with
        | EColumn col =>
            c ← res_of_option Panic (sch !! i);
            Ok (Some (UniqueID c, UniqueID col))
        | _ => Ok None
        end
      else Ok None
  | _ => Ok None
  end.

Definition findThenRecordRootArg (n : logicalNode) : M store () :=
  match lp (base n) with
  | LogicalProjection Exprs =>
      forM (λ ie,
          entry ← lift (root_pair (node_Schema n) ie);
          match entry with
          | Some (x, root) => trace (λ t, SetRootArg t x root)
          | None => mret tt
          end) (imap pair Exprs)
  | _ => mret tt
  end.

Section build_ccl.
Context `{GoRange}.

Definition SetAllPlainWhenLevelGroupBy (cc : CCL) : CCL :=
  foldl (λ cc p, if bool_decide (LevelFor cc p = GroupBy) then SetLevelForParty cc p Plain
                 else cc) cc (Parties cc).

Definition extract_entry (childCCL : gmap Z ref) (entry : Z * ref) : res (gmap Z ref) :=
  let '(id, level) := entry in
  match childCCL !! id with
  | Some _ => Err "extractChildCCL: child column id duplicated set ccl"
  | None => Ok (<[id:=level]> childCCL)
  end.

Definition extractChildCCL (children : list logicalNode) : res (gmap Z ref) :=
  foldlM (λ childCCL child, foldlM extract_entry childCCL (go_range (node_CCL child)))
    ∅ children.

(** [ccl.InferExpressionCCL] on a map of pointers; the result is a new object. *)
Definition inferCCL (expr : Expr) (m : gmap Z ref) : M store CCL :=
  env ← load_env m;
  lift (InferExpressionCCL expr env).

(** ** The nodes

    Every rule gets the node and the run of [buildChildCCL], which returns the
    built children and the parties of their data sources. *)
Section rules.
Context (ctx : Context).

Definition DataSourceNode_buildCCL (origin : gmap string CCL) (b : baseNode)
    (children : list logicalNode) : M store logicalNode :=
  match lp b with
  | DataSource _ _ numColumns =>
      resultCCL ← foldlM (λ (resultCCL : gmap Z ref) i,
          sc ← lift (res_of_option Panic (schema b !! i));
          match origin !! OrigName sc with
          | None => fail "column doesn't set ccl"
          | Some cc =>
              r ← alloc (Clone cc);
              mret (<[UniqueID sc:=r]> resultCCL)
          end) ∅ (seq 0 numColumns);
      forM (λ c, trace (λ t, AddSourceParties t (UniqueID c) (dataSourceParties b)))
        (schema b);;
      mret (Node (set_ccl b resultCCL) children)
  | _ => fail "assert failed while dataSourceNode buildCCL, expected: core.DataSource"
  end.

Definition ProjectionNode_buildCCL (Exprs : list Expr) (b : baseNode)
    (children : list logicalNode) : M store logicalNode :=
  childCCL ← wrapErr "buildCCL for ProjectionNode: " (lift (extractChildCCL children));
  resultCCL ← foldlM (λ (resultCCL : gmap Z ref) '(i, expr),
      cc ← wrapErr "projectionNode.buildCCL: " (inferCCL expr childCCL);
      col ← lift (res_of_option Panic (schema b !! i));
      r ← alloc cc;
      mret (<[UniqueID col:=r]> resultCCL)) ∅ (imap pair Exprs);
  forM (λ '(i, expr),
      col ← lift (res_of_option Panic (schema b !! i));
      trace (λ t, SetSourcePartiesFromExpr t (UniqueID col) expr)) (imap pair Exprs);;
  mret (Node (set_ccl b resultCCL) children).

(** *** Joins *)
Record joinState := mkJoinState {
  joinKeyCCLs : gmap Z CCL;
  joinKeyPairs : list (Z * Z);
  payloadVisible : gmap string (gmap string bool);
}.

Definition payload_lookup (pv : gmap string (gmap string bool)) (p sp : string) : bool :=
  default false (default ∅ (pv !! p) !! sp).

Definition set_payload (pv : gmap string (gmap string bool)) (p q : string) :
    gmap string (gmap string bool) :=
  let pv := match pv !! p with None => <[p:=∅]> pv | Some _ => pv end in
  <[p:=<[q:=true]> (default ∅ (pv !! p))]> pv.

Definition record_payload (pv : gmap string (gmap string bool)) (lps rps : list string) :
    gmap string (gmap string bool) :=
  foldl (λ pv l, foldl (λ pv r, set_payload (set_payload pv l r) r l) pv rps) pv lps.

(** The loop over the parties of the other side: [raises] tells whether the type of
    the join lets the party see the keys, [touch] whether it gets the result. *)
Definition check_key (raises touch : bool) (cc : CCL) (p : string) : res CCL :=
  let cc := if bool_decide (LevelFor cc p = Join) && raises
            then SetLevelForParty cc p Plain else cc in
  if touch && negb (IsVisibleFor cc p) && negb (bool_decide (LevelFor cc p = Join))
  then Err "joinNode.buildCCL: join on condition failed"
  else Ok cc.

Definition touch_result (tp outer : core.JoinType) (ts : list nat) : bool :=
  bool_decide (0 < length ts) || bool_decide (PsiType ctx = PsiAlgorithmType_OPRF)
  || bool_decide (tp = outer).

Definition join_condition (tp : core.JoinType) (sch : list Column)
    (left right : logicalNode) (childCCL : gmap Z ref) (st : joinState)
    (equalCondition : ScalarFunction) : M store joinState :=
  '(leftCol, rightCol) ← wrapErr "joinNode.buildCCL: " (lift (extractEQColumns equalCondition));
  let leftId := UniqueID leftCol in
  let rightId := UniqueID rightCol in
  let find id := match childCCL !! id with
                 | None => fail "joinNode.buildCCL: can not find ccl for col"
                 | Some r => cc ← load r; mret (Clone cc)
                 end in
  leftCc ← find leftId;
  rightCc ← find rightId;
  t ← gets colTracer;
  let leftSourceParties := FindSourceParties t leftId in
  let rightSourceParties := FindSourceParties t rightId in
  let pv := if bool_decide (tp = core.InnerJoin)
            then record_payload (payloadVisible st) leftSourceParties rightSourceParties
            else payloadVisible st in
  let leftUsed := GetUsedList sch (mkSchema (node_Schema left)) in
  let rightUsed := GetUsedList sch (mkSchema (node_Schema right)) in
  leftTs ← lift (Take (ResultTable left) leftUsed);
  rightTs ← lift (Take (ResultTable right) rightUsed);
  rightCc ← lift (foldlM
    (check_key (bool_decide (tp = core.InnerJoin ∨ tp = core.LeftOuterJoin))
       (touch_result tp core.LeftOuterJoin leftTs)) rightCc leftSourceParties);
  leftCc ← lift (foldlM
    (check_key (bool_decide (tp = core.InnerJoin ∨ tp = core.RightOuterJoin))
       (touch_result tp core.RightOuterJoin rightTs)) leftCc rightSourceParties);
  mret (mkJoinState (<[rightId:=rightCc]> (<[leftId:=leftCc]> (joinKeyCCLs st)))
          (joinKeyPairs st ++ [(leftId, rightId)]) pv).

Definition add_source_of_pair (t : ColumnTracer) (m : gmap Z (list string)) (pair : Z * Z) :
    gmap Z (list string) :=
  let '(leftId, rightId) := pair in
  let m := <[leftId:=default [] (m !! leftId) ++ FindSourceParties t rightId]> m in
  <[rightId:=default [] (m !! rightId) ++ FindSourceParties t leftId]> m.

Definition join_source_parties (pairs : list (Z * Z)) (t : ColumnTracer) : ColumnTracer :=
  let IdToSourceParties := foldl (add_source_of_pair t) ∅ pairs in
  foldl (λ t '(id, parties), AddSourceParties t id parties) t (go_range IdToSourceParties).

(** A party that joins with one of the sources of a column may see a payload. *)
Definition raise_payload (pv : gmap string (gmap string bool)) (sources : list string)
    (cc : CCL) : CCL :=
  foldl (λ cc p,
      if bool_decide (LevelFor cc p = AsJoinPayload)
         && existsb (λ sp, payload_lookup pv p sp) sources
      then SetLevelForParty cc p Plain else cc) cc (Parties cc).

(** A key gets a copy of its new CCL; the CCL of any other column is changed in
    place, and the node of the child sees the change. *)
Definition join_column (st : joinState) (childCCL : gmap Z ref) (result : gmap Z ref)
    (c : Column) : M store (gmap Z ref) :=
  match childCCL !! UniqueID c with
  | None => fail "joinNode.buildCCL: can not find ccl for col"
  | Some r =>
      match joinKeyCCLs st !! UniqueID c with
      | Some joinCc =>
          r' ← alloc (Clone joinCc);
          mret (<[UniqueID c:=r']> result)
      | None =>
          cc ← load r;
          t ← gets colTracer;
          write r (raise_payload (payloadVisible st) (FindSourceParties t (UniqueID c)) cc);;
          mret (<[UniqueID c:=r]> result)
      end
  end.

Definition join_root (t : ColumnTracer) (result : gmap Z ref) (key : Z * CCL)
    : M store (gmap Z ref) :=
  let '(keyCol, keyCc) := key in
  let parentCol := GetRootArg t keyCol in
  match result !! parentCol with
  | Some _ => r ← alloc keyCc; mret (<[parentCol:=r]> result)
  | None => mret result
  end.

Definition child_source_parties (t : ColumnTracer) (child : logicalNode) : list string :=
  SliceDeDup (concat ((λ c, FindSourceParties t (UniqueID c)) <$> node_Schema child)).

Definition JoinNode_buildCCL (tp : core.JoinType) (EqualConditions : list ScalarFunction)
    (b : baseNode) (children : list logicalNode) : M store logicalNode :=
  childCCL ← wrapErr "buildCCL for JoinNode: " (lift (extractChildCCL children));
  t ← gets colTracer;
  let b := set_childDataSourceParties b (child_source_parties t <$> children) in
  forM (λ c, wrapErr "joinNode.buildCCL: " (findThenRecordRootArg c)) children;;
  st ← foldlM (λ st equalCondition,
      match children with
      | leftChild :: rightChild :: _ =>
          join_condition tp (schema b) leftChild rightChild childCCL st equalCondition
      | _ => panic
      end) (mkJoinState ∅ [] ∅) EqualConditions;
  trace (join_source_parties (joinKeyPairs st));;
  result ← foldlM (join_column st childCCL) ∅ (schema b);
  t ← gets colTracer;
  result ← foldlM (join_root t) result (go_range (joinKeyCCLs st));
  mret (Node (set_ccl b result) children).

(** *** Selections *)

(** [expression.NewFunction(ctx, ast.GE, tiny, col, threshold)]; the casts it may
    wrap around the operands do not matter for the CCL. *)
Definition threshold_condition (col : Column) : Expr :=
  EScalarFunction ast.GE
    [EColumn col;
     EConstant (NewIntDatum (i64 (Z.of_N (GroupByThreshold ctx)))) (mkFieldType mysql.TypeTiny 0)]
    (mkFieldType mysql.TypeTiny 0).

Definition new_condition (acc : list Expr * bool) (expr : Expr) : res (list Expr * bool) :=
  let '(newConditions, affected) := acc in
  match expr with
  | EColumn col =>
      if UseAsThreshold col then
        if bool_decide (GroupByThreshold ctx ≤ 0)%N then
          Err "SelectionNode buildCCL: group by threshold must be greater than zero"
        else if bool_decide (1 < GroupByThreshold ctx)%N then
          Ok (newConditions ++ [threshold_condition col], true)
        else Ok (newConditions, affected)
      else Ok (newConditions ++ [expr], affected)
  | _ => Ok (newConditions ++ [expr], affected)
  end.

Definition condition_ccl (childCCL : gmap Z ref) (acc : option CCL) (expr : Expr)
    : M store (option CCL) :=
  cc ← wrapErr "selectionNode buildCCL: " (inferCCL expr childCCL);
  match acc with
  | None => mret (Some (Clone cc))
  | Some conditionCCL =>
      cc' ← wrapErr "selectionNode buildCCL: "
        (lift (InferBinaryOpOutputVisibility OpNameLogicalAnd conditionCCL cc));
      mret (Some cc')
  end.

Definition SelectionNode_buildCCL (Conditions : list Expr) (affected : bool) (b : baseNode)
    (children : list logicalNode) : M store logicalNode :=
  childCCL ← wrapErr "buildCCL for SelectionNode: " (lift (extractChildCCL children));
  '(newConditions, affected) ← lift (foldlM new_condition ([], affected) Conditions);
  let b := set_lp b (LogicalSelection newConditions affected) in
  cond ← foldlM (condition_ccl childCCL) None newConditions;
  match cond with
  | None => mret (Node (set_ccl b childCCL) children)
  | Some conditionCCL =>
      result ← foldlM (λ (result : gmap Z ref) c,
          match childCCL !! UniqueID c with
          | None => fail "selectionNode.buildCCL: ccl is nil for column"
          | Some r =>
              cc ← load r;
              r' ← alloc (UpdateMoreRestrictedCCLFrom (Clone cc) conditionCCL);
              mret (<[UniqueID c:=r']> result)
          end) ∅ (schema b);
      mret (Node (set_ccl (set_condVis b conditionCCL) result) children)
  end.

(** *** Correlated subqueries *)

(** [cols[:len(cols)-1]] and [cols[len(cols)-1]] *)
Fixpoint split_last {A} (l : list A) : option (list A * A) :=
  match l with
  | [] => None
  | [x] => Some ([], x)
  | x :: l => '(init, lst) ← split_last l; Some (x :: init, lst)
  end.

Definition apply_condition (EqualConditions : list ScalarFunction)
    (OtherConditions : list Expr) : res ScalarFunction :=
  other ← match OtherConditions with
          | [] => Ok None
          | EScalarFunction f args ret :: _ => Ok (Some (mkScalarFunction f args ret))
          | _ :: _ => Err "fail to check conditions: Apply.buildCCL doesn't support condition"
          end;
  sFunc ← match EqualConditions with
          | sf :: _ => Ok sf
          | [] => res_of_option Panic other
          end;
  if bool_decide (FuncName sFunc ≠ ast.EQ)
  then Err "fail to check conditions: Apply.buildCCL doesn't support condition"
  else Ok sFunc.

(** The columns of the outer table and whether the row has a match. *)
Definition apply_outer_semi (childCCL : gmap Z ref) (sFunc : ScalarFunction) (cc : CCL)
    (sch : list Column) : M store (gmap Z ref) :=
  '(init, lastCol) ← lift (res_of_option Panic (split_last sch));
  let result := foldl (λ (result : gmap Z ref) c,
    <[UniqueID c:=default None (childCCL !! UniqueID c)]> result) ∅ init in
  r ← alloc cc;
  trace (λ t, SetSourcePartiesFromExpr t (UniqueID lastCol) (sf_expr sFunc));;
  mret (<[UniqueID lastCol:=r]> result).

(** The rows of the outer table that have a match, or have none. *)
Definition apply_semi (childCCL : gmap Z ref) (cc : CCL) (sch : list Column)
    : M store (gmap Z ref) :=
  foldlM (λ (result : gmap Z ref) c,
    c0 ← load (default None (childCCL !! UniqueID c));
    r ← alloc (UpdateMoreRestrictedCCLFrom (Clone c0) cc);
    mret (<[UniqueID c:=r]> result)) ∅ sch.

Definition ApplyNode_buildCCL (tp : core.JoinType) (EqualConditions : list ScalarFunction)
    (OtherConditions : list Expr) (b : baseNode) (children : list logicalNode)
    : M store logicalNode :=
  childCCL ← wrapErr "buildCCL for ApplyNode: " (lift (extractChildCCL children));
  if bool_decide (OtherConditions = [] ∧ EqualConditions = [])
  then mret (Node (set_ccl b childCCL) children)
  else
    sFunc ← lift (apply_condition EqualConditions OtherConditions);
    correlatedFunctionCCL ← inferCCL (sf_expr sFunc) childCCL;
    result ← match tp with
      | core.AntiLeftOuterSemiJoin | core.LeftOuterSemiJoin =>
          apply_outer_semi childCCL sFunc correlatedFunctionCCL (schema b)
      | core.AntiSemiJoin | core.SemiJoin =>
          apply_semi childCCL correlatedFunctionCCL (schema b)
      | _ => fail "fail to check join type: unsupported join type"
      end;
    mret (Node (set_ccl b result) children).

(** *** Aggregations *)

(** The keys are columns of the copy of the child's map; a raised key is seen by the
    arguments of the aggregates too. *)
Definition group_key (acc : gmap Z CCL * list CCL) (col : Column)
    : res (gmap Z CCL * list CCL) :=
  let '(after, groupKeyCC) := acc in
  match after !! UniqueID col with
  | None => Err "failed to get ccl for column"
  | Some cc =>
      let cc := SetAllPlainWhenLevelGroupBy cc in
      Ok (<[UniqueID col:=cc]> after, groupKeyCC ++ [cc])
  end.

Definition group_keys (GroupByItems : list Expr) (env : gmap Z CCL)
    : res (gmap Z CCL * list CCL) :=
  foldlM (λ acc expr, foldlM group_key acc (ExtractColumns expr)) (env, []) GroupByItems.

(** Without keys a count is visible to whoever may know of some column. *)
Definition count_without_keys (env : gmap Z CCL) (outputCCL : CCL) : CCL :=
  foldl (λ out p,
      SetLevelForParty (SetLevelForParty out p Unknown) p
        (if existsb (λ cc, negb (bool_decide (LevelFor cc p = Unknown))) (go_range env).*2
         then Plain else Unknown)) outputCCL (Parties outputCCL).

(** The loop over the parties of a key stops at the first unknown level. *)
Fixpoint count_key (cc : CCL) (parties : list string) (outputCCL : CCL) : CCL :=
  match parties with
  | [] => outputCCL
  | p :: parties =>
      if bool_decide (LevelFor cc p = Unknown)
      then SetLevelForParty outputCCL p (LevelFor cc p)
      else if bool_decide (LevelFor cc p = Encrypt)
      then count_key cc parties (SetLevelForParty outputCCL p (LevelFor cc p))
      else count_key cc parties outputCCL
  end.

Definition count_with_keys (groupKeyCC : list CCL) (outputCCL : CCL) : CCL :=
  foldl (λ out cc, count_key cc (Parties cc) out)
    (foldl (λ out p, SetLevelForParty out p Plain) outputCCL (Parties outputCCL))
    groupKeyCC.

Definition restrict_by_keys (groupKeyCC : list CCL) (outputCCL : CCL) : CCL :=
  foldl UpdateMoreRestrictedCCLFrom outputCCL groupKeyCC.

Definition raise_aggregate (outputCCL : CCL) : CCL :=
  foldl (λ out p, if bool_decide (LevelFor out p = Aggregate)
                  then SetLevelForParty out p Plain else out)
    outputCCL (Parties outputCCL).

Definition agg_output (distinct : bool) (env : gmap Z CCL) (groupKeyCC : list CCL)
    (name : string) (outputCCL : CCL) : res CCL :=
  if distinct then Ok (SetAllPlainWhenLevelGroupBy outputCCL)
  else if bool_decide (name = ast.AggFuncCount) then
    Ok (if bool_decide (length groupKeyCC = 0) then count_without_keys env outputCCL
        else count_with_keys groupKeyCC outputCCL)
  else if bool_decide (name = ast.AggFuncFirstRow) then
    Ok (restrict_by_keys groupKeyCC outputCCL)
  else if bool_decide (name ∈ [ast.AggFuncSum; ast.AggFuncAvg; ast.AggFuncMax;
                               ast.AggFuncMin; ast.AggPercentileDisc]) then
    Ok (raise_aggregate (restrict_by_keys groupKeyCC outputCCL))
  else Err "unimplemented op".

Definition AggregationNode_buildCCL (AggFuncs : list AggFuncDesc) (GroupByItems : list Expr)
    (ProducedByDistinct : bool) (b : baseNode) (children : list logicalNode)
    : M store logicalNode :=
  childCCL ← wrapErr "buildCCL for AggregationNode: " (lift (extractChildCCL children));
  env ← load_env childCCL;
  '(after, groupKeyCC) ← lift (group_keys GroupByItems env);
  result ← foldlM (λ (result : gmap Z ref) '(i, aggFunc),
      arg ← lift (res_of_option Panic (head (Agg_Args aggFunc)));
      argCCL ← wrapErr "aggregationNode.buildCCL: " (lift (InferExpressionCCL arg after));
      outputCCL ← lift (agg_output ProducedByDistinct env groupKeyCC (Agg_Name aggFunc)
                          (Clone argCCL));
      col ← lift (res_of_option Panic (schema b !! i));
      r ← alloc outputCCL;
      mret (<[UniqueID col:=r]> result)) ∅ (imap pair AggFuncs);
  mret (Node (set_ccl b result) children).

(** *** Unions *)
Definition union_column (children : list logicalNode) (parties : list string) (i : nat)
    : M store CCL :=
  newCC ← foldlM (λ newCC child,
      col ← lift (res_of_option Panic (node_Schema child !! i));
      match node_CCL child !! UniqueID col with
      | None => fail "failed to find ccl for column"
      | Some r => cc ← load r; mret (UpdateMoreRestrictedCCLFrom newCC cc)
      end) (CreateAllPlainCCL parties) children;
  if existsb (λ p, bool_decide (LevelFor newCC p = Unknown)) parties
  then fail "failed to check union ccl: "
  else mret newCC.

Definition UnionAllNode_buildCCL (b : baseNode) (children : list logicalNode)
    : M store logicalNode :=
  envs ← mapM (λ child, load_env (node_CCL child)) children;
  let parties := ExtractPartyCodes (concat ((λ env, (go_range env).*2) <$> envs)) in
  result ← foldlM (λ (result : gmap Z ref) '(i, c),
      newCC ← union_column children parties i;
      r ← alloc newCC;
      mret (<[UniqueID c:=r]> result)) ∅ (imap pair (schema b));
  mret (Node (set_ccl b result) children).

(** *** Nodes that pass the CCLs of their child on: limits, sorts, single rows *)
Definition passCCL (prefix : string) (b : baseNode) (children : list logicalNode)
    : M store logicalNode :=
  childCCL ← wrapErr prefix (lift (extractChildCCL children));
  mret (Node (set_ccl b childCCL) children).

Definition LimitNode_buildCCL := passCCL "buildCCL for LimitNode: ".
Definition SortNode_buildCCL := passCCL "buildCCL for SortNode: ".
Definition MaxOneRowNode_buildCCL := passCCL "".

(** *** Windows *)
Definition raise_rank (cc : CCL) : CCL :=
  foldl (λ cc p, if bool_decide (LevelFor cc p = Rank) then SetLevelForParty cc p Plain
                 else cc) cc (ExtractPartyCodes [cc]).

Definition order_ccl (childCCL : gmap Z ref) (newCC : CCL) (col : Column) : M store CCL :=
  match childCCL !! UniqueID col with
  | None => fail "buildRankWindowCCL: failed to find ccl for col in order list"
  | Some r => cc ← load r; mret (UpdateMoreRestrictedCCLFrom newCC cc)
  end.

Definition buildRankWindowCCL (PartitionBy OrderBy : list Column) (b : baseNode)
    (children : list logicalNode) : M store logicalNode :=
  childCCL ← wrapErr "buildRankWindowCCL: failed to build child ccl: "
    (lift (extractChildCCL children));
  match OrderBy with
  | [] => fail "buildRankWindowCCL: order field is required"
  | firstCol :: restCols =>
      if bool_decide (PartitionBy = [])
      then fail "buildRankWindowCCL: partition field is required"
      else
        env ← load_env childCCL;
        result ← foldlM (λ (result : gmap Z ref) '(id, cc),
            r ← alloc (Clone cc); mret (<[id:=r]> result)) ∅ (go_range env);
        lastCol ← lift (res_of_option Panic (last (schema b)));
        match childCCL !! UniqueID firstCol with
        | None => fail "buildRankWindowCCL: failed to find ccl for col"
        | Some r =>
            init ← load r;
            newCC ← foldlM (order_ccl childCCL) (Clone init) restCols;
            let newCC := raise_rank newCC in
            r ← alloc newCC;
            trace (λ t, AddSourceParties t (UniqueID lastCol) (ExtractPartyCodes [newCC]));;
            mret (Node (set_ccl b (<[UniqueID lastCol:=r]> result)) children)
        end
  end.

Definition buildAggWindowCCL : M store logicalNode :=
  fail "buildAggWindowCCL: agg window does not support yet".

(** The children are built after the function has been checked. *)
Definition WindowNode_buildCCL (descs : list string) (PartitionBy OrderBy : list Column)
    (with_children : (baseNode → list logicalNode → M store logicalNode) → M store logicalNode)
    : M store logicalNode :=
  match descs with
  | [name] =>
      if IsRankWindowFunc name then with_children (buildRankWindowCCL PartitionBy OrderBy)
      else buildAggWindowCCL
  | _ => fail "assert failed for window functions expect(1)"
  end.

(** ** [buildCCL] *)
Section children.
Context (buildCCL : logicalNode → M store logicalNode).

(** [baseNode.buildChildCCL] *)
Fixpoint build_children (children : list logicalNode) (parties : list string)
    : M store (list logicalNode * list string) :=
  match children with
  | [] => mret ([], SliceDeDup parties)
  | c :: children =>
      c ← buildCCL c;
      '(cs, ps) ← build_children children (parties ++ DataSourceParty c);
      mret (c :: cs, ps)
  end.
End children.

Definition node_buildCCL (origin : gmap string CCL) (b : baseNode)
    (children : list logicalNode) (buildChildCCL : M store (list logicalNode * list string))
    : M store logicalNode :=
  let with_children rule :=
    '(children, parties) ← buildChildCCL;
    rule (set_dataSourceParties b parties) children in
  match lp b with
  | DataSource _ _ _ => DataSourceNode_buildCCL origin b children
  | LogicalProjection Exprs => with_children (ProjectionNode_buildCCL Exprs)
  | LogicalJoin tp eqs _ _ _ => with_children (JoinNode_buildCCL tp eqs)
  | LogicalSelection conds affected => with_children (SelectionNode_buildCCL conds affected)
  | LogicalApply tp eqs _ _ others => with_children (ApplyNode_buildCCL tp eqs others)
  | LogicalAggregation aggs items distinct =>
      with_children (AggregationNode_buildCCL aggs items distinct)
  | LogicalUnionAll => with_children UnionAllNode_buildCCL
  | LogicalLimit _ _ => with_children LimitNode_buildCCL
  | LogicalSort _ => with_children SortNode_buildCCL
  | LogicalMaxOneRow => with_children MaxOneRowNode_buildCCL
  | LogicalWindow descs part order =>
      WindowNode_buildCCL descs (Col <$> part) (Col <$> order) with_children
  | LogicalOther _ => fail "please implement this function in child"
  end.

Fixpoint buildCCL (origin : gmap string CCL) (n : logicalNode) : M store logicalNode :=
  let '(Node b children) := n in
  node_buildCCL origin b children (build_children (buildCCL origin) children []).
End rules.

(** [logicalNodeBuilder.buildLogicalNode]; the builder is made with a CCL map that is
    never nil. *)
Definition buildLogicalNode (bd : logicalNodeBuilder) (p : LogicalPlan)
    : M store logicalNode :=
  ln ← lift (build bd p);
  wrapErr "CCL_CHECK_FAILED: "
    (buildCCL (mkContext (groupByThreshold bd) (psiType bd)) (originCCL bd) ln).
End build_ccl.

(** ** The checks of [Translate] (translator.go) *)
Record ColumnControl := mkColumnControl {
  cc_DatabaseName : string;
  cc_TableName : string;
  cc_ColumnName : string;
  cc_PartyCode : string;
  cc_Visibility : CCLLevel;
}.

(** [NewTranslator] keeps the controls of the parties that take part. *)
Definition filterCCL (parties : list string) (issuer : string) (sc : list ColumnControl)
    : list ColumnControl :=
  Filter sc (λ cc, bool_decide (cc_PartyCode cc ∈ parties ++ [issuer])).

Definition toFullQualifiedColumnName (dbName tblName colName : string) : string :=
  if bool_decide (dbName = "" ∧ tblName = "") then colName
  else if bool_decide (dbName = "") then tblName +:+ "." +:+ colName
  else dbName +:+ "." +:+ tblName +:+ "." +:+ colName.

Definition convertOriginalCCL (sc : list ColumnControl) : gmap string CCL :=
  foldl (λ (result : gmap string CCL) cc,
      let name := toFullQualifiedColumnName (cc_DatabaseName cc) (cc_TableName cc)
                    (cc_ColumnName cc) in
      <[name:=SetLevelForParty (default NewCCL (result !! name)) (cc_PartyCode cc)
                (cc_Visibility cc)]> result) ∅ sc.

(** The parties that get the result: the issuer and those of [INTO OUTFILE]. *)
Definition cclCheckPartyList (issuer : string) (partyFiles : list string) : list string :=
  let partyFiles := match partyFiles with [""] => [issuer] | _ => partyFiles end in
  issuer :: Filter partyFiles (λ p, negb (bool_decide (p = issuer))).

Definition check_result (ln : logicalNode) (parties : list string) : M store () :=
  forM (λ partyCode,
    forM (λ col,
      cc ← load (default None (node_CCL ln !! UniqueID col));
      if IsVisibleFor cc partyCode then mret tt
      else fail "ccl check failed: column in the result is not visible to party")
      (node_Schema ln)) parties.

Section translate.
Context `{GoRange}.

(** [Translate] up to the check that the receivers may see the result. *)
Definition Translate_check (info : EnginesInfo) (sc : list ColumnControl) (issuer : string)
    (partyFiles : list string) (threshold : N) (psi : Z) (p : LogicalPlan)
    : M store logicalNode :=
  let sc := filterCCL (GetParties (partyInfo info)) issuer sc in
  ln ← buildLogicalNode (mkLogicalNodeBuilder info (convertOriginalCCL sc) threshold psi) p;
  check_result ln (cclCheckPartyList issuer partyFiles);;
  mret ln.
End translate.
