(* ===== verification/BuildCclSpec.v ===== *)
(** * Hidden columns stay hidden

    What [buildCCL] guarantees for a plan, whatever the order of Go's maps: a
    column of a table that is hidden from a party taints what is computed from it,
    and no tainted column of any node is visible to the party. *)
From S2P Require Import Prelude GoInt Sliceutil Expression Operator Graph Ccl LogicalNode BuildCcl.
#[local] Open Scope nat_scope.

(** ** Sets of levels that cannot be left

    A set of levels is sticky when combining one of them with any level gives one of
    them, and when it holds none of the levels that some operation raises. *)
Class Sticky (P : CCLLevel → bool) := {
  sticky_combine b l x : P l ∨ P x → P (combine_levels b l x);
  sticky_low l : P l → l = Unknown ∨ l = Encrypt;
}.

Definition hidden (l : CCLLevel) : bool := bool_decide (l = Unknown ∨ l = Encrypt).
Definition encrypted (l : CCLLevel) : bool := bool_decide (l = Encrypt).

#[global] Instance hidden_sticky : Sticky hidden.
Proof. split; [intros [] l x; levels|intros l; levels]. Qed.
#[global] Instance encrypted_sticky : Sticky encrypted.
Proof. split; [intros [] l x; levels|intros l; levels]. Qed.

(** ** Taint *)

(** A node as a list of columns, each with the judgement on its definition: a column
    is tainted when it is defined and all of its definitions are. *)
Definition tainted_in (defs : list (Z * bool)) (id : Z) : bool :=
  bool_decide (id ∈ defs.*1) && forallb (λ '(i, b), negb (bool_decide (i = id)) || b) defs.

Section taint.
Context `{GoRange}.
Context (P : CCLLevel → bool) (p : string).
Context (ctx : Context) (origin : gmap string CCL) (R : list (Z * Z)).

Definition hidden_source (sc : Column) : bool :=
  match origin !! OrigName sc with Some cc => P (LevelFor cc p) | None => false end.

(** The ID of the column at a position of a schema. *)
Definition col_id (sch : list Column) (i : nat) : Z := from_option UniqueID 0%Z (sch !! i).

(** An expression is tainted by any of its columns. *)
Definition tainted_expr (tchild : Z → bool) (e : Expr) : bool :=
  existsb (λ c, tchild (UniqueID c)) (expr_cols e).

Definition kept_conditions (conds : list Expr) (affected : bool) : list Expr :=
  match foldlM (new_condition ctx) ([], affected) conds with
  | Ok (conds, _) => conds
  | _ => []
  end.

Definition key_ids (eqs : list ScalarFunction) : list Z :=
  concat ((λ e, match extractEQColumns e with
                | Ok (l, r) => [UniqueID l; UniqueID r]
                | _ => []
                end) <$> eqs).

(** A column takes the CCL of a key that is computed from it. *)
Definition join_tainted (tchild : Z → bool) (eqs : list ScalarFunction) (id : Z) : bool :=
  tchild id && forallb (λ k, negb (bool_decide ((k, id) ∈ R)) || tchild k) (key_ids eqs).

Definition apply_tainted (tchild : Z → bool) (eqs : list ScalarFunction) (others : list Expr)
    : bool :=
  match apply_condition eqs others with
  | Ok sf => tainted_expr tchild (sf_expr sf)
  | _ => false
  end.

(** Counts do not depend on the values they count. *)
Definition agg_tainted (tchild : Z → bool) (items : list Expr) (distinct : bool)
    (f : AggFuncDesc) : bool :=
  let arg := from_option (tainted_expr tchild) false (head (Agg_Args f)) in
  if distinct then arg
  else if bool_decide (Agg_Name f = ast.AggFuncCount) then false
  else arg || existsb (tainted_expr tchild) items.

Definition union_tainted (children : list (list Column * (Z → bool))) (i : nat) : bool :=
  existsb (λ '(sch, t), from_option (λ c, t (UniqueID c)) false (sch !! i)) children.

Definition node_tainted (op : PlanOp) (sch : list Column)
    (children : list (list Column * (Z → bool))) (id : Z) : bool :=
  let tchild id := existsb (λ '(_, t), t id) children in
  match op with
  | DataSource _ _ k => 
      tainted_in ((λ i, (col_id sch i, from_option hidden_source false (sch !! i))) <$> seq 0 k) id
  | LogicalProjection es =>
      tainted_in (imap (λ i e, (col_id sch i, tainted_expr tchild e)) es) id
  | LogicalJoin _ eqs _ _ _ =>
      tainted_in ((λ c, (UniqueID c, join_tainted tchild eqs (UniqueID c))) <$> sch) id
  | LogicalSelection conds affected =>
      let conds := kept_conditions conds affected in
      if bool_decide (conds = []) then tchild id
      else tainted_in ((λ c, (UniqueID c, tchild (UniqueID c) ||
                              existsb (tainted_expr tchild) conds)) <$> sch) id
  | LogicalApply tp eqs _ _ others =>
      if bool_decide (others = [] ∧ eqs = []) then tchild id
      else match tp with
           | core.SemiJoin | core.AntiSemiJoin =>
               tainted_in ((λ c, (UniqueID c, tchild (UniqueID c) ||
                                   apply_tainted tchild eqs others)) <$> sch) id
           | _ => match split_last sch with
                  | Some (init, c) =>
                      if bool_decide (id = UniqueID c) then apply_tainted tchild eqs others
                      else bool_decide (id ∈ UniqueID <$> init) && tchild id
                  | None => false
                  end
           end
  | LogicalAggregation aggs items distinct =>
      tainted_in (imap (λ i f, (col_id sch i, agg_tainted tchild items distinct f)) aggs) id
  | LogicalUnionAll => tainted_in (imap (λ i c, (UniqueID c, union_tainted children i)) sch) id
  | LogicalWindow _ _ order =>
      match last sch with
      | Some c => if bool_decide (id = UniqueID c)
                  then existsb (λ o, tchild (UniqueID o)) (Col <$> order) else tchild id
      | None => false
      end
  | LogicalLimit _ _ | LogicalSort _ | LogicalMaxOneRow => tchild id
  | LogicalOther _ => false
  end.

Fixpoint tainted (n : logicalNode) (id : Z) : bool :=
  let '(Node b children) := n in
  node_tainted (lp b) (schema b) ((λ c, (node_Schema c, tainted c)) <$> children) id.
End taint.

(** The entries of the tracer that the joins of a plan record. *)
Definition proj_roots (n : logicalNode) : list (Z * Z) :=
  match lp (base n) with
  | LogicalProjection es =>
      omap (λ ie, match root_pair (node_Schema n) ie with Ok o => o | _ => None end)
        (imap pair es)
  | _ => []
  end.

Fixpoint roots (n : logicalNode) : list (Z * Z) :=
  let '(Node b children) := n in
  concat (proj_roots <$> children) ++ concat (roots <$> children).

(** ** Runs *)

(** Induction on a successful loop, with the elements already visited. *)
Lemma foldlM_Ok_ind {S A B} (I : list B → A → S → Prop) (f : A → B → M S A) l :
  (∀ done x a s a' s', done ++ [x] `prefix_of` l →
    I done a s → f a x s = (s', Ok a') → I (done ++ [x]) a' s') →
  ∀ a s a' s', I [] a s → foldlM f a l s = (s', Ok a') → I l a' s'.
Proof.
  intros Hstep.
  assert (∀ todo done a s a' s', done ++ todo = l → I done a s →
    foldlM f a todo s = (s', Ok a') → I l a' s') as Hall; [|by intros; eapply (Hall l [])].
  induction todo as [|x todo IH]; intros done a s a' s' <- HI Hrun; simpl in Hrun.
  - m_inv. by rewrite app_nil_r.
  - m_inv. eapply (IH (done ++ [x])); [by rewrite <- app_assoc| |done].
    eapply Hstep; [|done..]. exists todo. by rewrite <- app_assoc.
Qed.

Lemma foldlM_res_Ok_ind {A B} (I : A → Prop) (f : A → B → res A) l a a' :
  (∀ a x a', x ∈ l → I a → f a x = Ok a' → I a') → I a → foldlM f a l = Ok a' → I a'.
Proof.
  revert a. induction l as [|x l IH]; intros a Hf Ha Hrun; simpl in Hrun; [m_inv; done|].
  m_inv. eapply (IH x0); [|eapply Hf; [left| |]; done|done]. intros. eapply Hf; [by right|..]; done.
Qed.

Lemma forM_Ok_ind {S B} (I : S → Prop) (f : B → M S ()) l s s' u :
  (∀ x s s' u, x ∈ l → I s → f x s = (s', Ok u) → I s') →
  I s → forM f l s = (s', Ok u) → I s'.
Proof.
  revert s. induction l as [|x l IH]; intros s Hf Hs Hrun; simpl in Hrun; [m_inv; done|].
  m_inv. eapply IH; [|eapply Hf; [left| |]; done|done]. intros. eapply Hf; [by right|..]; done.
Qed.

(** ** Taint and the heap *)
Section hidden.
Context `{GoRange}.
Context (P : CCLLevel → bool) `{!Sticky P} (p : string).
Context (ctx : Context) (origin : gmap string CCL) (R : list (Z * Z)).

Definition holds (s : store) (r : ref) : Prop :=
  ∃ cc, deref (heap s) r = Some cc ∧ P (LevelFor cc p).

Definition roots_ok (s : store) : Prop :=
  ∀ x y, rootArgMap (colTracer s) !! x = Some y → (x, y) ∈ R.

(** What every operation keeps: objects that are hidden, and known roots. *)
Definition step (s s' : store) : Prop :=
  (∀ r, holds s r → holds s' r) ∧ (roots_ok s → roots_ok s').

#[local] Instance step_preorder : PreOrder step.
Proof. split; [by split|]. intros ??? [] []. split; auto. Qed.

Definition good (t : Z → bool) (m : gmap Z ref) (s : store) : Prop :=
  ∀ id, t id → ∃ r, m !! id = Some r ∧ holds s r.

Definition good_env (t : Z → bool) (env : gmap Z CCL) : Prop :=
  ∀ id, t id → ∃ cc, env !! id = Some cc ∧ P (LevelFor cc p).

Lemma good_step t m s s' : good t m s → step s s' → good t m s'.
Proof. intros Hg [Hs _] id Hid. destruct (Hg id Hid) as (r & ? & ?). eauto. Qed.

Lemma good_ext (t t' : Z → bool) m s : good t m s → (∀ id, t' id → t id) → good t' m s.
Proof. intros Hg Hext id Hid. auto. Qed.

Lemma alloc_step cc s s' r :
  alloc cc s = (s', Ok r) → step s s' ∧ (P (LevelFor cc p) → holds s' r).
Proof.
  intros [= <- <-]. split.
  - split; [|done]. intros [a|] (c & Hc & HP); [|done]. exists c. split; [|done].
    simpl in *. by apply lookup_app_l_Some.
  - intros HP. exists cc. split; [|done]. simpl. by rewrite lookup_app_r, Nat.sub_diag.
Qed.

Lemma load_Ok r s s' cc : load r s = (s', Ok cc) ↔ s' = s ∧ deref (heap s) r = Some cc.
Proof. unfold load. destruct (deref (heap s) r); naive_solver. Qed.

Lemma load_holds r s s' cc : load r s = (s', Ok cc) → holds s r → P (LevelFor cc p).
Proof. intros [_ Hr]%load_Ok (cc' & Hr' & HP). by simplify_eq. Qed.

Lemma write_step r cc s s' u :
  write r cc s = (s', Ok u) → (holds s r → P (LevelFor cc p)) → step s s'.
Proof.
  destruct r as [a|]; [|done]. intros [= <- <-] HP. split; [|done].
  intros [a'|] (c & Hc & HPc); [|done]. simpl in Hc. destruct (decide (a = a')) as [->|Hne].
  - exists cc. split; [|apply HP; by exists c]. simpl.
    apply list_lookup_insert_eq. by apply lookup_lt_Some in Hc.
  - exists c. split; [|done]. simpl. by rewrite list_lookup_insert_ne.
Qed.

Lemma trace_step f s s' u :
  trace f s = (s', Ok u) → (∀ t, rootArgMap (f t) = rootArgMap t) → step s s'.
Proof. intros [= <- <-] Hf. split; [done|]. unfold roots_ok. simpl. by rewrite Hf. Qed.

Lemma load_env_Ok m s s' env : load_env m s = (s', Ok env) → s' = s ∧ env = env_of (heap s) m.
Proof. unfold load_env. case_bool_decide; naive_solver. Qed.

Lemma load_env_good t m s s' env : load_env m s = (s', Ok env) → good t m s → good_env t env.
Proof.
  intros [-> ->]%load_env_Ok Hg id Hid. destruct (Hg id Hid) as (r & Hr & cc & Hcc & HP).
  exists cc. split; [|done]. unfold env_of. by rewrite lookup_omap, Hr.
Qed.

(** ** Expressions *)
Lemma foldl_combine_sticky b l ls :
  P l ∨ (∃ x, x ∈ ls ∧ P x) → P (foldl (combine_levels b) l ls).
Proof.
  revert l. induction ls as [|x ls IH]; intros l Hl; simpl; [set_solver|].
  apply IH. destruct Hl as [Hl|(y & [->|Hy]%elem_of_cons & HP)];
    [left; apply sticky_combine..|]; eauto.
Qed.

Lemma expr_level_sticky lv e c : c ∈ expr_cols e → P (lv (UniqueID c)) → P (expr_level lv e).
Proof.
  induction e as [v ret|c'|f args ret IH|c'] using Expr_nested_ind; simpl; intros Hc Hl;
    [set_solver|by apply list_elem_of_singleton in Hc as ->| |set_solver].
  apply (elem_of_fun_cols _ f _ ret) in Hc as (a & Ha & Hc).
  rewrite Forall_forall in IH. specialize (IH a Ha Hc Hl).
  assert (expr_level lv a ∈ expr_level lv <$> args) as Hin by (by apply list_elem_of_fmap_2).
  destruct (expr_level lv <$> args) as [|x xs]; [set_solver|].
  apply foldl_combine_sticky. apply elem_of_cons in Hin as [<-|?]; eauto.
Qed.

Lemma tainted_expr_spec t e :
  tainted_expr t e ↔ ∃ c, c ∈ expr_cols e ∧ t (UniqueID c).
Proof. apply existsb_elem_of. Qed.

Lemma infer_good t env e cc :
  good_env t env → tainted_expr t e → InferExpressionCCL e env = Ok cc → P (LevelFor cc p).
Proof.
  intros Hg (c & Hc & Ht)%tainted_expr_spec Hinf. destruct (Hg _ Ht) as (cc' & Hcc' & HP).
  destruct (decide (p ∈ env_parties env)) as [Hp|Hp].
  - rewrite (infer_level _ _ _ _ Hinf Hp). eapply expr_level_sticky; [done|].
    unfold env_level. by rewrite Hcc'.
  - rewrite (infer_level_outside _ _ _ _ Hinf Hp).
    destruct (decide (LevelFor cc' p = Unknown)) as [Hu|Hu]; [by rewrite Hu in HP|].
    exfalso. by eapply Hp, elem_of_env_parties.
Qed.

Lemma inferCCL_good t m e s s' cc :
  inferCCL e m s = (s', Ok cc) → good t m s → s' = s ∧ (tainted_expr t e → P (LevelFor cc p)).
Proof.
  intros Hrun Hg. unfold inferCCL in Hrun. m_inv.
  pose proof (load_env_good t _ _ _ _ H0 Hg). apply load_env_Ok in H0 as [-> ->].
  eauto using infer_good.
Qed.

(** ** Loops that fill a map *)
Lemma tainted_in_spec defs id :
  tainted_in defs id ↔ id ∈ defs.*1 ∧ ∀ b : bool, (id, b) ∈ defs → b.
Proof.
  unfold tainted_in. rewrite andb_True, bool_decide_spec, forallb_True, Forall_forall.
  apply and_iff_compat_l. split.
  - intros Hall b Hb. specialize (Hall _ Hb). simpl in Hall.
    by rewrite bool_decide_eq_true_2 in Hall.
  - intros Hall [i b] Hb. case_bool_decide; [subst; simpl; by apply Hall|done].
Qed.

Lemma good_insert defs m s s' id (b : bool) r :
  good (tainted_in defs) m s → step s s' → (b → holds s' r) →
  good (tainted_in (defs ++ [(id, b)])) (<[id:=r]> m) s'.
Proof.
  intros Hg Hstep Hb i [Hi Hall]%tainted_in_spec. destruct (decide (id = i)) as [->|Hne].
  - exists r. rewrite lookup_insert_eq. split; [done|]. apply Hb, Hall. set_solver.
  - rewrite lookup_insert_ne by done. apply (good_step _ _ _ _ Hg Hstep).
    apply tainted_in_spec. split; [|set_solver].
    rewrite fmap_app, elem_of_app in Hi. set_solver.
Qed.

Lemma loop_good {B} (f : gmap Z ref → B → M store (gmap Z ref)) (d : B → Z * bool) l s s' m' :
  (∀ x m s1 m1 s1', x ∈ l → step s s1 → f m x s1 = (s1', Ok m1) →
    step s1 s1' ∧ ∃ r, m1 = <[(d x).1:=r]> m ∧ ((d x).2 → holds s1' r)) →
  foldlM f ∅ l s = (s', Ok m') → step s s' ∧ good (tainted_in (d <$> l)) m' s'.
Proof.
  intros Hf. apply (foldlM_Ok_ind (λ done m s1, step s s1 ∧ good (tainted_in (d <$> done)) m s1)).
  - intros done x m s1 m1 s1' Hpre [Hs Hg] Hrun.
    assert (x ∈ l) as Hx by (destruct Hpre as [k ->]; set_solver).
    destruct (Hf _ _ _ _ _ Hx Hs Hrun) as (Hs' & r & -> & Hr).
    split; [by etrans|]. rewrite fmap_app. simpl. destruct (d x) as [id b].
    by apply (good_insert _ _ s1).
  - split; [done|]. intros id [Hid _]%tainted_in_spec. set_solver.
Qed.

(** The same for a loop over positions. *)
Lemma fmap_imap_pair {B C} (d : nat * B → C) (l : list B) :
  d <$> imap pair l = imap (λ i x, d (i, x)) l.
Proof. by rewrite fmap_imap. Qed.

Lemma elem_of_imap_pair {B} (l : list B) i x : (i, x) ∈ imap pair l → l !! i = Some x.
Proof. intros (j & y & [= -> ->] & ?)%elem_of_lookup_imap_1. done. Qed.

(** ** Children *)
Lemma extractChildCCL_lookup children m c id r :
  extractChildCCL children = Ok m → c ∈ children → node_CCL c !! id = Some r →
  m !! id = Some r.
Proof.
  unfold extractChildCCL.
  assert (∀ l m m' id r, foldlM extract_entry m l = Ok m' →
    (m !! id = Some r → m' !! id = Some r) ∧ ((id, r) ∈ l → m' !! id = Some r)) as Hinner.
  { induction l as [|[i lv] l IH]; intros m0 m' i' r' Hrun; simpl in Hrun; [m_inv; set_solver|].
    apply res_bind_Ok in Hrun as (m1 & He & Hrun). unfold extract_entry in He.
    destruct (m0 !! i) eqn:Hi; [done|]. injection He as <-.
    destruct (IH _ _ i' r' Hrun) as [IH1 IH2]. split.
    - intros Hm. apply IH1. rewrite lookup_insert_ne; [done|congruence].
    - intros [[= -> ->]|Hin]%elem_of_cons; [apply IH1, lookup_insert_eq|by apply IH2]. }
  generalize (∅ : gmap Z ref).
  assert (∀ cs m0, foldlM (λ m c, foldlM extract_entry m (go_range (node_CCL c))) m0 cs = Ok m →
    m0 !! id = Some r → m !! id = Some r) as Houter.
  { induction cs as [|c' cs IH]; intros m0 Hrun Hm0; simpl in Hrun; [m_inv; done|].
    m_inv. eapply IH; [done|].
    match goal with Hi : foldlM extract_entry _ _ = _ |- _ => by apply (proj1 (Hinner _ _ _ id r Hi)) end. }
  induction children as [|c' children IH]; intros m0 Hrun Hc Hr; simpl in Hrun; [set_solver|].
  m_inv. apply elem_of_cons in Hc as [->|Hc]; [|by eapply IH].
  eapply Houter; [done|].
  match goal with Hi : foldlM extract_entry _ _ = _ |- _ => apply (proj2 (Hinner _ _ _ id r Hi)) end.
  by apply elem_of_go_range.
Qed.

Definition child_ok (t : Z → bool) (children : list logicalNode) (s : store) : Prop :=
  ∀ m, extractChildCCL children = Ok m → good t m s.

(** ** The rules, one by one *)
Lemma lookup_col_id sch i c : sch !! i = Some c → col_id sch i = UniqueID c.
Proof. unfold col_id. by intros ->. Qed.

Lemma lift_option_Ok {A} (o : option A) (s s' : store) (a : A) :
  lift (res_of_option Panic o) s = (s', Ok a) → s' = s ∧ o = Some a.
Proof. intros [-> Ho]%lift_Ok. by destruct o; simplify_eq/=. Qed.

Lemma AddSourceParties_roots t id ps : rootArgMap (AddSourceParties t id ps) = rootArgMap t.
Proof. done. Qed.

Lemma forM_trace_step {B} (f : B → M store ()) l s s' u :
  (∀ x s s' u, f x s = (s', Ok u) → step s s') → forM f l s = (s', Ok u) → step s s'.
Proof.
  intros Hf Hrun. eapply (forM_Ok_ind (λ s1, step s s1)); [|done|done].
  intros x s1 s2 u' _ Hs Hx. etrans; [done|eauto].
Qed.

Lemma datasource_good b children s s' n' :
  DataSourceNode_buildCCL origin b children s = (s', Ok n') →
  step s s' ∧ good (node_tainted P p ctx origin R (lp b) (schema b) [] ) (node_CCL n') s'.
Proof.
  unfold DataSourceNode_buildCCL. destruct (lp b) as [db tbl k| | | | | | | | | | |]; try done.
  intros Hrun. apply M_bind_Ok in Hrun as (m & s1 & Hloop & Hrun).
  apply M_bind_Ok in Hrun as (u & s2 & Htrace & Hrun). apply M_ret_Ok in Hrun as [-> <-].
  apply (loop_good _ (λ i, (col_id (schema b) i,
    from_option (hidden_source P p origin) false (schema b !! i)))) in Hloop as [Hs Hg].
  - assert (step s1 s') as Hs'.
    { eapply forM_trace_step; [|done]. intros c t1 t2 u' Ht. apply (trace_step _ _ _ _ Ht). auto using AddSourceParties_roots. }
    split; [by etrans|]. by eapply good_step.
  - intros i m0 t1 m1 t1' _ _ Hi.
    apply M_bind_Ok in Hi as (sc & t2 & [-> Hsc]%lift_option_Ok & Hi).
    destruct (origin !! OrigName sc) as [cc|] eqn:Ho; [|done].
    apply M_bind_Ok in Hi as (r & t2 & [Hst Hr]%alloc_step & Hi).
    apply M_ret_Ok in Hi as [-> <-]. split; [done|]. exists r. simpl.
    rewrite (lookup_col_id _ _ _ Hsc), Hsc. split; [done|]. simpl. unfold hidden_source.
    rewrite Ho. by rewrite Clone_id in Hr.
Qed.


Lemma projection_good t es b children s s' n' :
  child_ok t children s → ProjectionNode_buildCCL es b children s = (s', Ok n') →
  step s s' ∧
  good (tainted_in (imap (λ i e, (col_id (schema b) i, tainted_expr t e)) es)) (node_CCL n') s'.
Proof.
  intros Hc Hrun. unfold ProjectionNode_buildCCL in Hrun.
  run_bind Hrun m s0 Hm. apply wrapErr_Ok, lift_Ok in Hm as [<- Hm]. specialize (Hc _ Hm).
  run_bind Hrun res s1 Hloop. run_bind Hrun u s2 Htrace. apply M_ret_Ok in Hrun as [-> <-].
  apply (loop_good _ (λ '(i, e), (col_id (schema b) i, tainted_expr t e))) in Hloop as [Hs Hg].
  - rewrite fmap_imap_pair in Hg.
    assert (step s1 s') as Hs'.
    { eapply forM_trace_step; [|done]. intros [i e] t1 t2 u' Ht.
      run_bind Ht col t3 Hcol. apply lift_option_Ok in Hcol as [-> _].
      apply (trace_step _ _ _ _ Ht). auto using AddSourceParties_roots. }
    split; [by etrans|]. by eapply good_step.
  - intros [i e] m0 t1 m1 t1' _ Hst Hi.
    run_bind Hi cc t2 Hcc. apply wrapErr_Ok in Hcc.
    apply (inferCCL_good t) in Hcc as [-> HP]; [|by eapply good_step].
    run_bind Hi col t3 Hcol. apply lift_option_Ok in Hcol as [-> Hcol].
    run_bind Hi r t4 Hr. apply alloc_step in Hr as [Hst' Hr].
    apply M_ret_Ok in Hi as [-> <-]. split; [done|]. exists r.
    rewrite (lookup_col_id _ _ _ Hcol). auto.
Qed.

Lemma pass_good t prefix b children s s' n' :
  child_ok t children s → passCCL prefix b children s = (s', Ok n') →
  step s s' ∧ good t (node_CCL n') s'.
Proof.
  intros Hc Hrun. unfold passCCL in Hrun.
  run_bind Hrun m s0 Hm. apply wrapErr_Ok, lift_Ok in Hm as [<- Hm].
  apply M_ret_Ok in Hrun as [-> <-]. split; [done|]. by apply Hc.
Qed.

(** A copy restricted by another CCL. *)
Lemma restricted_sticky cc other :
  P (LevelFor cc p) ∨ P (LevelFor other p) →
  P (LevelFor (UpdateMoreRestrictedCCLFrom cc other) p).
Proof. rewrite LevelFor_UpdateMoreRestricted. apply (sticky_combine false). Qed.

Lemma restrict_fold_sticky cc others :
  P (LevelFor cc p) ∨ (∃ o, o ∈ others ∧ P (LevelFor o p)) →
  P (LevelFor (foldl UpdateMoreRestrictedCCLFrom cc others) p).
Proof.
  revert cc. induction others as [|o others IH]; intros cc Hcc; simpl; [set_solver|].
  apply IH. destruct Hcc as [?|(o' & [->|?]%elem_of_cons & ?)];
    [left; apply restricted_sticky; auto..|eauto].
Qed.

(** The condition of a selection is tainted by any of its conjuncts. *)
Lemma condition_good t m conds s s' o :
  good t m s → foldlM (condition_ccl m) None conds s = (s', Ok o) →
  s' = s ∧
  match o with
  | None => conds = []
  | Some cc => conds ≠ [] ∧ (existsb (tainted_expr t) conds → P (LevelFor cc p))
  end.
Proof.
  intros Hg Hrun. revert Hrun.
  apply (foldlM_Ok_ind (λ done o s1, s1 = s ∧ match o with None => done = [] | Some cc =>
    done ≠ [] ∧ (existsb (tainted_expr t) done → P (LevelFor cc p)) end)); [|done].
  intros done e a s1 a' s2 _ [-> Ha] Hrun. unfold condition_ccl in Hrun.
  run_bind Hrun cc t2 Hcc. apply wrapErr_Ok, (inferCCL_good t) in Hcc as [-> HP]; [|done].
  destruct a as [c0|].
  - run_bind Hrun cc' t3 Hcc'. apply wrapErr_Ok, lift_Ok in Hcc' as [<- Hcc'].
    apply M_ret_Ok in Hrun as [-> <-]. split; [done|].
    split; [by destruct done|]. injection Hcc' as <-. rewrite Clone_id.
    intros (x & [Hx| ->%list_elem_of_singleton]%elem_of_app & Htx)%existsb_elem_of;
      apply restricted_sticky; [left|right; by apply HP].
    apply Ha. apply existsb_elem_of. eauto.
  - apply M_ret_Ok in Hrun as [-> <-]. subst done. split; [done|]. split; [done|].
    simpl. rewrite Clone_id, orb_false_r. done.
Qed.

(** A loop that copies the columns of a schema and restricts them by one CCL. *)
Lemma restrict_columns_good t m cc (tcond : bool) sch s s' result
    (f : gmap Z ref → Column → M store (gmap Z ref)) :
  good t m s → (tcond → P (LevelFor cc p)) →
  (∀ res c s1 s2 res', f res c s1 = (s2, Ok res') →
    ∃ r c0 s1' r', m !! UniqueID c = Some r ∧ load r s1 = (s1', Ok c0) ∧
      alloc (UpdateMoreRestrictedCCLFrom (Clone c0) cc) s1' = (s2, Ok r') ∧
      res' = <[UniqueID c:=r']> res) →
  foldlM f ∅ sch s = (s', Ok result) →
  step s s' ∧ good (tainted_in ((λ c, (UniqueID c, t (UniqueID c) || tcond)) <$> sch)) result s'.
Proof.
  intros Hg HP Hf. apply loop_good. intros c res s1 res' s2 _ Hst Hrun.
  destruct (Hf _ _ _ _ _ Hrun) as (r & c0 & s1' & r' & Hr & Hload & Halloc & ->).
  apply alloc_step in Halloc as [Hst' Hr']. pose proof Hload as [-> _]%load_Ok.
  split; [done|]. exists r'. split; [done|]. simpl.
  intros Hor%orb_True. apply Hr'. rewrite Clone_id. apply restricted_sticky.
  destruct Hor as [Ht|Ht]; [left|right; by apply HP].
  destruct (good_step _ _ _ _ Hg Hst _ Ht) as (r0 & Hr0 & Hh). simplify_eq.
  by eapply load_holds.
Qed.

Lemma selection_good t conds affected b children s s' n' :
  child_ok t children s → SelectionNode_buildCCL ctx conds affected b children s = (s', Ok n') →
  let conds' := kept_conditions ctx conds affected in
  step s s' ∧
  good (λ id, if bool_decide (conds' = []) then t id
        else tainted_in ((λ c, (UniqueID c, t (UniqueID c) ||
                                existsb (tainted_expr t) conds')) <$> schema b) id)
    (node_CCL n') s'.
Proof.
  intros Hc Hrun. unfold SelectionNode_buildCCL in Hrun.
  run_bind Hrun m s0 Hm. apply wrapErr_Ok, lift_Ok in Hm as [<- Hm]. specialize (Hc _ Hm).
  run_bind Hrun [conds' aff] s1 Hcs. apply lift_Ok in Hcs as [<- Hcs].
  unfold kept_conditions. rewrite Hcs. cbn zeta.
  run_bind Hrun o s2 Hcond. apply (condition_good t) in Hcond as [-> Ho]; [|done].
  destruct o as [cc|].
  - destruct Ho as [Hne HP]. run_bind Hrun result s3 Hloop.
    apply M_ret_Ok in Hrun as [-> <-]. rewrite bool_decide_eq_false_2 by done.
    apply (restrict_columns_good t m cc (existsb (tainted_expr t) conds')) in Hloop; [done..|].
    intros res c s1 s2 res' Hi. destruct (m !! UniqueID c) as [r|]; [|done].
    run_bind Hi c0 s3 Hload. run_bind Hi r' s4 Halloc. apply M_ret_Ok in Hi as [-> <-].
    by exists r, c0, s3, r'.
  - apply M_ret_Ok in Hrun as [-> <-]. split; [done|]. by rewrite bool_decide_eq_true_2.
Qed.

Lemma split_last_spec {A} (l init : list A) x : split_last l = Some (init, x) → l = init ++ [x].
Proof.
  revert init x. induction l as [|a [|a' l] IH]; intros init x Hsp; [done|by simplify_eq/=|].
  change (split_last (a :: a' :: l)) with ('(i, y) ← split_last (a' :: l); Some (a :: i, y)) in Hsp.
  destruct (split_last (a' :: l)) as [[i y]|]; [|done]. simplify_eq/=.
  f_equal. by apply IH.
Qed.

Lemma apply_init_lookup (m : gmap Z ref) (init : list Column) id r res :
  id ∈ UniqueID <$> init → m !! id = Some r →
  foldl (λ (res : gmap Z ref) c, <[UniqueID c:=default None (m !! UniqueID c)]> res) res init
    !! id = Some r.
Proof.
  intros Hid Hr. revert res.
  assert (∀ l res, res !! id = Some r →
    foldl (λ (res : gmap Z ref) c, <[UniqueID c:=default None (m !! UniqueID c)]> res) res l
      !! id = Some r) as Hkeep.
  { induction l as [|c l IH]; intros res Hres; [done|]. simpl. apply IH.
    destruct (decide (UniqueID c = id)) as [->|]; [|by rewrite lookup_insert_ne].
    by rewrite lookup_insert_eq, Hr. }
  induction init as [|c init IH]; intros res; simpl in *; [set_solver|].
  apply elem_of_cons in Hid as [->|Hid]; [|by apply IH].
  apply Hkeep. by rewrite lookup_insert_eq, Hr.
Qed.

Lemma apply_semi_good t m cc (tcond : bool) sch s s' result :
  good t m s → (tcond → P (LevelFor cc p)) → apply_semi m cc sch s = (s', Ok result) →
  step s s' ∧ good (tainted_in ((λ c, (UniqueID c, t (UniqueID c) || tcond)) <$> sch)) result s'.
Proof.
  intros Hg HP. apply restrict_columns_good with m cc; [done..|].
  intros res c s1 s2 res' Hi. run_bind Hi c0 s3 Hload. run_bind Hi r' s4 Halloc.
  apply M_ret_Ok in Hi as [-> <-]. destruct (m !! UniqueID c) as [r|]; [|done].
  by exists r, c0, s3, r'.
Qed.

Lemma apply_outer_semi_good t m sf cc (tcond : bool) sch s s' result :
  good t m s → (tcond → P (LevelFor cc p)) → apply_outer_semi m sf cc sch s = (s', Ok result) →
  step s s' ∧
  good (λ id, match split_last sch with
              | Some (init, c) => if bool_decide (id = UniqueID c) then tcond
                                  else bool_decide (id ∈ UniqueID <$> init) && t id
              | None => false
              end) result s'.
Proof.
  intros Hg HP Hrun. unfold apply_outer_semi in Hrun.
  run_bind Hrun [init c] s1 Hsp. apply lift_option_Ok in Hsp as [-> Hsp]. rewrite Hsp.
  run_bind Hrun r s2 Halloc. apply alloc_step in Halloc as [Hst Hr].
  run_bind Hrun u s3 Htr. apply M_ret_Ok in Hrun as [-> <-].
  apply trace_step in Htr; [|auto using AddSourceParties_roots].
  split; [by etrans|]. intros id. case_bool_decide as Hid.
  - subst id. intros Ht. exists r. rewrite lookup_insert_eq. split; [done|]. apply Htr. auto.
  - intros [Hin%bool_decide_spec Ht]%andb_True. rewrite lookup_insert_ne by done.
    destruct (Hg id Ht) as (r0 & Hr0 & Hh). exists r0. split; [|by apply Htr, Hst].
    by apply apply_init_lookup.
Qed.

Lemma apply_good t tp eqs others b children s s' n' :
  child_ok t children s → ApplyNode_buildCCL tp eqs others b children s = (s', Ok n') →
  step s s' ∧
  good (λ id, if bool_decide (others = [] ∧ eqs = []) then t id
      else match tp with
           | core.SemiJoin | core.AntiSemiJoin =>
               tainted_in ((λ c, (UniqueID c, t (UniqueID c) ||
                                   apply_tainted t eqs others)) <$> schema b) id
           | _ => match split_last (schema b) with
                  | Some (init, c) =>
                      if bool_decide (id = UniqueID c) then apply_tainted t eqs others
                      else bool_decide (id ∈ UniqueID <$> init) && t id
                  | None => false
                  end
           end) (node_CCL n') s'.
Proof.
  intros Hc Hrun. unfold ApplyNode_buildCCL in Hrun.
  run_bind Hrun m s0 Hm. apply wrapErr_Ok, lift_Ok in Hm as [<- Hm]. specialize (Hc _ Hm).
  case_bool_decide as Hempty; [by apply M_ret_Ok in Hrun as [-> <-]|].
  run_bind Hrun sf s1 Hsf. apply lift_Ok in Hsf as [<- Hsf].
  run_bind Hrun cc s1 Hcc. apply (inferCCL_good t) in Hcc as [-> HP]; [|done].
  unfold apply_tainted. rewrite Hsf. run_bind Hrun result s2 Hres.
  apply M_ret_Ok in Hrun as [-> <-].
  destruct tp; try done; (by eapply apply_semi_good) || (by eapply apply_outer_semi_good).
Qed.

(** Raising a level leaves the hidden ones. *)
Lemma raise_sticky (cond : CCL → string → bool) ps cc :
  (∀ cc, cond cc p → LevelFor cc p ≠ Unknown ∧ LevelFor cc p ≠ Encrypt) →
  P (LevelFor cc p) →
  P (LevelFor (foldl (λ cc q, if cond cc q then SetLevelForParty cc q Plain else cc) cc ps) p).
Proof.
  intros Hcond. revert cc. induction ps as [|q ps IH]; intros cc HP; simpl; [done|].
  apply IH. destruct (cond cc q) eqn:Hq; [|done]. rewrite LevelFor_Set.
  case_decide as Heq; [|done]. subst q. exfalso.
  destruct (Hcond cc) as [??]; [by rewrite Hq|]. by destruct (sticky_low _ HP).
Qed.

Lemma level_eq_cond cc l (b : bool) :
  bool_decide (LevelFor cc p = l) && b → l ≠ Unknown → l ≠ Encrypt →
  LevelFor cc p ≠ Unknown ∧ LevelFor cc p ≠ Encrypt.
Proof. intros [->%bool_decide_spec _]%andb_True. auto. Qed.

Lemma SetAllPlain_sticky cc : P (LevelFor cc p) → P (LevelFor (SetAllPlainWhenLevelGroupBy cc) p).
Proof.
  apply (raise_sticky (λ cc q, bool_decide (LevelFor cc q = GroupBy))).
  intros c ->%bool_decide_spec. done.
Qed.

Lemma raise_aggregate_sticky cc : P (LevelFor cc p) → P (LevelFor (raise_aggregate cc) p).
Proof.
  apply (raise_sticky (λ cc q, bool_decide (LevelFor cc q = Aggregate))).
  intros c ->%bool_decide_spec. done.
Qed.

Lemma raise_rank_sticky cc : P (LevelFor cc p) → P (LevelFor (raise_rank cc) p).
Proof.
  apply (raise_sticky (λ cc q, bool_decide (LevelFor cc q = Rank))).
  intros c ->%bool_decide_spec. done.
Qed.

Lemma raise_payload_sticky pv sources cc :
  P (LevelFor cc p) → P (LevelFor (raise_payload pv sources cc) p).
Proof.
  apply (raise_sticky (λ cc q, bool_decide (LevelFor cc q = AsJoinPayload)
    && existsb (λ sp, payload_lookup pv q sp) sources)).
  intros c Hc. by eapply level_eq_cond.
Qed.

Lemma check_keys_sticky raises touch cc cc' ps :
  foldlM (check_key raises touch) cc ps = Ok cc' → P (LevelFor cc p) → P (LevelFor cc' p).
Proof.
  intros Hrun HP. revert HP Hrun.
  apply (foldlM_res_Ok_ind (λ cc, P (LevelFor cc p))). intros c q c' _ HP. unfold check_key.
  destruct (touch && _ && _); [done|]. intros [= <-].
  destruct (bool_decide (LevelFor c q = Join)) eqn:Hj; simpl; [|done].
  destruct raises; [|done]. rewrite LevelFor_Set. destruct (decide (q = p)) as [->|]; [|done].
  apply bool_decide_eq_true in Hj. rewrite Hj in HP. by destruct (sticky_low _ HP).
Qed.

(** ** Aggregations *)
Lemma group_key_good t cols after keys after' keys' :
  foldlM group_key (after, keys) cols = Ok (after', keys') → good_env t after →
  good_env t after' ∧ keys ⊆ keys' ∧
  ∀ c, c ∈ cols → t (UniqueID c) → ∃ k, k ∈ keys' ∧ P (LevelFor k p).
Proof.
  revert after keys. induction cols as [|c cols IH]; intros after keys Hrun Hg; simpl in Hrun.
  { injection Hrun as <- <-. set_solver. }
  destruct (after !! UniqueID c) as [cc|] eqn:Hcc; [|done]. simpl in Hrun.
  apply IH in Hrun as (Hg' & Hsub & Hkeys).
  - split; [done|]. split; [set_solver|]. intros c' [->|Hc']%elem_of_cons Ht; [|eauto].
    destruct (Hg _ Ht) as (cc' & ? & HP). simplify_eq.
    exists (SetAllPlainWhenLevelGroupBy cc). split; [set_solver|]. by apply SetAllPlain_sticky.
  - intros id Ht. destruct (Hg _ Ht) as (cc' & Hcc' & HP).
    destruct (decide (UniqueID c = id)) as [<-|]; [|rewrite lookup_insert_ne by done; eauto].
    simplify_eq. rewrite lookup_insert_eq. eexists. split; [done|]. by apply SetAllPlain_sticky.
Qed.

Lemma group_keys_good t items env after keys :
  group_keys items env = Ok (after, keys) → good_env t env →
  good_env t after ∧
  (existsb (tainted_expr t) items → ∃ k, k ∈ keys ∧ P (LevelFor k p)).
Proof.
  unfold group_keys.
  assert (∀ keys0, foldlM (λ acc expr, foldlM group_key acc (ExtractColumns expr))
      (env, keys0) items = Ok (after, keys) → good_env t env →
    good_env t after ∧ keys0 ⊆ keys ∧
    (existsb (tainted_expr t) items → ∃ k, k ∈ keys ∧ P (LevelFor k p))) as Hgen.
  { revert env. induction items as [|e items IH]; intros env keys0 Hrun Hg; simpl in Hrun.
    { injection Hrun as <- <-. done. }
    apply res_bind_Ok in Hrun as ([env1 keys1] & He & Hrun). rewrite ExtractColumns_cols in He.
    apply (group_key_good t) in He as (Hg1 & Hsub1 & Hk1); [|done].
    destruct (IH _ _ Hrun Hg1) as (Hg' & Hsub & Hk). split; [done|]. split; [set_solver|].
    simpl. intros [(c & Hc & Ht)%tainted_expr_spec|Ht]%orb_True; [|auto].
    destruct (Hk1 c Hc Ht) as (k & Hin & HP). exists k. split; [by apply Hsub|done]. }
  intros Hrun Hg. apply Hgen in Hrun as (? & ? & ?); done.
Qed.

Lemma agg_output_sticky t distinct env keys items f arg cc out :
  head (Agg_Args f) = Some arg → (tainted_expr t arg → P (LevelFor cc p)) →
  (existsb (tainted_expr t) items → ∃ k, k ∈ keys ∧ P (LevelFor k p)) →
  agg_output distinct env keys (Agg_Name f) cc = Ok out →
  agg_tainted t items distinct f → P (LevelFor out p).
Proof.
  intros Harg Hcc Hkeys Hout. unfold agg_tainted, agg_output in *. rewrite Harg. simpl.
  destruct distinct; [injection Hout as <-; eauto using SetAllPlain_sticky|].
  case_bool_decide; [done|]. intros Ht%orb_True.
  assert (P (LevelFor (restrict_by_keys keys cc) p)) as HP.
  { apply restrict_fold_sticky. destruct Ht; auto. }
  case_bool_decide; [by injection Hout as <-|].
  case_bool_decide; [injection Hout as <-; by apply raise_aggregate_sticky|done].
Qed.

Lemma aggregation_good t aggs items distinct b children s s' n' :
  child_ok t children s →
  AggregationNode_buildCCL aggs items distinct b children s = (s', Ok n') →
  step s s' ∧
  good (tainted_in (imap (λ i f, (col_id (schema b) i, agg_tainted t items distinct f)) aggs))
    (node_CCL n') s'.
Proof.
  intros Hc Hrun. unfold AggregationNode_buildCCL in Hrun.
  run_bind Hrun m s0 Hm. apply wrapErr_Ok, lift_Ok in Hm as [<- Hm]. specialize (Hc _ Hm).
  run_bind Hrun env s1 Henv. pose proof (load_env_good t _ _ _ _ Henv Hc) as Hge.
  apply load_env_Ok in Henv as [-> _].
  run_bind Hrun [after keys] s2 Hgk. apply lift_Ok in Hgk as [<- Hgk].
  apply (group_keys_good t) in Hgk as [Hga Hkeys]; [|done].
  run_bind Hrun result s3 Hloop. apply M_ret_Ok in Hrun as [-> <-].
  rewrite <- (fmap_imap_pair
    (λ '(i, f), (col_id (schema b) i, agg_tainted t items distinct f))).
  revert Hloop. apply loop_good. intros [i f] m0 t1 m1 t1' _ Hst Hi.
  run_bind Hi arg t2 Harg. apply lift_option_Ok in Harg as [-> Harg].
  run_bind Hi cc t3 Hcc. apply wrapErr_Ok, lift_Ok in Hcc as [<- Hcc].
  run_bind Hi out t4 Hout. apply lift_Ok in Hout as [<- Hout]. rewrite Clone_id in Hout.
  run_bind Hi col t5 Hcol. apply lift_option_Ok in Hcol as [-> Hcol].
  run_bind Hi r t6 Hr. apply alloc_step in Hr as [Hst' Hr]. apply M_ret_Ok in Hi as [-> <-].
  split; [done|]. exists r. simpl. rewrite (lookup_col_id _ _ _ Hcol). split; [done|].
  intros Ht. apply Hr. eapply agg_output_sticky; [done| |done..]. eauto using infer_good.
Qed.

(** ** Unions *)
Definition children_ok (children : list logicalNode) (tcs : list (list Column * (Z → bool)))
    (s : store) : Prop :=
  Forall2 (λ c t, node_Schema c = t.1 ∧ good t.2 (node_CCL c) s) children tcs.

Lemma children_ok_step children tcs s s' :
  children_ok children tcs s → step s s' → children_ok children tcs s'.
Proof.
  intros Hc Hs. eapply Forall2_impl; [done|]. intros c t [? ?]. eauto using good_step.
Qed.

Lemma union_column_good children tcs parties i s s' cc :
  children_ok children tcs s → union_column children parties i s = (s', Ok cc) →
  s' = s ∧ (union_tainted tcs i → P (LevelFor cc p)).
Proof.
  intros Hc Hrun. unfold union_column in Hrun. run_bind Hrun cc' s1 Hloop.
  destruct (existsb _ _); [discriminate|]. apply M_ret_Ok in Hrun as [-> ->].
  revert Hloop. generalize (CreateAllPlainCCL parties).
  assert (∀ acc, foldlM (λ newCC child,
      col ← lift (res_of_option Panic (node_Schema child !! i));
      match node_CCL child !! UniqueID col with
      | None => fail "failed to find ccl for column"
      | Some r => cc ← load r; mret (UpdateMoreRestrictedCCLFrom newCC cc)
      end) acc children s = (s', Ok cc) →
    s' = s ∧ (P (LevelFor acc p) ∨ union_tainted tcs i → P (LevelFor cc p))) as Hgen;
    [|intros acc Hloop; destruct (Hgen acc Hloop); auto].
  induction Hc as [|c [sch t] children tcs [Hsch Hg] _ IH]; intros acc Hrun; simpl in Hrun.
  { apply M_ret_Ok in Hrun as [-> ->]. split; [done|]. intros [?|?]; done. }
  run_bind Hrun acc' s2 Hstep. run_bind Hstep col s3 Hcol.
  apply lift_option_Ok in Hcol as [-> Hcol].
  destruct (node_CCL c !! UniqueID col) as [r|] eqn:Hr; [|done].
  run_bind Hstep c0 s3 Hload. apply M_ret_Ok in Hstep as [-> <-].
  pose proof Hload as [-> _]%load_Ok. destruct (IH _ Hrun) as [-> HP].
  split; [done|]. simpl. rewrite orb_True. intros Hor. apply HP.
  destruct Hor as [Hacc|[Ht|Ht]]; [left; apply restricted_sticky; auto| |auto].
  left. apply restricted_sticky. right. simpl in Hsch. subst sch. rewrite Hcol in Ht.
  destruct (Hg _ Ht) as (r' & ? & Hh). simplify_eq. by eapply load_holds.
Qed.

Lemma mapM_load_env_state children s s' envs :
  mapM (λ child, load_env (node_CCL child)) children s = (s', Ok envs) → s' = s.
Proof.
  revert envs. induction children as [|c children IH]; intros envs Hrun; simpl in Hrun.
  { by apply M_ret_Ok in Hrun as [-> _]. }
  run_bind Hrun env s1 Henv. run_bind Hrun envs' s2 Henvs. apply M_ret_Ok in Hrun as [-> _].
  apply load_env_Ok in Henv as [-> _]. eauto.
Qed.

Lemma union_good b children tcs s s' n' :
  children_ok children tcs s → UnionAllNode_buildCCL b children s = (s', Ok n') →
  step s s' ∧
  good (tainted_in (imap (λ i c, (UniqueID c, union_tainted tcs i)) (schema b))) (node_CCL n') s'.
Proof.
  intros Hc Hrun. unfold UnionAllNode_buildCCL in Hrun.
  run_bind Hrun envs s1 Henvs. apply mapM_load_env_state in Henvs as ->.
  run_bind Hrun result s2 Hloop. apply M_ret_Ok in Hrun as [-> <-].
  rewrite <- (fmap_imap_pair (λ '(i, c), (UniqueID c, union_tainted tcs i))).
  revert Hloop. apply loop_good. intros [i c] m0 t1 m1 t1' _ Hst Hi.
  run_bind Hi cc t2 Hcc.
  apply (union_column_good _ tcs) in Hcc as [-> HP]; [|by eapply children_ok_step].
  run_bind Hi r t3 Hr. apply alloc_step in Hr as [Hst' Hr]. apply M_ret_Ok in Hi as [-> <-].
  split; [done|]. exists r. auto.
Qed.

(** ** Windows *)
Lemma order_good t m acc cols s s' cc :
  good t m s → foldlM (order_ccl m) acc cols s = (s', Ok cc) →
  s' = s ∧ (P (LevelFor acc p) ∨ existsb (λ o, t (UniqueID o)) cols → P (LevelFor cc p)).
Proof.
  intros Hg. revert acc. induction cols as [|c cols IH]; intros acc Hrun; simpl in Hrun.
  { apply M_ret_Ok in Hrun as [-> ->]. split; [done|]. intros [?|?]; done. }
  run_bind Hrun acc' s1 Hc. unfold order_ccl in Hc.
  destruct (m !! UniqueID c) as [r|] eqn:Hr; [|done].
  run_bind Hc c0 s2 Hload. apply M_ret_Ok in Hc as [-> <-].
  pose proof Hload as [-> _]%load_Ok. destruct (IH _ Hrun) as [-> HP].
  split; [done|]. simpl. rewrite orb_True. intros Hor. apply HP.
  destruct Hor as [?|[Ht|?]]; [left; apply restricted_sticky; auto| |auto].
  left. apply restricted_sticky. right.
  destruct (Hg _ Ht) as (r' & ? & Hh). simplify_eq. by eapply load_holds.
Qed.

Lemma copies_good t env s s' result :
  good_env t env →
  foldlM (λ (result : gmap Z ref) '(id, cc), r ← alloc (Clone cc); mret (<[id:=r]> result)) ∅
    (go_range env) s = (s', Ok result) →
  step s s' ∧ good t result s'.
Proof.
  intros Hg Hloop.
  apply (loop_good _ (λ '(id, cc), (id, P (LevelFor cc p)))) in Hloop as [Hs Hgood].
  - split; [done|]. apply (good_ext _ _ _ _ Hgood). intros id Ht.
    destruct (Hg _ Ht) as (cc & Hcc & HP). apply tainted_in_spec. split.
    + apply list_elem_of_fmap. exists (id, P (LevelFor cc p)). split; [done|].
      apply list_elem_of_fmap. exists (id, cc). split; [done|]. by apply elem_of_go_range.
    + intros b ([id' cc'] & [= <- ->] & Hin%elem_of_go_range)%list_elem_of_fmap. by simplify_eq.
  - intros [id cc] m0 t1 m1 t1' _ _ Hi. run_bind Hi r t2 Hr.
    apply alloc_step in Hr as [Hst' Hr]. apply M_ret_Ok in Hi as [-> <-].
    split; [done|]. exists r. by rewrite Clone_id in Hr.
Qed.

Lemma window_good t part order b children s s' n' :
  child_ok t children s → buildRankWindowCCL part order b children s = (s', Ok n') →
  step s s' ∧
  good (λ id, match last (schema b) with
              | Some c => if bool_decide (id = UniqueID c)
                          then existsb (λ o, t (UniqueID o)) order else t id
              | None => false
              end) (node_CCL n') s'.
Proof.
  intros Hc Hrun. unfold buildRankWindowCCL in Hrun.
  run_bind Hrun m s0 Hm. apply wrapErr_Ok, lift_Ok in Hm as [<- Hm]. specialize (Hc _ Hm).
  destruct order as [|firstCol order]; [done|]. case_bool_decide; [done|].
  run_bind Hrun env s1 Henv. pose proof (load_env_good t _ _ _ _ Henv Hc) as Hge.
  apply load_env_Ok in Henv as [-> _].
  run_bind Hrun result s2 Hcopy. apply (copies_good t) in Hcopy as [Hs2 Hg2]; [|done].
  run_bind Hrun lastCol s3 Hlast. apply lift_option_Ok in Hlast as [-> Hlast].
  destruct (m !! UniqueID firstCol) as [r|] eqn:Hr; [|done].
  run_bind Hrun init s3 Hload. pose proof Hload as [-> _]%load_Ok.
  run_bind Hrun cc s4 Horder.
  apply (order_good t) in Horder as [-> HP]; [|by eapply good_step].
  run_bind Hrun r' s5 Halloc. apply alloc_step in Halloc as [Hs5 Hr'].
  run_bind Hrun u s6 Htr. apply M_ret_Ok in Hrun as [-> <-].
  apply trace_step in Htr; [|auto using AddSourceParties_roots].
  assert (step s2 s') as Hs' by (by etrans). split; [by etrans|].
  rewrite Hlast. intros id. change (node_CCL _) with (<[UniqueID lastCol:=r']> result).
  cbn [existsb]. case_bool_decide as Hid.
  - subst id. intros Ht%orb_True. exists r'. rewrite lookup_insert_eq. split; [done|].
    apply Htr, Hr', raise_rank_sticky, HP. destruct Ht as [Ht|Ht]; [left|auto].
    destruct (good_step _ _ _ _ Hc Hs2 _ Ht) as (r0 & ? & Hh). simplify_eq.
    rewrite Clone_id. by eapply load_holds.
  - rewrite lookup_insert_ne by done. by apply (good_step _ _ _ _ Hg2 Hs').
Qed.

(** ** Joins *)

(** The keys recorded so far: columns of the conditions, tainted as their columns. *)
Definition keys_ok (t : Z → bool) (eqs : list ScalarFunction) (st : joinState) : Prop :=
  ∀ k cc, joinKeyCCLs st !! k = Some cc → k ∈ key_ids eqs ∧ (t k → P (LevelFor cc p)).

Lemma join_condition_good t tp sch l r m st e s s' st' eqs :
  good t m s → e ∈ eqs → keys_ok t eqs st →
  join_condition ctx tp sch l r m st e s = (s', Ok st') → s' = s ∧ keys_ok t eqs st'.
Proof.
  intros Hg He Hst Hrun. unfold join_condition in Hrun.
  run_bind Hrun [lc rc] s1 Hcols. apply wrapErr_Ok, lift_Ok in Hcols as [<- Hcols].
  assert (∀ c, c ∈ [UniqueID lc; UniqueID rc] → c ∈ key_ids eqs) as Hin.
  { intros c Hc. unfold key_ids. apply list_elem_of_In, in_concat. eexists. split.
    - apply in_map_iff. exists e. split; [done|]. by apply list_elem_of_In.
    - rewrite Hcols. by apply list_elem_of_In. }
  run_bind Hrun lcc s1 Hl. run_bind Hrun rcc s2 Hr.
  assert (∀ id s1 cc, match m !! id with
     | Some r => cc ← load r; mret (Clone cc)
     | None => fail "joinNode.buildCCL: can not find ccl for col"
     end s = (s1, Ok cc) → s1 = s ∧ (t id → P (LevelFor cc p))) as Hfind.
  { intros id s3 cc Hf. destruct (m !! id) as [r0|] eqn:Hr0; [|done].
    run_bind Hf c0 s4 Hload. apply M_ret_Ok in Hf as [-> <-].
    pose proof Hload as [-> _]%load_Ok. split; [done|]. intros Ht.
    destruct (Hg _ Ht) as (r1 & ? & Hh). simplify_eq. rewrite Clone_id. by eapply load_holds. }
  apply Hfind in Hl as [-> HPl]. apply Hfind in Hr as [-> HPr].
  run_bind Hrun tr s1 Htr. injection Htr as <- <-.
  run_bind Hrun lts s1 Hlts. apply lift_Ok in Hlts as [<- _].
  run_bind Hrun rts s1 Hrts. apply lift_Ok in Hrts as [<- _].
  run_bind Hrun rcc' s1 Hrcc. apply lift_Ok in Hrcc as [<- Hrcc].
  run_bind Hrun lcc' s1 Hlcc. apply lift_Ok in Hlcc as [<- Hlcc].
  apply M_ret_Ok in Hrun as [-> <-]. split; [done|]. intros k cc. simpl.
  rewrite lookup_insert. destruct (decide (UniqueID rc = k)) as [<-|].
  { intros [= <-]. split; [apply Hin; set_solver|]. eauto using check_keys_sticky. }
  rewrite lookup_insert. destruct (decide (UniqueID lc = k)) as [<-|]; [|apply Hst].
  intros [= <-]. split; [apply Hin; set_solver|]. eauto using check_keys_sticky.
Qed.

Lemma join_conditions_good t tp sch children m s s' st eqs :
  good t m s →
  foldlM (λ st e, match children with
                  | lc :: rc :: _ => join_condition ctx tp sch lc rc m st e
                  | _ => panic
                  end) (mkJoinState ∅ [] ∅) eqs s = (s', Ok st) →
  s' = s ∧ keys_ok t eqs st.
Proof.
  intros Hg Hrun. revert Hrun.
  apply (foldlM_Ok_ind (λ _ st s1, s1 = s ∧ keys_ok t eqs st)).
  - intros done e st0 s1 st1 s2 Hpre [-> Hk] Hrun.
    assert (e ∈ eqs) as He by (destruct Hpre as [k ->]; set_solver).
    destruct children as [|lc [|rc children]]; [done..|]. by eapply join_condition_good.
  - split; [done|]. intros k cc Hk. simpl in Hk. by apply lookup_empty_Some in Hk.
Qed.

Lemma join_columns_good t eqs st m sch s s' result :
  good t m s → keys_ok t eqs st →
  foldlM (join_column st m) ∅ sch s = (s', Ok result) →
  step s s' ∧ good (tainted_in ((λ c, (UniqueID c, t (UniqueID c))) <$> sch)) result s'.
Proof.
  intros Hg Hk. apply loop_good. intros c m0 s1 m1 s1' _ Hst Hi. unfold join_column in Hi.
  destruct (m !! UniqueID c) as [r|] eqn:Hr; [|done].
  destruct (joinKeyCCLs st !! UniqueID c) as [jcc|] eqn:Hj.
  - run_bind Hi r' s2 Halloc. apply alloc_step in Halloc as [Hst' Hr'].
    apply M_ret_Ok in Hi as [-> <-]. split; [done|]. exists r'. split; [done|]. simpl.
    intros Ht. apply Hr'. rewrite Clone_id. by eapply Hk.
  - run_bind Hi cc s2 Hload. pose proof Hload as [-> Hcc]%load_Ok.
    run_bind Hi tr s3 Htr. injection Htr as <- <-. run_bind Hi u s4 Hw.
    apply M_ret_Ok in Hi as [-> <-]. apply write_step in Hw; [|].
    + split; [done|]. exists r. split; [done|]. simpl. intros Ht. apply Hw.
      destruct (good_step _ _ _ _ Hg Hst _ Ht) as (r0 & ? & Hh). by simplify_eq.
    + intros Hh. apply raise_payload_sticky. by eapply load_holds.
Qed.

(** The result takes over the CCL of a key computed from one of its columns. *)
Lemma join_roots_good t eqs st tr (T : Z → bool) result s s' result' :
  keys_ok t eqs st → (∀ x y, rootArgMap tr !! x = Some y → (x, y) ∈ R) →
  (∀ id, T id → join_tainted R t eqs id) → good T result s →
  foldlM (join_root tr) result (go_range (joinKeyCCLs st)) s = (s', Ok result') →
  step s s' ∧ good T result' s'.
Proof.
  intros Hk Hroots HT Hg Hrun. revert Hrun.
  apply (foldlM_Ok_ind (λ _ result s1, step s s1 ∧ good T result s1)); [|done].
  intros done [k cc] res s1 res' s2 Hpre [Hs1 Hg1] Hrun.
  assert ((k, cc) ∈ go_range (joinKeyCCLs st)) as Hin%elem_of_go_range
    by (destruct Hpre as [l ->]; set_solver).
  destruct (Hk _ _ Hin) as [Hkey HP]. unfold join_root in Hrun.
  destruct (res !! GetRootArg tr k); [|by apply M_ret_Ok in Hrun as [-> <-]].
  run_bind Hrun r s3 Halloc. apply alloc_step in Halloc as [Hst Hr].
  apply M_ret_Ok in Hrun as [-> <-]. split; [by etrans|]. intros id Hid.
  destruct (decide (GetRootArg tr k = id)) as [Hroot|Hne];
    [|rewrite lookup_insert_ne by done; by apply (good_step _ _ _ _ Hg1 Hst)].
  rewrite Hroot, lookup_insert_eq. exists r. split; [done|]. apply Hr, HP.
  apply HT in Hid. unfold join_tainted in Hid. apply andb_True in Hid as [Hid Hall].
  unfold GetRootArg in Hroot. destruct (rootArgMap tr !! k) as [y|] eqn:Hy; [|by subst].
  subst y. apply Hroots in Hy. apply forallb_True in Hall. rewrite Forall_forall in Hall.
  specialize (Hall k Hkey). by rewrite bool_decide_eq_true_2 in Hall.
Qed.

Lemma find_roots_step c s s' u :
  (∀ xy, xy ∈ proj_roots c → xy ∈ R) → findThenRecordRootArg c s = (s', Ok u) → step s s'.
Proof.
  unfold findThenRecordRootArg, proj_roots. intros HR.
  destruct (lp (base c)) as [| | | | |es| | | | | |]; try (by intros [-> _]%M_ret_Ok).
  apply (forM_Ok_ind (λ s1, step s s1)); [|done]. intros ie s1 s2 u' Hin Hst Hrun.
  run_bind Hrun o s3 Ho. apply lift_Ok in Ho as [<- Ho]. etrans; [exact Hst|].
  destruct o as [[x root]|]; [|by apply M_ret_Ok in Hrun as [-> _]].
  injection Hrun as <- _. split; [done|]. intros Hok x' y'. simpl.
  rewrite lookup_insert. case_decide; [|apply Hok]. subst x'. intros [= <-].
  apply HR, list_elem_of_omap. exists ie. by rewrite Ho.
Qed.

Lemma join_source_parties_roots pairs tr :
  rootArgMap (join_source_parties pairs tr) = rootArgMap tr.
Proof.
  unfold join_source_parties. generalize (foldl (add_source_of_pair tr) ∅ pairs) as m. intros m.
  revert tr. induction (go_range m) as [|[id ps] l IH]; intros tr; [done|]. simpl. by rewrite IH.
Qed.

Lemma join_good t tp eqs b children s s' n' :
  child_ok t children s → roots_ok s →
  (∀ c xy, c ∈ children → xy ∈ proj_roots c → xy ∈ R) →
  JoinNode_buildCCL ctx tp eqs b children s = (s', Ok n') →
  step s s' ∧
  good (tainted_in ((λ c, (UniqueID c, join_tainted R t eqs (UniqueID c))) <$> schema b))
    (node_CCL n') s'.
Proof.
  intros Hc Hroots HR Hrun. unfold JoinNode_buildCCL in Hrun.
  run_bind Hrun m s0 Hm. apply wrapErr_Ok, lift_Ok in Hm as [<- Hm]. specialize (Hc _ Hm).
  run_bind Hrun tr s1 Htr. injection Htr as <- <-.
  run_bind Hrun u s1 Hfind.
  assert (step s s1) as Hs1.
  { revert Hfind. apply (forM_Ok_ind (λ s1, step s s1)); [|done].
    intros c t1 t2 u' Hin Hst Hf%wrapErr_Ok. etrans; [done|]. eapply find_roots_step; eauto. }
  run_bind Hrun st s2 Hst. apply (join_conditions_good t) in Hst as [-> Hk];
    [|by eapply good_step].
  run_bind Hrun u' s2 Htr. apply trace_step in Htr; [|apply join_source_parties_roots].
  assert (step s s2) as Hs2 by (by etrans).
  run_bind Hrun result s3 Hcols. apply (join_columns_good t eqs) in Hcols as [Hs3 Hg3];
    [|by eapply good_step|done].
  run_bind Hrun tr s4 Hget. injection Hget as <- <-.
  run_bind Hrun result' s4 Hroot. apply M_ret_Ok in Hrun as [-> <-].
  apply (join_roots_good t eqs _ _
    (tainted_in ((λ c, (UniqueID c, join_tainted R t eqs (UniqueID c))) <$> schema b))) in Hroot
    as [Hs4 Hg4]; [|done| | |].
  - split; [|done]. etrans; [done|]. by etrans.
  - apply Hs3, Hs2, Hroots.
  - intros id [Hid Hall]%tainted_in_spec. apply Hall.
    apply list_elem_of_fmap in Hid as ([id' bb] & Hid & Hin). simpl in Hid. subst id'.
    apply list_elem_of_fmap in Hin as (c & [= -> ->] & Hin).
    apply list_elem_of_fmap. by exists c.
  - apply (good_ext _ _ _ _ Hg3). intros id [Hid Hall]%tainted_in_spec.
    apply tainted_in_spec. split; [by rewrite <- list_fmap_compose in *|].
    intros bb (c & [= -> ->] & Hin)%list_elem_of_fmap.
    assert (join_tainted R t eqs (UniqueID c)) as Hjt.
    { apply Hall, list_elem_of_fmap. by exists c. }
    unfold join_tainted in Hjt. by apply andb_True in Hjt as [? _].
Qed.

(** ** The whole plan *)

(** A rule changes neither the schema nor the plan, the conditions of a selection
    apart. *)
Definition same_shape (b b' : baseNode) : Prop :=
  schema b' = schema b ∧ rt b' = rt b ∧
  (lp b' = lp b ∨ ∃ cs a cs' a', lp b = LogicalSelection cs a ∧ lp b' = LogicalSelection cs' a').

Ltac run_shape H :=
  repeat first
    [ apply M_bind_Ok in H as (? & ? & _ & H)
    | apply M_ret_Ok in H as [_ <-]; split; [split_and!; [done|done|left; done]|by eauto]
    | discriminate H
    | case_match ].

Lemma buildCCL_same_shape b children s s' n' :
  buildCCL ctx origin (Node b children) s = (s', Ok n') →
  same_shape b (base n') ∧
  match lp b with
  | DataSource _ _ _ => DataSourceParty n' = dataSourceParties b
  | _ => ∃ s1 cs,
      build_children (buildCCL ctx origin) children [] s = (s1, Ok (cs, DataSourceParty n'))
  end.
Proof.
  cbn [buildCCL]. unfold node_buildCCL. intros Hrun.
  destruct (lp b) as [db tb k|cs a|tp eqs|tp eqs os|aggs it d|es| | | |descs ? ?| |] eqn:Hlp.
  - unfold DataSourceNode_buildCCL in Hrun. rewrite Hlp in Hrun. by run_shape Hrun.
  - run_bind Hrun [cs0 ps] s1 Hch. unfold SelectionNode_buildCCL in Hrun.
    run_bind Hrun m s2 _. run_bind Hrun [cs' a'] s3 _. run_bind Hrun o s4 _.
    destruct o; [run_bind Hrun res s5 _|]; apply M_ret_Ok in Hrun as [_ <-];
      (split; [split_and!; [done|done|right; by exists cs, a, cs', a']|by eauto]).
  - run_bind Hrun [cs0 ps] s1 Hch. unfold JoinNode_buildCCL in Hrun. by run_shape Hrun.
  - run_bind Hrun [cs0 ps] s1 Hch. unfold ApplyNode_buildCCL in Hrun. by run_shape Hrun.
  - run_bind Hrun [cs0 ps] s1 Hch. unfold AggregationNode_buildCCL in Hrun. by run_shape Hrun.
  - run_bind Hrun [cs0 ps] s1 Hch. unfold ProjectionNode_buildCCL in Hrun. by run_shape Hrun.
  - run_bind Hrun [cs0 ps] s1 Hch. unfold UnionAllNode_buildCCL in Hrun. by run_shape Hrun.
  - run_bind Hrun [cs0 ps] s1 Hch. unfold LimitNode_buildCCL, SortNode_buildCCL, MaxOneRowNode_buildCCL, passCCL in Hrun.
    by run_shape Hrun.
  - run_bind Hrun [cs0 ps] s1 Hch. unfold LimitNode_buildCCL, SortNode_buildCCL, MaxOneRowNode_buildCCL, passCCL in Hrun.
    by run_shape Hrun.
  - unfold WindowNode_buildCCL in Hrun. destruct descs as [|d [|? ?]]; [done| |done]. destruct (IsRankWindowFunc d); [|done].
    run_bind Hrun [cs0 ps] s1 Hch. unfold buildRankWindowCCL in Hrun. by run_shape Hrun.
  - run_bind Hrun [cs0 ps] s1 Hch. unfold LimitNode_buildCCL, SortNode_buildCCL, MaxOneRowNode_buildCCL, passCCL in Hrun.
    by run_shape Hrun.
  - done.
Qed.

Lemma buildCCL_shape n s s' n' :
  buildCCL ctx origin n s = (s', Ok n') →
  node_Schema n' = node_Schema n ∧ proj_roots n' = proj_roots n.
Proof.
  destruct n as [b children]. intros [(Hsch & _ & Hlp) _]%buildCCL_same_shape.
  split; [done|]. unfold proj_roots, node_Schema. rewrite Hsch. cbn [base].
  destruct Hlp as [->|(cs & a & cs' & a' & -> & ->)]; done.
Qed.

Lemma children_ok_child_ok children tcs s :
  children_ok children tcs s → child_ok (λ id, existsb (λ '(_, t), t id) tcs) children s.
Proof.
  intros Hc m Hm id ([sch t] & Hin & Ht)%existsb_elem_of.
  apply list_elem_of_lookup in Hin as [i Hi].
  destruct (Forall2_lookup_r _ _ _ _ _ Hc Hi) as (c & Hci & _ & Hg).
  destruct (Hg id Ht) as (r & Hr & Hh). exists r. split; [|done].
  eapply extractChildCCL_lookup; [done| |done]. by eapply list_elem_of_lookup_2.
Qed.

Definition node_good (n : logicalNode) : Prop :=
  ∀ s s' n', (∀ xy, xy ∈ roots n → xy ∈ R) → roots_ok s →
    buildCCL ctx origin n s = (s', Ok n') →
    step s s' ∧ good (tainted P p ctx origin R n) (node_CCL n') s'.

Lemma build_children_good children parties s s' cs ps :
  Forall node_good children →
  (∀ xy, xy ∈ concat (roots <$> children) → xy ∈ R) →
  (∀ xy, xy ∈ concat (proj_roots <$> children) → xy ∈ R) → roots_ok s →
  build_children (buildCCL ctx origin) children parties s = (s', Ok (cs, ps)) →
  step s s' ∧
  children_ok cs ((λ c, (node_Schema c, tainted P p ctx origin R c)) <$> children) s' ∧
  (∀ c xy, c ∈ cs → xy ∈ proj_roots c → xy ∈ R).
Proof.
  intros Hall. revert parties s cs ps.
  induction Hall as [|c children Hc _ IH]; intros parties s cs ps HR HPR Hroots Hrun;
    simpl in Hrun.
  { apply M_ret_Ok in Hrun as [-> [= <- <-]]. split; [done|].
    split; [constructor|intros ??; set_solver]. }
  cbn [fmap list_fmap concat] in HR, HPR. setoid_rewrite elem_of_app in HR.
  setoid_rewrite elem_of_app in HPR.
  run_bind Hrun c' s1 Hc'. run_bind Hrun [cs' ps'] s2 Hcs'.
  apply M_ret_Ok in Hrun as [-> [= <- <-]].
  pose proof (buildCCL_shape _ _ _ _ Hc') as [Hsch Hpr].
  apply Hc in Hc' as [Hs1 Hg1]; [|auto..].
  apply IH in Hcs' as (Hs2 & Hch & Hpr'); [|auto..|by apply Hs1].
  split; [by etrans|]. split.
  - constructor; [|done]. split; [done|]. by eapply good_step.
  - intros c0 xy [->|Hc0]%elem_of_cons Hxy; [|by eapply Hpr'].
    apply HPR. left. by rewrite <- Hpr.
Qed.

Lemma buildCCL_good n : node_good n.
Proof.
  induction n as [b children IH] using logicalNode_nested_ind. intros s s' n' HR Hroots Hrun.
  cbn [buildCCL] in Hrun. cbn [tainted].
  cbn [roots] in HR. setoid_rewrite elem_of_app in HR.
  set (tcs := (λ c, (node_Schema c, tainted P p ctx origin R c)) <$> children).
  assert (∀ (rule : baseNode → list logicalNode → M store logicalNode) (T : Z → bool),
    ('(cs, ps) ← build_children (buildCCL ctx origin) children [];
     rule (set_dataSourceParties b ps) cs) s = (s', Ok n') →
    (∀ cs ps s1, children_ok cs tcs s1 → roots_ok s1 →
      (∀ c xy, c ∈ cs → xy ∈ proj_roots c → xy ∈ R) →
      rule (set_dataSourceParties b ps) cs s1 = (s', Ok n') →
      step s1 s' ∧ good T (node_CCL n') s') →
    step s s' ∧ good T (node_CCL n') s') as Hwith.
  { intros rule T Hr Hrule. run_bind Hr [cs ps] s1 Hcs.
    apply build_children_good in Hcs as (Hs1 & Hch & Hpr); [|by auto..].
    destruct (Hrule cs ps s1) as [Hs2 Hg]; [done|by apply Hs1|done..|]. split; [by etrans|done]. }
  unfold node_buildCCL in Hrun. unfold node_tainted.
  destruct (lp b) as [db tb k|conds a|tp eqs|tp eqs os|aggs it d|es| | | |descs part ord| |] eqn:Hlp.
  - apply datasource_good in Hrun. rewrite Hlp in Hrun. done.
  - apply (Hwith _ _ Hrun). intros cs ps s1 Hch%children_ok_child_ok _ _ Hr.
    exact (selection_good _ _ _ _ _ _ _ _ Hch Hr).
  - apply (Hwith _ _ Hrun). intros cs ps s1 Hch%children_ok_child_ok Hok Hpr Hr.
    exact (join_good _ _ _ _ _ _ _ _ Hch Hok Hpr Hr).
  - apply (Hwith _ _ Hrun). intros cs ps s1 Hch%children_ok_child_ok _ _ Hr.
    exact (apply_good _ _ _ _ _ _ _ _ _ Hch Hr).
  - apply (Hwith _ _ Hrun). intros cs ps s1 Hch%children_ok_child_ok _ _ Hr.
    exact (aggregation_good _ _ _ _ _ _ _ _ _ Hch Hr).
  - apply (Hwith _ _ Hrun). intros cs ps s1 Hch%children_ok_child_ok _ _ Hr.
    exact (projection_good _ _ _ _ _ _ _ Hch Hr).
  - apply (Hwith _ _ Hrun). intros cs ps s1 Hch _ _ Hr.
    exact (union_good _ _ _ _ _ _ Hch Hr).
  - apply (Hwith _ _ Hrun). intros cs ps s1 Hch%children_ok_child_ok _ _ Hr.
    exact (pass_good _ _ _ _ _ _ _ Hch Hr).
  - apply (Hwith _ _ Hrun). intros cs ps s1 Hch%children_ok_child_ok _ _ Hr.
    exact (pass_good _ _ _ _ _ _ _ Hch Hr).
  - unfold WindowNode_buildCCL in Hrun. destruct descs as [|f [|? ?]]; [done| |done]. destruct (IsRankWindowFunc f); [|done].
    apply (Hwith _ _ Hrun). intros cs ps s1 Hch%children_ok_child_ok _ _ Hr.
    exact (window_good _ _ _ _ _ _ _ _ Hch Hr).
  - apply (Hwith _ _ Hrun). intros cs ps s1 Hch%children_ok_child_ok _ _ Hr.
    exact (pass_good _ _ _ _ _ _ _ Hch Hr).
  - done.
Qed.
End hidden.

(** ** The parties of the data sources *)
Fixpoint leaf_parties (n : logicalNode) : list string :=
  let '(Node b children) := n in
  match lp b with
  | DataSource _ _ _ => dataSourceParties b
  | _ => concat (leaf_parties <$> children)
  end.

Section sources.
Context `{GoRange} (ctx : Context) (origin : gmap string CCL).

Lemma build_children_parties children parties s s' cs ps :
  Forall (λ n, ∀ s s' n', buildCCL ctx origin n s = (s', Ok n') →
    ∀ q, q ∈ DataSourceParty n' ↔ q ∈ leaf_parties n) children →
  build_children (buildCCL ctx origin) children parties s = (s', Ok (cs, ps)) →
  NoDup ps ∧ ∀ q, q ∈ ps ↔ q ∈ parties ∨ q ∈ concat (leaf_parties <$> children).
Proof.
  intros Hall. revert parties s cs ps.
  induction Hall as [|c children Hc _ IH]; intros parties s cs ps Hrun; simpl in Hrun.
  { apply M_ret_Ok in Hrun as [-> [= <- <-]]. split; [apply SliceDeDup_NoDup|].
    intros q. rewrite elem_of_SliceDeDup. set_solver. }
  run_bind Hrun c' s1 Hc'. run_bind Hrun [cs' ps'] s2 Hcs'.
  apply M_ret_Ok in Hrun as [-> [= <- <-]].
  destruct (IH _ _ _ _ Hcs') as [Hnd Hps]. split; [done|]. intros q.
  rewrite Hps, elem_of_app. cbn [fmap list_fmap concat]. rewrite elem_of_app, (Hc _ _ _ Hc' q).
  tauto.
Qed.

Lemma DataSourceParty_leaves n s s' n' :
  buildCCL ctx origin n s = (s', Ok n') → ∀ q, q ∈ DataSourceParty n' ↔ q ∈ leaf_parties n.
Proof.
  revert s s' n'. induction n as [b children IH] using logicalNode_nested_ind.
  intros s s' n' [_ Hps]%buildCCL_same_shape q. cbn [leaf_parties].
  destruct (lp b); [by rewrite Hps|..]; destruct Hps as (s1 & cs & Hch);
    apply build_children_parties in Hch as [_ Hch]; rewrite ?Hch; set_solver.
Qed.
End sources.

(** ** Join keys and payloads *)
Lemma build_ResultTable bd pl n : build bd pl = Ok n → ResultTable n = [].
Proof.
  destruct pl as [op sch plans]. cbn [build]. intros Hrun.
  apply res_bind_Ok in Hrun as (children & _ & Hrun).
  apply res_bind_Ok in Hrun as (parties & _ & Hrun).
  apply res_bind_Ok in Hrun as ([k|] & _ & Hrun); [case_bool_decide|]; by simplify_eq/=.
Qed.

Lemma buildCCL_ResultTable `{GoRange} ctx origin n s s' n' :
  buildCCL ctx origin n s = (s', Ok n') → ResultTable n' = ResultTable n.
Proof. destruct n as [b children]. by intros [(_ & Hrt & _) _]%buildCCL_same_shape. Qed.

Lemma Take_nil {A} pred : Take (T := A) [] pred = Ok [].
Proof. by destruct pred. Qed.

(** Without a result to receive nothing is checked. *)
Lemma check_keys_untouched raises cc ps : ∃ cc', foldlM (check_key raises false) cc ps = Ok cc'.
Proof.
  revert cc. induction ps as [|q ps IH]; intros cc; simpl; [by eexists|]. apply IH.
Qed.

Section joins.
Context `{GoRange} (ctx : Context).

Lemma join_condition_unchecked sch l r m st e lc rc rl rr cl cr s :
  PsiType ctx ≠ PsiAlgorithmType_OPRF → ResultTable l = [] → ResultTable r = [] →
  extractEQColumns e = Ok (lc, rc) →
  m !! UniqueID lc = Some rl → deref (heap s) rl = Some cl →
  m !! UniqueID rc = Some rr → deref (heap s) rr = Some cr →
  ∃ st', join_condition ctx core.InnerJoin sch l r m st e s = (s, Ok st').
Proof.
  intros Hpsi Hl Hr He Hml Hrl Hmr Hrr. unfold join_condition.
  assert (∀ outer, outer ≠ core.InnerJoin → touch_result ctx core.InnerJoin outer [] = false) as Ht.
  { intros outer Hne. unfold touch_result. simpl.
    rewrite !bool_decide_eq_false_2; [done|congruence|done]. }
  rewrite (M_bind_run _ _ s s (lc, rc)) by (unfold wrapErr, lift; by rewrite He).
  rewrite Hml, Hmr.
  rewrite (M_bind_run _ _ s s (Clone cl)) by (rewrite (M_bind_run _ _ s s cl);
    [done|by apply load_Ok]).
  rewrite (M_bind_run _ _ s s (Clone cr)) by (rewrite (M_bind_run _ _ s s cr);
    [done|by apply load_Ok]).
  rewrite (M_bind_run _ _ s s (colTracer s)) by done.
  rewrite Hl, Hr, !Take_nil. rewrite (M_bind_run _ _ s s []) by done.
  rewrite (M_bind_run _ _ s s []) by done. rewrite !Ht by done.
  destruct (check_keys_untouched (bool_decide (core.InnerJoin = core.InnerJoin ∨
    core.InnerJoin = core.LeftOuterJoin)) (Clone cr) (FindSourceParties (colTracer s) (UniqueID lc)))
    as [cr' Hcr'].
  destruct (check_keys_untouched (bool_decide (core.InnerJoin = core.InnerJoin ∨
    core.InnerJoin = core.RightOuterJoin)) (Clone cl) (FindSourceParties (colTracer s) (UniqueID rc)))
    as [cl' Hcl'].
  rewrite (M_bind_run _ _ s s cr') by (by rewrite <- Hcr').
  rewrite (M_bind_run _ _ s s cl') by (by rewrite <- Hcl').
  by eexists.
Qed.

(** The keys of a join are columns of its conditions. *)
Lemma join_condition_keys tp sch l r m st e s s' st' eqs :
  e ∈ eqs → (∀ k, is_Some (joinKeyCCLs st !! k) → k ∈ key_ids eqs) →
  join_condition ctx tp sch l r m st e s = (s', Ok st') →
  ∀ k, is_Some (joinKeyCCLs st' !! k) → k ∈ key_ids eqs.
Proof.
  intros He Hst Hrun. unfold join_condition in Hrun.
  run_bind Hrun [lc rc] s1 Hcols. apply wrapErr_Ok, lift_Ok in Hcols as [_ Hcols].
  do 7 run_bind Hrun ? ? _. apply M_ret_Ok in Hrun as [_ <-]. intros k. simpl.
  rewrite !lookup_insert_is_Some'. intros Hk.
  assert (k = UniqueID lc ∨ k = UniqueID rc ∨ is_Some (joinKeyCCLs st !! k)) as Hk' by naive_solver.
  destruct Hk' as [Hk'|[Hk'|Hk']]; [| |by apply Hst]; unfold key_ids;
    apply list_elem_of_In, in_concat; (eexists; split;
      [apply in_map_iff; exists e; split; [done|by apply list_elem_of_In]|]);
    rewrite Hcols, Hk'; simpl; auto.
Qed.

Lemma extractChildCCL_inv children m id r :
  extractChildCCL children = Ok m → m !! id = Some r →
  ∃ c, c ∈ children ∧ node_CCL c !! id = Some r.
Proof.
  unfold extractChildCCL. intros Hrun Hm. revert Hm. revert Hrun.
  assert (∀ l m0 m', foldlM extract_entry m0 l = Ok m' → m' !! id = Some r →
    m0 !! id = Some r ∨ (id, r) ∈ l) as Hin.
  { induction l as [|[i lv] l IH]; intros m0 m' Hrun Hm; simpl in Hrun; [m_inv; auto|].
    destruct (m0 !! i) eqn:Hi; [done|]. apply IH in Hrun as [Hm'|?]; [|set_solver|done].
    apply lookup_insert_Some in Hm' as [[-> ->]|[? ?]]; [right; left|auto]. }
  assert (∀ m0, foldlM (λ m c, foldlM extract_entry m (go_range (node_CCL c))) m0 children = Ok m →
    m !! id = Some r → m0 !! id = Some r ∨ ∃ c, c ∈ children ∧ node_CCL c !! id = Some r) as Hout.
  { induction children as [|c children IH]; intros m0 Hrun Hm; simpl in Hrun; [m_inv; auto|].
    apply res_bind_Ok in Hrun as (m1 & H1 & Hrun).
    apply IH in Hrun as [Hm1|(c' & ? & ?)]; [| |done]; [|right; exists c'; set_solver].
    eapply Hin in H1 as [?|Hc%elem_of_go_range]; [auto| |done].
    right. exists c. set_solver. }
  intros Hrun Hm. destruct (Hout _ Hrun Hm) as [He|]; [by apply lookup_empty_Some in He|done].
Qed.

Lemma join_columns_shared st m sch s s' result id :
  foldlM (join_column st m) ∅ sch s = (s', Ok result) →
  id ∈ UniqueID <$> sch → joinKeyCCLs st !! id = None →
  is_Some (m !! id) ∧ result !! id = m !! id.
Proof.
  intros Hrun Hid Hk.
  enough (id ∈ UniqueID <$> sch → is_Some (m !! id) ∧ result !! id = m !! id) by auto.
  revert Hrun. apply (foldlM_Ok_ind (λ done result _,
    id ∈ UniqueID <$> done → is_Some (m !! id) ∧ result !! id = m !! id)); [|set_solver].
  intros done c res s1 res' s2 _ Hres Hc. rewrite fmap_app, elem_of_app.
  unfold join_column in Hc. destruct (m !! UniqueID c) as [r|] eqn:Hr; [|done].
  destruct (decide (UniqueID c = id)) as [<-|Hne].
  - rewrite Hk in Hc. do 3 run_bind Hc ? ? _. apply M_ret_Ok in Hc as [_ <-].
    rewrite lookup_insert_eq, Hr. by eauto.
  - intros [Hin|Hin]; [|set_solver]. destruct (Hres Hin) as [Hsome Heq]. split; [done|].
    rewrite <- Heq. destruct (joinKeyCCLs st !! UniqueID c);
      [run_bind Hc ? ? _|do 3 run_bind Hc ? ? _]; apply M_ret_Ok in Hc as [_ <-];
      by rewrite lookup_insert_ne.
Qed.

Lemma join_root_tracer tr keys result s s' result' :
  foldlM (join_root tr) result keys s = (s', Ok result') → colTracer s' = colTracer s.
Proof.
  apply (foldlM_Ok_ind (λ _ _ s1, colTracer s1 = colTracer s)); [|done].
  intros done [k cc] r1 s1 r2 s2 _ Hs Hrun. unfold join_root in Hrun.
  destruct (r1 !! _); [|by apply M_ret_Ok in Hrun as [<- _]].
  run_bind Hrun r s3 Halloc. injection Halloc as <- <-. by apply M_ret_Ok in Hrun as [<- _].
Qed.

Lemma join_roots_other tr st result s s' result' id :
  (∀ k, is_Some (joinKeyCCLs st !! k) → GetRootArg tr k ≠ id) →
  foldlM (join_root tr) result (go_range (joinKeyCCLs st)) s = (s', Ok result') →
  result' !! id = result !! id.
Proof.
  intros Hk. apply (foldlM_Ok_ind (λ _ res _, res !! id = result !! id)); [|done].
  intros done [k cc] res s1 res' s2 Hpre Hres Hrun.
  assert ((k, cc) ∈ go_range (joinKeyCCLs st)) as Hin%elem_of_go_range
    by (destruct Hpre as [l ->]; set_solver).
  unfold join_root in Hrun.
  destruct (res !! GetRootArg tr k); [|by apply M_ret_Ok in Hrun as [_ <-]].
  run_bind Hrun r s3 _. apply M_ret_Ok in Hrun as [_ <-].
  rewrite lookup_insert_ne; [done|]. apply Hk. eauto.
Qed.

Lemma join_shares_payload tp eqs b children s s' n' id :
  JoinNode_buildCCL ctx tp eqs b children s = (s', Ok n') →
  id ∈ UniqueID <$> schema b → id ∉ key_ids eqs →
  (∀ k, k ∈ key_ids eqs → GetRootArg (colTracer s') k ≠ id) →
  ∃ c r, c ∈ Children n' ∧ node_CCL c !! id = Some r ∧ node_CCL n' !! id = Some r.
Proof.
  intros Hrun Hid Hkey Hroot. unfold JoinNode_buildCCL in Hrun.
  run_bind Hrun m s0 Hm. apply wrapErr_Ok, lift_Ok in Hm as [_ Hm].
  run_bind Hrun tr s1 _. run_bind Hrun u s2 _. run_bind Hrun st s3 Hst.
  assert (∀ k, is_Some (joinKeyCCLs st !! k) → k ∈ key_ids eqs) as Hkeys.
  { revert Hst. apply (foldlM_Ok_ind (λ _ st _, ∀ k, is_Some (joinKeyCCLs st !! k) → k ∈ key_ids eqs)).
    - intros done e st0 t1 st1 t2 Hpre Hst0 Hc.
      destruct children as [|lc [|rc ?]]; [done..|].
      eapply join_condition_keys; [|done|done]. destruct Hpre as [todo ->]. set_solver.
    - intros k. simpl. rewrite lookup_empty. by intros [? [=]]. }
  run_bind Hrun u' s4 _. run_bind Hrun res s5 Hcols. run_bind Hrun tr' s6 Hget.
  injection Hget as <- <-. run_bind Hrun res' s7 Hres. apply M_ret_Ok in Hrun as [-> <-].
  assert (joinKeyCCLs st !! id = None) as Hnone.
  { apply eq_None_not_Some. intros Hs%Hkeys. done. }
  apply (join_columns_shared _ _ _ _ _ _ id) in Hcols as [[r Hr] Heq]; [|done..].
  pose proof (join_root_tracer _ _ _ _ _ _ Hres) as Htr.
  apply (join_roots_other _ _ _ _ _ _ id) in Hres;
    [|intros k Hk; rewrite <- Htr; by apply Hroot, Hkeys].
  destruct (extractChildCCL_inv _ _ _ _ Hm Hr) as (c & Hc & Hcr).
  exists c, r. split; [done|]. split; [done|].
  change (node_CCL _) with res'. by rewrite Hres, Heq.
Qed.
End joins.

(** ** Properties *)
Definition start : store := mkStore [] NewColumnTracer.

Lemma start_roots_ok R s : rootArgMap (colTracer s) = ∅ → roots_ok R s.
Proof. intros Hs x y. by rewrite Hs, lookup_empty. Qed.

Lemma check_result_Ok ln parties s s' u :
  check_result ln parties s = (s', Ok u) →
  s' = s ∧ ∀ q col, q ∈ parties → col ∈ node_Schema ln →
    ∃ cc, deref (heap s) (default None (node_CCL ln !! UniqueID col)) = Some cc ∧
      IsVisibleFor cc q.
Proof.
  unfold check_result.
  assert (∀ q cols s s' u,
    forM (λ col, cc ← load (default None (node_CCL ln !! UniqueID col));
                 if IsVisibleFor cc q then mret tt
                 else fail "ccl check failed: column in the result is not visible to party")
      cols s = (s', Ok u) →
    s' = s ∧ ∀ col, col ∈ cols → ∃ cc,
      deref (heap s) (default None (node_CCL ln !! UniqueID col)) = Some cc ∧ IsVisibleFor cc q)
    as Hcols.
  { intros q. induction cols as [|c cols IH]; intros t t' v Hrun; simpl in Hrun.
    { apply M_ret_Ok in Hrun as [-> _]. split; [done|]. set_solver. }
    run_bind Hrun [] t1 Hc. run_bind Hc cc t2 Hload. apply load_Ok in Hload as [-> Hcc].
    destruct (IsVisibleFor cc q) eqn:Hvis; [|discriminate].
    apply M_ret_Ok in Hc as [-> _]. apply IH in Hrun as [-> Hrest]. split; [done|].
    intros col [->|Hcol]%elem_of_cons; [|auto]. exists cc. by rewrite Hvis. }
  revert s. induction parties as [|q parties IH]; intros s Hrun; simpl in Hrun.
  { apply M_ret_Ok in Hrun as [-> _]. split; [done|]. set_solver. }
  run_bind Hrun [] s1 Hq. apply Hcols in Hq as [-> Hq]. apply IH in Hrun as [-> Hrest].
  split; [done|]. intros q' col [->|Hq']%elem_of_cons Hcol; eauto.
Qed.

Section properties.
Context `{GoRange}.



(** the parties of a node are the owners of the tables below it; a node belongs
    to a single party, which runs it as a query of its own, exactly when that party
    owns all of its tables. *)
Theorem data_source_parties_exact ctx origin n s s' n' :
  buildCCL ctx origin n s = (s', Ok n') →
  (∀ q, q ∈ DataSourceParty n' ↔ q ∈ leaf_parties n) ∧
  ((∀ db t k, lp (base n) ≠ DataSource db t k) →
    NoDup (DataSourceParty n') ∧
    ∀ q, DataSourceParty n' = [q] ↔ leaf_parties n ≠ [] ∧ Forall (eq q) (leaf_parties n)).
Proof.
  intros Hrun. pose proof (DataSourceParty_leaves _ _ _ _ _ _ Hrun) as Hq. split; [done|].
  intros Hds. assert (NoDup (DataSourceParty n')) as Hnd.
  { destruct n as [b children]. apply buildCCL_same_shape in Hrun as [_ Hps].
    cbn [base] in Hds. destruct (lp b); [by edestruct Hds|..];
      destruct Hps as (s1 & cs & Hch); eapply build_children_parties in Hch as [? _]; try done;
      apply Forall_forall; eauto using DataSourceParty_leaves. }
  split; [done|]. intros q. split.
  - intros Heq. split; [|apply Forall_forall; intros x Hx%Hq; rewrite Heq in Hx; set_solver].
    intros Hnil. specialize (Hq q). rewrite Heq, Hnil in Hq. set_solver.
  - intros [Hne Hall]. rewrite Forall_forall in Hall.
    destruct (DataSourceParty n') as [|q1 [|q2 l]].
    + destruct (leaf_parties n) as [|x l]; [done|]. specialize (Hq x). set_solver.
    + f_equal. symmetry. apply Hall, Hq. left.
    + assert (q = q1) as <- by (apply Hall, Hq; left).
      assert (q = q2) as <- by (apply Hall, Hq; right; left).
      apply NoDup_cons in Hnd as [Hnd _]. set_solver.
Qed.

(** C29: the check of join keys is never made for inner joins: it asks whether a side
    receives columns by looking at the result tables of the children, which are only
    filled after the CCLs have been built.  With any PSI algorithm but OPRF, every
    condition on known columns is accepted, whatever the CCLs of its keys. *)
Theorem inner_join_keys_unchecked bd ctx origin pl pr l r l' r' s0 s1 s2 s sch m st e
    lc rc rl rr cl cr :
  build bd pl = Ok l → buildCCL ctx origin l s0 = (s1, Ok l') →
  build bd pr = Ok r → buildCCL ctx origin r s1 = (s2, Ok r') →
  PsiType ctx ≠ PsiAlgorithmType_OPRF → extractEQColumns e = Ok (lc, rc) →
  m !! UniqueID lc = Some rl → deref (heap s) rl = Some cl →
  m !! UniqueID rc = Some rr → deref (heap s) rr = Some cr →
  ∃ st', join_condition ctx core.InnerJoin sch l' r' m st e s = (s, Ok st').
Proof.
  intros Hl Hl' Hr Hr' Hpsi He ????. eapply join_condition_unchecked; [done| | |done..].
  - rewrite (buildCCL_ResultTable _ _ _ _ _ _ Hl'). by eapply build_ResultTable.
  - rewrite (buildCCL_ResultTable _ _ _ _ _ _ Hr'). by eapply build_ResultTable.
Qed.

End properties.

(** ** Counts and the order of maps *)
Lemma Parties_pair `{GoRange} u e :
  u ≠ e → Parties (mkCCL {[u := Unknown; e := Encrypt]}) ≡ₚ [u; e].
Proof.
  intros Hne. apply NoDup_Permutation; [apply NoDup_Parties|repeat constructor; set_solver|].
  intros q. rewrite elem_of_Parties. simpl.
  rewrite lookup_insert_is_Some', lookup_singleton_is_Some. set_solver.
Qed.

Lemma count_key_pair `{GoRange} u e (out : CCL) :
  u ≠ e → LevelFor out e = Plain →
  let key := mkCCL {[u := Unknown; e := Encrypt]} in
  (Parties key = [u; e] → LevelFor (count_key key (Parties key) out) e = Plain) ∧
  (Parties key = [e; u] → LevelFor (count_key key (Parties key) out) e = Encrypt).
Proof.
  intros Hne Hout key.
  assert (LevelFor key u = Unknown) as Hu.
  { unfold LevelFor. simpl. by rewrite lookup_insert_eq. }
  assert (LevelFor key e = Encrypt) as He.
  { unfold LevelFor. simpl. by rewrite lookup_insert_ne, lookup_singleton_eq. }
  split; intros ->; simpl; rewrite ?Hu, ?He; simpl; rewrite ?Hu, ?He; simpl;
    rewrite !LevelFor_Set; repeat case_decide; congruence.
Qed.

Lemma plain_parties `{GoRange} out e :
  is_Some (partyLevels out !! e) →
  LevelFor (foldl (λ out q, SetLevelForParty out q Plain) out (Parties out)) e = Plain.
Proof.
  intros He. rewrite (LevelFor_foldl_Set (λ _ _, Plain)) by apply NoDup_Parties.
  rewrite decide_True; [done|]. by apply elem_of_Parties.
Qed.

(** C39: the loop over the parties of a group key stops at the first party whose level
    is unknown, in the order of a Go map: for a key that is unknown to one party and
    encrypted for another, a grouped count is encrypted for the latter or visible to
    it, depending on the order in which the map is visited. *)
Theorem count_depends_on_map_order u e out :
  u ≠ e → is_Some (partyLevels out !! e) →
  ∃ o1 o2 : GoRange,
    LevelFor (@count_with_keys o1 [mkCCL {[u := Unknown; e := Encrypt]}] out) e = Plain ∧
    LevelFor (@count_with_keys o2 [mkCCL {[u := Unknown; e := Encrypt]}] out) e = Encrypt.
Proof.
  intros Hne He. set (key := mkCCL {[u := Unknown; e := Encrypt]}).
  assert (∀ o : GoRange,
    (Parties key = [u; e] → LevelFor (count_with_keys [key] out) e = Plain) ∧
    (Parties key = [e; u] → LevelFor (count_with_keys [key] out) e = Encrypt)) as Hcount.
  { intros o. apply count_key_pair; [done|]. by apply plain_parties. }
  assert (@Parties go_range_rev key = reverse (@Parties go_range_list key)) as Hrev.
  { unfold Parties. simpl. apply fmap_reverse. }
  pose proof (@Parties_pair go_range_list u e Hne) as Hp. fold key in Hp.
  symmetry in Hp. apply Permutation_length_2_inv in Hp as [Hp|Hp]; rewrite Hp in Hrev;
    [exists go_range_list, go_range_rev|exists go_range_rev, go_range_list];
    split; by apply Hcount.
Qed.

(** ** Examples *)
Module Demo.
#[local] Existing Instance go_range_list.

Definition col (id : Z) (name : string) : Column := mkColumn (mkFieldType 8 0) id name false.
Definition a_id := col 1 "db.ta.id".
Definition b_id := col 2 "db.tb.id".
Definition b_pay := col 3 "db.tb.pay".
Definition b_key := col 4 "db.tb.key".

Definition party (name : string) : Participant := mkParticipant name [] "" "".
Definition info : EnginesInfo :=
  NewEnginesInfo (mkPartyInfo [party "alice"; party "bob"])
    {[ "alice" := [NewDbTable "db" "ta"]; "bob" := [NewDbTable "db" "tb"] ]}.

(** Bob lets Alice see his payload in a join, and hides his keys from her. *)
Definition controls : list ColumnControl :=
  [mkColumnControl "db" "ta" "id" "alice" Plain; mkColumnControl "db" "ta" "id" "bob" Join;
   mkColumnControl "db" "tb" "id" "alice" Encrypt; mkColumnControl "db" "tb" "id" "bob" Plain;
   mkColumnControl "db" "tb" "pay" "alice" AsJoinPayload;
   mkColumnControl "db" "tb" "pay" "bob" Plain;
   mkColumnControl "db" "tb" "key" "alice" Unknown;
   mkColumnControl "db" "tb" "key" "bob" Encrypt].
Definition origin : gmap string CCL :=
  convertOriginalCCL (filterCCL (GetParties (partyInfo info)) "alice" controls).
Definition builder : logicalNodeBuilder := mkLogicalNodeBuilder info origin 4 0.
Definition ctx : Context := mkContext 4 0.

Definition scan_a : LogicalPlan := Plan (DataSource "db" "ta" 1) [a_id] [].
Definition scan_b : LogicalPlan := Plan (DataSource "db" "tb" 3) [b_id; b_pay; b_key] [].
Definition keys_eq : ScalarFunction := 
  mkScalarFunction ast.EQ [EColumn a_id; EColumn b_id] (mkFieldType mysql.TypeLonglong 0).
Definition join : LogicalPlan :=
  Plan (LogicalJoin core.InnerJoin [keys_eq] [] [] []) [a_id; b_pay; b_id] [scan_a; scan_b].

(** [SELECT ta.id, tb.pay FROM ta JOIN tb ON ta.id = tb.id] *)
Definition query : LogicalPlan :=
  Plan (LogicalProjection [EColumn a_id; EColumn b_pay]) [a_id; b_pay] [join].
(** [SELECT tb.pay + tb.id FROM ...] *)
Definition sum_id := col 5 "".
Definition leak : LogicalPlan :=
  Plan (LogicalProjection [EScalarFunction ast.Plus [EColumn b_pay; EColumn b_id]
    (mkFieldType mysql.TypeLonglong 0)]) [sum_id] [join].
(** [SELECT count(tb.pay) FROM tb GROUP BY tb.key] *)
Definition count_id := col 6 "".
Definition count : LogicalPlan :=
  Plan (LogicalAggregation [mkAggFuncDesc ast.AggFuncCount [EColumn b_pay] CompleteMode false false] [EColumn b_key] false)
    [count_id] [scan_b].

Definition node (p : LogicalPlan) : logicalNode :=
  match build builder p with Ok n => n | _ => newNode (LogicalOther "") [] [] [] [] end.
Definition run (p : LogicalPlan) : store * res logicalNode := buildCCL ctx origin (node p) start.
Definition built (p : LogicalPlan) : logicalNode :=
  match (run p).2 with Ok n => n | _ => node p end.

(** The level of a column of a node for a party, after a run. *)
Definition level_of (s : store) (n : logicalNode) (c : Column) (q : string) : CCLLevel :=
  from_option (λ cc, LevelFor cc q) Unknown
    (deref (heap s) (default None (node_CCL n !! UniqueID c))).
End Demo.

(** ** Witnesses *)
Import Demo.
#[local] Existing Instance go_range_list.

Lemma run_value {S A} (r : S * res A) (d : A) :
  is_ok r.2 → r = (r.1, Ok (match r.2 with Ok a => a | _ => d end)).
Proof. by destruct r as [s [a| |]]. Qed.


Definition checked : store * res logicalNode :=
  Translate_check info controls "alice" [] 4 0 query start.
Definition checked_node : logicalNode := match checked.2 with Ok n => n | _ => node query end.


Lemma data_source_parties_exact_witness :
  DataSourceParty (built query) = ["alice"; "bob"] ∧
  (∀ q, q ∈ DataSourceParty (built query) ↔ q ∈ leaf_parties (node query)).
Proof.
  split; [by vm_compute|]. intros q.
  destruct (data_source_parties_exact ctx origin (node query) start (run query).1 (built query))
    as [Hq _]; [|apply Hq].
  refine (run_value (run query) (node query) _). by vm_compute.
Defined.

(** Alice joins on a key of Bob that her CCL only lets her use encrypted. *)
Definition scanned (p : LogicalPlan) (s : store) : store * logicalNode :=
  match buildCCL ctx origin (node p) s with (s, Ok n) => (s, n) | (s, _) => (s, node p) end.
Definition after_a : store * logicalNode := scanned scan_a start.
Definition after_b : store * logicalNode := scanned scan_b after_a.1.
Definition join_env : gmap Z ref := {[1%Z := Some 0; 2%Z := Some 1]}.

Lemma inner_join_keys_unchecked_witness :
  from_option (λ cc, LevelFor cc "alice") Unknown (heap after_b.1 !! 1) = Encrypt ∧
  ∃ st', join_condition ctx core.InnerJoin [a_id; b_pay; b_id] after_a.2 after_b.2 join_env
    (mkJoinState ∅ [] ∅) keys_eq after_b.1 = (after_b.1, Ok st').
Proof.
  split; [by vm_compute|].
  apply (inner_join_keys_unchecked builder ctx origin scan_a scan_b (node scan_a) (node scan_b)
    after_a.2 after_b.2 start after_a.1 after_b.1 after_b.1 _ _ _ keys_eq a_id b_id (Some 0)
    (Some 1) (default NewCCL (heap after_b.1 !! 0)) (default NewCCL (heap after_b.1 !! 1))).
  all: by vm_compute.
Defined.

(** Bob's payload is visible to Alice in his own table after the join. *)
Definition join_children : list logicalNode := [after_a.2; after_b.2].
Definition joined : store * res logicalNode :=
  JoinNode_buildCCL ctx core.InnerJoin [keys_eq] (base (node join)) join_children after_b.1.
Definition join_node : logicalNode := match joined.2 with Ok n => n | _ => node join end.


Lemma count_depends_on_map_order_witness :
  ∃ o1 o2 : GoRange,
    LevelFor (@count_with_keys o1 [mkCCL {["alice" := Unknown; "bob" := Encrypt]}]
      (mkCCL {["bob" := Plain]})) "bob" = Plain ∧
    LevelFor (@count_with_keys o2 [mkCCL {["alice" := Unknown; "bob" := Encrypt]}]
      (mkCCL {["bob" := Plain]})) "bob" = Encrypt.
Proof.
  apply (count_depends_on_map_order "alice" "bob" (mkCCL {["bob" := Plain]})).
  - done.
  - by eexists.
Defined.
