(* ===== verification/Translator.v ===== *)
(** * Nodes and expressions (pkg/interpreter/translator/translator.go)

    The helpers of the translator that add execution nodes: they pick an algorithm,
    bring the inputs into the statuses it asks for and add the node, all on the plan
    the status converter points to.  [buildScalarFunction] translates an expression.

    A tensor is its position in the plan.  Maps from column IDs to tensors are finite
    maps.  The CCLs of the columns of logical nodes are those the heap holds after
    [buildCCL]: the translator changes CCLs in place only on tensors it has made by
    [AddTensorAs] or [NewTensor], whose CCL is a copy of their own. *)
From Stdlib Require Import SpecFloat.
From S2P Require Import Prelude GoInt Sliceutil Expression Operator Ccl Graph GraphBuilder.
From S2P Require Import BuilderSpec Algorithm StatusConverter LogicalNode Stringutil.
#[local] Open Scope nat_scope.

(** ** Tables of the translator *)
Definition astName2NodeName_map : gmap string string :=
  list_to_map [
    (ast.If, OpNameIf); (ast.Greatest, OpNameGreatest); (ast.Least, OpNameLeast);
    (ast.LT, OpNameLess); (ast.LE, OpNameLessEqual); (ast.GT, OpNameGreater);
    (ast.GE, OpNameGreaterEqual); (ast.EQ, OpNameEqual); (ast.NE, OpNameNotEqual);
    (ast.LogicOr, OpNameLogicalOr); (ast.LogicAnd, OpNameLogicalAnd);
    (ast.Plus, OpNameAdd); (ast.UnaryMinus, OpNameMinus); (ast.Minus, OpNameMinus);
    (ast.Mul, OpNameMul); (ast.Div, OpNameDiv); (ast.IntDiv, OpNameIntDiv);
    (ast.Mod, OpNameMod); (ast.Case, OpNameCaseWhen); (ast.DateDiff, OpNameMinus);
    (ast.AddDate, OpNameAdd); (ast.SubDate, OpNameMinus); (ast.Sin, OpNameSin);
    (ast.Cos, OpNameCos); (ast.Acos, OpNameACos); (ast.Asin, OpNameASin);
    (ast.Tan, OpNameTan); (ast.Cot, OpNameCot); (ast.Atan, OpNameATan);
    (ast.Atan2, OpNameATan2); (ast.Abs, OpNameAbs); (ast.Ceil, OpNameCeil);
    (ast.Floor, OpNameFloor); (ast.Round, OpNameRound); (ast.Degrees, OpNameDegrees);
    (ast.Radians, OpNameRadians); (ast.Ln, OpNameLn); (ast.Log2, OpNameLog2);
    (ast.Log10, OpNameLog10); (ast.Sqrt, OpNameSqrt); (ast.Exp, OpNameExp);
    (ast.Pow, OpNamePow)].

(** A missing key reads as the empty string. *)
Definition astName2NodeName (f : string) : string := default "" (astName2NodeName_map !! f).

Definition floatOutputBinaryOp : list string := [OpNameDiv; OpNameATan2].
Definition skipTypeCheckAst : list string := [ast.Pow].

Definition unaryOutputType (f : string) : option PrimitiveDataType :=
  if bool_decide (f ∈ [ast.Ceil; ast.Floor; ast.Round]) then Some INT64
  else if bool_decide (f ∈ [ast.Degrees; ast.Radians; ast.Ln; ast.Log2; ast.Log10;
                            ast.Sqrt; ast.Exp]) then Some FLOAT64
  else None.

Definition binaryOpBoolOutputMap : list string :=
  [OpNameLess; OpNameLessEqual; OpNameGreater; OpNameGreaterEqual; OpNameEqual;
   OpNameNotEqual; OpNameLogicalAnd; OpNameLogicalOr; OpNameIn].
Definition arithOpMap : list string :=
  [OpNameAdd; OpNameMinus; OpNameMul; OpNameDiv; OpNameIntDiv; OpNameMod; OpNameATan2;
   OpNamePow].
Definition constTensorNeedCastOp : list string :=
  [OpNameLess; OpNameLessEqual; OpNameGreater; OpNameGreaterEqual; OpNameEqual; OpNameAdd;
   OpNameMinus].

Definition ObliviousGroupAggOp : gmap string string :=
  {[ ast.AggFuncSum := OpNameObliviousGroupSum;
     ast.AggFuncMax := OpNameObliviousGroupMax;
     ast.AggFuncMin := OpNameObliviousGroupMin;
     ast.AggFuncAvg := OpNameObliviousGroupAvg;
     ast.AggFuncCount := OpNameObliviousGroupCount;
     ast.WindowFuncPercentRank := OpNameObliviousPercentRank;
     ast.AggPercentileDisc := OpNameObliviousPercentileDisc;
     ast.WindowFuncRank := OpNameObliviousRank ]}.

Definition GroupAggOp : gmap string string :=
  {[ ast.AggFuncSum := OpNameGroupSum;
     ast.AggFuncMax := OpNameGroupMax;
     ast.AggFuncMin := OpNameGroupMin;
     ast.AggFuncAvg := OpNameGroupAvg;
     ast.AggFuncCount := OpNameGroupCount;
     ast.AggFuncFirstRow := OpNameGroupFirstOf;
     ast.AggPercentileDisc := OpNameGroupPercentileDisc ]}.

Definition LocalIn : Z := 2.

(** ** Arrow options (arrow_func_options.go) *)
Inductive TimeUnit := Second | Millisecond | Microsecond | Nanosecond.

Inductive FunctionOptions :=
| SliceOptions (Start Stop Step : Z)
| TrimOptions (Characters : string)
| StrptimeOptions (Format : string) (Unit : TimeUnit) (ErrorIsNull : bool).

Definition TypeName (o : FunctionOptions) : string :=
  match o with
  | SliceOptions _ _ _ => "SliceOptions"
  | TrimOptions _ => "TrimOptions"
  | StrptimeOptions _ _ _ => "StrptimeOptions"
  end.

(** ** The translator

    The fields that translation does not change; [ccls] is the heap of CCLs.
    [ep_Batched] is the value [CompileOpts.Batched] had when the translator and its
    builder were made, and [opt_Batched] the value it has during the translation.
    [proto.PsiAlgorithmType] is the number of the enumeration. *)
Class config := mkConfig {
  t_enginesInfo : EnginesInfo;
  issuerPartyCode : string;
  ep_Batched : bool;
  opt_Batched : bool;
  RevealGroupMark : bool;
  RevealGroupCount : bool;
  PsiAlgorithmType : Z;
  ccls : list CCL;
}.

(** Code the translator calls and that is not modelled: the printer of SQL
    (planner/core), Arrow's serialization, the evaluation of an interval to seconds
    ([None] for a null), [time.Parse] as Unix seconds, [strconv.ParseFloat] of the text
    of an expression, and the time stamps of the moment and of the day the query was
    created. *)
Class externals := mkExternals {
  RewriteSQLFromLP : logicalNode → gmap DbTable DbTable → bool → res (string * list string);
  SerializeOptions : FunctionOptions → res (list Z);
  intervalSeconds : list Expr → res (option Z);
  time_Parse : string → string → res Z;
  ParseFloat : Expr → res spec_float;
  createdAt : Z;
  createdOn : Z;
}.

Notation MC := (M statusConverter).

(** Reading and writing through a tensor pointer, and calls of the builder. *)
Definition tensor (t : nat) : MC Tensor := on_plan (tensor_at t).
Definition upd (t : nat) (f : Tensor → Tensor) : MC () := on_plan (upd_tensor t f).

(** [m[key][0]] *)
Definition placement_at (m : gmap string (list placement)) (key : string) : MC placement :=
  index0 (default [] (m !! key)).

Definition OPRF : Z := 2.

(** ** Data types *)
Definition convertDataType (typ : FieldType) : res PrimitiveDataType :=
  let tp := Tp typ in
  if bool_decide (tp = mysql.TypeLonglong) then
    if mysql.HasIsBooleanFlag (Flag typ) then Ok BOOL else Ok INT64
  else if bool_decide (tp ∈ [mysql.TypeLong; mysql.TypeDuration]) then Ok INT64
  else if bool_decide (tp ∈ [mysql.TypeString; mysql.TypeVarchar; mysql.TypeVarString])
  then Ok STRING
  else if bool_decide (tp = mysql.TypeTiny) then Ok BOOL
  else if bool_decide (tp = mysql.TypeFloat) then Ok FLOAT32
  else if bool_decide (tp ∈ [mysql.TypeDouble; mysql.TypeNewDecimal]) then Ok FLOAT64
  else if bool_decide (tp ∈ [mysql.TypeDatetime; mysql.TypeDate; mysql.TypeYear])
  then Ok DATETIME
  else if bool_decide (tp = mysql.TypeTimestamp) then Ok TIMESTAMP
  else Err "convertDataType doesn't support type".

Definition inferBinaryOpOutputType (opType : string) (left right : Tensor)
    : res PrimitiveDataType :=
  if bool_decide (opType ∈ binaryOpBoolOutputMap) then Ok BOOL
  else if bool_decide (DType left = DATETIME) || bool_decide (DType left = TIMESTAMP) then
    if bool_decide (opType = OpNameIntDiv) then Ok INT64
    else if bool_decide (DType left = DType right) then Ok INT64
    else Ok (DType left)
  else if bool_decide (opType ∈ arithOpMap) then
    if bool_decide (opType ∈ floatOutputBinaryOp) then Ok FLOAT64
    else if bool_decide (opType = OpNameIntDiv) || bool_decide (opType = OpNameMod)
    then Ok INT64
    else if IsFloatOrDoubleType (DType left) || IsFloatOrDoubleType (DType right)
    then Ok FLOAT64
    else if bool_decide (DType left = DType right) then Ok (DType left)
    else Ok INT64
  else Err "cannot infer output type for opType=".

Fixpoint checkInputTypeNotString (inputs : list Tensor) : res () :=
  match inputs with
  | [] => Ok tt
  | input :: inputs =>
      if bool_decide (DType input = STRING) then Err "input type is not supported"
      else checkInputTypeNotString inputs
  end.

Definition assertTensorsBelongTo (tensors : list Tensor) (partyCode : string) : res () :=
  if forallb (λ it, bool_decide (tensor_status it = TENSORSTATUS_PRIVATE)
                    && bool_decide (OwnerPartyCode it = partyCode)) tensors
  then Ok tt else Err "all tensors must belong to the same party code".

(** Stable merge (build_helper.go). *)
Definition mergeTensors (ts1 ts2 : list nat) : list nat :=
  ts1 ++ Filter ts2 (λ t, negb (bool_decide (t ∈ ts1))).

(** ** Pairing columns with tensors *)

(** [for i, id := range ids { m[id] = ts[i] }] *)
Fixpoint assign (ids : list Z) (ts : list nat) (m : gmap Z nat) : res (gmap Z nat) :=
  match ids, ts with
  | [], _ => Ok m
  | id :: ids, t :: ts => assign ids ts (<[id:=t]> m)
  | _ :: _, [] => Panic
  end.

(** [for i, t := range ts { m[ids[i]] = t }] *)
Definition assign_all (ids : list Z) (ts : list nat) (m : gmap Z nat) : res (gmap Z nat) :=
  if bool_decide (length ts ≤ length ids) then assign (take (length ts) ids) ts m else Panic.

Definition column_ids (cols : list Column) : list Z := UniqueID <$> cols.

Definition getNodeResultTensor (ln : logicalNode) : res (gmap Z nat) :=
  assign_all (column_ids (node_Schema ln)) (ResultTable ln) ∅.

Definition getTensorFromColumn (c : Column) (tensors : gmap Z nat) : res nat :=
  match tensors !! UniqueID c with
  | Some t => Ok t
  | None => Err "getTensorFromColumn: unable to find columnID"
  end.

Section translator.
Context `{GoRange} {cfg : config} {ext : externals}.
Local Notation parties := (GetParties (partyInfo t_enginesInfo)).

(** ** Result tables

    The CCL [buildCCL] gave a column.  A column it left out has the nil CCL, which
    panics when it is read; here already when it is stored in a tensor. *)
Definition column_ccl (m : gmap Z ref) (id : Z) : MC CCL :=
  lift (res_of_option Panic (deref ccls (default None (m !! id)))).

Fixpoint set_result_loop (m : gmap Z ref) (cols : list Column) (rt : list nat) {struct rt} : MC () :=
  match rt with
  | [] => mret tt
  | t :: rt =>
      match cols with
      | [] => panic
      | col :: cols =>
          expectTp ← wrapErr "fail to set result table: " (lift (convertDataType (RetType col)));
          x ← tensor t;
          if negb (SkipDTypeCheck x) && negb (bool_decide (DType x = expectTp)) then
            fail "fail to set result table: tensor type doesn't match scheme type"
          else
            cc ← column_ccl m (UniqueID col);
            _ ← upd t (set_CC cc);
            set_result_loop m cols rt
      end
  end.

(** The result is the table the node gets. *)
Definition SetResultTableWithDTypeCheck (n : baseNode) (rt : list nat) : MC (list nat) :=
  _ ← set_result_loop (ccl n) (schema n) rt;
  mret rt.

(** The map may hold nil pointers. *)
Definition extractResultTable (n : baseNode) (resultIdToTensor : gmap Z (option nat))
    : MC (list nat) :=
  mapM (λ c,
    match resultIdToTensor !! UniqueID c with
    | None => fail "extractResultTable: unable to find columnID"
    | Some None => panic
    | Some (Some t) =>
        cc ← column_ccl (ccl n) (UniqueID c);
        _ ← upd t (set_CC cc);
        mret t
    end) (schema n).

Definition setResultTable (n : baseNode) (resultIdToTensor : gmap Z (option nat))
    : MC (list nat) :=
  rt ← wrapErr "setResultTable: " (extractResultTable n resultIdToTensor);
  SetResultTableWithDTypeCheck n rt.

(** ** Queries on the tables of one party *)
Definition runSQLString (ln : logicalNode) : res (string * list string) :=
  let info := t_enginesInfo in
  let needRewrite :=
    existsb (λ party, bool_decide (0 < length (GetTablesByParty info party))) parties in
  RewriteSQLFromLP ln (if needRewrite then tableToRefs info else ∅) needRewrite.

Definition addRunSQLNode (ln : logicalNode) (sql : string) (tableRefs : list string)
    (partyCode : string) : MC (list nat) :=
  tensors ← mapM (λ column,
      tp ← lift (convertDataType (RetType column));
      t ← on_plan (AddColumn (Column_String column) TENSORSTATUS_PRIVATE REFERENCE tp);
      _ ← upd t (set_OwnerPartyCode partyCode);
      cc ← column_ccl (node_CCL ln) (UniqueID column);
      _ ← upd t (set_CC cc);
      mret t) (node_Schema ln);
  _ ← wrapErr "addRunSQLNode: "
        (on_plan (AddRunSQLNode "runsql" tensors sql tableRefs partyCode));
  SetResultTableWithDTypeCheck (base ln) tensors.

Definition buildRunSQL (ln : logicalNode) (partyCode : string) : MC (list nat) :=
  _ ← forM (λ col,
        cc ← column_ccl (node_CCL ln) (UniqueID col);
        if negb (IsVisibleFor cc partyCode)
        then fail "ccl check failed: column in the result is not visible to party"
        else mret tt) (node_Schema ln);
  '(sql, newTableRefs) ← wrapErr "addRunSQLNode: failed to rewrite sql: "
                           (lift (runSQLString ln));
  addRunSQLNode ln sql newTableRefs partyCode.

(** ** Buckets and join indexes *)
Definition addBucketNode (joinKeys payloads : list nat) (partyCodes : list string)
    : MC (list nat * list nat) :=
  key0 ← index0 joinKeys;
  k ← tensor key0;
  let partyCode := OwnerPartyCode k in
  all ← mapM tensor (payloads ++ joinKeys);
  _ ← wrapErr "addBucketNode: " (lift (assertTensorsBelongTo all partyCode));
  '(bucketTsMap, bucketPayloads) ←
    foldlM (λ '(m, outs) it, ot ← on_plan (AddTensorAs it); mret (<[it:=ot]> m, outs ++ [ot]))
      ((∅ : gmap nat nat), []) payloads;
  bucketTsMap ←
    foldlM (λ (m : gmap nat nat) it,
      match m !! it with
      | Some _ => mret m
      | None => ot ← on_plan (AddTensorAs it); mret (<[it:=ot]> m)
      end) bucketTsMap joinKeys;
  bucketKeys ← mapM (λ id, lift (res_of_option Panic (bucketTsMap !! id))) joinKeys;
  _ ← on_plan (AddExecutionNode "bucket" OpNameBucket
        {[ "In" := mergeTensors joinKeys payloads; "Key" := joinKeys ]}
        {[ Out := mergeTensors bucketKeys bucketPayloads ]}
        {[ InputPartyCodesAttr := SetStrings partyCodes ]} [partyCode]);
  mret (bucketKeys, bucketPayloads).

(** The positions of the tensors by the party that filters them. *)
Definition local_tensors (partyCode : string) (xs : list Tensor) : gmap string (list nat) :=
  foldl (λ (m : gmap string (list nat)) '(i, x),
      let p := if bool_decide (tensor_status x = TENSORSTATUS_PRIVATE)
                  && negb (bool_decide (OwnerPartyCode x = "")) then OwnerPartyCode x
               else partyCode in
      <[p := default [] (m !! p) ++ [i]]> m) ∅ (imap pair xs).

(** [outTs] starts with nil pointers; every position belongs to one party. *)
Definition filter_for_party (filter : nat) (ts : list nat) (partyCode : string)
    (outTs : list (option nat)) (code : string) (indexes : list nat)
    : MC (list (option nat)) :=
  localFilter ← (if negb (bool_decide (code = partyCode)) then
      wrapErr "fail to apply filter by index: " (on_plan (AddCopyNode "copy" filter partyCode code))
    else mret filter);
  inTensors ← mapM (index ts) indexes;
  filtered ← wrapErr "fail to apply filter by index: "
    (on_plan (AddFilterByIndexNode "filter_by_index" localFilter inTensors code));
  foldlM (λ outTs '(i, origIndex), t ← index filtered i; mret (<[origIndex:=Some t]> outTs))
    outTs (imap pair indexes).

Definition addFilterByIndexNode (filter : nat) (ts : list nat) (partyCode : string)
    : MC (list nat) :=
  xs ← mapM tensor ts;
  outTs ← foldlM (λ outTs '(code, indexes), filter_for_party filter ts partyCode outTs code indexes)
            (replicate (length ts) None) (SortedMap (local_tensors partyCode xs));
  mapM (λ t, lift (res_of_option Panic t)) outTs.

(** ** Parties *)
Definition extractPartyCodeFromTensor (input : Tensor) : list string :=
  if bool_decide (tensor_status input = TENSORSTATUS_PRIVATE) then [OwnerPartyCode input]
  else parties.

(** [partyCandidate] as a set of keys. *)
Definition all_candidates : gmap string bool :=
  foldl (λ m pc, <[pc:=true]> m) ∅ parties.
Definition drop_blind (pcs : list string) (cc : CCL) (m : gmap string bool) : gmap string bool :=
  foldl (λ m pc, if negb (IsVisibleFor cc pc) then delete pc m else m) m pcs.
Definition first_candidate (m : gmap string bool) : string :=
  match SortMapKeyForDeterminism m with [] => "" | p :: _ => p end.

Definition findPartyWithAccessToAllTensors (inputs : list Tensor) : string :=
  first_candidate
    (foldl (λ m item, drop_blind (go_range m).*1 (CC item) m) all_candidates inputs).

Definition toShare (inputs : list nat) : MC (list nat) :=
  mapM (λ input, convertTo input (sharePlacement parties)) inputs.

Definition toPrivate (inputs : list nat) (partyCode : string) : MC (list nat) :=
  mapM (λ input, convertTo input (privatePlacement partyCode)) inputs.

(** ** Constants and broadcasts *)
Definition addConstantNode (value : Datum) : MC nat :=
  on_plan (AddConstantNode "make_constant" value parties).

(** The broadcast constants take the places of the constants. *)
Fixpoint fill_constants (inputs : list (nat * bool)) (outConstTs : list nat) : res (list nat) :=
  match inputs with
  | [] => Ok []
  | (_, true) :: inputs =>
      match outConstTs with
      | [] => Panic
      | o :: outConstTs => r ← fill_constants inputs outConstTs; Ok (o :: r)
      end
  | (t, false) :: inputs => r ← fill_constants inputs outConstTs; Ok (t :: r)
  end.

Definition addBroadcastToNodeOndemand (inputs : list nat) : MC (list nat) :=
  if bool_decide (length inputs = 1) then mret inputs
  else
    xs ← mapM tensor inputs;
    let flags := zip inputs (IsConstScalar <$> xs) in
    let constScalars := (Filter flags snd).*1 in
    let shapeT := last (Filter flags (λ p, negb p.2)).*1 in
    if bool_decide (constScalars = []) then mret inputs
    else match shapeT with
         | None => fail "unsupported tensors: all tensors are constant"
         | Some shapeT =>
             outConstTs ← wrapErr "addBroadcastToNode:"
               (on_plan (AddBroadcastToNode "broadcast" constScalars shapeT));
             lift (fill_constants flags outConstTs)
         end.

(** ** Choosing an algorithm *)

(** The cost of bringing the tensors of one argument to their placements is added to
    the cost of the algorithm; an algorithm that cannot be used keeps the cost it has
    reached and is flagged. *)
Fixpoint argument_cost (op : OperatorDef) (alg : materializedAlgorithm) (pms : list placement)
    (i : nat) (tensors : list nat) (supported : bool) : MC (bool * materializedAlgorithm) :=
  match tensors with
  | [] => mret (supported, alg)
  | t :: tensors =>
      newPlacement ← index pms i;
      conversion ← attempt (converter_getStatusConversionCost t newPlacement);
      match conversion with
      | None => mret (false, alg)
      | Some c =>
          check ← attempt (lift (CheckParamStatusConstraint (λ p, Ok (Status p)) op
                                   (inputPlacement alg) (outputPlacement alg)));
          match check with
          | None => mret (false, alg)
          | Some _ =>
              argument_cost op
                (mkAlg (addCost (cost alg) c) (inputPlacement alg) (outputPlacement alg))
                pms (S i) tensors supported
          end
      end
  end.

Definition algorithm_cost (op : OperatorDef) (inputs : tensor_args) (alg : materializedAlgorithm)
    : MC (bool * materializedAlgorithm) :=
  foldlM (λ '(supported, alg) '(key, tensors),
      argument_cost op alg (default [] (inputPlacement alg !! key)) 0 tensors supported)
    (true, alg) (SortedMap inputs).

Definition cheaper (bestAlg alg : materializedAlgorithm) : materializedAlgorithm :=
  if bool_decide (calculateTotalCost (cost alg) < calculateTotalCost (cost bestAlg))%Z
  then alg else bestAlg.

Definition getBestAlg (opType : string) (inputs : tensor_args)
    (algs : list materializedAlgorithm) : MC materializedAlgorithm :=
  op ← lift (FindOpDef opType);
  costs ← mapM (algorithm_cost op inputs) algs;
  match (Filter costs fst).*2 with
  | [] => fail "getBestAlg: failed to find a algorithm"
  | alg :: algs => mret (foldl cheaper alg algs)
  end.

(** The output of an algorithm: its status and, when it is private, its owner. *)
Definition place_output (output : nat) (pm : placement) : MC () :=
  _ ← upd output (SetStatus (Status pm));
  if bool_decide (Status pm = TENSORSTATUS_PRIVATE) then
    p ← index0 (partyList pm);
    upd output (set_OwnerPartyCode p)
  else mret tt.

(** ** Binary operators *)
Definition ConstantDataName : string := "constant_data".

Definition castIfNeeded (constTensor : nat) (c otherTensor : Tensor)
    (targetType : PrimitiveDataType) : MC nat :=
  if bool_decide (tensor_Name c = ConstantDataName) && bool_decide (DType c = STRING)
     && (bool_decide (DType otherTensor = DATETIME) || bool_decide (DType otherTensor = TIMESTAMP))
  then on_plan (AddCastNode "cast" targetType constTensor (extractPartyCodeFromTensor c))
  else mret constTensor.

Definition cast_constants (opType : string) (left right : nat) : MC (nat * nat) :=
  if bool_decide (opType ∈ constTensorNeedCastOp) then
    l ← tensor left;
    r ← tensor right;
    if bool_decide (tensor_Name l = ConstantDataName) then
      left ← castIfNeeded left l r (DType r); mret (left, right)
    else if bool_decide (tensor_Name r = ConstantDataName) then
      right ← castIfNeeded right r l (DType l); mret (left, right)
    else mret (left, right)
  else mret (left, right).

Definition addBinaryNode (opName opType : string) (left right : nat) : MC nat :=
  if negb (bool_decide (opType ∈ BinaryOps)) then
    fail "failed to check op type AddBinaryNode: invalid opType"
  else
    '(left, right) ← cast_constants opType left right;
    l ← tensor left;
    r ← tensor right;
    _ ← wrapErr "addBinaryNode: " (lift (CheckBinaryOpInputType opType l r));
    outputCCL ← lift (InferBinaryOpOutputVisibility opType (CC l) (CC r));
    match getCreator opType with
    | None => fail "fail to get algorithm creator for op type"
    | Some creator =>
        algs ← wrapErr "addBinaryNode: "
          (lift (creator {[ Left := [CC l]; Right := [CC r] ]} {[ Out := [outputCCL] ]} parties));
        bestAlg ← getBestAlg opType {[ Left := [left]; Right := [right] ]} algs;
        leftPm ← placement_at (inputPlacement bestAlg) Left;
        left ← wrapErr "addBinaryNode: " (convertTo left leftPm);
        rightPm ← placement_at (inputPlacement bestAlg) Right;
        right ← wrapErr "addBinaryNode: " (convertTo right rightPm);
        output ← on_plan (AddTensor (opName +:+ "_out"));
        _ ← upd output (set_Option REFERENCE);
        outPm ← placement_at (outputPlacement bestAlg) Out;
        _ ← place_output output outPm;
        l ← tensor left;
        r ← tensor right;
        outputType ← lift (inferBinaryOpOutputType opType l r);
        _ ← upd output (λ o, set_CC outputCCL (set_DType outputType o));
        _ ← on_plan (AddExecutionNode opName opType {[ Left := [left]; Right := [right] ]}
              {[ Out := [output] ]} ∅ (partyList outPm));
        mret output
    end.

(** ** The [IN] operator *)
Definition addBasicInNode (left right : nat) (outCCL : CCL) (revealParty : string) (psiAlg : Z)
    : MC nat :=
  output ← on_plan (AddTensor "psi_in_out");
  _ ← upd output (λ o, set_CC outCCL (set_OwnerPartyCode revealParty
        (SetStatus TENSORSTATUS_PRIVATE (set_DType BOOL (set_Option REFERENCE o)))));
  l ← tensor left;
  r ← tensor right;
  let owners := [OwnerPartyCode l; OwnerPartyCode r] in
  let attrs := {[ PsiAlgorithmAttr := SetInt64 psiAlg;
                  InputPartyCodesAttr := SetStrings owners;
                  RevealToAttr := SetStrings [revealParty] ]} in
  let attrs := if bool_decide (OwnerPartyCode l = OwnerPartyCode r)
               then <[InTypeAttr := SetInt64 LocalIn]> attrs else attrs in
  _ ← on_plan (AddExecutionNode "psi_in" OpNameIn {[ Left := [left]; Right := [right] ]}
        {[ Out := [output] ]} attrs (SliceDeDup owners));
  mret output.

(** An algorithm whose result does not stay with the left party costs one more. *)
Definition prefer_left (leftOwner : string) (alg : materializedAlgorithm)
    : MC materializedAlgorithm :=
  pl ← placement_at (outputPlacement alg) Out;
  if bool_decide (Status pl = TENSORSTATUS_PRIVATE) then
    p ← index0 (partyList pl);
    if negb (bool_decide (p = leftOwner)) then
      mret (mkAlg (newAlgCost (communicationCost (cost alg) + 1) (calculationCost (cost alg)))
              (inputPlacement alg) (outputPlacement alg))
    else mret alg
  else mret alg.

Definition addInNode (f : ScalarFunction) (left right : nat) : MC nat :=
  l ← tensor left;
  r ← tensor right;
  if negb (bool_decide (DType l = DType r)) then
    fail "addInNode: left type should be same with right"
  else
    outCc ← wrapErr "addInNode: "
              (lift (InferScalarFuncCCLUsingArgCCL (sf_expr f) [CC l; CC r]));
    match getCreator OpNameIn with
    | None => fail "fail to get algorithm creator for op type"
    | Some creator =>
        algs ← wrapErr "addInNode: "
          (lift (creator {[ Left := [CC l]; Right := [CC r] ]} {[ Out := [outCc] ]} parties));
        algs ← mapM (prefer_left (OwnerPartyCode l)) algs;
        bestAlg ← getBestAlg OpNameIn {[ Left := [left]; Right := [right] ]} algs;
        leftPm ← placement_at (inputPlacement bestAlg) Left;
        left ← wrapErr "addBinaryNode: " (convertTo left leftPm);
        rightPm ← placement_at (inputPlacement bestAlg) Right;
        right ← wrapErr "addBinaryNode: " (convertTo right rightPm);
        outPm ← placement_at (outputPlacement bestAlg) Out;
        revealParty ← index0 (partyList outPm);
        addBasicInNode left right outCc revealParty PsiAlgorithmType
    end.

(** ** CASE WHEN and IF *)

(** [out.CC.UpdateMoreRestrictedCCLFrom(t.CC)] for each tensor. *)
Definition restrict_output (out : nat) (xs : list Tensor) : MC () :=
  forM (λ x, upd out (λ o, set_CC (UpdateMoreRestrictedCCLFrom (CC o) (CC x)) o)) xs.

Definition addCaseWhenNode (name : string) (conds value : list nat) (valueElse : nat) : MC nat :=
  cs ← mapM tensor conds;
  _ ← wrapErr "addCaseWhenNode: " (lift (checkInputTypeNotString cs));
  vs ← mapM tensor value;
  e ← tensor valueElse;
  if negb (forallb (λ v, bool_decide (DType v = DType e)) vs) then
    fail "addCaseWhenNode: unmatched dtype in CASE WHEN"
  else
    out ← on_plan (AddTensorAs valueElse);
    _ ← restrict_output out cs;
    _ ← restrict_output out vs;
    match getCreator OpNameCaseWhen with
    | None => fail "fail to get algorithm creator for op type"
    | Some creator =>
        o ← tensor out;
        algs ← wrapErr "addCaseWhenNode: "
          (lift (creator {[ Condition := CC <$> cs; Value := CC <$> vs; ValueElse := [CC e] ]}
                   {[ Out := [CC o] ]} parties));
        let inputTs := {[ Condition := conds; Value := value; ValueElse := [valueElse] ]} in
        bestAlg ← getBestAlg OpNameCaseWhen inputTs algs;
        convertedTs ← convertStatusForMap inputTs (inputPlacement bestAlg);
        outPm ← placement_at (outputPlacement bestAlg) Out;
        _ ← place_output out outPm;
        _ ← wrapErr "addIfNode: "
              (on_plan (AddExecutionNode name OpNameCaseWhen convertedTs {[ "Out" := [out] ]} ∅
                          (partyList outPm)));
        mret out
    end.

(** The CCL given for the value of the false branch is that of the true branch. *)
Definition addIfNode (name : string) (cond tTrue tFalse : nat) : MC nat :=
  x ← tensor tTrue;
  y ← tensor tFalse;
  if negb (bool_decide (DType x = DType y)) then fail "failed to check data type for true, false"
  else
    c ← tensor cond;
    _ ← wrapErr "addIfNode: " (lift (checkInputTypeNotString [c]));
    out ← on_plan (AddTensorAs tTrue);
    _ ← restrict_output out [y; c];
    match getCreator OpNameIf with
    | None => fail "fail to get algorithm creator for op type"
    | Some creator =>
        o ← tensor out;
        algs ← wrapErr "addIfNode: "
          (lift (creator {[ Condition := [CC c]; ValueIfTrue := [CC x]; ValueIfFalse := [CC x] ]}
                   {[ Out := [CC o] ]} parties));
        let inputTs := {[ Condition := [cond]; ValueIfTrue := [tTrue]; ValueIfFalse := [tFalse] ]} in
        bestAlg ← getBestAlg OpNameIf inputTs algs;
        convertedTs ← convertStatusForMap inputTs (inputPlacement bestAlg);
        outPm ← placement_at (outputPlacement bestAlg) Out;
        _ ← place_output out outPm;
        _ ← wrapErr "addIfNode: "
              (on_plan (AddExecutionNode name OpNameIf convertedTs {[ "Out" := [out] ]} ∅
                          (partyList outPm)));
        mret out
    end.

(** ** Functions *)
Definition convertDegreeToRadians (input : nat) : MC nat :=
  (* the bits of the float closest to pi / 180 *)
  constantTensor ← addConstantNode (NewFloat64Datum 4580687790476533049);
  outputs ← addBroadcastToNodeOndemand [constantTensor; input];
  x ← index outputs 0;
  y ← index outputs 1;
  addBinaryNode (astName2NodeName ast.Mul) (astName2NodeName ast.Mul) x y.

Definition trigonometric (f : string) (input : nat) : MC nat :=
  x ← tensor input;
  on_plan (AddTrigonometricFunction (astName2NodeName f) (astName2NodeName f) input
             (extractPartyCodeFromTensor x)).

Definition binary (f : string) (left right : nat) : MC nat :=
  addBinaryNode (astName2NodeName f) (astName2NodeName f) left right.

Definition buildGeoDistanceFunction (inputs : list nat) : MC nat :=
  longtitude1Degree ← index inputs 0;
  latitude1Degree ← index inputs 1;
  longtitude2Degree ← index inputs 2;
  latitude2Degree ← index inputs 3;
  longtitude1 ← convertDegreeToRadians longtitude1Degree;
  latitude1 ← convertDegreeToRadians latitude1Degree;
  longtitude2 ← convertDegreeToRadians longtitude2Degree;
  latitude2 ← convertDegreeToRadians latitude2Degree;
  sinLatitude1Tensor ← trigonometric ast.Sin latitude1;
  singLatitude2Tensor ← trigonometric ast.Sin latitude2;
  leftResult ← binary ast.Mul sinLatitude1Tensor singLatitude2Tensor;
  cosLatitude1Tensor ← trigonometric ast.Cos latitude1;
  cosLatitude2Tensor ← trigonometric ast.Cos latitude2;
  minusLongtitudeTensor ← binary ast.Minus longtitude1 longtitude2;
  cosMinusLongtitudeTensor ← trigonometric ast.Cos minusLongtitudeTensor;
  mulTensor1 ← binary ast.Mul cosLatitude1Tensor cosLatitude2Tensor;
  rightResult ← binary ast.Mul mulTensor1 cosMinusLongtitudeTensor;
  plusTensor ← binary ast.Plus leftResult rightResult;
  arcCosTensor ← trigonometric ast.Acos plusTensor;
  radius ← (if bool_decide (length inputs = 4) then addConstantNode (NewIntDatum 6371)
            else index inputs 4);
  outputs ← addBroadcastToNodeOndemand [radius; arcCosTensor];
  x ← index outputs 0;
  y ← index outputs 1;
  binary ast.Mul x y.

Definition buildCompareNode (name : string) (inputs : list nat) : MC nat :=
  xs ← mapM tensor inputs;
  let allVisibleParty := findPartyWithAccessToAllTensors xs in
  if bool_decide (allVisibleParty = "") then
    nodeInputs ← toShare inputs;
    on_plan (AddVariadicCompareNode name name nodeInputs parties)
  else
    nodeInputs ← mapM (λ input,
        x ← tensor input;
        if negb (bool_decide (OwnerPartyCode x = allVisibleParty))
        then convertTo input (privatePlacement allVisibleParty)
        else mret input) inputs;
    on_plan (AddVariadicCompareNode name name nodeInputs [allVisibleParty]).

Definition arrow (nodeName funcName : string) (opt : option FunctionOptions) (inputs : list nat)
    (outputType : PrimitiveDataType) : MC nat :=
  on_plan (AddArrowFuncNode TypeName SerializeOptions nodeName funcName opt inputs
             outputType).

(** [expression.TransferDateFuncIntervalToSeconds] (pkg/expression/scalar_function.go)
    on what the arguments are translated to: the unit is dropped and the interval is
    replaced by a number of seconds.  A null interval leaves no arguments. *)
Definition TransferDateFuncIntervalToSeconds (args : list Expr) (argTs : list (MC nat))
    : MC (list (MC nat)) :=
  if bool_decide (length args < 3) then panic
  else
    sec ← lift (intervalSeconds args);
    match sec with
    | None => mret []
    | Some sec =>
        mret (<[1 := addConstantNode (NewIntDatum sec)]> (take (length argTs - 1) argTs))
    end.

(** SUBSTR and SUBSTRING *)
Definition buildSubstr (args : list Expr) (argTs : list (MC nat)) : MC nat :=
  arg0 ← index0 argTs;
  strInput ← attempt arg0;
  match strInput with
  | None => fail "buildScalarFunction:err input"
  | Some strInput =>
      x ← tensor strInput;
      if negb (bool_decide (DType x = STRING)) then fail "buildScalarFunction:err input type"
      else
        start ← match args !! 1 with
                | None => mret 0%Z
                | Some (EConstant v _) => mret (i64 (GetInt64 v - 1))
                | Some _ => fail "buildScalarFunction: args[1] should be constant"
                end;
        stop ← match args !! 2 with
               | None => mret MaxInt64
               | Some (EConstant v _) => mret (i64 (start + GetInt64 v))
               | Some _ => fail "buildScalarFunction: args[2] should be constant"
               end;
        arrow "arrow_substr" "utf8_slice_codeunits" (Some (SliceOptions start stop 1)) [strInput]
          (DType x)
  end.

(** CONCAT *)
Definition buildConcat (inputs : list nat) : MC nat :=
  sepTensor ← wrapErr "buildScalarFunction: build separator for concat failed: "
                (addConstantNode (NewStringDatum ""));
  ins ← wrapErr "buildScalarFunction: broadcast for concat failed: "
          (addBroadcastToNodeOndemand (inputs ++ [sepTensor]));
  privateIns ← wrapErr "buildScalarFunction: convert inputs to issuer failed: "
                 (toPrivate ins issuerPartyCode);
  arrow "arrow_concat" "binary_join_element_wise" None privateIns STRING.

(** STR_TO_DATE, with the two arguments and their translations. *)
Definition buildStrToDate (args : list Expr) (inputs : list nat) : MC nat :=
  if negb (bool_decide (length inputs = 2)) then
    fail "incorrect arguments for function StrToDate"
  else
    left ← index inputs 0;
    right ← index inputs 1;
    dateStrExpr ← index args 0;
    formatStrExpr ← index args 1;
    l ← tensor left;
    r ← tensor right;
    if negb (bool_decide (DType l = STRING)) then
      fail "buildScalarFunction: invalid left argument type for the STR_TO_DATE function"
    else match bool_decide (DType r = STRING), formatStrExpr with
    | true, EConstant formatStrConst _ =>
        let formatStr := GetString formatStrConst in
        match dateStrExpr with
        | EConstant dateStrConst _ =>
            goLayout ← wrapErr "buildScalarFunction: STR_TO_DATE format string is invalid: "
                         (lift (MySQLDateFormatToGoLayout formatStr));
            unixSec ← wrapErr "buildScalarFunction: STR_TO_DATE date string is invalid: "
                        (lift (time_Parse goLayout (GetString dateStrConst)));
            addConstantNode (NewIntDatum unixSec)
        | _ =>
            arrowFormatStr ← wrapErr "buildScalarFunction: STR_TO_DATE format string is invalid: "
                               (lift (MySQLDateFormatToArrowFormat formatStr));
            arrow "str_to_date" "strptime" (Some (StrptimeOptions arrowFormatStr Second true))
              [left] DATETIME
        end
    | _, _ => fail "buildScalarFunction: invalid right argument type for the STR_TO_DATE function"
    end.

(** The conditions and values of CASE WHEN, which alternate. *)
Fixpoint case_arguments (inputs : list nat) : list nat * list nat :=
  match inputs with
  | c :: v :: inputs => let '(cs, vs) := case_arguments inputs in (c :: cs, v :: vs)
  | _ => ([], [])
  end.

Definition binaryFunctions : list string :=
  [ast.LT; ast.GT; ast.GE; ast.EQ; ast.LE; ast.NE; ast.LogicOr; ast.LogicAnd; ast.Plus;
   ast.Minus; ast.Mul; ast.Div; ast.IntDiv; ast.Mod; ast.AddDate; ast.SubDate; ast.DateDiff;
   ast.Pow].

(** [output.SkipDTypeCheck = true] comes before the error is looked at: for POW, a
    failure of [addBinaryNode] is a nil dereference. *)
Definition buildBinaryFunction (f : string) (left right : nat) : MC nat :=
  if bool_decide (f ∈ skipTypeCheckAst) then
    output ← attempt (binary f left right);
    match output with
    | None => panic
    | Some output => _ ← upd output (set_SkipDTypeCheck true); mret output
    end
  else binary f left right.

(** The switch on the name of the function, on its translated arguments. *)
Definition scalar_switch (f : string) (args : list Expr) (ret : FieldType) (inputs : list nat)
    : MC nat :=
  input0 ← index inputs 0;
  x ← tensor input0;
  let inTensorPartyCodes := extractPartyCodeFromTensor x in
  let arity (n : nat) (k : MC nat) : MC nat :=
    if negb (bool_decide (length inputs = n)) then fail "buildScalarFunction: err input" else k in
  if bool_decide (f = ast.UnaryNot) then
    arity 1 (on_plan (AddNotNode "not" input0 inTensorPartyCodes))
  else if bool_decide (f = ast.IsNull) then on_plan (AddIsNullNode "is_null" input0)
  else if bool_decide (f = ast.Lower) then arrow "arrow_lower" "utf8_lower" None inputs (DType x)
  else if bool_decide (f = ast.Upper) then arrow "arrow_upper" "utf8_upper" None inputs (DType x)
  else if bool_decide (f = ast.Trim) then
    arrow "arrow_trim" "utf8_trim" (Some (TrimOptions " ")) inputs (DType x)
  else if bool_decide (f = ast.Concat) then buildConcat inputs
  else if bool_decide (f ∈ binaryFunctions) then
    arity 2 (input1 ← index inputs 1; buildBinaryFunction f input0 input1)
  else if bool_decide (f = ast.Cast) then
    arity 1 (tp ← wrapErr "buildScalarFunction: " (lift (convertDataType ret));
             on_plan (AddCastNode "cast" tp input0 inTensorPartyCodes))
  else if bool_decide (f ∈ [ast.Greatest; ast.Least]) then
    buildCompareNode (astName2NodeName f) inputs
  else if bool_decide (f = ast.Case) then
    if Nat.even (length inputs) then fail "missing else clause for CASE WHEN statement"
    else
      let '(conditions, values) := case_arguments inputs in
      valueElse ← index inputs (length inputs - 1);
      addCaseWhenNode (astName2NodeName f) conditions values valueElse
  else if bool_decide (f = ast.If) then
    input1 ← index inputs 1;
    input2 ← index inputs 2;
    addIfNode (astName2NodeName f) input0 input1 input2
  else if bool_decide (f = ast.UnaryMinus) then
    zeroTensor ← wrapErr "buildScalarFunction: unaryminus err: " (addConstantNode (NewIntDatum 0));
    outputs ← wrapErr "buildScalarFunction: unaryminus err: "
                (addBroadcastToNodeOndemand [zeroTensor; input0]);
    l ← index outputs 0;
    r ← index outputs 1;
    binary f l r
  else if bool_decide (f = ast.UnaryPlus) then mret input0
  else if bool_decide (f = ast.Ifnull) then
    arity 2 (input1 ← index inputs 1; on_plan (AddIfNullNode "ifnull" input0 input1))
  else if bool_decide (f = ast.Coalesce) then on_plan (AddCoalesceNode "coalesce" inputs)
  else if bool_decide (f = ast.Cot) then
    arity 1 (
      oneConst ← wrapErr "buildScalarFunction: err " (addConstantNode (NewIntDatum 1));
      tanOp ← wrapErr "buildScalarFunction: err "
        (on_plan (AddTrigonometricFunction (astName2NodeName ast.Tan) (astName2NodeName ast.Tan)
                    input0 inTensorPartyCodes));
      oneScalar ← wrapErr "buildScalarFunction: err "
                    (addBroadcastToNodeOndemand [oneConst; tanOp]);
      l ← index oneScalar 0;
      r ← index oneScalar 1;
      binary ast.Div l r)
  else if bool_decide (f ∈ [ast.Cos; ast.Sin; ast.Acos; ast.Asin; ast.Tan; ast.Atan]) then
    arity 1 (on_plan (AddTrigonometricFunction (astName2NodeName f) (astName2NodeName f) input0
                        inTensorPartyCodes))
  else if bool_decide (f = ast.GeoDist) then
    if negb (bool_decide (length inputs = 4)) && negb (bool_decide (length inputs = 5))
    then fail "incorrect arguments for function" else buildGeoDistanceFunction inputs
  else if bool_decide (f = ast.Atan2) then
    arity 2 (input1 ← index inputs 1; binary f input0 input1)
  else if bool_decide (f ∈ [ast.Abs; ast.Ceil; ast.Floor; ast.Round; ast.Radians; ast.Degrees;
                            ast.Ln; ast.Log10; ast.Log2; ast.Sqrt; ast.Exp]) then
    arity 1 (on_plan (AddUnaryNumericNode (astName2NodeName f) (astName2NodeName f) input0
                        (default (DType x) (unaryOutputType f)) inTensorPartyCodes))
  else if bool_decide (f = ast.StrToDate) then buildStrToDate args inputs
  else fail "buildScalarFunction doesn't support".

(** [argTs] are the translations of the arguments by [getTensorFromExpression]. *)
Definition buildScalarFunction (f : string) (args : list Expr) (ret : FieldType)
    (argTs : list (MC nat)) (isApply : bool) : MC nat :=
  if bool_decide (f = ast.Now) then addConstantNode (NewTimeDatum createdAt)
  else if bool_decide (f = ast.Curdate) then addConstantNode (NewTimeDatum createdOn)
  else if bool_decide (f ∈ [ast.Substr; ast.Substring]) then buildSubstr args argTs
  else
    argTs ← (if bool_decide (f ∈ [ast.AddDate; ast.SubDate])
             then TransferDateFuncIntervalToSeconds args argTs else mret argTs);
    inputs ← mapM id argTs;
    inputs ← (if negb isApply && negb (bool_decide (f = ast.StrToDate))
              then addBroadcastToNodeOndemand inputs else mret inputs);
    scalar_switch f args ret inputs.

Fixpoint getTensorFromExpression (tensors : gmap Z nat) (arg : Expr) : MC nat :=
  match arg with
  | EColumn x => lift (getTensorFromColumn x tensors)
  | EScalarFunction f args ret =>
      buildScalarFunction f args ret (getTensorFromExpression tensors <$> args) false
  | EConstant v _ => addConstantNode v
  | ECorrelatedColumn _ => fail "getTensorFromExpression doesn't support arg type"
  end.

Definition buildExpression (expr : Expr) (tensors : gmap Z nat) (isApply : bool) : MC nat :=
  match expr with
  | EColumn x => lift (getTensorFromColumn x tensors)
  | EScalarFunction f args ret =>
      buildScalarFunction f args ret (getTensorFromExpression tensors <$> args) isApply
  | _ => fail "buildExpression doesn't support condition type"
  end.

(** ** Filters *)

(** Tensors with the IDs of their columns, split by how they are filtered: those on
    shares together, the private ones by owner. *)
Record split := mkSplit {
  shareTs : list (Z * nat);
  privateTs : gmap string (list (Z * nat));
}.

Definition add_share (id : Z) (t : nat) (s : split) : split :=
  mkSplit (shareTs s ++ [(id, t)]) (privateTs s).
Definition add_private (owner : string) (id : Z) (t : nat) (s : split) : split :=
  mkSplit (shareTs s) (<[owner := default [] (privateTs s !! owner) ++ [(id, t)]]> (privateTs s)).

(** The tensors of one group are filtered by one node; the results get the IDs. *)
Definition filter_group (filter : nat) (ps : list string) (group : list (Z * nat))
    (result : gmap Z nat) : MC (gmap Z nat) :=
  output ← on_plan (AddFilterNode "apply_filter" group.*2 filter ps);
  lift (assign group.*1 output result).

Definition addFilterNode (filter : nat) (tensorToFilter : gmap Z (option nat))
    : MC (gmap Z nat) :=
  s ← foldlM (λ s '(tensorId, it),
      it ← lift (res_of_option Panic it);
      x ← tensor it;
      match tensor_status x with
      | TENSORSTATUS_SECRET => mret (add_share tensorId it s)
      | TENSORSTATUS_PRIVATE => mret (add_private (OwnerPartyCode x) tensorId it s)
      | _ => fail "unsupported tensor status for selection node"
      end) (mkSplit [] ∅) (SortedMap tensorToFilter);
  result ← (if bool_decide (shareTs s = []) then mret ∅
    else
      publicFilter ← wrapErr "addFilterNode: " (convertTo filter (publicPlacement parties));
      wrapErr "addFilterNode: " (filter_group publicFilter parties (shareTs s) ∅));
  foldlM (λ result '(p, group),
      f ← tensor filter;
      if negb (IsVisibleFor (CC f) p) then fail "failed to check ccl: filter is not visible"
      else
        newFilter ← wrapErr "addFilterNode: " (convertTo filter (privatePlacement p));
        wrapErr "addFilterNode: " (filter_group newFilter [p] group result))
    result (SortedMap (privateTs s)).

(** ** Groups *)
Definition group_dtype (opType : string) (dt : PrimitiveDataType) : PrimitiveDataType :=
  if bool_decide (opType = OpNameGroupAvg) then FLOAT64
  else if bool_decide (opType = OpNameGroupSum) then
    if IsFloatOrDoubleType dt then FLOAT64 else INT64
  else if bool_decide (opType = OpNameGroupCount) || bool_decide (opType = OpNameGroupCountDistinct)
  then INT64
  else dt.

Definition addGroupAggNode (name opType : string) (groupId groupNum : nat) (in_ : list nat)
    (partyCode : string) (attr : gmap string Attribute) : MC (list nat) :=
  inP ← wrapErr "addGroupAggNode: convert in err: " (toPrivate in_ partyCode);
  groupIdP ← wrapErr "addGroupAggNode: convert group id err: "
               (convertTo groupId (privatePlacement partyCode));
  groupNumP ← wrapErr "addGroupAggNode: convert group num err: "
                (convertTo groupNum (privatePlacement partyCode));
  outputs ← mapM (λ it,
      output ← on_plan (AddTensorAs it);
      x ← tensor it;
      _ ← upd output (λ o, set_DType (group_dtype opType (DType x))
                             (set_Name (tensor_Name o +:+ "_" +:+ name) o));
      mret output) inP;
  _ ← wrapErr "addGroupAggNode: "
        (on_plan (AddExecutionNode name opType
           {[ "GroupId" := [groupIdP]; "GroupNum" := [groupNumP]; "In" := inP ]}
           {[ "Out" := outputs ]} attr [partyCode]));
  mret outputs.

Definition addUniqueNode (name : string) (input : nat) (partyCode : string) : MC nat :=
  inputP ← wrapErr "addUniqueNode: " (convertTo input (privatePlacement partyCode));
  output ← on_plan (AddTensorAs inputP);
  _ ← upd output (λ o, set_OwnerPartyCode partyCode (set_Name ("unique_" +:+ tensor_Name o) o));
  _ ← on_plan (AddExecutionNode name OpNameUnique {[ "Key" := [inputP] ]}
        {[ "UniqueKey" := [output] ]} ∅ [partyCode]);
  mret output.

(** Whether the tensors have to be shared to be sorted: one of them is not private, or
    they have different owners; with the owners seen so far. *)
Fixpoint needShare (owners : gmap string bool) (xs : list Tensor) : bool * gmap string bool :=
  match xs with
  | [] => (false, owners)
  | x :: xs =>
      match tensor_status x with
      | TENSORSTATUS_SECRET | TENSORSTATUS_PUBLIC => (true, owners)
      | TENSORSTATUS_PRIVATE =>
          let owners := <[OwnerPartyCode x := true]> owners in
          if bool_decide (1 < size owners) then (true, owners) else needShare owners xs
      | _ => needShare owners xs
      end
  end.

Definition addSortNode (name : string) (key in_ : list nat) (reverse : bool) : MC (list nat) :=
  xs ← mapM tensor (in_ ++ key);
  let '(makeShareFlag, privatePartyCodes) := needShare ∅ xs in
  keyA ← (if makeShareFlag then wrapErr "addSortNode: " (toShare key) else mret key);
  inA ← (if makeShareFlag then wrapErr "addSortNode: " (toShare in_) else mret in_);
  outA ← mapM (λ t, on_plan (AddTensorAs t)) inA;
  let partyCodes := if makeShareFlag then parties else take 1 (go_range privatePartyCodes).*1 in
  _ ← wrapErr "addSortNode: "
        (on_plan (AddExecutionNode name OpNameSort {[ "Key" := keyA; "In" := inA ]}
           {[ "Out" := outA ]} {[ ReverseAttr := SetBool reverse ]} partyCodes));
  mret outA.

Definition addObliviousGroupMarkNode (name : string) (key : list nat) : MC nat :=
  keyA ← wrapErr "addObliviousGroupMarkNode: " (toShare key);
  out ← on_plan (AddTensor "group_mark");
  _ ← upd out (λ o, set_DType BOOL (SetStatus TENSORSTATUS_SECRET (set_Option REFERENCE o)));
  _ ← wrapErr "addObliviousGroupMarkNode: "
        (on_plan (AddExecutionNode name OpNameObliviousGroupMark {[ "Key" := keyA ]}
           {[ "Group" := [out] ]} ∅ parties));
  mret out.

Definition oblivious_dtype (funcName : string) (dt : PrimitiveDataType) : PrimitiveDataType :=
  if bool_decide (funcName = ast.AggFuncAvg) || bool_decide (funcName = ast.WindowFuncPercentRank)
  then FLOAT64
  else if bool_decide (funcName = ast.AggFuncCount) then INT64
  else if bool_decide (funcName = ast.AggFuncSum) then
    if bool_decide (dt = BOOL) then INT64
    else if IsFloatOrDoubleType dt then FLOAT64 else dt
  else dt.

Definition addObliviousGroupAggNode (funcName : string) (group in_ : nat)
    (attr : gmap string Attribute) : MC nat :=
  match ObliviousGroupAggOp !! funcName with
  | None => fail "addObliviousGroupAggNode: unsupported op"
  | Some opName =>
      inA ← wrapErr "addObliviousGroupAggNode: " (convertTo in_ (sharePlacement parties));
      outA ← on_plan (AddTensorAs inA);
      x ← tensor inA;
      _ ← upd outA (set_DType (oblivious_dtype funcName (DType x)));
      _ ← wrapErr "addObliviousGroupAggNode: "
            (on_plan (AddExecutionNode funcName opName {[ "Group" := [group]; "In" := [inA] ]}
               {[ "Out" := [outA] ]} attr parties));
      mret outA
  end.

Definition addShuffleNode (name : string) (inTs : list nat) : MC (list nat) :=
  inA ← wrapErr "addShuffleNode: " (mapM (λ t,
      x ← tensor t;
      if bool_decide (tensor_status x = TENSORSTATUS_PUBLIC) then mret t
      else convertTo t (sharePlacement parties)) inTs);
  outA ← mapM (λ t, on_plan (AddTensorAs t)) inA;
  _ ← wrapErr "addShuffleNode: "
        (on_plan (AddExecutionNode name OpNameShuffle {[ "In" := inA ]} {[ "Out" := outA ]} ∅
           parties));
  mret outA.

(** ** Unions *)

(** The output starts with the string owners of the first input, which the loop adds
    once more. *)
Definition concat_owners (out t : nat) : MC () :=
  x ← tensor t;
  _ ← upd out (λ o, set_SecretStringOwners (SecretStringOwners o ++ SecretStringOwners x) o);
  o ← tensor out;
  if negb (bool_decide (DType x = DType o)) then
    fail "addConcatNode: not support concat different type, please cast before union"
  else mret tt.

Definition addConcatNode (inputs : list nat) : MC nat :=
  xs ← mapM tensor inputs;
  x0 ← index0 xs;
  let newCC := foldl (λ cc x, UpdateMoreRestrictedCCLFrom cc (CC x)) (Clone (CC x0)) (tail xs) in
  if existsb (λ p, bool_decide (LevelFor newCC p = Unknown)) parties then
    fail "failed to check union ccl: "
  else
    newIn ← wrapErr "addConcatNode: " (toShare inputs);
    in0 ← index0 newIn;
    out ← on_plan (AddTensorAs in0);
    _ ← forM (concat_owners out) newIn;
    _ ← upd out (set_CC newCC);
    _ ← wrapErr "addConcatNode: "
          (on_plan (AddExecutionNode "concat" OpNameConcat {[ "In" := newIn ]} {[ Out := [out] ]}
             ∅ parties));
    mret out.

(** ** Group IDs and windows *)
Definition addGroupNode (name : string) (inputs : list nat) (partyCode : string)
    : MC (nat * nat) :=
  newInputs ← wrapErr "addGroupNode: " (toPrivate inputs partyCode);
  outputId ← on_plan (AddColumn "group_id" TENSORSTATUS_PRIVATE REFERENCE INT64);
  xs ← mapM tensor inputs;
  x0 ← index0 xs;
  let cc := foldl (λ cc x, UpdateMoreRestrictedCCLFrom cc (CC x)) (Clone (CC x0)) (tail xs) in
  _ ← upd outputId (λ o, set_CC cc (set_OwnerPartyCode partyCode o));
  outputNum ← on_plan (AddTensorAs outputId);
  _ ← upd outputNum (set_Name "group_num");
  _ ← on_plan (AddExecutionNode name OpNameGroup {[ "Key" := newInputs ]}
        {[ "GroupId" := [outputId]; "GroupNum" := [outputNum] ]} ∅ [partyCode]);
  mret (outputId, outputNum).

Definition addWindowNode (name : string) (key : list nat) (partitionId partitionNum output : nat)
    (attr : Attribute) (party : string) : MC () :=
  _ ← on_plan (AddExecutionNode name name
        {[ "Key" := key; "PartitionId" := [partitionId]; "PartitionNum" := [partitionNum] ]}
        {[ "Out" := [output] ]} {[ ReverseAttr := attr ]} [party]);
  mret tt.

Definition addGroupHeSumNode (name : string) (groupId groupNum in_ : nat)
    (groupParty inParty : string) : MC nat :=
  groupIdP ← wrapErr "addGroupHeSumNode: convert group id err: "
               (convertTo groupId (privatePlacement groupParty));
  groupNumP ← wrapErr "addGroupHeSumNode: convert group num err: "
                (convertTo groupNum (privatePlacement groupParty));
  inP ← wrapErr "addGroupHeSumNode: convert agg err: " (convertTo in_ (privatePlacement inParty));
  output ← on_plan (AddTensorAs inP);
  x ← tensor in_;
  _ ← upd output (λ o, set_DType (if IsFloatOrDoubleType (DType x) then FLOAT64 else INT64)
                         (set_Name (tensor_Name o +:+ "_sum") o));
  _ ← wrapErr "addGroupHeSumNode: "
        (on_plan (AddExecutionNode name OpNameGroupHeSum
           {[ "GroupId" := [groupIdP]; "GroupNum" := [groupNumP]; "In" := [inP] ]}
           {[ "Out" := [output] ]} {[ InputPartyCodesAttr := SetStrings [groupParty; inParty] ]}
           [groupParty; inParty]));
  mret output.

(** ** Cross joins *)
Definition cross_side (ln : logicalNode) (rval : gmap Z nat) : MC (list nat * gmap Z nat) :=
  output ← mapM (λ t, on_plan (AddTensorAs t)) (ResultTable ln);
  rval ← lift (assign_all (column_ids (node_Schema ln)) output rval);
  mret (output, rval).

Definition buildCrossJoin (left right : logicalNode) : MC (gmap Z nat) :=
  '(leftOutput, rval) ← cross_side left ∅;
  leftT ← index0 (ResultTable left);
  l ← tensor leftT;
  '(rightOutput, rval) ← cross_side right rval;
  rightT ← index0 (ResultTable right);
  r ← tensor rightT;
  let owners := [OwnerPartyCode l; OwnerPartyCode r] in
  _ ← wrapErr "buildCrossJoin: "
        (on_plan (AddReplicateNode OpNameReplicate (ResultTable left) (ResultTable right)
           leftOutput rightOutput {[ InputPartyCodesAttr := SetStrings owners ]}
           (SliceDeDup owners)));
  mret rval.
End translator.
