(* ===== verification/BuildNode.v ===== *)
(** * Translation of logical nodes
      (pkg/interpreter/translator/build_execution_node.go and translator.go)

    One definition per kind of logical node: it adds the execution nodes and gives the
    result table of the node.  [translateInternal] walks through the logical plan,
    [addResultNode] hands the result over, and [Translate] puts the parts together:
    preprocessed plan, CCLs, checks, translation, [Build].

    A nil pointer in a map of tensors is [None]. *)
From Stdlib Require Import SpecFloat.
From S2P Require Import Prelude GoInt Sliceutil Expression Operator Ccl Graph GraphBuilder.
From S2P Require Import BuilderSpec Algorithm StatusConverter Dag LogicalNode BuildCcl Translator.

#[local] Open Scope nat_scope.

Definition JoinTypeLpToEp (tp : core.JoinType) : option Z :=
  match tp with
  | core.InnerJoin => Some 0%Z
  | core.LeftOuterJoin => Some 1%Z
  | core.RightOuterJoin => Some 2%Z
  | _ => None
  end.

(** Simple counts are complete counts without DISTINCT. *)
Definition isSimpleCount (aggFunc : AggFuncDesc) : bool :=
  bool_decide (Agg_Name aggFunc = ast.AggFuncCount)
  && match Agg_Mode aggFunc with CompleteMode => true | _ => false end
  && negb (HasDistinct aggFunc).

Definition createCCLForIndexT (childDataSourceParties : list (list string))
    : res (CCL * CCL) :=
  match childDataSourceParties with
  | lps :: rps :: _ => Ok (CreateAllPlainCCL lps, CreateAllPlainCCL rps)
  | _ => Panic
  end.

(** [colIdToTensor[c] = childIdToTensor[c]], nil when the child has no such column. *)
Definition pointers (cols : list Column) (m : gmap Z nat) : gmap Z (option nat) :=
  foldl (λ acc c, <[UniqueID c := m !! UniqueID c]> acc) ∅ cols.

(** The checks on the percentile of PERCENTILE_DISC. *)
Definition percent_ok (percent : spec_float) : bool :=
  negb (SFltb percent (S754_zero false)) && negb (SFltb (S754_finite false 1 0) percent).

Section build.
Context `{GoRange} {cfg : config} {ext : externals}.
Local Notation parties := (GetParties (partyInfo t_enginesInfo)).

Definition isHeSuitable (aggFunc : AggFuncDesc) (cc : CCL) : bool :=
  bool_decide (Agg_Name aggFunc = ast.AggFuncSum)
  && bool_decide (0 < length (GetVisibleParties cc)).

(** A map of tensors that holds no nil pointer. *)
Definition setTable (n : baseNode) (m : gmap Z nat) : MC (list nat) :=
  setResultTable n (Some <$> m).

(** ** Subqueries *)
Definition reverseFilter (filterT : nat) : MC nat :=
  f ← tensor filterT;
  let partyList := if bool_decide (tensor_status f = TENSORSTATUS_PRIVATE)
                   then [OwnerPartyCode f] else parties in
  on_plan (AddNotNode "not" filterT partyList).

(** [selectIn]: the filter becomes the last column. *)
Definition selectIn (n : baseNode) (colIdToTensor : gmap Z (option nat)) (filterT : nat)
    (reversed : bool) : MC (gmap Z (option nat)) :=
  filter ← (if reversed then reverseFilter filterT else mret filterT);
  lastCol ← lift (res_of_option Panic (last (schema n)));
  mret (<[UniqueID lastCol := Some filter]> colIdToTensor).

(** [whereIn]: the columns of the left child are filtered. *)
Definition whereIn (leftColumns : list Column) (colIdToTensor : gmap Z (option nat))
    (filterT : nat) (reversed : bool) : MC (gmap Z (option nat)) :=
  filter ← (if reversed then reverseFilter filterT else mret filterT);
  outs ← addFilterNode filter colIdToTensor;
  mret (foldl (λ m c, <[UniqueID c := outs !! UniqueID c]> m) colIdToTensor leftColumns).

(** The tensors of the left child are replaced by their buckets where the result has
    their columns. *)
Fixpoint replace_columns (cols : list Column) (ts : list nat) (m : gmap Z (option nat))
    : res (gmap Z (option nat)) :=
  match cols with
  | [] => Ok m
  | c :: cols =>
      match m !! UniqueID c with
      | None => replace_columns cols (tail ts) m
      | Some _ =>
          match ts with
          | [] => Panic
          | t :: ts => replace_columns cols ts (<[UniqueID c := Some t]> m)
          end
      end
  end.

Definition apply_buckets (left right : logicalNode) (leftKeyT rightKeyT : nat)
    (colIdToTensor : gmap Z (option nat)) : MC (nat * nat * gmap Z (option nat)) :=
  if opt_Batched then
    l ← tensor leftKeyT;
    r ← tensor rightKeyT;
    let ps := [OwnerPartyCode l; OwnerPartyCode r] in
    '(leftKeyTs, leftTs) ← addBucketNode [leftKeyT] (ResultTable left) ps;
    '(rightKeyTs, _) ← addBucketNode [rightKeyT] (ResultTable right) ps;
    leftKeyT ← index0 leftKeyTs;
    rightKeyT ← index0 rightKeyTs;
    colIdToTensor ← lift (replace_columns (node_Schema left) leftTs colIdToTensor);
    mret (leftKeyT, rightKeyT, colIdToTensor)
  else mret (leftKeyT, rightKeyT, colIdToTensor).

(** The one condition of a subquery; an [OtherConditions] entry has to be a scalar
    function. *)
Definition apply_condition (EqualConditions : list ScalarFunction) (OtherConditions : list Expr)
    : res ScalarFunction :=
  match OtherConditions, EqualConditions with
  | EScalarFunction f args ret :: _, [] => Ok (mkScalarFunction f args ret)
  | [], sFunc :: _ => Ok sFunc
  | _, _ => Err "buildApply: type assertion failed"
  end.

Definition buildApply (n : baseNode) (children : list logicalNode) (tp : core.JoinType)
    (EqualConditions : list ScalarFunction)
    (LeftConditions RightConditions OtherConditions : list Expr) : MC (list nat) :=
  match children with
  | [leftN; rightN] =>
      if bool_decide (OtherConditions = []) && bool_decide (EqualConditions = [])
         && bool_decide (RightConditions = []) && bool_decide (LeftConditions = []) then
        resultIdToTensor ← buildCrossJoin leftN rightN;
        setTable n resultIdToTensor
      else if negb (bool_decide (length OtherConditions + length EqualConditions = 1))
              || negb (bool_decide (RightConditions = []))
              || negb (bool_decide (LeftConditions = [])) then
        fail "buildApply: doesn't support condition"
      else
        m ← lift (assign (column_ids (node_Schema leftN)) (ResultTable leftN) ∅);
        childIdToTensor ← lift (assign (column_ids (node_Schema rightN)) (ResultTable rightN) m);
        let colIdToTensor := pointers (schema n) childIdToTensor in
        sFunc ← lift (apply_condition EqualConditions OtherConditions);
        match bool_decide (FuncName sFunc = ast.EQ), GetArgs sFunc with
        | true, [leftArg; rightArg] =>
            leftKeyT ← buildExpression leftArg childIdToTensor true;
            rightKeyT ← buildExpression rightArg childIdToTensor true;
            '(leftKeyT, rightKeyT, colIdToTensor) ←
              apply_buckets leftN rightN leftKeyT rightKeyT colIdToTensor;
            filterT ← addInNode sFunc leftKeyT rightKeyT;
            colIdToTensor ←
              match tp with
              | core.AntiLeftOuterSemiJoin => selectIn n colIdToTensor filterT true
              | core.LeftOuterSemiJoin => selectIn n colIdToTensor filterT false
              | core.AntiSemiJoin => whereIn (node_Schema leftN) colIdToTensor filterT true
              | core.SemiJoin => whereIn (node_Schema leftN) colIdToTensor filterT false
              | _ => fail "buildApply: invalid join type"
              end;
            setResultTable n colIdToTensor
        | _, _ => fail "buildApply: type assertion failed"
        end
  | _ => fail "buildApply: unexpected number of children"
  end.

(** ** Joins *)
Definition buildSecretEQJoin (n : baseNode) (tp : core.JoinType)
    (leftKeyTs rightKeyTs leftTs rightTs : list nat) (leftColumns rightColumns : list Column)
    : MC (list nat) :=
  if negb (bool_decide (tp = core.InnerJoin)) then
    fail "buildSecretEQJoin: only support inner join, null not support in secret yet"
  else
    leftKeyTs ← toShare leftKeyTs;
    rightKeyTs ← toShare rightKeyTs;
    leftTs ← toShare leftTs;
    rightTs ← toShare rightTs;
    '(leftTs, rightTs) ← wrapErr "buildSecretEQJoin: "
      (on_plan (AddSecretJoinNode "secret_join" leftKeyTs rightKeyTs leftTs rightTs parties));
    m ← lift (assign (column_ids leftColumns) leftTs ∅);
    m ← lift (assign (column_ids rightColumns) rightTs m);
    setTable n m.

(** The tensors of the columns of one equality, and whether one of them is not
    private. *)
Definition join_key (leftN rightN : logicalNode) (equalCondition : ScalarFunction)
    : MC (nat * nat * bool) :=
  '(leftIndexCol, rightIndexCol) ← wrapErr "buildEQJoin: " (lift (extractEQColumns equalCondition));
  leftT ← wrapErr "buildEQJoin: " (lift (FindTensorByColumnId leftN (UniqueID leftIndexCol)));
  rightT ← wrapErr "buildEQJoin: " (lift (FindTensorByColumnId rightN (UniqueID rightIndexCol)));
  l ← tensor leftT;
  r ← tensor rightT;
  mret (leftT, rightT, negb (bool_decide (tensor_status l = TENSORSTATUS_PRIVATE))
                       || negb (bool_decide (tensor_status r = TENSORSTATUS_PRIVATE))).

(** All keys come from the same two parties. *)
Definition join_parties (keys : list (Tensor * Tensor)) : res (list string) :=
  foldlM (λ ps '(l, r),
      let leftParty := OwnerPartyCode l in
      let rightParty := OwnerPartyCode r in
      if bool_decide (leftParty = rightParty) then
        Err "buildEQJoin: invalid [leftParty, rightParty]"
      else match ps with
           | [] => Ok [leftParty; rightParty]
           | _ => if bool_decide (ps = [leftParty; rightParty]) then Ok ps
                  else Err "buildEQJoin: Error current [leftParty, rightParty] not equal pre"
           end) [] keys.

(** Applying the index of one side; nothing is done for a side without columns. *)
Definition apply_index (indexT : option nat) (indexCC : CCL) (ts : list nat) (cols : list Column)
    (result : gmap Z nat) : MC (gmap Z nat) :=
  if bool_decide (ts = []) then mret result
  else
    indexT ← lift (res_of_option Panic indexT);
    x ← tensor indexT;
    _ ← upd indexT (set_CC indexCC);
    filtered ← wrapErr "buildEQJoin: " (addFilterByIndexNode indexT ts (OwnerPartyCode x));
    lift (assign (column_ids cols) filtered result).

Definition buildEQJoin (n : baseNode) (leftN rightN : logicalNode) (tp : core.JoinType)
    (EqualConditions : list ScalarFunction) : MC (list nat) :=
  keys ← mapM (join_key leftN rightN) EqualConditions;
  let leftKeyTs := keys.*1.*1 in
  let rightKeyTs := keys.*1.*2 in
  let hasSharedKey := existsb snd keys in
  let leftUsed := GetUsedList (schema n) (mkSchema (node_Schema leftN)) in
  let rightUsed := GetUsedList (schema n) (mkSchema (node_Schema rightN)) in
  leftTs ← lift (Take (ResultTable leftN) leftUsed);
  rightTs ← lift (Take (ResultTable rightN) rightUsed);
  leftColumns ← lift (Take (node_Schema leftN) leftUsed);
  rightColumns ← lift (Take (node_Schema rightN) rightUsed);
  if hasSharedKey then
    buildSecretEQJoin n tp leftKeyTs rightKeyTs leftTs rightTs leftColumns rightColumns
  else
    ls ← mapM tensor leftKeyTs;
    rs ← mapM tensor rightKeyTs;
    ps ← lift (join_parties (zip ls rs));
    '(leftKeyTs, leftTs) ← (if opt_Batched then addBucketNode leftKeyTs leftTs ps
                            else mret (leftKeyTs, leftTs));
    '(rightKeyTs, rightTs) ← (if opt_Batched then addBucketNode rightKeyTs rightTs ps
                              else mret (rightKeyTs, rightTs));
    let joinArgs := mkJoinNodeArgs ps (default 0%Z (JoinTypeLpToEp tp)) PsiAlgorithmType
      (bool_decide (0 < length leftTs) || bool_decide (PsiAlgorithmType = OPRF)
       || bool_decide (tp = core.LeftOuterJoin))
      (bool_decide (0 < length rightTs) || bool_decide (PsiAlgorithmType = OPRF)
       || bool_decide (tp = core.RightOuterJoin)) in
    '(leftIndexT, rightIndexT) ← wrapErr "buildEQJoin: "
      (on_plan (AddJoinNode "join" leftKeyTs rightKeyTs joinArgs));
    '(leftIndexCC, rightIndexCC) ← lift (createCCLForIndexT (childDataSourceParties n));
    m ← apply_index leftIndexT leftIndexCC leftTs leftColumns ∅;
    m ← apply_index rightIndexT rightIndexCC rightTs rightColumns m;
    setTable n m.

Definition buildJoin (n : baseNode) (children : list logicalNode) (tp : core.JoinType)
    (EqualConditions : list ScalarFunction)
    (LeftConditions RightConditions OtherConditions : list Expr) : MC (list nat) :=
  match children with
  | [leftN; rightN] =>
      match JoinTypeLpToEp tp with
      | None => fail "buildJoin doesn't support join type"
      | Some _ =>
          if negb (bool_decide (OtherConditions = [])) || negb (bool_decide (RightConditions = []))
             || negb (bool_decide (LeftConditions = [])) then
            fail "buildJoin doesn't support other condition, right condition, left condition"
          else if negb (bool_decide (EqualConditions = [])) then
            buildEQJoin n leftN rightN tp EqualConditions
          else
            resultIdToTensor ← buildCrossJoin leftN rightN;
            setTable n resultIdToTensor
      end
  | _ => fail "buildJoin: unexpected number of children"
  end.

(** ** Selections *)

(** Where a column is filtered when all parties may see the filter. *)
Definition split_visible (s : split) (columnId : Z) (it : nat) : MC split :=
  x ← tensor it;
  match tensor_status x with
  | TENSORSTATUS_SECRET => mret (add_share columnId it s)
  | TENSORSTATUS_PRIVATE => mret (add_private (OwnerPartyCode x) columnId it s)
  | _ => fail "unsupported tensor status for selection node"
  end.

(** And otherwise: at its owner, or at some party that may see both. *)
Definition split_hidden (filterCC : CCL) (s : split) (columnId : Z) (it : nat) : MC split :=
  x ← tensor it;
  if bool_decide (tensor_status x = TENSORSTATUS_PRIVATE)
     && IsVisibleFor filterCC (OwnerPartyCode x) then
    mret (add_private (OwnerPartyCode x) columnId it s)
  else match Filter (GetVisibleParties (CC x)) (IsVisibleFor filterCC) with
       | [] => fail "failed to find a party can see filter and tensor"
       | party :: _ =>
           newT ← convertTo it (privatePlacement party);
           mret (add_private party columnId newT s)
       end.

Definition split_columns (filter : nat) (colIdToTensor : gmap Z (option nat)) : MC split :=
  foldlM (λ s '(columnId, it),
      f ← tensor filter;
      let visible := bool_decide (length (GetVisibleParties (CC f)) = length parties) in
      it ← lift (res_of_option Panic it);
      if visible then split_visible s columnId it else split_hidden (CC f) s columnId it)
    (mkSplit [] ∅) (SortedMap colIdToTensor).

Definition filter_split (filter : nat) (s : split) : MC (gmap Z nat) :=
  result ← (if bool_decide (shareTs s = []) then mret ∅
    else
      publicFilter ← wrapErr "buildSelection: " (convertTo filter (publicPlacement parties));
      wrapErr "buildSelection: " (filter_group publicFilter parties (shareTs s) ∅));
  foldlM (λ result '(p, group),
      newFilter ← wrapErr "buildSelection: " (convertTo filter (privatePlacement p));
      wrapErr "buildSelection: " (filter_group newFilter [p] group result))
    result (SortedMap (privateTs s)).

Definition buildSelection (n : baseNode) (children : list logicalNode) (Conditions : list Expr)
    : MC (list nat) :=
  match children with
  | [child] =>
      childIdToTensor ← lift (assign (column_ids (node_Schema child)) (ResultTable child) ∅);
      if bool_decide (Conditions = []) then setTable n childIdToTensor
      else
        let colIdToTensor := pointers (schema n) childIdToTensor in
        filters ← mapM (λ cond, buildExpression cond childIdToTensor false) Conditions;
        filter0 ← index0 filters;
        filter ← foldlM (addBinaryNode "logical_and" OpNameLogicalAnd) filter0 (tail filters);
        s ← split_columns filter colIdToTensor;
        resultIdToTensor ← filter_split filter s;
        setTable n resultIdToTensor
  | _ => fail "buildSelection: unexpected number of children"
  end.

(** ** Projections *)
Definition buildProjection (n : baseNode) (children : list logicalNode) (Exprs : list Expr)
    : MC (list nat) :=
  match children with
  | [child] =>
      colIdToTensor ← lift (assign (column_ids (node_Schema child)) (ResultTable child) ∅);
      tensors ← wrapErr "buildProjection: " (mapM (getTensorFromExpression colIdToTensor) Exprs);
      outputs ← wrapErr "buildProjection: " (addBroadcastToNodeOndemand tensors);
      resultIdToTensor ← lift (assign_all (column_ids (schema n)) outputs ∅);
      setTable n resultIdToTensor
  | _ => fail "buildProjection: unexpected number of children"
  end.

(** ** Aggregations without groups *)
Definition percent_attr (prefix : string) (arg : Expr) : MC (gmap string Attribute) :=
  percent ← wrapErr prefix (lift (ParseFloat arg));
  if percent_ok percent then mret {[ "percent" := SetDouble percent ]}
  else fail "invalid percentile value, it should be in [0, 1]".

(** COUNT(DISTINCT c) *)
Definition count_distinct (colT : nat) : MC nat :=
  c ← tensor colT;
  if bool_decide (tensor_status c = TENSORSTATUS_PRIVATE) then
    colT ← wrapErr "buildAggregation: add unique node: "
             (addUniqueNode "unique" colT (OwnerPartyCode c));
    wrapErr "buildAggregation: count: " (on_plan (AddReduceAggNode ast.AggFuncCount colT ∅))
  else
    sortedDistinctCol ← wrapErr "buildAggregation: " (addSortNode "count.sort" [colT] [colT] false);
    groupMarkDistinct ← wrapErr "buildAggregation: "
                          (addObliviousGroupMarkNode "group_mark" sortedDistinctCol);
    wrapErr "buildAggregation: " (on_plan (AddReduceAggNode ast.AggFuncSum groupMarkDistinct ∅)).

(** COUNT(constant): the number of rows of the first tensor of the child. *)
Definition count_rows (child : logicalNode) : MC nat :=
  t ← index0 (ResultTable child);
  x ← tensor t;
  partyCode ← match tensor_status x with
              | TENSORSTATUS_PRIVATE => mret (OwnerPartyCode x)
              | TENSORSTATUS_SECRET | TENSORSTATUS_PUBLIC => index0 parties
              | _ => fail "buildAggregation: count func doesn't support tensor status"
              end;
  wrapErr "buildAggregation: count: " (on_plan (AddShapeNode "shape" t 0 partyCode)).

Definition reduce (m : gmap Z nat) (aggName : string) (arg : Expr) : MC nat :=
  colT ← wrapErr "buildAggregation: " (buildExpression arg m false);
  wrapErr "buildAggregation: " (on_plan (AddReduceAggNode aggName colT ∅)).

Definition buildAggFunc (child : logicalNode) (childColIdToTensor : gmap Z nat)
    (aggFunc : AggFuncDesc) : MC nat :=
  let name := Agg_Name aggFunc in
  if negb (bool_decide (length (Agg_Args aggFunc) = 1))
     && negb (bool_decide (name = ast.AggPercentileDisc)) then
    fail "buildAggregation: unsupported aggregation function"
  else if bool_decide (name ∈ [ast.AggFuncSum; ast.AggFuncMax; ast.AggFuncMin; ast.AggFuncAvg]) then
    arg ← index0 (Agg_Args aggFunc);
    if bool_decide (Tp (GetType arg) = mysql.TypeString) then
      fail "buildAggregation: unsupported aggregation function with a string type argument"
    else reduce childColIdToTensor name arg
  else if bool_decide (name = ast.AggFuncCount) then
    arg ← index0 (Agg_Args aggFunc);
    match Agg_Mode aggFunc with
    | CompleteMode =>
        if HasDistinct aggFunc then
          colT ← wrapErr "buildAggregation: " (buildExpression arg childColIdToTensor false);
          count_distinct colT
        else match arg with
             | EConstant _ _ => count_rows child
             | _ => reduce childColIdToTensor ast.AggFuncCount arg
             end
    | FinalMode => reduce childColIdToTensor ast.AggFuncSum arg
    | _ => fail "buildAggregation: unrecognized count func mode"
    end
  else if bool_decide (name = ast.AggPercentileDisc) then
    arg ← index0 (Agg_Args aggFunc);
    colT ← wrapErr "buildAggregation: " (buildExpression arg childColIdToTensor false);
    percentArg ← index (Agg_Args aggFunc) 1;
    attr ← percent_attr "buildAggregation: invalid percentile given, error; " percentArg;
    wrapErr "buildAggregation: " (on_plan (AddReduceAggNode ast.AggPercentileDisc colT attr))
  else fail "buildAggregation: unsupported aggregation function".

(** [for i, aggFunc := range agg.AggFuncs], with the column [i] of the schema. *)
Definition for_agg_funcs (n : baseNode) (aggFuncs : list AggFuncDesc) (f : AggFuncDesc → MC nat)
    : MC (gmap Z nat) :=
  foldlM (λ m '(i, aggFunc),
      output ← f aggFunc;
      col ← index (schema n) i;
      mret (<[UniqueID col := output]> m)) ∅ (imap pair aggFuncs).

(** ** Grouped aggregations at one party *)

(** A party that may see all keys and can compute every aggregate, or the empty
    string. *)
Definition candidate_handles (env : gmap Z CCL) (party : string) (aggFunc : AggFuncDesc)
    : res bool :=
  if negb (bool_decide (length (Agg_Args aggFunc) = 1))
     && negb (bool_decide (Agg_Name aggFunc = ast.AggPercentileDisc)) then
    Err "findPartyHandleAll: args length > 1"
  else match Agg_Args aggFunc with
       | [] => Panic
       | arg :: _ =>
           cc ← InferExpressionCCL arg env;
           Ok (IsVisibleFor cc party || isSimpleCount aggFunc || isHeSuitable aggFunc cc)
       end.

(** The loop over the aggregates stops at the first that cannot be handled. *)
Fixpoint handles_all (env : gmap Z CCL) (party : string) (aggFuncs : list AggFuncDesc)
    : res bool :=
  match aggFuncs with
  | [] => Ok true
  | aggFunc :: aggFuncs =>
      b ← candidate_handles env party aggFunc;
      if b : bool then handles_all env party aggFuncs else Ok false
  end.

Fixpoint first_handling (env : gmap Z CCL) (aggFuncs : list AggFuncDesc) (ps : list string)
    : res string :=
  match ps with
  | [] => Ok ""
  | p :: ps =>
      b ← handles_all env p aggFuncs;
      if b : bool then Ok p else first_handling env aggFuncs ps
  end.

(** The CCLs of the columns of a node; a nil CCL panics when it is read. *)
Definition node_env (n : logicalNode) : res (gmap Z CCL) :=
  if bool_decide (map_Forall (λ _ r, is_Some (deref ccls r)) (node_CCL n))
  then Ok (env_of ccls (node_CCL n)) else Panic.

(** The candidates that may see the value of every expression. *)
Definition visible_candidates (env : gmap Z CCL) (items : list Expr) : res (gmap string bool) :=
  foldlM (λ m item, cc ← InferExpressionCCL item env; Ok (drop_blind parties cc m))
    all_candidates items.

Definition findPartyHandleAll (child : logicalNode) (aggFuncs : list AggFuncDesc)
    (GroupByItems : list Expr) : res string :=
  env ← node_env child;
  m ← visible_candidates env GroupByItems;
  first_handling env aggFuncs (SortMapKeyForDeterminism m).

Definition buildGroupId (child : logicalNode) (GroupByItems : list Expr) (partyCode : string)
    : MC (nat * nat) :=
  childColIdToTensor ← lift (getNodeResultTensor child);
  groupCol ← wrapErr "buildGroupId: "
               (mapM (getTensorFromExpression childColIdToTensor) GroupByItems);
  addGroupNode "group" groupCol partyCode.

(** One aggregate at [party]; a sum over a column the party may not see runs under
    homomorphic encryption with a party that may see it. *)
Definition private_agg (groupId groupNum : nat) (childColIdToTensor : gmap Z nat) (party : string)
    (aggFunc : AggFuncDesc) : MC nat :=
  let name := Agg_Name aggFunc in
  let group (nodeName opType : string) (t : nat) (attr : gmap string Attribute) : MC nat :=
    outputs ← wrapErr "buildPrivateGroupAggregation: "
                (addGroupAggNode nodeName opType groupId groupNum [t] party attr);
    index0 outputs in
  if negb (bool_decide (length (Agg_Args aggFunc) = 1))
     && negb (bool_decide (name = ast.AggPercentileDisc)) then
    fail "buildPrivateGroupAggregation: unsupported aggregation function"
  else if isSimpleCount aggFunc then group ast.AggFuncCount OpNameGroupCount groupId ∅
  else
    arg ← index0 (Agg_Args aggFunc);
    colT ← wrapErr "buildPrivateGroupAggregation: " (buildExpression arg childColIdToTensor false);
    if bool_decide (name = ast.AggFuncCount) then
      match Agg_Mode aggFunc with
      | CompleteMode =>
          if HasDistinct aggFunc then group "count_distinct" OpNameGroupCountDistinct colT ∅
          else fail "buildPrivateGroupAggregation: count(*) should not reach here"
      | FinalMode =>
          match arg with
          | EColumn _ => group ast.AggFuncSum OpNameGroupSum colT ∅
          | _ => fail "buildPrivateGroupAggregation: unsupported count final type"
          end
      | _ => fail "buildPrivateGroupAggregation: aggFunc.Mode"
      end
    else if bool_decide (name ∈ [ast.AggFuncFirstRow; ast.AggFuncMin; ast.AggFuncMax;
                                 ast.AggFuncAvg]) then
      group name (default "" (GroupAggOp !! name)) colT ∅
    else if bool_decide (name = ast.AggFuncSum) then
      c ← tensor colT;
      if IsVisibleFor (CC c) party then group ast.AggFuncSum OpNameGroupSum colT ∅
      else
        colTParty ← (if bool_decide (tensor_status c = TENSORSTATUS_PRIVATE)
                     then mret (OwnerPartyCode c) else index0 (GetVisibleParties (CC c)));
        wrapErr "buildPrivateGroupAggregation: "
          (addGroupHeSumNode "he_sum" groupId groupNum colT party colTParty)
    else if bool_decide (name = ast.AggPercentileDisc) then
      if negb (bool_decide (length (Agg_Args aggFunc) = 2)) then
        fail "buildPrivateGroupAggregation: percentile_disc requires 2 arguments"
      else
        percentArg ← index (Agg_Args aggFunc) 1;
        attr ← percent_attr "buildPrivateGroupAggregation: not a valid float value: " percentArg;
        group ast.AggPercentileDisc OpNameGroupPercentileDisc colT attr
    else fail "buildPrivateGroupAggregation: unsupported aggregation function".

Definition buildPrivateGroupAggregation (n : baseNode) (child : logicalNode)
    (aggFuncs : list AggFuncDesc) (GroupByItems : list Expr) (party : string) : MC (list nat) :=
  '(groupId, groupNum) ← wrapErr "buildPrivateGroupAggregation: "
                           (buildGroupId child GroupByItems party);
  childColIdToTensor ← lift (getNodeResultTensor child);
  colIdToTensor ← for_agg_funcs n aggFuncs (private_agg groupId groupNum childColIdToTensor party);
  setTable n colIdToTensor.

(** ** Grouped aggregations on shares *)

(** A party that may see the keys, at least after grouping. *)
Definition findRevealPartyForShuffleSort (sortKeys : list Tensor) : string :=
  if negb RevealGroupCount then ""
  else
    let skip := match sortKeys with
                | [key] => existsb (IsVisibleFor (CC key)) parties
                | _ => false
                end in
    if skip then ""
    else default "" (head (Filter parties (λ p,
           forallb (λ key, IsVisibleFor (CC key) p || bool_decide (LevelFor (CC key) p = GroupBy))
             sortKeys))).

(** The keys are shuffled with the payload and revealed to the party: the key's CCL is
    raised for it on the shuffled tensor. *)
Definition shuffle_keys (sortKeys payload : list nat) (partyToReveal : string)
    : MC (list nat * list nat) :=
  shuffledTensor ← wrapErr "buildObliviousGroupAggregation: "
                     (addShuffleNode "shuffle" (sortKeys ++ payload));
  keys ← mapM (λ key,
      _ ← upd key (λ k, set_CC (SetLevelForParty (CC k) partyToReveal Plain) k);
      wrapErr "buildObliviousGroupAggregation: " (convertTo key (privatePlacement partyToReveal)))
    (take (length sortKeys) shuffledTensor);
  mret (keys, drop (length sortKeys) shuffledTensor).

Definition oblivious_count (groupMark : nat) (sortedKeys : list nat) (m : gmap Z nat)
    (aggFunc : AggFuncDesc) (arg : Expr) : MC nat :=
  let prefix := "buildObliviousGroupAggregation: " in
  match Agg_Mode aggFunc with
  | CompleteMode =>
      if HasDistinct aggFunc then
        colT ← wrapErr prefix (buildExpression arg m false);
        sortedDistinctCol ← wrapErr prefix
                              (addSortNode "sort" (sortedKeys ++ [colT]) [colT] false);
        groupMarkDistinct ← wrapErr prefix
                              (addObliviousGroupMarkNode "group_mark" sortedDistinctCol);
        groupMarkFull ← wrapErr prefix
          (addBinaryNode OpNameLogicalOr OpNameLogicalOr groupMark groupMarkDistinct);
        wrapErr prefix (addObliviousGroupAggNode ast.AggFuncSum groupMark groupMarkFull ∅)
      else wrapErr prefix (addObliviousGroupAggNode ast.AggFuncCount groupMark groupMark ∅)
  | FinalMode =>
      match arg with
      | EColumn x =>
          colT ← lift (res_of_option Panic (m !! UniqueID x));
          wrapErr prefix (addObliviousGroupAggNode ast.AggFuncSum groupMark colT ∅)
      | _ => fail "buildObliviousGroupAggregation: unsupported aggregation function"
      end
  | _ => fail "buildObliviousGroupAggregation: unrecognized count func mode"
  end.

Definition oblivious_agg (groupMark : nat) (sortedKeys : list nat) (m : gmap Z nat)
    (aggFunc : AggFuncDesc) : MC nat :=
  let name := Agg_Name aggFunc in
  let prefix := "buildObliviousGroupAggregation: " in
  if negb (bool_decide (length (Agg_Args aggFunc) = 1))
     && negb (bool_decide (name = ast.AggPercentileDisc)) then
    fail "buildObliviousGroupAggregation: unsupported aggregation function"
  else
    if bool_decide (name = ast.AggFuncFirstRow) then
      arg ← index0 (Agg_Args aggFunc);
      wrapErr prefix (buildExpression arg m false)
    else if bool_decide (name ∈ [ast.AggFuncSum; ast.AggFuncMax; ast.AggFuncMin; ast.AggFuncAvg])
    then
      arg ← index0 (Agg_Args aggFunc);
      if bool_decide (EvalType (GetType arg) = ETString) then
        fail "buildObliviousGroupAggregation: unsupported aggregation function with a string type argument"
      else
        colT ← wrapErr prefix (buildExpression arg m false);
        output ← wrapErr prefix (addObliviousGroupAggNode name groupMark colT ∅);
        _ ← upd output (set_SkipDTypeCheck true);
        mret output
    else if bool_decide (name = ast.AggFuncCount) then
      arg ← index0 (Agg_Args aggFunc);
      oblivious_count groupMark sortedKeys m aggFunc arg
    else if bool_decide (name = ast.AggPercentileDisc) then
      arg ← index0 (Agg_Args aggFunc);
      colT ← wrapErr prefix (buildExpression arg m false);
      sortedCol ← wrapErr prefix (addSortNode "sort" (sortedKeys ++ [colT]) [colT] false);
      percentArg ← index (Agg_Args aggFunc) 1;
      attr ← percent_attr "buildObliviousGroupAggregation: not a valid float value: " percentArg;
      c ← index0 sortedCol;
      wrapErr prefix (addObliviousGroupAggNode name groupMark c attr)
    else fail "buildObliviousGroupAggregation: unsupported aggregation function".

(** Marks and results are shuffled before the marks become public, unless the query
    allows the group marks to be revealed. *)
Definition shuffle_result (rt : list nat) (groupMark : nat) : MC (list nat * nat) :=
  if negb RevealGroupMark then
    shuffled ← wrapErr "buildObliviousGroupAggregation: "
                 (addShuffleNode "shuffle" (rt ++ [groupMark]));
    mark ← index shuffled (length rt);
    mret (take (length rt) shuffled, mark)
  else mret (rt, groupMark).

Definition buildObliviousGroupAggregation (n : baseNode) (child : logicalNode)
    (aggFuncs : list AggFuncDesc) (GroupByItems : list Expr) : MC (list nat) :=
  let prefix := "buildObliviousGroupAggregation: " in
  childColIdToTensor ← lift (getNodeResultTensor child);
  sortKeys ← wrapErr prefix (mapM (getTensorFromExpression childColIdToTensor) GroupByItems);
  keyTs ← mapM tensor sortKeys;
  let partyToReveal := findRevealPartyForShuffleSort keyTs in
  '(sortKeys, payload) ← (if negb (bool_decide (partyToReveal = ""))
                          then shuffle_keys sortKeys (ResultTable child) partyToReveal
                          else mret (sortKeys, ResultTable child));
  out ← wrapErr prefix (addSortNode "sort" sortKeys (sortKeys ++ payload) false);
  let sortedKeys := take (length sortKeys) out in
  sortedChildColIdToTensor ←
    lift (assign_all (column_ids (node_Schema child)) (drop (length sortKeys) out) ∅);
  groupMark ← wrapErr prefix (addObliviousGroupMarkNode "group_mark" sortedKeys);
  colIdToTensor ← for_agg_funcs n aggFuncs
                    (oblivious_agg groupMark sortedKeys sortedChildColIdToTensor);
  rt ← wrapErr prefix (extractResultTable n (Some <$> colIdToTensor));
  '(rt, groupMark) ← shuffle_result rt groupMark;
  _ ← forM (λ p, upd groupMark (λ g, set_CC (SetLevelForParty (CC g) p Plain) g)) parties;
  groupMarkPub ← wrapErr prefix (convertTo groupMark (publicPlacement parties));
  rtFiltered ← wrapErr prefix (on_plan (AddFilterNode "filter" rt groupMarkPub parties));
  SetResultTableWithDTypeCheck n rtFiltered.

Definition buildGroupAggregation (n : baseNode) (child : logicalNode)
    (aggFuncs : list AggFuncDesc) (GroupByItems : list Expr) : MC (list nat) :=
  party ← wrapErr "buildGroupAggregation: "
            (lift (findPartyHandleAll child aggFuncs GroupByItems));
  if negb (bool_decide (party = "")) then
    buildPrivateGroupAggregation n child aggFuncs GroupByItems party
  else buildObliviousGroupAggregation n child aggFuncs GroupByItems.

Definition buildAggregation (n : baseNode) (children : list logicalNode)
    (aggFuncs : list AggFuncDesc) (GroupByItems : list Expr) : MC (list nat) :=
  match children with
  | [child] =>
      if negb (bool_decide (GroupByItems = []))
      then buildGroupAggregation n child aggFuncs GroupByItems
      else
        childColIdToTensor ← lift (getNodeResultTensor child);
        colIdToTensor ← for_agg_funcs n aggFuncs (buildAggFunc child childColIdToTensor);
        setTable n colIdToTensor
  | _ => fail "buildAggregation: failed to check number of children"
  end.

(** ** Unions, limits, sorts *)
Definition buildUnion (n : baseNode) (children : list logicalNode) : MC (list nat) :=
  colIdToTensor ← foldlM (λ m '(i, c),
      ts ← mapM (λ child, index (ResultTable child) i) children;
      ot ← wrapErr "buildUnion: " (addConcatNode ts);
      mret (<[UniqueID c := ot]> m)) ∅ (imap pair (schema n));
  setTable n colIdToTensor.

Definition limit_group (Offset Count : Z) (ps : list string) (group : list (Z * nat))
    (m : gmap Z nat) : MC (gmap Z nat) :=
  output ← wrapErr "buildLimit: "
    (on_plan (AddLimitNode "limit" group.*2 (i64 Offset) (i64 Count) ps));
  lift (assign_all group.*1 output m).

Definition buildLimit (n : baseNode) (children : list logicalNode) (Offset Count : Z)
    : MC (list nat) :=
  match children with
  | [child] =>
      childColIdToTensor ← lift (getNodeResultTensor child);
      s ← foldlM (λ s '(columnId, it),
          x ← tensor it;
          match tensor_status x with
          | TENSORSTATUS_SECRET | TENSORSTATUS_PUBLIC => mret (add_share columnId it s)
          | TENSORSTATUS_PRIVATE => mret (add_private (OwnerPartyCode x) columnId it s)
          | _ => fail "buildLimit: unsupported tensor status"
          end) (mkSplit [] ∅) (SortedMap childColIdToTensor);
      m ← (if bool_decide (shareTs s = []) then mret ∅
           else limit_group Offset Count parties (shareTs s) ∅);
      m ← foldlM (λ m '(party, group), limit_group Offset Count [party] group m)
            m (SortedMap (privateTs s));
      setTable n m
  | _ => fail "buildLimit: unexpected number of children"
  end.

(** The keys of an ordering: one direction, and an order every party may learn. *)
Definition sort_key (childIdToTensor : gmap Z nat) (desc : bool) (item : ByItems) : MC nat :=
  if negb (bool_decide (desc = by_Desc item)) then
    fail "buildSort: sorting multiple columns in different order directions is not supported"
  else
    t ← wrapErr "buildSort: failed to get tensor of col: "
          (getTensorFromExpression childIdToTensor (by_Expr item));
    x ← tensor t;
    if forallb (λ p, IsVisibleFor (CC x) p || bool_decide (LevelFor (CC x) p = Rank)) parties
    then mret t else fail "buildSort: col's order is not visible".

(** The error of [addSortNode] is dropped: it shows in the number of outputs. *)
Definition buildSort (n : baseNode) (children : list logicalNode) (items : list ByItems)
    : MC (list nat) :=
  child ← index0 children;
  childIdToTensor ← lift (getNodeResultTensor child);
  match items with
  | [] => fail "buildSort: order by items are required in sort node"
  | item :: _ =>
      let desc := by_Desc item in
      sortKeys ← mapM (sort_key childIdToTensor desc) items;
      payload ← wrapErr "buildSort: failed to get tensor of col: "
        (mapM (λ col, lift (getTensorFromColumn col childIdToTensor)) (schema n));
      output ← attempt (addSortNode OpNameSort sortKeys payload desc);
      let output := default [] output in
      if negb (bool_decide (length output = length payload)) then
        fail "buildSort: input tensors' size not equal to output tensors' size"
      else
        m ← lift (assign (column_ids (schema n)) output ∅);
        setTable n m
  end.

(** ** Windows *)
Definition findVisibleWindowParty (child : logicalNode) (PartitionBy OrderBy : list Item)
    : res string :=
  env ← node_env child;
  m ← visible_candidates env (EColumn ∘ Col <$> PartitionBy ++ OrderBy);
  Ok (first_candidate m).

Definition buildPartitionId (PartitionBy : list Item) (partyCode : string) (m : gmap Z nat)
    : MC (nat * nat) :=
  partitionCol ← wrapErr "buildPartitionId: "
    (mapM (λ item, lift (getTensorFromColumn (Col item) m)) PartitionBy);
  addGroupNode "group" partitionCol partyCode.

Definition extractOrderByBlock (OrderBy : list Item) (m : gmap Z nat) (partyCode : string)
    : MC (list nat * list string) :=
  sortKey ← mapM (λ item,
      t ← wrapErr "buildPartitionId: " (lift (getTensorFromColumn (Col item) m));
      wrapErr "addPartitionNode: " (convertTo t (privatePlacement partyCode))) OrderBy;
  mret (sortKey, (λ item, if Desc item then "1" else "0") <$> OrderBy).

(** The operator and the type of a ranking function. *)
Definition rank_window (name : string) : option (string * PrimitiveDataType) :=
  if bool_decide (name = ast.WindowFuncRowNumber) then Some (OpNameRowNumber, INT64)
  else if bool_decide (name = ast.WindowFuncPercentRank) then Some (OpNamePercentRank, FLOAT64)
  else if bool_decide (name = ast.WindowFuncRank) then Some (OpNameRank, INT64)
  else None.

(** The error of [extractOrderByBlock] is dropped: the window then has no keys. *)
Definition buildPrivateRankWindow (n : baseNode) (desc : string) (PartitionBy OrderBy : list Item)
    (party : string) (colIdToTensor : gmap Z nat) : MC (list nat) :=
  '(partitionId, partitionNum) ← wrapErr "buildPrivateRankWindow: "
                                   (buildPartitionId PartitionBy party colIdToTensor);
  output ← on_plan (AddTensor "Out");
  lastCol ← lift (res_of_option Panic (last (schema n)));
  cc ← match colIdToTensor !! UniqueID lastCol with
       | None => mret (SetLevelForParty NewCCL party Plain)
       | Some t => x ← tensor t; mret (Clone (CC x))
       end;
  _ ← upd output (λ o, set_OwnerPartyCode party (set_CC cc (SetStatus TENSORSTATUS_PRIVATE o)));
  block ← attempt (extractOrderByBlock OrderBy colIdToTensor party);
  let '(sortKey, reverse) := default ([], []) block in
  match rank_window desc with
  | None => fail "buildPrivateRankWindow: unsupported window function"
  | Some (op, tp) =>
      _ ← upd output (set_DType tp);
      _ ← addWindowNode op sortKey partitionId partitionNum output (SetStrings reverse) party;
      setTable n (<[UniqueID lastCol := output]> colIdToTensor)
  end.

Definition window_payload (n : baseNode) (m : gmap Z nat) : MC (list nat) :=
  if bool_decide (schema n = []) then panic
  else wrapErr "buildObliviousRankWindow: "
         (mapM (λ col, lift (getTensorFromColumn col m)) (removelast (schema n))).

(** RANK and PERCENT_RANK aggregate the marks of the order keys, as numbers. *)
Definition rank_marks (funcName : string) (groupMark : nat) (orderMarkKeys : list nat) : MC nat :=
  orderMark ← wrapErr "builObliviousRankWindow: "
                (addObliviousGroupMarkNode "order_mark" orderMarkKeys);
  _ ← upd orderMark (set_DType INT64);
  wrapErr "builObliviousRankWindow: " (addObliviousGroupAggNode funcName groupMark orderMark ∅).

Definition buildObliviousRankWindow (n : baseNode) (child : logicalNode) (desc : string)
    (PartitionBy OrderBy : list Item) : MC (list nat) :=
  childColIdToTensor ← lift (getNodeResultTensor child);
  partitionKeys ← wrapErr "buildObliviousRankWindow: "
    (mapM (λ item, lift (getTensorFromColumn (Col item) childColIdToTensor)) PartitionBy);
  orderKeys ← mapM (λ item,
      if Desc item then
        fail "buildObliviousRankWindow: desc order key is not supported in secret window implementation"
      else wrapErr "builObliviousRankWindow: "
             (lift (getTensorFromColumn (Col item) childColIdToTensor))) OrderBy;
  payload ← window_payload n childColIdToTensor;
  let sortKeys := partitionKeys ++ orderKeys in
  out ← wrapErr "builObliviousRankWindow: sort with partition ids err: "
          (addSortNode "sort" sortKeys (sortKeys ++ payload) false);
  let partitionedKeys := take (length partitionKeys) out in
  let orderMarkKeys := take (length sortKeys) out in
  let sortedPayloadTensors := drop (length sortKeys) out in
  groupMark ← wrapErr "builObliviousRankWindow: "
                (addObliviousGroupMarkNode "partition_mark" partitionedKeys);
  output ← (if bool_decide (desc = ast.WindowFuncRowNumber) then
      wrapErr "builObliviousRankWindow: "
        (addObliviousGroupAggNode ast.AggFuncCount groupMark groupMark ∅)
    else if bool_decide (desc = ast.WindowFuncPercentRank) then
      rank_marks ast.WindowFuncPercentRank groupMark orderMarkKeys
    else if bool_decide (desc = ast.WindowFuncRank) then
      rank_marks ast.WindowFuncRank groupMark orderMarkKeys
    else fail "buildObliviousRankWindow: unsupported window function");
  SetResultTableWithDTypeCheck n (sortedPayloadTensors ++ [output]).

Definition buildRankWindow (n : baseNode) (children : list logicalNode) (desc : string)
    (PartitionBy OrderBy : list Item) : MC (list nat) :=
  child ← index0 children;
  colIdToTensor ← lift (getNodeResultTensor child);
  visibleParty ← wrapErr "buildRankWindow: "
                   (lift (findVisibleWindowParty child PartitionBy OrderBy));
  if negb (bool_decide (visibleParty = "")) then
    buildPrivateRankWindow n desc PartitionBy OrderBy visibleParty colIdToTensor
  else buildObliviousRankWindow n child desc PartitionBy OrderBy.

Definition buildAggWindow : MC (list nat) := fail "aggregation window function is not supported".

Definition buildWindow (n : baseNode) (children : list logicalNode) (descs : list string)
    (PartitionBy OrderBy : list Item) : MC (list nat) :=
  match descs with
  | [desc] => if IsRankWindowFunc desc then buildRankWindow n children desc PartitionBy OrderBy
              else buildAggWindow
  | _ => fail "buildWindow: unsupported windowFuncDescs length"
  end.

Definition buildMaxOneRow (n : baseNode) (children : list logicalNode) : MC (list nat) :=
  child ← index0 children;
  m ← lift (getNodeResultTensor child);
  setTable n m.

(** ** The walk through the plan

    The translator's own state: the converter with the plan, and the flag that a
    selection leaves.  The last selection decides. *)
Record translator := mkTranslator {
  converter : statusConverter;
  AffectedByGroupThreshold : bool;
}.

Definition on_converter {A} (m : MC A) : M translator A := λ t,
  let '(c, r) := m (converter t) in (mkTranslator c (AffectedByGroupThreshold t), r).

Definition buildNode (n : baseNode) (children : list logicalNode) : M translator (list nat) :=
  match lp n with
  | LogicalProjection Exprs => on_converter (buildProjection n children Exprs)
  | LogicalSelection Conditions affected =>
      _ ← modify (λ t, mkTranslator (converter t) affected);
      on_converter (buildSelection n children Conditions)
  | LogicalJoin tp eqs ls rs others => on_converter (buildJoin n children tp eqs ls rs others)
  | LogicalApply tp eqs ls rs others => on_converter (buildApply n children tp eqs ls rs others)
  | LogicalAggregation aggs items _ => on_converter (buildAggregation n children aggs items)
  | DataSource _ _ _ => fail "translate: DataSource is invisible to all party"
  | LogicalUnionAll => on_converter (buildUnion n children)
  | LogicalWindow descs part order => on_converter (buildWindow n children descs part order)
  | LogicalLimit Offset Count => on_converter (buildLimit n children Offset Count)
  | LogicalSort items => on_converter (buildSort n children items)
  | LogicalMaxOneRow => on_converter (buildMaxOneRow n children)
  | LogicalOther _ => fail "translate: unsupported logical node type"
  end.

(** The node comes back with the result tables of its subtree set. *)
Fixpoint translateInternal (ln : logicalNode) : M translator logicalNode :=
  let '(Node b children) := ln in
  match dataSourceParties b with
  | [party] =>
      rt ← on_converter (buildRunSQL ln party);
      mret (Node (set_rt b rt) children)
  | _ =>
      children ← mapM translateInternal children;
      rt ← buildNode b children;
      mret (Node (set_rt b rt) children)
  end.

(** ** Handing the result over *)

(** What the plan says about its result: the names of the columns, and the options of
    [INTO OUTFILE] and [INSERT]. *)
Record resultOptions := mkResultOptions {
  outputNames : list string;
  IntoOpt : option (SelectIntoOption * list PartyFile);
  InsertTableOpt : option InsertTableOption;
}.

Definition prepareResultNodeIoForParty (ln : logicalNode) (names : list string)
    (partyCode : string) : MC (list nat * list nat) :=
  ios ← mapM (λ '(i, it),
      it ← convertTo it (privatePlacement partyCode);
      ot ← on_plan (AddTensorAs it);
      name ← index names i;
      colName ← (if bool_decide (name = "") then
                   col ← index (node_Schema ln) i; mret (Column_String col)
                 else mret name);
      _ ← upd ot (λ o, set_StringS (Some [colName]) (set_DType STRING
            (set_Name colName (set_Option VALUE o))));
      mret (it, ot)) (imap pair (ResultTable ln));
  mret (ios.*1, ios.*2).

Definition addPublishNode (ln : logicalNode) (names : list string) : MC () :=
  '(input, output) ← wrapErr "addPublishNode: prepare io failed: "
                       (prepareResultNodeIoForParty ln names issuerPartyCode);
  ots ← mapM tensor output;
  _ ← on_plan (modify (λ p, set_OutputName (OutputName p ++ (tensor_Name <$> ots)) p));
  on_plan (AddPublishNode "publish" input output [issuerPartyCode]).

Definition addInsertTableNode (ln : logicalNode) (names : list string) (opt : InsertTableOption)
    : MC () :=
  '(input, output) ← wrapErr "addInsertTableNode: prepare io failed: "
                       (prepareResultNodeIoForParty ln names issuerPartyCode);
  on_plan (AddInsertTableNode "insert_table" input output issuerPartyCode opt).

Definition addDumpFileNode (ln : logicalNode) (names : list string) (intoOpt : SelectIntoOption)
    (partyFiles : list PartyFile) : MC () :=
  forM (λ partyFile,
    '(input, output) ← wrapErr "addDumpFileNode: prepare io failed: "
                         (prepareResultNodeIoForParty ln names (file_PartyCode partyFile));
    wrapErr "AddDumpFileNode: "
      (on_plan (AddDumpFileNodeForParty "dump_file" input output intoOpt partyFile))) partyFiles.

Definition addResultNode (ln : logicalNode) (opts : resultOptions) : MC () :=
  match IntoOpt opts, InsertTableOpt opts with
  | Some (intoOpt, partyFiles), _ => addDumpFileNode ln (outputNames opts) intoOpt partyFiles
  | None, Some opt => addInsertTableNode ln (outputNames opts) opt
  | None, None => addPublishNode ln (outputNames opts)
  end.

Definition translate (ln : logicalNode) (opts : resultOptions) : M translator Graph :=
  ln ← translateInternal ln;
  _ ← on_converter (addResultNode ln opts);
  t ← get;
  lift (Build (plan (converter t))).

(** [NewTranslator] *)
Definition newTranslator : translator :=
  mkTranslator (newStatusConverter (NewGraphBuilder (partyInfo t_enginesInfo) ep_Batched)) false.
End build.

(** ** [Translate] *)

(** A file without a party belongs to the issuer. *)
Definition set_file_party (issuer : string) (opts : resultOptions) : resultOptions :=
  match IntoOpt opts with
  | Some (into, [mkPartyFile f p]) =>
      if bool_decide (p = "")
      then mkResultOptions (outputNames opts) (Some (into, [mkPartyFile f issuer]))
             (InsertTableOpt opts)
      else opts
  | _ => opts
  end.

Definition file_parties (opts : resultOptions) : list string :=
  match IntoOpt opts with Some (_, files) => file_PartyCode <$> files | None => [] end.

Section Translate.
Context `{GoRange}.

(** An issuer that takes no part is replaced by the first participant that may see
    the whole result. *)
Definition substitute_issuer (parties : list string) (issuer : string) (ln : logicalNode)
    (opts : resultOptions) : M store string :=
  if Contains parties issuer then mret issuer
  else
    visible ← VisibleParty ln;
    match go_sort (Exclude visible issuer) with
    | [] => fail "translate: unable to find a candidate party to substitute the issuer"
    | candidate :: _ =>
        match InsertTableOpt opts with
        | Some _ => fail "translate: not allow to insert table when replaced issuer party"
        | None => mret candidate
        end
    end.

(** [Translate] on a preprocessed plan; [c] has the options of the compilation and the
    issuer, and gets the heap of CCLs. *)
Definition Translate (c : config) (ext : externals) (sc : list ColumnControl) (threshold : N)
    (opts : resultOptions) (p : LogicalPlan) : res (Graph * bool) :=
  let info := @t_enginesInfo c in
  let issuer := @issuerPartyCode c in
  let opts := set_file_party issuer opts in
  let '(s, r) :=
    (ln ← Translate_check info sc issuer (file_parties opts) threshold (@PsiAlgorithmType c) p;
     issuer ← substitute_issuer (GetParties (partyInfo info)) issuer ln opts;
     mret (ln, issuer)) (mkStore [] NewColumnTracer) in
  '(ln, issuer) ← r;
  let cfg := mkConfig info issuer (@ep_Batched c) (@opt_Batched c) (@RevealGroupMark c) (@RevealGroupCount c)
               (@PsiAlgorithmType c) (heap s) in
  let '(t, r) := translate (cfg := cfg) (ext := ext) ln opts newTranslator in
  g ← r;
  Ok (g, AffectedByGroupThreshold t).
End Translate.
