(* ===== verification/PlanLogic.v ===== *)
(** * A program logic for plans under construction

    The translator is a long chain of calls that read tensors, make new ones and add
    nodes.  [runs p0 m Q s] says what every such call [m], started in [s] as part of an
    operation that began with the plan [p0], guarantees, whether it succeeds or not:

    - the plan stays [good]: a node only takes tensors that earlier nodes make, no
      tensor is made twice, and the nodes that deliver results take tensors that are
      private to the one party they belong to;
    - what exists is kept ([ext]): made tensors stay made and keep status and owner, and
      the new plan is reached by steps of the machine of [BuilderSpec];
    - the tensors the operation found without a producer are left alone ([frame]).

    The rules below are applied by the tactics at the end of the file. *)
From S2P Require Import Prelude Sliceutil Expression Operator Ccl Graph GraphBuilder.
From S2P Require Import BuilderSpec Algorithm StatusConverter.

Create HintDb plan discriminated.

(** ** Made tensors *)
Definition node_makes (n : ExecutionNode) (t : nat) : Prop :=
  ∃ k l, Outputs n !! k = Some l ∧ t ∈ l.
Definition node_takes (n : ExecutionNode) (t : nat) : Prop :=
  ∃ k l, Inputs n !! k = Some l ∧ t ∈ l.
Definition made (s : GraphBuilder) (t : nat) : Prop :=
  ∃ n, n ∈ all_nodes s ∧ node_makes n t.

(** A property of all tensors of an argument map. *)
Definition args_are (P : nat → Prop) (m : tensor_args) : Prop :=
  map_Forall (λ _ l, Forall P l) m.

Lemma args_are_empty P : args_are P ∅.
Proof. apply map_Forall_empty. Qed.
Lemma args_are_singleton P k l : Forall P l → args_are P {[ k := l ]}.
Proof. intros Hl. by apply map_Forall_singleton. Qed.
Lemma args_are_insert P k l m : Forall P l → args_are P m → args_are P (<[k:=l]> m).
Proof. intros Hl Hm. by apply map_Forall_insert_2. Qed.
Lemma args_are_lookup P m k l t : args_are P m → m !! k = Some l → t ∈ l → P t.
Proof. intros Hm Hl Ht. specialize (Hm k l Hl). rewrite Forall_forall in Hm. by apply Hm. Qed.

#[export] Hint Resolve args_are_empty args_are_singleton args_are_insert : plan.

(** The status and the owner a placement asks for. *)
Definition placed (s : GraphBuilder) (o : nat) (pm : placement) : Prop :=
  ∃ x, Tensors s !! o = Some x ∧ tensor_status x = Status pm
       ∧ ∀ p, pm = privatePlacement p → OwnerPartyCode x = p.

(** Nodes that deliver a result to a party, outside of the engines. *)
Definition delivering : list string := [OpNamePublish; OpNameDumpFile; OpNameInsertTable].
Definition delivers (s : GraphBuilder) (n : ExecutionNode) : Prop :=
  OpType n ∈ delivering →
  ∃ p, Parties n = [p] ∧ args_are (λ t, placed s t (privatePlacement p)) (Inputs n).

(** Operators whose nodes need a reason of their own. *)
Definition special : list string := reserved ++ delivering.

Record good (s : GraphBuilder) : Prop := {
  good_wf : builder_wf s;
  good_known t : made s t → (t < tensorNum s)%nat;
  good_delivers n : n ∈ all_nodes s → delivers s n;
  good_takes v n t : all_nodes s !! v = Some n → node_takes n t →
    ∃ u m, (u < v)%nat ∧ all_nodes s !! u = Some m ∧ node_makes m t;
  good_once u v n m t : all_nodes s !! u = Some n → all_nodes s !! v = Some m →
    node_makes n t → node_makes m t → u = v;
}.

Section logic.
Context (R : relation GraphBuilder).
Record ext (s s' : GraphBuilder) : Prop := {
  ext_num : (tensorNum s ≤ tensorNum s')%nat;
  ext_made t : made s t → made s' t;
  ext_sealed t x : made s t → Tensors s !! t = Some x →
    ∃ y, Tensors s' !! t = Some y ∧ tensor_status y = tensor_status x
         ∧ OwnerPartyCode y = OwnerPartyCode x;
  ext_info : plan_partyInfo s' = plan_partyInfo s;
  ext_batched : batched s' = batched s;
  ext_steps : rtc R s s';
}.

Definition frame (p0 s : GraphBuilder) : Prop :=
  (tensorNum p0 ≤ tensorNum s)%nat ∧
  ∀ t, (t < tensorNum p0)%nat → ¬ made p0 t → ¬ made s t ∧ Tensors s !! t = Tensors p0 !! t.

(** A tensor the operation has allocated and that no node makes yet, fit to be an
    output of the next node. *)
Definition new_output (p0 s : GraphBuilder) (o : nat) : Prop :=
  (tensorNum p0 ≤ o < tensorNum s)%nat ∧ ¬ made s o.
Definition keeps (p0 s s' : GraphBuilder) : Prop := ∀ o, new_output p0 s o → new_output p0 s' o.

Lemma ext_refl s : ext s s.
Proof. split; [done|done| |done|done|done]. intros t x _ Hx. by exists x. Qed.

Lemma ext_trans s1 s2 s3 : ext s1 s2 → ext s2 s3 → ext s1 s3.
Proof.
  intros [N1 M1 S1 I1 B1 R1] [N2 M2 S2 I2 B2 R2]. split; [lia|auto| |congruence|congruence|by etrans].
  intros t x Hm Hx. destruct (S1 t x Hm Hx) as (y & Hy & Hs & Ho).
  destruct (S2 t y (M1 t Hm) Hy) as (z & ? & ? & ?). exists z. split_and!; congruence.
Qed.

Lemma frame_refl s : frame s s.
Proof. by split. Qed.

Lemma frame_trans s1 s2 s3 : frame s1 s2 → frame s2 s3 → frame s1 s3.
Proof.
  intros [N1 F1] [N2 F2]. split; [lia|]. intros t Ht Hm.
  destruct (F1 t Ht Hm) as [Hm2 Hx]. destruct (F2 t) as [? ?]; [lia|done|]. split; [done|congruence].
Qed.

Lemma placed_ext s s' o pm : ext s s' → made s o → placed s o pm → placed s' o pm.
Proof.
  intros He Hm (x & Hx & Hs & Ho). destruct (ext_sealed _ _ He o x Hm Hx) as (y & Hy & Hs' & Ho').
  exists y. split; [done|]. split; [congruence|]. intros p Hp. rewrite Ho'. by apply Ho.
Qed.

Lemma keeps_frame p0 s s' : frame s s' → keeps p0 s s'.
Proof.
  intros [? Hf] o [? Hm]. destruct (Hf o) as [? _]; [lia|done|]. split; [lia|done].
Qed.

Lemma keeps_trans p0 s1 s2 s3 : keeps p0 s1 s2 → keeps p0 s2 s3 → keeps p0 s1 s3.
Proof. intros H1 H2 o Ho. auto. Qed.

Lemma new_output_weaken p0 s1 s o :
  (tensorNum p0 ≤ tensorNum s1)%nat → new_output s1 s o → new_output p0 s o.
Proof. intros Hle [? ?]. split; [lia|done]. Qed.

(** ** The judgement *)
Class Planned (S : Type) := {
  the_plan : S → GraphBuilder;
  mem : S → Prop;
}.

Definition runs {S : Type} `{Planned S} {A} (p0 : GraphBuilder) (m : M S A) (Q : A → S → Prop) (s : S)
    : Prop :=
  let '(s', r) := m s in
  mem s' ∧ good (the_plan s') ∧ ext (the_plan s) (the_plan s') ∧ frame p0 (the_plan s')
  ∧ match r with Ok a => Q a s' | _ => True end.

Section rules.
Context {S : Type} `{Planned S}.
Implicit Types (s : S) (p : GraphBuilder).

(** What holds between two calls of an operation. *)
Definition inv p0 s : Prop := mem s ∧ good (the_plan s) ∧ frame p0 (the_plan s).

Lemma inv_start p0 s : inv p0 s → inv (the_plan s) s.
Proof. intros (? & ? & _). split_and!; [done..|apply frame_refl]. Qed.

Lemma runs_ret {A} p0 (a : A) Q s : inv p0 s → Q a s → runs p0 (mret a) Q s.
Proof. intros (? & ? & ?) ?. split_and!; [done..|apply ext_refl|done|done]. Qed.

Lemma runs_stop {A} p0 (r : res A) Q s :
  inv p0 s → (∀ a, r = Ok a → Q a s) → runs p0 (lift r) Q s.
Proof.
  intros (? & ? & ?) HQ. unfold runs, lift. split_and!; [done..|apply ext_refl|done|].
  destruct r; auto.
Qed.

Lemma runs_fail {A} p0 e (Q : A → S → Prop) s : inv p0 s → runs p0 (fail e) Q s.
Proof. intros (? & ? & ?). split_and!; [done..|apply ext_refl|done|done]. Qed.
Lemma runs_panic {A} p0 (Q : A → S → Prop) s : inv p0 s → runs p0 panic Q s.
Proof. intros (? & ? & ?). split_and!; [done..|apply ext_refl|done|done]. Qed.

Lemma runs_bind {A B} p0 (m : M S A) (k : A → M S B) Q s :
  runs p0 m (λ a s', ext (the_plan s) (the_plan s') → inv p0 s' → runs p0 (k a) Q s') s →
  runs p0 (m ≫= k) Q s.
Proof.
  unfold runs, mbind, M_bind. destruct (m s) as [s' [a| |]]; [|tauto..].
  intros (Hm & Hg & He & Hf & Hk). specialize (Hk He (conj Hm (conj Hg Hf))).
  destruct (k a s') as [s2 r]. destruct Hk as (? & ? & He2 & ? & ?).
  split_and!; [done..|by eapply ext_trans|done|done].
Qed.

(** A call with a specification of its own. *)
Lemma runs_call {A} p0 (m : M S A) (Q' Q : A → S → Prop) s :
  frame p0 (the_plan s) → runs (the_plan s) m Q' s →
  (∀ a s', ext (the_plan s) (the_plan s') → frame (the_plan s) (the_plan s') → inv p0 s' →
     keeps p0 (the_plan s) (the_plan s') → Q' a s' → Q a s') →
  runs p0 m Q s.
Proof.
  unfold runs. destruct (m s) as [s' r]. intros Hf (Hm & Hg & He & Hf' & Hr) HQ.
  assert (frame p0 (the_plan s')) as Hf2 by (by eapply frame_trans).
  split_and!; [done..|]. destruct r; [|done..].
  apply HQ; [done..| |by apply keeps_frame|done]. by split_and!.
Qed.

Lemma runs_conseq {A} p0 (m : M S A) (Q' Q : A → S → Prop) s :
  runs p0 m Q' s → (∀ a s', ext (the_plan s) (the_plan s') → inv p0 s' → Q' a s' → Q a s') →
  runs p0 m Q s.
Proof.
  unfold runs. destruct (m s) as [s' r]. intros (? & ? & ? & ? & Hr) HQ.
  split_and!; [done..|]. destruct r; [|done..]. apply HQ; [done| |done]. by split_and!.
Qed.

Lemma runs_wrapErr {A} p0 e (m : M S A) Q s : runs p0 m Q s → runs p0 (wrapErr e m) Q s.
Proof. unfold runs, wrapErr. by destruct (m s) as [s' [a| |]]. Qed.

Lemma runs_attempt {A} p0 (m : M S A) Q s :
  runs p0 m Q s →
  runs p0 (attempt m) (λ o s', match o with Some a => Q a s' | None => True end) s.
Proof. unfold runs, attempt. by destruct (m s) as [s' [a| |]]. Qed.

Lemma runs_index0 {A} p0 (l : list A) Q s :
  inv p0 s → (∀ a, head l = Some a → Q a s) → runs p0 (index0 l) Q s.
Proof. intros Hi HQ. destruct l; [by apply runs_panic|apply runs_ret; auto]. Qed.

Lemma runs_index {A} p0 (l : list A) i Q s :
  inv p0 s → (∀ a, l !! i = Some a → Q a s) → runs p0 (index l i) Q s.
Proof.
  intros Hi HQ. unfold index. destruct (l !! i); [apply runs_ret; auto|by apply runs_panic].
Qed.

Lemma runs_get p0 Q s : inv p0 s → Q s s → runs p0 get Q s.
Proof. intros (? & ? & ?) ?. split_and!; [done..|apply ext_refl|done|done]. Qed.

(** ** Loops *)
Lemma runs_foldlM {A B} p0 (I : A → S → Prop) (f : A → B → M S A) l a s :
  inv p0 s → I a s →
  (∀ a x s1, x ∈ l → ext (the_plan s) (the_plan s1) → inv p0 s1 → I a s1 →
     runs p0 (f a x) I s1) →
  runs p0 (foldlM f a l) I s.
Proof.
  revert a s. induction l as [|x l IH]; intros a s Hi Ha Hf; [by apply runs_ret|].
  cbn [foldlM]. apply runs_bind.
  apply (runs_conseq _ _ I); [apply Hf; [left|apply ext_refl|done|done]|].
  intros a' s1 He Hi1 Ha1 _ _. apply IH; [done..|].
  intros a2 y s2 Hy He2 Hi2 Ha2. apply Hf; [by right|by eapply ext_trans|done|done].
Qed.

Lemma runs_forM {B} p0 (I : S → Prop) (f : B → M S ()) l s :
  inv p0 s → I s →
  (∀ x s1, x ∈ l → ext (the_plan s) (the_plan s1) → inv p0 s1 → I s1 →
     runs p0 (f x) (λ _, I) s1) →
  runs p0 (forM f l) (λ _, I) s.
Proof.
  revert s. induction l as [|x l IH]; intros s Hi Ha Hf; [by apply runs_ret|].
  cbn [forM]. apply runs_bind.
  apply (runs_conseq _ _ (λ _, I)); [apply Hf; [left|apply ext_refl|done|done]|].
  intros [] s1 He Hi1 Ha1 _ _. apply IH; [done..|].
  intros y s2 Hy He2 Hi2 Ha2. apply Hf; [by right|by eapply ext_trans|done|done].
Qed.

(** A property of a value that later calls do not touch. *)
Definition stable {A} (P : A → GraphBuilder → Prop) : Prop :=
  ∀ a p p', good p → ext p p' → frame p p' → P a p → P a p'.

Lemma runs_mapM {A B} (P : A → GraphBuilder → Prop) (f : B → M S A) l s :
  stable P → inv (the_plan s) s →
  (∀ x s1, x ∈ l → ext (the_plan s) (the_plan s1) → frame (the_plan s) (the_plan s1) →
     inv (the_plan s1) s1 → runs (the_plan s1) (f x) (λ a s2, P a (the_plan s2)) s1) →
  runs (the_plan s) (mapM f l)
    (λ r s', Forall (λ a, P a (the_plan s')) r ∧ length r = length l) s.
Proof.
  intros HP. revert s. induction l as [|x l IH]; intros s Hi Hf; [apply runs_ret; eauto|].
  cbn [mapM]. apply runs_bind.
  eapply (runs_call _ _ (λ a s1, P a (the_plan s1))); [apply frame_refl| |].
  { apply Hf; [left|apply ext_refl|apply frame_refl|done]. }
  intros a s1 He1 Hf1 Hi1 _ Ha _ _. apply runs_bind.
  eapply (runs_call _ _ (λ r s2, Forall (λ a, P a (the_plan s2)) r ∧ length r = length l));
    [apply Hi1| |].
  { apply IH; [by eapply inv_start|]. intros y s2 Hy He2 Hf2 Hi2.
    apply Hf; [by right|by eapply ext_trans|by eapply frame_trans|done]. }
  intros r s2 He2 Hf2 Hi2 _ [Hr Hlen] _ _. apply runs_ret; [done|].
  split; [constructor; [|done]|simpl; lia].
  eapply HP; [|exact He2|exact Hf2|exact Ha]. apply Hi1.
Qed.

Lemma stable_made : stable (λ t p, made p t).
Proof. intros t p p' _ He _. apply He. Qed.

Lemma stable_placed pm : stable (λ t p, made p t ∧ placed p t pm).
Proof. intros t p p' _ He _ [Hm Hp]. split; [by apply He|by eapply placed_ext]. Qed.

Lemma stable_new_output p0 : stable (λ o p, new_output p0 p o).
Proof. intros o p p' Hg _ Hf Hp. by apply (keeps_frame _ p). Qed.
End rules.

(** ** The builder *)
#[export] Instance Planned_builder : Planned GraphBuilder := {| the_plan := id; mem _ := True |}.
Implicit Types s : GraphBuilder.

Lemma inv_builder p0 s : inv p0 s ↔ good s ∧ frame p0 s.
Proof. unfold inv. simpl. tauto. Qed.

Lemma runs_tensor_at p0 t Q s :
  inv p0 s → (∀ x, Tensors s !! t = Some x → Q x s) → runs p0 (tensor_at t) Q s.
Proof.
  intros (? & ? & ?) HQ. unfold runs, tensor_at.
  destruct (Tensors s !! t) as [x|] eqn:Hx; split_and!; auto using ext_refl.
Qed.

Lemma made_lookup s t : good s → made s t → ∃ x, Tensors s !! t = Some x.
Proof.
  intros Hg Hm. pose proof (good_known _ Hg _ Hm) as Hlt. destruct (good_wf _ Hg) as [Hlen _].
  destruct (Tensors s !! t) as [x|] eqn:Hx; [by exists x|apply lookup_ge_None in Hx; lia].
Qed.

Lemma node_takes_made s n t : good s → n ∈ all_nodes s → node_takes n t → made s t.
Proof.
  intros Hg Hn Ht. apply list_elem_of_lookup_1 in Hn as [v Hv].
  destruct (good_takes _ Hg v n t Hv Ht) as (u & m & _ & Hu & Hmk).
  exists m. split; [by eapply list_elem_of_lookup_2|done].
Qed.

(** What [ext] and the lemmas below ask of the tensors that nodes make. *)
Definition sealed s s' : Prop := ∀ t x, made s t → Tensors s !! t = Some x →
  ∃ y, Tensors s' !! t = Some y ∧ tensor_status y = tensor_status x
       ∧ OwnerPartyCode y = OwnerPartyCode x.

Lemma sealed_placed s s' t pm : sealed s s' → made s t → placed s t pm → placed s' t pm.
Proof.
  intros Hs Hm (x & Hx & Hst & Ho). destruct (Hs t x Hm Hx) as (y & Hy & Hst' & Ho').
  exists y. split; [done|]. split; [congruence|]. intros p Hp. rewrite Ho'. by apply Ho.
Qed.

Lemma sealed_delivers s s' n :
  good s → sealed s s' → n ∈ all_nodes s → delivers s n → delivers s' n.
Proof.
  intros Hg Hs Hn Hd Hop. destruct (Hd Hop) as (p & Hp & Hin). exists p. split; [done|].
  intros k l Hk. specialize (Hin k l Hk). rewrite Forall_forall in *. intros t Ht.
  apply (sealed_placed s); [done| |auto]. apply (node_takes_made s n); [done..|]. by exists k, l.
Qed.

(** A change of the tensors that keeps the nodes. *)
Lemma good_same_nodes s s' :
  good s → builder_wf s' → PipelineExeNodes s' = PipelineExeNodes s →
  (tensorNum s ≤ tensorNum s')%nat → sealed s s' → good s'.
Proof.
  intros Hg Hwf' Hn Hle Hs. pose proof Hg as [Hwf Hk Hd Ht Ho].
  assert (all_nodes s' = all_nodes s) as Ha by (unfold all_nodes; by rewrite Hn).
  assert (∀ t, made s' t ↔ made s t) as Hm by (intros t; unfold made; by rewrite Ha).
  split; rewrite ?Ha; [done| | |done|done].
  - intros t Hmt%Hm. specialize (Hk t Hmt). lia.
  - intros n Hin. apply (sealed_delivers s); auto.
Qed.

Context `{GoRange} {F : Type} (TypeName : F → string) (SerializeOptions : F → res (list Z)).
Context (HR : ∀ s s', plan_step TypeName SerializeOptions s s' → R s s').

Lemma runs_AddTensor p0 name s :
  inv p0 s →
  runs p0 (AddTensor name) (λ o s', keeps p0 s s' ∧ new_output p0 s' o) s.
Proof.
  intros [Hg Hf]%inv_builder. pose proof (good_wf _ Hg) as Hwf.
  destruct (quiet_AddTensor s s name (quiet_refl s Hwf)) as [[[Hgr (Hn & _)] _] _].
  set (s' := (AddTensor name s).1) in *.
  assert (∀ t, made s' t ↔ made s t) as Hm by (intros t; unfold made, all_nodes; by rewrite Hn).
  assert (sealed s s') as Hsl.
  { intros t x Hmt Hx. exists x. rewrite (grows_tensors _ _ Hgr); [done|by apply Hg]. }
  assert (good s') as Hg' by (apply (good_same_nodes s); [done|apply Hgr|done|simpl; lia|done]).
  assert (frame s s') as Hf'.
  { split; [simpl; lia|]. intros t Ht. rewrite Hm. split; [done|]. by apply Hgr. }
  unfold runs. change (AddTensor name s) with (s', Ok (tensorNum s)). split_and!; [done..| | | |].
  - split; [simpl; lia|intros t; by rewrite Hm|done|done|done|apply rtc_once, HR, step_AddTensor].
  - by eapply frame_trans.
  - by apply keeps_frame.
  - split; [destruct Hf; simpl; lia|]. rewrite Hm. intros Hmt%(good_known _ Hg). lia.
Qed.

Lemma unreferenced s o : good s → ¬ made s o → ∀ n, n ∈ all_nodes s → ¬ refers n o.
Proof.
  intros Hg Hm n Hn (k & l & [Hi|Ho] & Ho').
  - apply list_elem_of_lookup_1 in Hn as [v Hv].
    destruct (good_takes _ Hg v n o Hv) as (u & m & _ & Hu & Hmk); [by exists k, l|].
    apply Hm. exists m. split; [by eapply list_elem_of_lookup_2|done].
  - apply Hm. exists n. split; [done|]. by exists k, l.
Qed.

Lemma upd_wf s o f :
  builder_wf s → (∀ t, ID (f t) = ID t) → builder_wf (upd_tensor o f s).1.
Proof.
  intros [Hlen Hid] Hf. split; simpl; [by rewrite length_alter|]. intros i t Hi.
  destruct (decide (i = o)) as [->|]; [|rewrite list_lookup_alter_ne in Hi by done; by apply Hid].
  rewrite list_lookup_alter_eq in Hi. destruct (Tensors s !! o) eqn:E; [|done].
  simplify_eq/=. rewrite Hf. by apply Hid.
Qed.

(** Writing to a tensor of the operation that no node makes yet. *)
Lemma runs_upd_new p0 o f s :
  inv p0 s → (∀ t, ID (f t) = ID t) → new_output p0 s o →
  runs p0 (upd_tensor o f) (λ _ s', keeps p0 s s') s.
Proof.
  intros [Hg Hf]%inv_builder Hid [Ho Hno]. set (s' := (upd_tensor o f s).1).
  assert (∀ t, t ≠ o → Tensors s' !! t = Tensors s !! t) as Hts
    by (intros t Ht; simpl; by rewrite list_lookup_alter_ne).
  assert (sealed s s') as Hsl.
  { intros t y Hmt Hy. exists y. rewrite Hts; [done|]. by intros ->. }
  unfold runs. change (upd_tensor o f s) with (s', Ok tt). split_and!; [done|..].
  - apply (good_same_nodes s); [done|apply upd_wf; [apply Hg|done]|done..].
  - split; [done..|]. apply rtc_once, HR, step_write; [done|]. left. by apply unreferenced.
  - destruct Hf as [Hle Hf]. split; [done|]. intros t Ht Hmt. destruct (Hf t Ht Hmt) as [? <-].
    split; [done|]. apply Hts. lia.
  - by intros o' Ho'.
Qed.

(** Writing to a tensor that a node makes: status and owner are kept. *)
Lemma runs_upd_made p0 t f s :
  inv p0 s → (∀ x, ID (f x) = ID x) → sealed_write f → made s t →
  runs p0 (upd_tensor t f) (λ _ s', keeps p0 s s') s.
Proof.
  intros [Hg Hf]%inv_builder Hid Hs Hmt. set (s' := (upd_tensor t f s).1).
  assert (∀ t', t' ≠ t → Tensors s' !! t' = Tensors s !! t') as Hts
    by (intros t' Ht; simpl; by rewrite list_lookup_alter_ne).
  assert (sealed s s') as Hsl.
  { intros t' y Hm Hy. destruct (decide (t' = t)) as [->|]; [|exists y; by rewrite Hts].
    simpl. rewrite list_lookup_alter_eq, Hy. exists (f y). split; [done|]. apply Hs. }
  assert (frame s s') as Hf'.
  { split; [done|]. intros t' _ Hm. split; [done|]. apply Hts. by intros ->. }
  unfold runs. change (upd_tensor t f s) with (s', Ok tt). split_and!; [done|..].
  - apply (good_same_nodes s); [done|apply upd_wf; [apply Hg|done]|done..].
  - split; [done..|]. apply rtc_once, HR, step_write; [done|by right].
  - by eapply frame_trans.
  - by apply keeps_frame.
Qed.

Lemma runs_AddTensorAs p0 it s :
  inv p0 s → runs p0 (AddTensorAs it) (λ o s', keeps p0 s s' ∧ new_output p0 s' o) s.
Proof.
  intros Hi. unfold AddTensorAs. apply runs_bind, runs_tensor_at; [done|]. intros x Hx _ _.
  apply runs_bind. eapply runs_conseq; [by apply runs_AddTensor|]. intros o s1 _ _ [Hk Ho] _ Hi1.
  apply runs_bind. eapply runs_conseq; [by apply runs_upd_new|]. intros [] s2 _ _ Hk2 _ Hi2.
  apply runs_ret; [done|]. split; [by intros ? ?%Hk%Hk2|by apply Hk2].
Qed.

Lemma runs_AddColumn p0 name st opt tp s :
  inv p0 s →
  runs p0 (AddColumn name st opt tp) (λ o s', keeps p0 s s' ∧ new_output p0 s' o) s.
Proof.
  intros Hi. unfold AddColumn. apply runs_bind.
  eapply runs_conseq; [by apply runs_AddTensor|]. intros o s1 _ _ [Hk Ho] _ Hi1.
  apply runs_bind. eapply runs_conseq; [by apply runs_upd_new|]. intros [] s2 _ _ Hk2 _ Hi2.
  apply runs_ret; [done|]. split; [by intros ? ?%Hk%Hk2|by apply Hk2].
Qed.

(** ** Adding a node *)
Lemma made_snoc s s' n t :
  all_nodes s' = all_nodes s ++ [n] → made s' t ↔ made s t ∨ node_makes n t.
Proof.
  intros Ha. unfold made. rewrite Ha. setoid_rewrite elem_of_app.
  setoid_rewrite list_elem_of_singleton. naive_solver.
Qed.

Lemma good_place st s n :
  good s → (∀ t, node_takes n t → made s t) →
  (∀ t, node_makes n t → ¬ made s t ∧ ∃ x, Tensors s !! t = Some x) →
  delivers s n → good (place_node st n s).
Proof.
  intros Hg Htk Hmk Hdl. pose proof (all_nodes_place st n s) as Ha.
  pose proof (λ t, made_snoc s (place_node st n s) n t Ha) as Hm.
  pose proof (good_wf _ Hg) as [Hlen Hid].
  split; [done|..].
  - intros t [Ht|Ht]%Hm; [by apply Hg|]. destruct (Hmk t Ht) as (_ & x & Hx). simpl.
    rewrite Hlen. by eapply lookup_lt_Some.
  - rewrite Ha. intros m [Hn|Hn%list_elem_of_singleton]%elem_of_app; [by apply Hg|by subst m].
  - rewrite Ha. intros v m t Hv Ht. apply lookup_app_Some in Hv as [Hv|[Hv Hv']].
    + destruct (good_takes _ Hg v m t Hv Ht) as (u & m' & ? & Hu & ?).
      exists u, m'. split_and!; [done| |done]. by apply lookup_app_l_Some.
    + apply list_lookup_singleton_Some in Hv' as [Hv' <-].
      destruct (Htk t Ht) as (m' & Hin & Hmk'). apply list_elem_of_lookup_1 in Hin as [u Hu].
      exists u, m'. apply lookup_lt_Some in Hu as Hlt. split_and!; [lia| |done].
      by apply lookup_app_l_Some.
  - assert (∀ u m t, all_nodes s !! u = Some m → node_makes m t → ¬ node_makes n t) as Hnew.
    { intros u m t Hu Hmt Hn. destruct (Hmk t Hn) as [Hno _]. apply Hno. exists m.
      split; [by eapply list_elem_of_lookup_2|done]. }
    rewrite Ha. intros u v m m' t Hu Hv H1 H2.
    apply lookup_app_Some in Hu as [Hu|[Hu Hu']]; apply lookup_app_Some in Hv as [Hv|[Hv Hv']].
    + by eapply Hg.
    + apply list_lookup_singleton_Some in Hv' as [? <-]. by destruct (Hnew u m t).
    + apply list_lookup_singleton_Some in Hu' as [? <-]. by destruct (Hnew v m' t).
    + apply list_lookup_singleton_Some in Hu' as [? <-].
      apply list_lookup_singleton_Some in Hv' as [? <-]. lia.
Qed.

Lemma AddExecutionNode_stop name op ins outs attrs ps s s' r :
  AddExecutionNode name op ins outs attrs ps s = (s', r) → ¬ (∃ n, r = Ok n) → s' = s.
Proof.
  intros Hrun Hr. unfold AddExecutionNode, mbind, M_bind, wrapErr, lift in Hrun.
  destruct (FindOpDef op) as [d| |]; simpl in Hrun; [|by injection Hrun..].
  destruct (CheckParamStatusConstraint _ d ins outs) as [[]| |]; simpl in Hrun;
    [|by injection Hrun..].
  injection Hrun as _ <-. destruct Hr. by eexists.
Qed.

#[local] Instance is_ok_dec {A} (r : res A) : Decision (∃ a, r = Ok a).
Proof. destruct r; [left; eauto|right; naive_solver..]. Defined.

Lemma runs_exec p0 name op ins outs attrs ps s :
  inv p0 s → op ∉ special ∨ (∀ s s', R s s') ∨ op ∈ delivering →
  args_are (made s) ins → args_are (new_output p0 s) outs →
  (op ∈ delivering → ∃ p, ps = [p] ∧ args_are (λ t, placed s t (privatePlacement p)) ins) →
  runs p0 (AddExecutionNode name op ins outs attrs ps) (λ n s',
    args_are (made s') outs ∧ Tensors s' = Tensors s ∧ all_nodes s' = all_nodes s ++ [n]
    ∧ node_Name n = name ∧ OpType n = op ∧ Inputs n = ins ∧ Outputs n = outs ∧ Parties n = ps) s.
Proof.
  intros Hi Hop Hins Houts Hdl.
  destruct (AddExecutionNode name op ins outs attrs ps s) as [s' r] eqn:Hrun.
  assert (R s s') as HRs.
  { assert (op ∉ reserved ∨ (∀ s s', R s s')) as [Hop'|Hany]; [|apply HR|done].
    { destruct Hop as [Hop|[?|Hop]]; [left|by right|left].
      - intros ?. apply Hop, elem_of_app. by left.
      - intros Hrev. unfold delivering, reserved, revealing, folded in *. set_solver. }
    pose proof (step_exec TypeName SerializeOptions s name op ins outs attrs ps Hop') as Hs.
    by rewrite Hrun in Hs. }
  destruct (decide (∃ n, r = Ok n)) as [[n ->]|Hr].
  2: { assert (s' = s) as -> by (eapply AddExecutionNode_stop; eauto).
       unfold runs. rewrite Hrun. destruct Hi as (? & ? & ?).
       split_and!; [done..|apply ext_refl|done|]. destruct r; [|done..]. destruct Hr. eauto. }
  pose proof (AddExecutionNode_Ok _ _ _ _ _ _ _ _ _ Hrun) as (d & Hd & Hc & Hn & Hs').
  unfold runs. rewrite Hrun. apply inv_builder in Hi as [Hg Hf].
  pose proof (all_nodes_place (opStreamingType d) n s) as Ha. rewrite <- Hs' in Ha.
  pose proof (λ t, made_snoc s s' n t Ha) as Hm.
  assert (Tensors s' = Tensors s) as Hts by (by rewrite Hs').
  assert (good s') as Hg'.
  { rewrite Hs'. apply good_place; [done|..].
    - rewrite Hn. intros t (k & l & Hk & Ht). simpl in Hk. by eapply args_are_lookup.
    - rewrite Hn. intros t (k & l & Hk & Ht). simpl in Hk.
      destruct (args_are_lookup _ _ _ _ _ Houts Hk Ht) as [? ?]. split; [done|].
      apply lookup_lt_is_Some. destruct (good_wf _ Hg) as [<- _]. lia.
    - rewrite Hn. intros Hdel. by apply Hdl. }
  assert (frame p0 s') as Hf'.
  { destruct Hf as [Hle Hf]. split; [by rewrite Hs'|]. intros t Ht Hmt.
    destruct (Hf t Ht Hmt) as [? Heq]. rewrite Hts. split; [|done].
    intros [?|Hmk]%Hm; [done|]. rewrite Hn in Hmk. destruct Hmk as (k & l & Hk & Hl).
    destruct (args_are_lookup _ _ _ _ _ Houts Hk Hl) as [? _]. lia. }
  assert (ext s s') as He.
  { split; [by rewrite Hs'|intros t Ht; apply Hm; by left| |by rewrite Hs'|by rewrite Hs'|by apply rtc_once].
    intros t x _ Hx. exists x. by rewrite Hts. }
  do 4 (split; [done|]). rewrite Hn at 2 3 4 5 6. split; [|done].
  intros k l Hk. apply Forall_forall. intros t Ht. apply Hm. right. rewrite Hn. by exists k, l.
Qed.
End logic.

(** Nodes of the other operators need no reason. *)
Lemma runs_node `{GoRange} {F : Type} (TypeName : F → string) (SerializeOptions : F → res (list Z))
    (R : relation GraphBuilder) p0 name op ins outs attrs ps (s : GraphBuilder) :
  (∀ s s', plan_step TypeName SerializeOptions s s' → R s s') →
  inv p0 s → (op ∉ special) ∨ (op ∉ delivering) ∧ (∀ s s', R s s') →
  args_are (made s) ins → args_are (new_output p0 s) outs →
  runs R p0 (AddExecutionNode name op ins outs attrs ps) (λ n s', args_are (made s') outs) s.
Proof.
  intros HR Hi Hop Hins Houts.
  assert (op ∉ delivering) as Hdl by (unfold special in Hop; set_solver).
  eapply runs_conseq; [eapply runs_exec; [done..| |done|done|done]|by intros n s' _ _ [? _]].
  destruct Hop as [?|[_ ?]]; auto.
Qed.

(** ** Tactics

    [adv] brings what is known of a plan forward to a later plan; [pl] walks through the
    body of an operation: reads, branches and failures are its own, new tensors and
    writes are primitive, other calls are looked up in the hint database [ops]. *)
Lemma ext_made_all R s s' l : ext R s s' → Forall (made s) l → Forall (made s') l.
Proof. intros He Hl. eapply Forall_impl; [done|]. apply He. Qed.

Lemma ext_args R s s' m : ext R s s' → args_are (made s) m → args_are (made s') m.
Proof. intros He Hm k l Hk. eapply ext_made_all; [done|]. by eapply Hm. Qed.

Lemma keeps_all p0 s s' os : keeps p0 s s' → Forall (new_output p0 s) os → Forall (new_output p0 s') os.
Proof. intros Hk Ho. eapply Forall_impl; [done|]. apply Hk. Qed.

Lemma inv_good {S : Type} `{Planned S} p0 (s : S) : inv p0 s → good (the_plan s).
Proof. by intros (? & ? & ?). Qed.
Lemma inv_frame {S : Type} `{Planned S} p0 (s : S) : inv p0 s → frame p0 (the_plan s).
Proof. by intros (? & ? & ?). Qed.

Lemma new_all_weaken {S : Type} `{Planned S} p0 (s : S) s' os :
  inv p0 s → Forall (new_output (the_plan s) s') os → Forall (new_output p0 s') os.
Proof.
  intros [Hle _]%inv_frame Ho. eapply Forall_impl; [done|]. intros o. by apply new_output_weaken.
Qed.

Lemma head_all {A} (P : A → Prop) l x : Forall P l → head l = Some x → P x.
Proof. intros [|y l' Hy _]; [done|]. by intros [= <-]. Qed.

Lemma args_single_inv (P : nat → Prop) k l : args_are P {[ k := l ]} → Forall P l.
Proof. intros Hm. apply (Hm k). apply lookup_singleton_eq. Qed.
Lemma args_insert_inv (P : nat → Prop) k l m :
  m !! k = None → args_are P (<[k:=l]> m) → Forall P l ∧ args_are P m.
Proof. intros Hk Hm. by apply map_Forall_insert in Hm. Qed.

(** Tensors by column. *)
Definition made_map (s : GraphBuilder) (m : gmap Z nat) : Prop := map_Forall (λ _ t, made s t) m.
Definition made_ptrs (s : GraphBuilder) (m : gmap Z (option nat)) : Prop :=
  map_Forall (λ _ o, Forall (made s) (option_list o)) m.

Lemma ext_made_map R s s' m : ext R s s' → made_map s m → made_map s' m.
Proof. intros He Hm k t Hk. apply He. by eapply Hm. Qed.
Lemma ext_made_ptrs R s s' m : ext R s s' → made_ptrs s m → made_ptrs s' m.
Proof. intros He Hm k o Hk. eapply ext_made_all; [done|]. by eapply Hm. Qed.

Definition made_slots (s : GraphBuilder) (l : list (option nat)) : Prop :=
  Forall (λ o, Forall (made s) (option_list o)) l.
Lemma ext_made_slots R s s' l : ext R s s' → made_slots s l → made_slots s' l.
Proof. intros He Hl. eapply Forall_impl; [done|]. intros o. by eapply ext_made_all. Qed.

Definition new_map (p0 p : GraphBuilder) (m : gmap nat nat) : Prop :=
  map_Forall (λ _ o, new_output p0 p o) m.
Lemma keeps_new_map p0 p p' m : keeps p0 p p' → new_map p0 p m → new_map p0 p' m.
Proof. intros Hk Hm i o Ho. apply Hk. by eapply Hm. Qed.

Lemma placed_all_ext R s s' l pm :
  ext R s s' → Forall (λ t, made s t ∧ placed s t pm) l → Forall (λ t, made s' t ∧ placed s' t pm) l.
Proof.
  intros He Hl. eapply Forall_impl; [done|]. intros t [Hm Hp].
  split; [by apply He|by eapply placed_ext].
Qed.

Create HintDb ops discriminated.

Ltac adv :=
  repeat match goal with
  | He : ext _ ?s ?s', Hm : made ?s ?t, H : placed ?s ?t _ |- _ =>
      apply (placed_ext _ _ _ _ _ He Hm) in H
  | He : ext _ ?s ?s', H : Forall (λ t, made ?s _ ∧ placed ?s _ _) _ |- _ =>
      apply (placed_all_ext _ _ _ _ _ He) in H
  end;
  repeat match goal with
  | He : ext _ ?s ?s', H : made ?s _ |- _ => apply (ext_made _ _ _ He) in H
  | He : ext _ ?s ?s', H : Forall (made ?s) _ |- _ => apply (ext_made_all _ _ _ _ He) in H
  | He : ext _ ?s ?s', H : args_are (made ?s) _ |- _ => apply (ext_args _ _ _ _ He) in H
  | He : ext _ ?s ?s', H : made_map ?s _ |- _ => apply (ext_made_map _ _ _ _ He) in H
  | He : ext _ ?s ?s', H : made_slots ?s _ |- _ => apply (ext_made_slots _ _ _ _ He) in H
  | He : ext _ ?s ?s', H : made_ptrs ?s _ |- _ => apply (ext_made_ptrs _ _ _ _ He) in H
  | Hi : inv ?p ?s, H : Forall (new_output ?q ?s') _ |- _ =>
      unify (the_plan s) q; assert_fails (unify p q); apply (new_all_weaken p s s' _ Hi) in H
  | Hk : keeps ?p ?s ?s', H : new_output ?p ?s _ |- _ => apply Hk in H
  | Hk : keeps ?p ?s ?s', H : new_map ?p ?s _ |- _ => apply (keeps_new_map _ _ _ _ Hk) in H
  | Hk : keeps ?p ?s ?s', H : Forall (new_output ?p ?s) _ |- _ => apply (keeps_all _ _ _ _ Hk) in H
  end.

(** What is known of the lists and maps of tensors of a node. *)
Ltac opened :=
  repeat match goal with
  | H : args_are _ {[ _ := _ ]} |- _ => apply args_single_inv in H
  | H : args_are _ (<[_ := _]> _) |- _ => apply args_insert_inv in H as [? H]; [|reflexivity]
  | H : args_are _ ∅ |- _ => clear H
  | H : Forall _ [] |- _ => clear H
  | H : Forall _ (_ :: _) |- _ => apply Forall_cons in H as [? H]
  | H : Forall _ (_ ++ _) |- _ => apply Forall_app in H as [? H]
  | Hl : Forall (made _) ?l, H : ?l !! _ = Some _ |- _ => apply (Forall_lookup_1 _ _ _ _ Hl) in H
  | Hl : Forall (made _) ?l, H : head ?l = Some _ |- _ => apply (head_all _ _ _ Hl) in H
  end.

Ltac holds := repeat
  lazymatch goal with
  | |- args_are _ ∅ => apply args_are_empty
  | |- args_are _ {[ _ := _ ]} => apply args_are_singleton
  | |- args_are _ (<[_ := _]> _) => apply args_are_insert
  | |- Forall _ [] => apply Forall_nil; exact I
  | |- Forall _ (_ :: _) => apply Forall_cons; split
  | |- Forall _ (_ ++ _) => apply Forall_app; split
  | |- _ => assumption
  end.
Ltac plain := first [assumption | apply (bool_decide_unpack _); vm_compute; exact I].

#[export] Hint Extern 5 (_ ∉ _) => solve [plain] : ops.
#[export] Hint Extern 5 (Forall _ _) => solve [holds] : ops.
#[export] Hint Extern 5 (args_are _ _) => solve [holds] : ops.

Ltac unplan := cbn [the_plan mem Planned_builder id] in *.
Ltac forget :=
  repeat match goal with
  | H1 : ext _ ?s1 ?s2, H2 : ext _ ?s2 ?s3 |- _ =>
      apply (ext_trans _ _ _ _ H1) in H2; clear H1
  | H1 : keeps ?p ?s1 ?s2, H2 : keeps ?p ?s2 ?s3 |- _ =>
      apply (keeps_trans _ _ _ _ H1) in H2; clear H1
  end.
(** Facts that follow from what was read, see [PlanNodes]. *)
Ltac derive := idtac.
Ltac settle :=
  unplan; cbv beta in *; destruct_and?; adv; opened; derive; forget;
  match goal with |- ext _ _ _ → inv _ _ → _ => intros _ _ | _ => idtac end.
Ltac result := intros ? ? ? ? ?; settle.

Ltac pl_prim lem := eapply runs_conseq; [eapply lem; [eassumption|assumption]|result].
Ltac pl_write := eapply runs_conseq;
  [first [ eapply runs_upd_new; [eassumption|assumption|by intros []|assumption]
         | eapply runs_upd_made; [eassumption|assumption|by intros []|by intros []|assumption] ]
  |result].
Ltac pl_node := eapply runs_conseq;
  [eapply runs_node; [eassumption|assumption|first [left; plain|right; split; [plain|assumption]]
                     |holds|holds]
  |result].
Ltac pl_call :=
  match goal with
  | Hi : inv ?p ?s |- runs _ ?p _ _ ?s =>
      let H := fresh in
      pose proof (inv_start _ _ Hi) as H; unplan;
      first
        [ eapply runs_call; [exact (inv_frame _ _ Hi)|solve [eauto with ops]
                            |clear H; intros ? ? ? _ ? ? ?; settle]
        | clear H; eapply runs_conseq; [solve [eauto with ops]|result] ]
  end.

Ltac pl_other := pl_call.
Ltac pl1 :=
  lazymatch goal with
  | |- runs _ _ (_ ≫= _) _ _ => apply runs_bind
  | |- runs _ _ (wrapErr _ _) _ _ => apply runs_wrapErr
  | |- runs _ _ (fail _) _ _ => apply runs_fail; assumption
  | |- runs _ _ panic _ _ => apply runs_panic; assumption
  | |- runs _ _ (mret _) _ _ => apply runs_ret; [assumption|settle]
  | |- runs _ _ (lift _) _ _ => apply runs_stop; [assumption|intros ? ?; settle]
  | |- runs _ _ get _ _ => apply runs_get; [assumption|settle]
  | |- runs _ _ (index0 _) _ _ => apply runs_index0; [assumption|intros ? ?; settle]
  | |- runs _ _ (index _ _) _ _ => apply runs_index; [assumption|intros ? ?; settle]
  | |- runs _ _ (tensor_at _) _ _ => apply runs_tensor_at; [assumption|intros ? ?; settle]
  | |- runs _ _ (AddTensor _) _ _ => pl_prim runs_AddTensor
  | |- runs _ _ (AddTensorAs _) _ _ => pl_prim runs_AddTensorAs
  | |- runs _ _ (AddColumn _ _ _ _) _ _ => pl_prim runs_AddColumn
  | |- runs _ _ (upd_tensor _ _) _ _ => pl_write
  | |- runs _ _ (AddExecutionNode _ _ _ _ _ _) _ _ => pl_node
  | |- runs _ _ (if ?b then _ else _) _ _ =>
      let E := fresh "E" in destruct b eqn:E; try discriminate E
  | |- runs _ _ (match ?x with _ => _ end) _ _ => destruct x eqn:?; destruct_and?
  | |- runs _ _ (match ?x with _ => _ end _) _ _ => destruct x eqn:?; destruct_and?
  | |- runs _ _ _ _ _ => pl_other
  end.
Ltac pl := repeat (pl1; try assumption).
