(* ===== verification/PlanOps.v ===== *)
(** * The builder's operations in the logic of plans

    One specification per [Add...Node] operation: on a good plan, if the inputs are
    made, then whatever happens the plan stays good, and on success the outputs are
    made. *)
From S2P Require Import Prelude Sliceutil Expression Operator Ccl Graph GraphBuilder.
From S2P Require Import BuilderSpec Algorithm StatusConverter PlanLogic.

#[local] Opaque AddExecutionNode AddTensorAs AddColumn FindOpDef CheckParamStatusConstraint.

(** Operators of a table are checked by evaluation. *)
Lemma table_plain (m : gmap string string) k op :
  bool_decide (map_Forall (λ _ op, op ∉ special) m) = true → m !! k = Some op → op ∉ special.
Proof. intros Hm%bool_decide_eq_true. apply Hm. Qed.

Definition any_step : relation GraphBuilder := λ _ _, True.

Section ops.
Context `{GoRange} {F : Type} (TypeName : F → string) (SerializeOptions : F → res (list Z)).
Context (R : relation GraphBuilder).
Context (HR : ∀ s s', plan_step TypeName SerializeOptions s s' → R s s').
Local Notation runs := (runs R).
Implicit Types s : GraphBuilder.

(** A new tensor made like each of [l]. *)
Lemma runs_new_as_all l s :
  inv s s →
  runs s (mapM AddTensorAs l) (λ os s', Forall (new_output s s') os ∧ length os = length l) s.
Proof.
  intros Hi.
  refine (runs_mapM (S:=GraphBuilder) R (λ o s', new_output s s' o) AddTensorAs l s _ _ _);
    [apply stable_new_output|done|].
  intros x s1 Hx He Hf Hi1. pl. eapply new_output_weaken; [|done]. apply Hf.
Qed.

(** Operations whose outputs the caller has made. *)
Lemma runs_RunSQL p0 name os sql refs p s :
  inv p0 s → Forall (new_output p0 s) os →
  runs p0 (AddRunSQLNode name os sql refs p) (λ _ s', Forall (made s') os) s.
Proof. intros. unfold AddRunSQLNode. pl. Qed.

Section deliver.
Context (p0 s : GraphBuilder) (i o : list nat) (p : string).
Context (Hi : inv p0 s) (Hin : Forall (made s) i) (Hout : Forall (new_output p0 s) o).
Context (Hp : Forall (λ t, placed s t (privatePlacement p)) i).

(** The node of a delivery: its inputs are private to its party. *)
Lemma runs_deliver name op attrs :
  op ∈ delivering →
  runs p0 (AddExecutionNode name op {[ In := i ]} {[ Out := o ]} attrs [p])
    (λ _ s', Forall (made s') o) s.
Proof.
  intros Hop. eapply runs_conseq; [eapply runs_exec; [done..|by right; right| | |]|].
  - by apply args_are_singleton.
  - by apply args_are_singleton.
  - intros _. exists p. split; [done|]. by apply args_are_singleton.
  - intros n s' _ _ [Ho _]. by apply args_single_inv in Ho.
Qed.
Local Ltac deliver := eapply runs_conseq;
  [apply runs_deliver; apply (bool_decide_unpack _); vm_compute; exact I|result].

Lemma runs_Publish name : runs p0 (AddPublishNode name i o [p]) (λ _ s', Forall (made s') o) s.
Proof. unfold AddPublishNode. apply runs_bind. deliver. pl. Qed.
Lemma runs_InsertTable name opt :
  runs p0 (AddInsertTableNode name i o p opt) (λ _ s', Forall (made s') o) s.
Proof. unfold AddInsertTableNode. apply runs_bind. deliver. pl. Qed.
Lemma runs_DumpFile name opt f :
  runs p0 (AddDumpFileNodeForParty name i o opt (mkPartyFile f p)) (λ _ s', Forall (made s') o) s.
Proof.
  unfold AddDumpFileNodeForParty. apply runs_bind.
  apply (runs_conseq _ _ _ (λ _ s', s' = s)); [pl; done|]. intros qs s' _ _ -> _ _.
  apply runs_bind, runs_wrapErr. deliver. pl.
Qed.
End deliver.

Lemma runs_unary name op i f attrs ps s :
  inv s s → made s i → op ∉ special → (∀ x, ID (f x) = ID x) →
  runs s (unary_node name op i f attrs ps) (λ o s', made s' o) s.
Proof. intros Hi Hm Hop Hid. unfold unary_node. pl. Qed.
Local Hint Resolve runs_unary runs_new_as_all : ops.

Section one_input.
Context (s : GraphBuilder) (i : nat) (Hi : inv s s) (Hm : made s i).
Local Notation makes_one m := (runs s m (λ o s', made s' o) s).

Lemma runs_MakeShare name ps : makes_one (AddMakeShareNode name i ps).
Proof. unfold AddMakeShareNode. pl. Qed.
Lemma runs_Not name ps : makes_one (AddNotNode name i ps).
Proof. unfold AddNotNode. pl. Qed.
Lemma runs_IsNull name : makes_one (AddIsNullNode name i).
Proof. unfold AddIsNullNode. pl. Qed.
Lemma runs_Trigonometric name op ps :
  op ∉ special → makes_one (AddTrigonometricFunction name op i ps).
Proof. intros. unfold AddTrigonometricFunction. pl. Qed.
Lemma runs_UnaryNumeric name op tp ps :
  op ∉ special → makes_one (AddUnaryNumericNode name op i tp ps).
Proof. intros. unfold AddUnaryNumericNode. pl. Qed.
Lemma runs_Shape name axis p : makes_one (AddShapeNode name i axis p).
Proof. unfold AddShapeNode. pl. Qed.
Lemma runs_IfNull name j : made s j → makes_one (AddIfNullNode name i j).
Proof. intros. unfold AddIfNullNode. pl. Qed.
Lemma runs_ReduceAgg agg attr : makes_one (AddReduceAggNode agg i attr).
Proof.
  unfold AddReduceAggNode. destruct (ReduceAggOp !! agg) as [op|] eqn:Hop; [|pl].
  assert (op ∉ special) by (revert Hop; by apply table_plain). pl.
Qed.
End one_input.

Section many_inputs.
Context (s : GraphBuilder) (l : list nat) (Hi : inv s s) (Hm : Forall (made s) l).
Local Notation makes m := (runs s m (λ os s', Forall (made s') os ∧ length os = length l) s).
Local Notation makes_one m := (runs s m (λ o s', made s' o) s).

Lemma runs_Filter name mask ps : made s mask → makes (AddFilterNode name l mask ps).
Proof. intros. unfold AddFilterNode. pl. done. Qed.
Lemma runs_Limit name off cnt ps : makes (AddLimitNode name l off cnt ps).
Proof. unfold AddLimitNode. pl. done. Qed.

Lemma runs_FilterByIndex name f p : made s f → makes (AddFilterByIndexNode name f l p).
Proof.
  intros. unfold AddFilterByIndexNode. apply runs_bind. pl1. pl1; [|pl1]. { pl. }
  eapply runs_call; [apply Hi| |].
  - refine (runs_mapM (S:=GraphBuilder) R (λ o s', new_output s s' o) _ l s _ _ _);
      [apply stable_new_output|done|].
    intros y s1 Hx He Hf Hi1. pl. eapply new_output_weaken; [|done]. apply Hf.
  - intros os s1 He Hf Hi1 Hk Hos. settle. pl. done.
Qed.

Lemma runs_same_private who o : runs s (check_same_private who o l) (λ _ s', s' = s) s.
Proof.
  clear Hm. revert o. induction l as [|i l' IH]; intros o; cbn [check_same_private].
  { by apply runs_ret. }
  pl1. pl1. pl1; [pl|]. destruct o; [pl1; [pl|]|]; apply IH.
Qed.

Lemma runs_Coalesce name : makes_one (AddCoalesceNode name l).
Proof.
  unfold AddCoalesceNode. apply runs_bind.
  eapply runs_conseq; [apply runs_same_private|]. intros ? s' _ _ -> _ _. pl.
Qed.

Lemma runs_ArrowFunc name f opt tp :
  makes_one (AddArrowFuncNode TypeName SerializeOptions name f opt l tp).
Proof.
  unfold AddArrowFuncNode. apply runs_bind.
  eapply runs_conseq; [apply runs_same_private|]. intros ? s' _ _ -> _ _. pl.
Qed.

Lemma runs_VariadicCompare name op ps :
  op ∉ special → makes_one (AddVariadicCompareNode name op l ps).
Proof.
  intros Hop. unfold AddVariadicCompareNode. do 8 pl1. apply runs_bind.
  eapply runs_conseq.
  - eapply (runs_forM _ _ (λ s', new_output s s' a0)); [done..|].
    intros y s1 _ _ Hi1 Ho. unfold variadic_compare_step. pl.
  - result. pl.
Qed.
End many_inputs.

(** ** Joins *)
Lemma runs_join_index has keys a k s :
  inv s s → runs s (join_index has keys a k) (λ os s', Forall (new_output s s') os) s.
Proof. intros. unfold join_index. pl; holds. Qed.

Local Hint Resolve runs_join_index : ops.

Section join.
Context (s : GraphBuilder) (l r : list nat) (Hi : inv s s).
Context (Hl : Forall (made s) l) (Hr : Forall (made s) r).

Lemma runs_Join name a :
  runs s (AddJoinNode name l r a)
    (λ '(x, y) s', Forall (made s') (option_list x) ∧ Forall (made s') (option_list y)) s.
Proof.
  unfold AddJoinNode. pl. destruct a0, a1; simpl; settle; split; holds.
Qed.

Lemma runs_SecretJoin name lk rk ps :
  Forall (made s) lk → Forall (made s) rk →
  runs s (AddSecretJoinNode name lk rk l r ps)
    (λ '(lo, ro) s', Forall (made s') (lo ++ ro) ∧ length lo = length l ∧ length ro = length r) s.
Proof.
  intros. unfold AddSecretJoinNode. pl. split; [holds|done].
Qed.

Lemma runs_Replicate p0 name lo ro attr ps :
  inv p0 s → Forall (new_output p0 s) lo → Forall (new_output p0 s) ro →
  runs p0 (AddReplicateNode name l r lo ro attr ps) (λ _ s', Forall (made s') (lo ++ ro)) s.
Proof.
  intros Hi0 Hlo Hro. unfold AddReplicateNode. destruct l as [|x l']; [pl|].
  destruct r as [|y r']; [pl|]. pl1; [pl|]. pl1. pl1. apply runs_bind.
  apply (runs_conseq _ _ _ (λ _ s', s' = s)); [pl; done|]. intros _ s' _ _ -> _ _.
  apply runs_bind, (runs_conseq _ _ _ (λ _ s', s' = s)).
  { apply (runs_forM _ _ (λ s', s' = s)); [done..|]. intros z s1 _ _ _ ->.
    unfold check_replicate. pl; done. }
  intros _ s' _ _ -> _ _. pl1. pl1. apply runs_bind, (runs_conseq _ _ _ (λ _ s', s' = s)).
  { apply (runs_forM _ _ (λ s', s' = s)); [done..|]. intros z s1 _ _ _ ->.
    unfold check_replicate. pl; done. }
  intros _ s' _ _ -> _ _. pl. holds.
Qed.
End join.

(** ** Operations of reserved operators

    The machine has a step for each of them, so their bodies may take any steps. *)
Lemma runs_step {A} o (m : MB A) Q s :
  guarded o → run_op TypeName SerializeOptions o = discard m →
  PlanLogic.runs any_step s m Q s → runs s m Q s.
Proof.
  intros Hg Hrun. unfold PlanLogic.runs. destruct (m s) as [s' r] eqn:Hm.
  intros (? & ? & [] & ? & ?). split_and!; try done. split; try done.
  apply rtc_once, HR. pose proof (step_op TypeName SerializeOptions s o Hg) as Hs.
  rewrite Hrun in Hs. unfold discard, mbind, M_bind in Hs. simpl in *. rewrite Hm in Hs.
  by destruct r.
Qed.
End ops.

Section reveal.
Context `{GoRange} {F : Type} (TypeName : F → string) (SerializeOptions : F → res (list Z)).
Context (R : relation GraphBuilder).
Context (HR : ∀ s s', plan_step TypeName SerializeOptions s s' → R s s').
Context (s : GraphBuilder) (Hi : inv s s).
Local Notation makes_one m := (runs R s m (λ o s', made s' o) s).

Local Ltac reveal o :=
  eapply (runs_step TypeName SerializeOptions R HR o); [done..|];
  assert (∀ s s', any_step s s') by done;
  assert (∀ s s', plan_step TypeName SerializeOptions s s' → any_step s s') by done.

Lemma runs_Constant name v ps : runs R s (AddConstantNode name v ps) (λ o s', made s' o) s.
Proof. reveal (Constant_ (F:=F) name v ps). unfold AddConstantNode. pl. Qed.

Lemma runs_BroadcastTo l name r :
  Forall (made s) l → made s r →
  runs R s (AddBroadcastToNode name l r) (λ os s', Forall (made s') os) s.
Proof.
  intros Hl Hr. reveal (BroadcastTo (F:=F) name l r). unfold AddBroadcastToNode. do 2 pl1.
  apply runs_bind. eapply runs_conseq.
  - eapply (runs_foldlM _ _ (λ acc s', Forall (new_output s s') acc.2)); [done|by constructor|].
    intros [ps outs] x s1 _ _ Hi1 Ho. unfold broadcast_step. simpl in Ho. pl; simpl; holds.
  - intros [ps outs] s1 ? ? Ho. simpl in Ho. settle. pl.
Qed.

Context (i : nat) (Hm : made s i).

Lemma runs_Cast name tp ps : makes_one (AddCastNode name tp i ps).
Proof. reveal (Cast_ (F:=F) name tp i ps). unfold AddCastNode, unary_node. pl. Qed.
Lemma runs_Copy name p q : makes_one (AddCopyNode name i p q).
Proof.
  reveal (Copy (F:=F) name i p q). unfold AddCopyNode. pl.
Qed.
Lemma runs_MakePrivate name p ps : makes_one (AddMakePrivateNode name i p ps).
Proof.
  reveal (MakePrivate (F:=F) name i p ps). unfold AddMakePrivateNode. pl.
Qed.
Lemma runs_MakePublic name ps : makes_one (AddMakePublicNode name i ps).
Proof.
  reveal (MakePublic (F:=F) name i ps). unfold AddMakePublicNode. do 2 pl1.
  apply runs_bind, (runs_conseq _ _ _ (λ _ s', s' = s)).
  { apply (runs_forM _ _ (λ s', s' = s)); [done..|]. intros p s1 _ _ _ ->. pl; done. }
  intros _ s' _ _ -> _ _. pl.
Qed.
End reveal.

#[export] Hint Resolve runs_new_as_all runs_RunSQL runs_Publish runs_InsertTable runs_DumpFile
  runs_MakeShare runs_Not runs_IsNull runs_Trigonometric runs_UnaryNumeric runs_Cast runs_Shape
  runs_IfNull runs_Constant runs_ReduceAgg runs_Filter runs_Limit runs_FilterByIndex
  runs_Coalesce runs_ArrowFunc runs_VariadicCompare runs_BroadcastTo runs_Join runs_SecretJoin
  runs_Replicate runs_Copy runs_MakePrivate runs_MakePublic : ops.
