(* ===== verification/PlanNodes.v ===== *)
(** * The translator's operations in the logic of plans

    The logic of [PlanLogic] for the status converter, whose memory only holds tensors
    that are made and have the placement they are remembered for, and one
    specification per operation of [Translator]. *)
From Stdlib Require Import SpecFloat.
From S2P Require Import Prelude GoInt Sliceutil Expression Operator Ccl Graph GraphBuilder.
From S2P Require Import BuilderSpec Algorithm StatusConverter LogicalNode Stringutil Translator.
From S2P Require Import PlanLogic PlanOps.
#[local] Open Scope nat_scope.

Definition remembers (b : statusConverter) : Prop := ∀ i k o,
  convertMap b !! (i, k) = Some o →
  made (plan b) o ∧ ∃ pm, toString pm = k ∧ placed (plan b) o pm.

#[export] Instance Planned_converter : Planned statusConverter :=
  {| the_plan := plan; mem := remembers |}.

(** ** Operations that only read *)
Definition reads {A} (m : MC A) : Prop := ∀ b, (m b).1 = b.

Lemma reads_ret {A} (a : A) : reads (mret a).
Proof. done. Qed.
Lemma reads_fail {A} e : reads (fail e : MC A).
Proof. done. Qed.
Lemma reads_panic {A} : reads (panic : MC A).
Proof. done. Qed.
Lemma reads_lift {A} (r : res A) : reads (lift r).
Proof. done. Qed.
Lemma reads_get : reads get.
Proof. done. Qed.
Lemma reads_index0 {A} (l : list A) : reads (index0 l).
Proof. by destruct l. Qed.
Lemma reads_index {A} (l : list A) i : reads (index l i).
Proof. intros b. unfold index. by destruct (l !! i). Qed.
Lemma reads_tensor t : reads (tensor t).
Proof. intros [m p]. unfold tensor, on_plan, tensor_at. simpl. by destruct (Tensors p !! t). Qed.
Lemma reads_bind {A B} (m : MC A) (k : A → MC B) : reads m → (∀ a, reads (k a)) → reads (m ≫= k).
Proof.
  intros Hm Hk b. specialize (Hm b). unfold mbind, M_bind.
  destruct (m b) as [b' [a| |]]; simpl in *; subst; [apply Hk|done..].
Qed.
Lemma reads_wrapErr {A} e (m : MC A) : reads m → reads (wrapErr e m).
Proof. intros Hm b. specialize (Hm b). unfold wrapErr. by destruct (m b) as [b' [a| |]]. Qed.
Lemma reads_attempt {A} (m : MC A) : reads m → reads (attempt m).
Proof. intros Hm b. specialize (Hm b). unfold attempt. by destruct (m b) as [b' [a| |]]. Qed.
Lemma reads_mapM {A B} (f : A → MC B) l : (∀ x, reads (f x)) → reads (mapM f l).
Proof.
  intros Hf. induction l as [|x l IH]; cbn [mapM]; [done|].
  apply reads_bind; [done|]. intros a. by apply reads_bind.
Qed.
Lemma reads_forM {A} (f : A → MC ()) l : (∀ x, reads (f x)) → reads (forM f l).
Proof.
  intros Hf. induction l as [|x l IH]; cbn [forM]; [done|]. by apply reads_bind.
Qed.
Lemma reads_foldlM {A B} (f : A → B → MC A) a l :
  (∀ a x, reads (f a x)) → reads (foldlM f a l).
Proof.
  intros Hf. revert a. induction l as [|x l IH]; intros a; cbn [foldlM]; [done|].
  by apply reads_bind.
Qed.

Create HintDb reads discriminated.
#[export] Hint Resolve reads_ret reads_fail reads_panic reads_lift reads_get reads_index0
  reads_index reads_tensor reads_wrapErr reads_attempt : reads.
Ltac reading := repeat
  match goal with
  | |- reads _ => progress cbv beta
  | |- reads (_ ≫= _) => apply reads_bind; [|intros ?]
  | |- reads (wrapErr _ _) => apply reads_wrapErr
  | |- reads (attempt _) => apply reads_attempt
  | |- reads (mapM _ _) => apply reads_mapM; intros ?
  | |- reads (forM _ _) => apply reads_forM; intros ?
  | |- reads (foldlM _ _ _) => apply reads_foldlM; intros ? ?
  | |- reads (if ?b then _ else _) => destruct b
  | |- reads (match ?x with _ => _ end) => destruct x
  | |- reads (match ?x with _ => _ end _) => destruct x
  | |- reads _ => solve [auto with reads]
  end.

Lemma reads_placement_at m k : reads (placement_at m k).
Proof. unfold placement_at. reading. Qed.
Lemma reads_cost t pm : reads (converter_getStatusConversionCost t pm).
Proof. unfold converter_getStatusConversionCost. fold (tensor t). reading. Qed.
#[export] Hint Resolve reads_placement_at reads_cost : reads.

Section choose.
Context `{GoRange} {cfg : config} {ex : externals}.

Lemma reads_column_ccl m id : reads (column_ccl m id).
Proof. unfold column_ccl. reading. Qed.
Lemma reads_argument_cost op alg pms i ts sup : reads (argument_cost op alg pms i ts sup).
Proof.
  revert alg i. induction ts as [|t ts IH]; intros alg i; cbn [argument_cost]; reading.
Qed.
Local Hint Resolve reads_argument_cost : reads.
Lemma reads_getBestAlg op ins algs : reads (getBestAlg op ins algs).
Proof. unfold getBestAlg, algorithm_cost. reading. Qed.
Lemma reads_prefer_left p alg : reads (prefer_left p alg).
Proof. unfold prefer_left. reading. Qed.
End choose.
#[export] Hint Resolve reads_column_ccl reads_getBestAlg reads_prefer_left : reads.

(** ** The converter *)
Section converter.
Context (R : relation GraphBuilder).
Implicit Types b : statusConverter.

Lemma inv_plan p0 b : inv p0 b → inv p0 (plan b).
Proof. by intros (_ & ? & ?). Qed.

Lemma inv_here p0 b : inv p0 b → inv (plan b) b.
Proof. exact (inv_start p0 b). Qed.

Lemma remembers_ext m p p' :
  remembers (mkStatusConverter m p) → ext R p p' → remembers (mkStatusConverter m p').
Proof.
  intros Hr He i k o Ho. destruct (Hr i k o Ho) as (Hm & pm & Hk & Hp).
  split; [by apply He|]. exists pm. split; [done|]. by eapply placed_ext.
Qed.

Lemma runs_on_plan {A} p0 (m : MB A) Q b :
  inv p0 b → runs R p0 m Q (plan b) → runs R p0 (on_plan m) (λ a b', Q a (plan b')) b.
Proof.
  intros (Hr & _ & _) Hm. unfold runs, on_plan in *. destruct b as [cm p]. simpl in *.
  destruct (m p) as [p' r]. destruct Hm as (_ & ? & ? & ? & ?).
  split_and!; [by eapply remembers_ext|done..].
Qed.

Lemma runs_reads {A} p0 (m : MC A) Q b :
  reads m → inv p0 b → (∀ a, m b = (b, Ok a) → Q a b) → runs R p0 m Q b.
Proof.
  intros Hm (? & ? & ?) HQ. specialize (Hm b). unfold runs. destruct (m b) as [b' r] eqn:Hr.
  simpl in Hm. subst b'. split_and!; [done..|apply ext_refl|done|]. destruct r; auto.
Qed.
End converter.

(** The tactics also know calls on the plan and operations that only read. *)
Ltac unplan ::= cbn [the_plan mem Planned_builder Planned_converter id] in *.
Ltac on_plan_prim lem :=
  eapply runs_conseq; [eapply runs_on_plan; [assumption|eapply lem; [eassumption|by apply inv_plan]]
                      |result].
Ltac on_plan_write :=
  eapply runs_conseq;
  [eapply runs_on_plan; [assumption|];
   first [ eapply runs_upd_new; [eassumption|by apply inv_plan|by intros []|eassumption]
         | eapply runs_upd_made; [eassumption|by apply inv_plan|by intros []|by intros []|assumption] ]
  |result].
Ltac on_plan_node :=
  eapply runs_conseq;
  [eapply runs_on_plan; [assumption|];
   eapply runs_node; [eassumption|by apply inv_plan|left; plain|holds|holds]
  |result].
Ltac on_plan_call :=
  match goal with
  | Hi : inv ?p ?b |- runs _ ?p _ _ ?b =>
      let H := fresh in let H' := fresh in
      pose proof (inv_plan _ _ (inv_start _ _ Hi)) as H; pose proof (inv_plan _ _ Hi) as H'; unplan;
      first
        [ eapply runs_call;
            [exact (inv_frame _ _ Hi)
            |eapply runs_on_plan; [exact (inv_start _ _ Hi)|solve [eauto with ops]]
            |clear H H'; intros ? ? ? _ ? ? ?; settle]
        | eapply runs_conseq;
            [eapply runs_on_plan; [exact Hi|solve [eauto with ops]]|clear H H'; result] ]
  end.
Ltac pl_other ::=
  lazymatch goal with
  | |- runs _ _ (on_plan (AddTensor _)) _ _ => on_plan_prim runs_AddTensor
  | |- runs _ _ (on_plan (AddTensorAs _)) _ _ => on_plan_prim runs_AddTensorAs
  | |- runs _ _ (on_plan (AddColumn _ _ _ _)) _ _ => on_plan_prim runs_AddColumn
  | |- runs _ _ (on_plan (AddExecutionNode _ _ _ _ _ _)) _ _ => on_plan_node
  | |- runs _ _ (upd _ _) _ _ => unfold upd; on_plan_write
  | |- runs _ _ (on_plan (upd_tensor _ _)) _ _ => on_plan_write
  | |- runs _ _ (tensor _) _ _ => apply runs_reads; [apply reads_tensor|assumption|intros ? ?; settle]
  | |- runs _ _ (on_plan _) _ _ => on_plan_call
  | |- _ => first [ progress cbv zeta | pl_call
                  | apply runs_reads; [solve [reading]|assumption|intros ? ?; settle] ]
  end.

Section convert.
Context `{GoRange} {cfg : config} {ex : externals}.
Context (R : relation GraphBuilder).
Context (HR : ∀ s s', plan_step TypeName SerializeOptions s s' → R s s').
Local Notation runs := (runs R).

Lemma runs_revealString i p (s : GraphBuilder) :
  inv s s → made s i → runs s (revealString i p) (λ o s', made s' o) s.
Proof. intros. unfold revealString. pl. Qed.
Local Hint Resolve runs_revealString : ops.

Lemma runs_addTensorStatusConversion i pm (s : GraphBuilder) :
  inv s s → made s i →
  runs s (addTensorStatusConversion i pm) (λ o s', made s' o ∧ placed s' o pm) s.
Proof.
  intros Hi Hm.
  assert (runs s (addTensorStatusConversion i pm) (λ o s', made s' o) s) as Hruns.
  { unfold addTensorStatusConversion, reveal_to. pl. }
  unfold PlanLogic.runs in *. destruct (addTensorStatusConversion i pm s) as [s' [o| |]] eqn:Hc;
    [|done..].
  destruct Hruns as (? & ? & ? & ? & ?). split_and!; [done..|].
  apply inv_builder in Hi as [Hg _].
  destruct (conversion_addTensorStatusConversion i pm s s' o (good_wf _ Hg) Hc)
    as (t & t' & _ & Ht' & _ & Hst & Ho & _).
  by exists t'.
Qed.

Lemma runs_remember i pm o b p0 :
  inv p0 b → made (plan b) o → placed (plan b) o pm →
  runs p0 (remember i pm o) (λ _ b', plan b' = plan b) b.
Proof.
  intros (Hr & ? & ?) Hm Hp. unfold PlanLogic.runs, remember, modify. simpl.
  split_and!; [|done|apply ext_refl|done|done].
  intros i' k o'. simpl. rewrite lookup_insert. case_decide as Heq; [|apply Hr].
  intros [= <-]. injection Heq as <- <-. split; [done|]. by exists pm.
Qed.

Lemma runs_convertTo t pm b :
  inv (plan b) b → made (plan b) t →
  runs (plan b) (convertTo t pm) (λ o b', made (plan b') o ∧ placed (plan b') o pm) b.
Proof.
  intros Hi Hm. unfold convertTo. do 2 pl1. unfold getExpectTensorFromMap.
  destruct (convertMap b !! _) as [o|] eqn:Ho.
  - destruct Hi as (Hr & Hi). pose proof (Hr _ _ _ Ho) as (Hmo & pm' & Hk & x & Hx & Hst & Hown).
    apply runs_ret; [done|]. split; [done|]. exists x. apply toString_key in Hk as [Hs Hpriv].
    split_and!; [done|congruence|]. intros p Hp. by apply Hown, Hpriv.
  - apply runs_bind. eapply runs_call; [apply Hi| |].
    { apply runs_on_plan; [done|].
      apply runs_addTensorStatusConversion; [by apply inv_plan|done]. }
    intros o b' _ _ Hi' _ [? ?] _ _. apply runs_bind.
    eapply runs_conseq; [by apply runs_remember|]. intros [] b2 _ ? Heq _ _.
    apply runs_ret; [done|]. by rewrite Heq.
Qed.
Local Hint Resolve runs_convertTo : ops.

(** The results of [mapM] over tensors. *)
Lemma runs_mapM_made {A} (f : A → MC nat) l b :
  inv (plan b) b →
  (∀ x b1, x ∈ l → ext R (plan b) (plan b1) → inv (plan b1) b1 →
     runs (plan b1) (f x) (λ o b', made (plan b') o) b1) →
  runs (plan b) (mapM f l) (λ os b', Forall (made (plan b')) os ∧ length os = length l) b.
Proof.
  intros Hi Hf. refine (runs_mapM (S:=statusConverter) R (λ o s', made s' o) f l b _ _ _);
    [apply stable_made|done|]. intros x b1 Hx He _. by apply Hf.
Qed.

Lemma runs_mapM_placed {A} (f : A → MC nat) pm l b :
  inv (plan b) b →
  (∀ x b1, x ∈ l → ext R (plan b) (plan b1) → inv (plan b1) b1 →
     runs (plan b1) (f x) (λ o b', made (plan b') o ∧ placed (plan b') o pm) b1) →
  runs (plan b) (mapM f l)
    (λ os b', Forall (λ o, made (plan b') o ∧ placed (plan b') o pm) os ∧ length os = length l) b.
Proof.
  intros Hi Hf.
  refine (runs_mapM (S:=statusConverter) R (λ o s', made s' o ∧ placed s' o pm) f l b _ _ _);
    [apply stable_placed|done|]. intros x b1 Hx He _. by apply Hf.
Qed.

Lemma runs_mapM_new {A} (f : A → MC nat) l b :
  inv (plan b) b →
  (∀ x b1, x ∈ l → ext R (plan b) (plan b1) → inv (plan b1) b1 →
     runs (plan b1) (f x) (λ o b', new_output (plan b1) (plan b') o) b1) →
  runs (plan b) (mapM f l)
    (λ os b', Forall (new_output (plan b) (plan b')) os ∧ length os = length l) b.
Proof.
  intros Hi Hf.
  refine (runs_mapM (S:=statusConverter) R (λ o s', new_output (plan b) s' o) f l b _ _ _);
    [apply stable_new_output|done|]. intros x b1 Hx He Hfr Hi1.
  eapply runs_conseq; [by apply Hf|]. intros o b2 _ _. apply new_output_weaken. apply Hfr.
Qed.

Lemma made_in l x s : Forall (made s) l → x ∈ l → made s x.
Proof. rewrite Forall_forall. auto. Qed.

Lemma runs_convert_args expect key ts b :
  inv (plan b) b → Forall (made (plan b)) ts →
  runs (plan b) (foldlM (convert_arg expect key) [] ts) (λ os b', Forall (made (plan b')) os) b.
Proof.
  intros Hi Hts.
  apply (runs_foldlM (S:=statusConverter) R (plan b) (λ os b', Forall (made (plan b')) os));
    [done|by constructor|].
  intros os t b1 Ht He Hi1 Hos. unfold convert_arg. pose proof (made_in _ _ _ Hts Ht).
  settle. pl. holds.
Qed.
Local Hint Resolve runs_convert_args : ops.

Lemma runs_convertStatusForMap ins expect b :
  inv (plan b) b → args_are (made (plan b)) ins →
  runs (plan b) (convertStatusForMap ins expect) (λ outs b', args_are (made (plan b')) outs) b.
Proof.
  intros Hi Hin. unfold convertStatusForMap.
  apply (runs_foldlM (S:=statusConverter) R (plan b) (λ outs b', args_are (made (plan b')) outs));
    [done|apply args_are_empty|].
  intros outs [key ts] b1 Ht He Hi1 Hos.
  assert (Forall (made (plan b)) ts) by (apply (Hin key); by apply elem_of_SortedMap in Ht).
  settle. pl. case_bool_decide; holds.
Qed.
End convert.
#[export] Hint Resolve runs_convertTo runs_convertStatusForMap : ops.

(** ** Lists and maps of made tensors *)
Lemma mapM_all {A B} (P : B → Prop) (f : A → MC B) l b b' r :
  mapM f l b = (b', Ok r) → (∀ x b b' a, x ∈ l → f x b = (b', Ok a) → P a) → Forall P r.
Proof.
  revert b r. induction l as [|x l IH]; intros b r; cbn [mapM]; [by intros [= _ <-]|].
  intros (a & b1 & Ha & Hr)%M_bind_Ok Hf. apply M_bind_Ok in Hr as (r' & b2 & Hr & Hret).
  injection Hret as -> <-. constructor; [by eapply Hf; [left|]|].
  eapply IH; [done|]. intros y ? ? ? ?. eapply Hf. by right.
Qed.

Lemma lift_some {A} (o : option A) (b b' : statusConverter) a :
  lift (res_of_option Panic o) b = (b', Ok a) → o = Some a.
Proof. unfold lift. destruct o; simpl; [by intros [= _ <-]|done]. Qed.
Lemma index_Ok {A} (l : list A) i (b b' : statusConverter) a : index l i b = (b', Ok a) → l !! i = Some a.
Proof. unfold index. destruct (l !! i); [by intros [= _ <-]|done]. Qed.

Lemma Take_all {A} (P : A → Prop) l mask r : Take l mask = Ok r → Forall P l → Forall P r.
Proof.
  revert mask r. induction l as [|x l IH]; intros mask r; simpl; [by intros [= <-]|].
  destruct mask as [|m mask]; [done|]. intros (r' & Hr & Ht)%res_bind_Ok [? ?]%Forall_cons.
  specialize (IH _ _ Hr). destruct m; injection Ht as <-; auto.
Qed.

Section tables.
Context (s : GraphBuilder).

Lemma made_map_insert m id t : made s t → made_map s m → made_map s (<[id:=t]> m).
Proof. intros. by apply map_Forall_insert_2. Qed.
Lemma made_map_empty : made_map s ∅.
Proof. apply map_Forall_empty. Qed.
Lemma made_ptrs_empty : made_ptrs s ∅.
Proof. apply map_Forall_empty. Qed.

Lemma assign_values (P : nat → Prop) ids ts m m' :
  assign ids ts m = Ok m' → Forall P ts → map_Forall (λ _ t, P t) m → map_Forall (λ _ t, P t) m'.
Proof.
  revert ts m. induction ids as [|id ids IH]; intros ts m; simpl; [by intros [= <-]|].
  destruct ts as [|t ts]; [done|]. intros Ha [? ?]%Forall_cons ?.
  eapply IH; [done..|]. by apply map_Forall_insert_2.
Qed.
Lemma assign_all_values (P : nat → Prop) ids ts m m' :
  assign_all ids ts m = Ok m' → Forall P ts → map_Forall (λ _ t, P t) m →
  map_Forall (λ _ t, P t) m'.
Proof. unfold assign_all. case_bool_decide; [apply assign_values|done]. Qed.

Lemma assign_made ids ts m m' :
  assign ids ts m = Ok m' → Forall (made s) ts → made_map s m → made_map s m'.
Proof. apply (assign_values (made s)). Qed.
Lemma assign_all_made ids ts m m' :
  assign_all ids ts m = Ok m' → Forall (made s) ts → made_map s m → made_map s m'.
Proof. apply (assign_all_values (made s)). Qed.

Lemma getTensorFromColumn_made c m t : getTensorFromColumn c m = Ok t → made_map s m → made s t.
Proof.
  unfold getTensorFromColumn. destruct (m !! UniqueID c) as [t'|] eqn:Ht; [|done].
  intros [= <-] Hm. by eapply Hm.
Qed.
Lemma found_made (m : gmap Z nat) id t :
  res_of_option Panic (m !! id) = Ok t → made_map s m → made s t.
Proof. destruct (m !! id) as [t'|] eqn:Ht; [|done]. intros [= <-] Hm. by eapply Hm. Qed.
Lemma getNodeResultTensor_made ln m :
  getNodeResultTensor ln = Ok m → Forall (made s) (ResultTable ln) → made_map s m.
Proof. intros Hr Hl. eapply assign_all_values; [done..|apply made_map_empty]. Qed.

Lemma Filter_all {A} (P : A → Prop) (l : list A) f : Forall P l → Forall P (Filter l f).
Proof. induction 1 as [|x l Hx _ IH]; simpl; [done|]. destruct (f x); auto. Qed.

Lemma mergeTensors_all (P : nat → Prop) l k :
  Forall P l → Forall P k → Forall P (mergeTensors l k).
Proof.
  intros Hl Hk. unfold mergeTensors. apply Forall_app. split; [done|].
  by apply Filter_all.
Qed.

Lemma mergeTensors_inv (P : nat → Prop) l k :
  Forall P (mergeTensors l k) → Forall P l ∧ Forall P k.
Proof.
  unfold mergeTensors. intros [Hl Hk]%Forall_app. split; [done|].
  rewrite Forall_forall in *. intros t Ht. destruct (decide (t ∈ l)); [auto|].
  apply Hk, elem_of_Filter. split; [done|]. by rewrite bool_decide_false.
Qed.

Lemma fill_constants_made ins os r :
  fill_constants ins os = Ok r → Forall (made s) ins.*1 → Forall (made s) os → Forall (made s) r.
Proof.
  revert os r. induction ins as [|[t [|]] ins IH]; intros os r; simpl; [by intros [= <-]| |].
  - destruct os as [|o os]; [done|]. intros (r' & Hr & [= <-])%res_bind_Ok [? ?]%Forall_cons
      [? ?]%Forall_cons. constructor; [done|]. by eapply IH.
  - intros (r' & Hr & [= <-])%res_bind_Ok [? ?]%Forall_cons ?. constructor; [done|]. by eapply IH.
Qed.
End tables.
#[export] Hint Resolve made_map_insert made_map_empty made_ptrs_empty : ops.

Ltac derive ::=
  repeat match goal with
  | Hl : Forall (made ?s) ?l, H : assign _ ?l ∅ = Ok _ |- _ =>
      apply (assign_made s) in H; [|exact Hl|apply made_map_empty]
  | Hl : Forall (made ?s) ?l, Hm : made_map ?s ?m, H : assign _ ?l ?m = Ok _ |- _ =>
      apply (assign_made s) in H; [|exact Hl|exact Hm]
  | Hl : Forall (made ?s) ?l, H : assign_all _ ?l ∅ = Ok _ |- _ =>
      apply (assign_all_made s) in H; [|exact Hl|apply made_map_empty]
  | Hl : Forall (made ?s) ?l, Hm : made_map ?s ?m, H : assign_all _ ?l ?m = Ok _ |- _ =>
      apply (assign_all_made s) in H; [|exact Hl|exact Hm]
  | Hl : Forall (made ?s) (ResultTable ?n), H : getNodeResultTensor ?n = Ok _ |- _ =>
      apply (getNodeResultTensor_made s) in H; [|exact Hl]
  | Hm : made_map ?s ?m, H : getTensorFromColumn _ ?m = Ok _ |- _ =>
      apply (getTensorFromColumn_made s) in H; [|exact Hm]
  | Hl : Forall (made ?s) ?l, H : Take ?l _ = Ok _ |- _ =>
      apply (Take_all (made s)) in H; [|exact Hl]
  | Hm : made_map ?s ?m, H : res_of_option Panic (?m !! _) = Ok _ |- _ =>
      apply (found_made s) in H; [|exact Hm]
  end.

(** ** Operations of the translator *)
Section nodes.
Context `{GoRange} {cfg : config} {ex : externals}.
Context (R : relation GraphBuilder).
Context (HR : ∀ s s', plan_step TypeName SerializeOptions s s' → R s s').
Local Notation runs := (runs R).
Implicit Types b : statusConverter.
Local Notation makes b m := (runs (plan b) m (λ os b', Forall (made (plan b')) os) b).
Local Notation makes_one b m := (runs (plan b) m (λ o b', made (plan b') o) b).

Lemma runs_set_result_loop m cols rt b :
  inv (plan b) b → Forall (made (plan b)) rt →
  runs (plan b) (set_result_loop m cols rt) (λ _ _, True) b.
Proof.
  revert cols b. induction rt as [|t rt IH]; intros cols b Hi Hrt; cbn [set_result_loop]; [by pl|].
  destruct cols as [|col cols]; [pl|]. settle. by pl.
Qed.
Local Hint Resolve runs_set_result_loop : ops.

Lemma runs_SetResultTable n rt b :
  inv (plan b) b → Forall (made (plan b)) rt → makes b (SetResultTableWithDTypeCheck n rt).
Proof. intros. unfold SetResultTableWithDTypeCheck. pl. Qed.
Local Hint Resolve runs_SetResultTable : ops.

Lemma runs_extractResultTable n m b :
  inv (plan b) b → made_ptrs (plan b) m → makes b (extractResultTable n m).
Proof.
  intros Hi Hm. unfold extractResultTable.
  eapply runs_conseq; [apply runs_mapM_made; [done|]|by intros os b' _ _ [? _]].
  intros c b1 _ He Hi1. destruct (m !! UniqueID c) as [[t|]|] eqn:Hc; [|pl..].
  assert (made (plan b) t) by (specialize (Hm _ _ Hc); by inversion Hm).
  settle. pl.
Qed.
Local Hint Resolve runs_extractResultTable : ops.

Lemma runs_setResultTable n m b :
  inv (plan b) b → made_ptrs (plan b) m → makes b (setResultTable n m).
Proof. intros. unfold setResultTable. pl. Qed.

(** A query on the tables of a party: its results are new columns. *)
Lemma runs_addRunSQLNode ln sql refs p b :
  inv (plan b) b → makes b (addRunSQLNode ln sql refs p).
Proof.
  intros Hi. unfold addRunSQLNode. apply runs_bind.
  eapply runs_call; [apply Hi|apply runs_mapM_new; [done|]|].
  - intros c b1 _ _ Hi1. pl.
  - intros ts b1 ? _ ? ? ?. settle. pl.
Qed.
Local Hint Resolve runs_addRunSQLNode : ops.

Lemma runs_buildRunSQL ln p b : inv (plan b) b → makes b (buildRunSQL ln p).
Proof. intros Hi. unfold buildRunSQL. pl. Qed.

(** Buckets: one new tensor per payload and per key that is not a payload. *)
Lemma new_map_insert p0 p m i o : new_output p0 p o → new_map p0 p m → new_map p0 p (<[i:=o]> m).
Proof. intros. by apply map_Forall_insert_2. Qed.

Lemma runs_bucket_payloads l b :
  inv (plan b) b →
  runs (plan b)
    (foldlM (λ '(m, outs) it, ot ← on_plan (AddTensorAs it); mret (<[it:=ot]> m, outs ++ [ot]))
      ((∅ : gmap nat nat), []) l)
    (λ '(m, outs) b', new_map (plan b) (plan b') m ∧ Forall (new_output (plan b) (plan b')) outs) b.
Proof.
  intros Hi. apply (runs_foldlM (S:=statusConverter) R (plan b) (λ '(m, outs) b',
    new_map (plan b) (plan b') m ∧ Forall (new_output (plan b) (plan b')) outs)); [done| |].
  { split; [apply map_Forall_empty|by constructor]. }
  intros [m outs] x b1 _ _ Hi1 [Hm Ho]. pl1. pl1. pl1.
  split; [by apply new_map_insert|holds].
Qed.

Lemma runs_bucket_keys p0 m l b :
  inv p0 b → new_map p0 (plan b) m →
  runs p0
    (foldlM (λ (m : gmap nat nat) it,
      match m !! it with
      | Some _ => mret m
      | None => ot ← on_plan (AddTensorAs it); mret (<[it:=ot]> m)
      end) m l) (λ m b', new_map p0 (plan b') m ∧ keeps p0 (plan b) (plan b')) b.
Proof.
  intros Hi Hm. apply (runs_foldlM (S:=statusConverter) R p0
    (λ m b', new_map p0 (plan b') m ∧ keeps p0 (plan b) (plan b')));
    [done|split; [done|by intros ?]|].
  intros m' x b1 _ _ Hi1 [Hm1 Hk1]. settle. pl; (split; [|by eauto using keeps_trans]); [done|].
  by apply new_map_insert.
Qed.

Lemma runs_addBucketNode keys payloads ps b :
  inv (plan b) b → Forall (made (plan b)) keys → Forall (made (plan b)) payloads →
  runs (plan b) (addBucketNode keys payloads ps)
    (λ '(ks, os) b', Forall (made (plan b')) ks ∧ Forall (made (plan b')) os) b.
Proof.
  intros Hi Hk Hp. unfold addBucketNode. do 8 pl1. pl1. pl1.
  eapply runs_conseq; [by apply runs_bucket_payloads|].
  intros [m os] b1 ? ? [? ?]. settle. apply runs_bind.
  eapply runs_conseq; [by apply runs_bucket_keys|]. intros m' b2 ? ? [Hm' ?]. settle.
  apply runs_bind, runs_reads; [reading|done|]. intros ks Hks. settle.
  eapply (mapM_all (new_output (plan b) (plan b2))) in Hks;
    [|intros ? ? ? ? _ Hx%lift_some; exact (Hm' _ _ Hx)].
  assert (Forall (new_output (plan b) (plan b2)) (mergeTensors ks os)) by (by apply mergeTensors_all).
  assert (Forall (made (plan b2)) (mergeTensors keys payloads)) by (by apply mergeTensors_all).
  pl1. pl1. pl1. by apply mergeTensors_inv.
Qed.

(** Filters by index, one for each owner. *)
Lemma runs_filter_for_party filter ts p outTs code ids b :
  inv (plan b) b → made (plan b) filter → Forall (made (plan b)) ts →
  made_slots (plan b) outTs →
  runs (plan b) (filter_for_party filter ts p outTs code ids) (λ r b', made_slots (plan b') r) b.
Proof.
  intros. unfold filter_for_party. apply runs_bind.
  apply (runs_conseq _ _ _ (λ f b', made (plan b') f)); [pl|]. intros f b1 ? ? ?. settle.
  apply runs_bind, runs_reads; [reading|done|]. intros ins Hins. settle.
  eapply (mapM_all (made (plan b1))) in Hins;
    [|intros ? ? ? ? _ ?%index_Ok; by eapply Forall_lookup_1].
  pl1. pl1. pl1.
  apply (runs_foldlM (S:=statusConverter) R (plan b) (λ r b', made_slots (plan b') r));
    [done..|]. intros outs [i orig] b3 _ ? ? ?. settle. pl1. pl1. pl1.
  apply Forall_insert; [done|]. simpl. holds.
Qed.
Local Hint Resolve runs_filter_for_party : ops.

Lemma runs_addFilterByIndexNode filter ts p b :
  inv (plan b) b → made (plan b) filter → Forall (made (plan b)) ts →
  makes b (addFilterByIndexNode filter ts p).
Proof.
  intros. unfold addFilterByIndexNode. pl1. pl1. apply runs_bind.
  eapply runs_conseq.
  { apply (runs_foldlM (S:=statusConverter) R (plan b) (λ r b', made_slots (plan b') r)); [done| |].
    - unfold made_slots. apply Forall_replicate. by constructor.
    - intros outs [code ids] b1 _ ? ? ?. settle. pl. }
  intros outs b1 ? ? Hs. settle. apply runs_reads; [reading|done|].
  intros r Hr. eapply mapM_all; [done|]. intros o ? ? t Ho ->%lift_some. settle.
  unfold made_slots in Hs. rewrite Forall_forall in Hs. specialize (Hs _ Ho). by inversion Hs.
Qed.

(** ** Conversions of lists *)
Lemma runs_toShare l b :
  inv (plan b) b → Forall (made (plan b)) l →
  runs (plan b) (toShare l) (λ os b', Forall (made (plan b')) os ∧ length os = length l) b.
Proof.
  intros Hi Hl. apply runs_mapM_made; [done|]. intros x b1 Hx He Hi1.
  pose proof (made_in _ _ _ Hl Hx). settle. pl.
Qed.

Lemma runs_toPrivate l p b :
  inv (plan b) b → Forall (made (plan b)) l →
  runs (plan b) (toPrivate l p) (λ os b',
    Forall (λ o, made (plan b') o ∧ placed (plan b') o (privatePlacement p)) os
    ∧ Forall (made (plan b')) os ∧ length os = length l) b.
Proof.
  intros Hi Hl. eapply runs_conseq; [apply runs_mapM_placed; [done|]|].
  - intros x b1 Hx He Hi1. pose proof (made_in _ _ _ Hl Hx). settle. by pl.
  - intros os b' _ _ [Ho ?]. split_and!; [done| |done]. eapply Forall_impl; [done|]. by intros t [? _].
Qed.
Local Hint Resolve runs_toShare runs_toPrivate : ops.

(** ** Constants and casts *)
Lemma runs_addConstantNode v b : inv (plan b) b → makes_one b (addConstantNode v).
Proof. intros. unfold addConstantNode. pl. Qed.
Local Hint Resolve runs_addConstantNode : ops.

Lemma zip_fst_all {A B} (P : A → Prop) (l : list A) (k : list B) :
  Forall P l → Forall (λ p, P p.1) (zip l k).
Proof.
  intros Hl. apply Forall_forall. intros [x y] Hx. apply elem_of_zip_l in Hx.
  rewrite Forall_forall in Hl. by apply Hl.
Qed.

Lemma runs_broadcast l b :
  inv (plan b) b → Forall (made (plan b)) l → makes b (addBroadcastToNodeOndemand l).
Proof.
  intros Hi Hl. unfold addBroadcastToNodeOndemand. pl1; [pl|]. pl1. pl1. cbv zeta.
  pl1; [pl|]. pose proof (zip_fst_all _ _ (IsConstScalar <$> a) Hl) as Hz.
  assert (∀ f, Forall (made (plan b)) (Filter (zip l (IsConstScalar <$> a)) f).*1) as Hf
    by (intros f; by apply Forall_fmap, Filter_all).
  pose proof (Hf snd). destruct (last _) as [shapeT|] eqn:Hlast; [|pl].
  assert (made (plan b) shapeT) by (eapply made_in, last_Some_elem_of, Hlast; apply Hf).
  apply Forall_fmap in Hz. clear Hf. pl. by eapply fill_constants_made.
Qed.
Local Hint Resolve runs_broadcast : ops.

Lemma runs_castIfNeeded t c o tp b :
  inv (plan b) b → made (plan b) t → makes_one b (castIfNeeded t c o tp).
Proof. intros. unfold castIfNeeded. pl. Qed.
Local Hint Resolve runs_castIfNeeded : ops.

Lemma runs_cast_constants op l r b :
  inv (plan b) b → made (plan b) l → made (plan b) r →
  runs (plan b) (cast_constants op l r) (λ '(l, r) b', made (plan b') l ∧ made (plan b') r) b.
Proof. intros. unfold cast_constants. by pl. Qed.
Local Hint Resolve runs_cast_constants : ops.

(** ** Binary operators *)
Lemma runs_place_output p0 o pm b :
  inv p0 b → new_output p0 (plan b) o →
  runs p0 (place_output o pm) (λ _ b', keeps p0 (plan b) (plan b')) b.
Proof. intros. unfold place_output. pl; intros ? ?; auto. Qed.
Local Hint Resolve runs_place_output : ops.

Lemma BinaryOps_plain op : op ∈ BinaryOps → op ∉ special.
Proof. intros Hop. assert (Forall (λ op, op ∉ special) BinaryOps) as Hall by plain.
  rewrite Forall_forall in Hall. by apply Hall. Qed.

Lemma runs_addBinaryNode name op l r b :
  inv (plan b) b → made (plan b) l → made (plan b) r → makes_one b (addBinaryNode name op l r).
Proof.
  intros. unfold addBinaryNode. case_bool_decide as Hop; [|pl].
  apply BinaryOps_plain in Hop. pl.
Qed.
Local Hint Resolve runs_addBinaryNode : ops.

Lemma runs_addBasicInNode l r cc p psi b :
  inv (plan b) b → made (plan b) l → made (plan b) r → makes_one b (addBasicInNode l r cc p psi).
Proof. intros. unfold addBasicInNode. pl. Qed.
Local Hint Resolve runs_addBasicInNode : ops.

Lemma runs_addInNode f l r b :
  inv (plan b) b → made (plan b) l → made (plan b) r → makes_one b (addInNode f l r).
Proof. intros. unfold addInNode. pl. Qed.

(** ** CASE WHEN and IF *)
Lemma runs_restrict_output p0 o xs b :
  inv p0 b → new_output p0 (plan b) o →
  runs p0 (restrict_output o xs) (λ _ b', keeps p0 (plan b) (plan b')) b.
Proof.
  intros Hi Ho. unfold restrict_output.
  apply (runs_forM (S:=statusConverter) R p0 (λ b', keeps p0 (plan b) (plan b'))); [done|by intros ?|].
  intros x b1 _ _ Hi1 Hk. settle. pl.
Qed.
Local Hint Resolve runs_restrict_output : ops.

Lemma runs_addCaseWhenNode name conds value e b :
  inv (plan b) b → Forall (made (plan b)) conds → Forall (made (plan b)) value →
  made (plan b) e → makes_one b (addCaseWhenNode name conds value e).
Proof. intros. unfold addCaseWhenNode. pl. Qed.
Local Hint Resolve runs_addCaseWhenNode : ops.

Lemma runs_addIfNode name c x y b :
  inv (plan b) b → made (plan b) c → made (plan b) x → made (plan b) y →
  makes_one b (addIfNode name c x y).
Proof. intros. unfold addIfNode. pl. Qed.
Local Hint Resolve runs_addIfNode : ops.

(** ** Functions *)
Lemma NodeName_plain f : astName2NodeName f ∉ special.
Proof.
  unfold astName2NodeName. destruct (astName2NodeName_map !! f) as [op|] eqn:Hop; [|plain].
  revert Hop. by apply table_plain.
Qed.
Local Hint Resolve NodeName_plain : ops.

Lemma runs_binary f l r b :
  inv (plan b) b → made (plan b) l → made (plan b) r → makes_one b (binary f l r).
Proof. intros. unfold binary. pl. Qed.
Lemma runs_trigonometric f i b : inv (plan b) b → made (plan b) i → makes_one b (trigonometric f i).
Proof. intros. unfold trigonometric. pl. Qed.
Lemma runs_convertDegreeToRadians i b :
  inv (plan b) b → made (plan b) i → makes_one b (convertDegreeToRadians i).
Proof. intros. unfold convertDegreeToRadians. pl. Qed.
Local Hint Resolve runs_binary runs_trigonometric runs_convertDegreeToRadians : ops.

Lemma runs_buildGeoDistanceFunction l b :
  inv (plan b) b → Forall (made (plan b)) l → makes_one b (buildGeoDistanceFunction l).
Proof.
  intros. unfold buildGeoDistanceFunction. pl.
Qed.
Local Hint Resolve runs_buildGeoDistanceFunction : ops.

Lemma runs_arrow name f opt l tp b :
  inv (plan b) b → Forall (made (plan b)) l → makes_one b (arrow name f opt l tp).
Proof. intros. unfold arrow. pl. Qed.
Local Hint Resolve runs_arrow : ops.

Lemma runs_buildCompareNode f l b :
  inv (plan b) b → Forall (made (plan b)) l → makes_one b (buildCompareNode (astName2NodeName f) l).
Proof.
  intros Hi Hl. unfold buildCompareNode. pl1. pl1. cbv zeta. pl1; [pl|].
  pl1. eapply runs_call; [by eapply inv_frame|apply runs_mapM_made; [done|]|].
  - intros x b1 Hx He Hi1. pose proof (made_in _ _ _ Hl Hx). settle. pl.
  - intros ? ? ? _ ? ? ?. settle. pl.
Qed.
Local Hint Resolve runs_buildCompareNode : ops.

Lemma runs_buildConcat l b : inv (plan b) b → Forall (made (plan b)) l → makes_one b (buildConcat l).
Proof. intros. unfold buildConcat. pl. Qed.

Lemma runs_buildStrToDate args l b :
  inv (plan b) b → Forall (made (plan b)) l → makes_one b (buildStrToDate args l).
Proof. intros. unfold buildStrToDate. pl. Qed.
Local Hint Resolve runs_buildConcat runs_buildStrToDate : ops.

Lemma runs_buildBinaryFunction f l r b :
  inv (plan b) b → made (plan b) l → made (plan b) r → makes_one b (buildBinaryFunction f l r).
Proof.
  intros. unfold buildBinaryFunction. pl1; [|pl]. apply runs_bind.
  eapply runs_conseq; [by apply runs_attempt, runs_binary|].
  intros [o|] b1 ? ? ?; settle; pl.
Qed.
Local Hint Resolve runs_buildBinaryFunction : ops.

Lemma case_arguments_all (P : nat → Prop) (l : list nat) cs vs :
  case_arguments l = (cs, vs) → Forall P l → Forall P cs ∧ Forall P vs.
Proof.
  revert l cs vs. fix IH 1. intros [|c [|v l]] cs vs; simpl; [by intros [= <- <-]..|].
  destruct (case_arguments l) as [cs' vs'] eqn:Hl. intros [= <- <-] [? [? ?]%Forall_cons]%Forall_cons.
  destruct (IH l cs' vs' Hl) as [? ?]; auto.
Qed.

(** Translations of arguments, run later. *)
Definition arg_ok b (m : MC nat) : Prop :=
  ∀ b1, ext R (plan b) (plan b1) → inv (plan b1) b1 → makes_one b1 m.

Lemma arg_ok_ext b b' m : ext R (plan b) (plan b') → arg_ok b m → arg_ok b' m.
Proof. intros He Hm b1 He1. apply Hm. by eapply ext_trans. Qed.
Lemma arg_ok_all b b' l : ext R (plan b) (plan b') → Forall (arg_ok b) l → Forall (arg_ok b') l.
Proof. intros He Hl. eapply Forall_impl; [done|]. intros m. by apply arg_ok_ext. Qed.

Lemma runs_buildSubstr args argTs b :
  inv (plan b) b → Forall (arg_ok b) argTs → makes_one b (buildSubstr args argTs).
Proof.
  intros Hi Ha. unfold buildSubstr. apply runs_bind, runs_index0; [done|]. intros m Hm _ _.
  pose proof (head_all _ _ _ Ha Hm) as Hok.
  apply runs_bind. eapply runs_conseq; [apply runs_attempt, Hok; [apply ext_refl|done]|].
  intros [t|] b1 ? ? ?; settle; [|pl].
  pl1. pl1. pl1; [pl|]. apply runs_bind.
  apply (runs_conseq _ _ _ (λ _ b', b' = b1)); [by pl|]. intros start b' _ _ -> _ _.
  apply runs_bind. apply (runs_conseq _ _ _ (λ _ b', b' = b1)); [by pl|].
  intros stop b' _ _ -> _ _. pl.
Qed.

Lemma runs_interval args argTs b :
  inv (plan b) b → Forall (arg_ok b) argTs →
  runs (plan b) (TransferDateFuncIntervalToSeconds args argTs) (λ l b', b' = b ∧ Forall (arg_ok b) l) b.
Proof.
  intros Hi Ha. unfold TransferDateFuncIntervalToSeconds. pl; (split; [done|]).
  - apply Forall_insert; [by apply Forall_take|]. intros b1 _ Hi1. by apply runs_addConstantNode.
  - done.
Qed.

Lemma runs_scalar_switch f args ret l b :
  inv (plan b) b → Forall (made (plan b)) l → makes_one b (scalar_switch f args ret l).
Proof.
  intros Hi Hl. unfold scalar_switch. do 4 pl1. pl.
  match goal with Hc : case_arguments _ = _ |- _ =>
    destruct (case_arguments_all _ _ _ _ Hc Hl) end. pl.
Qed.
Local Hint Resolve runs_buildSubstr runs_scalar_switch : ops.

Lemma runs_buildScalarFunction f args ret argTs apply_ b :
  inv (plan b) b → Forall (arg_ok b) argTs →
  makes_one b (buildScalarFunction f args ret argTs apply_).
Proof.
  intros Hi Ha. unfold buildScalarFunction. do 3 (pl1; [pl|]). apply runs_bind.
  apply (runs_conseq _ _ _ (λ l b', b' = b ∧ Forall (arg_ok b) l)).
  { pl1; [by apply runs_interval|by apply runs_ret]. }
  intros l b' _ _ [-> Hl] _ _. apply runs_bind.
  eapply runs_conseq; [apply runs_mapM_made; [done|]|].
  { intros m b1 Hm He Hi1. rewrite Forall_forall in Hl. by apply Hl. }
  intros ins b1 ? ? [? _]. settle. apply runs_bind.
  apply (runs_conseq _ _ _ (λ l b', Forall (made (plan b')) l)); [pl|]. result. pl.
Qed.

Lemma runs_getTensorFromExpression m e b :
  inv (plan b) b → made_map (plan b) m → makes_one b (getTensorFromExpression m e).
Proof.
  revert b. induction e as [v ret|c|f args ret IH|c] using Expr_nested_ind; intros b Hi Hm; simpl;
    [pl| | |pl].
  - pl.
  - apply runs_buildScalarFunction; [done|]. apply Forall_fmap. eapply Forall_impl; [done|].
    intros e He b1 Hext Hi1. apply He; [done|]. by eapply ext_made_map.
Qed.
Local Hint Resolve runs_getTensorFromExpression : ops.

Lemma runs_buildExpression e m apply_ b :
  inv (plan b) b → made_map (plan b) m → makes_one b (buildExpression e m apply_).
Proof.
  intros Hi Hm. unfold buildExpression. destruct e as [|c|f args ret|]; [pl| | |pl].
  - pl.
  - apply runs_buildScalarFunction; [done|]. apply Forall_fmap, Forall_forall.
    intros e _ b1 Hext Hi1. apply runs_getTensorFromExpression; [done|]. by eapply ext_made_map.
Qed.
Local Hint Resolve runs_buildExpression : ops.

(** ** Filters *)
Definition split_made (s : GraphBuilder) (sp : split) : Prop :=
  Forall (made s) (shareTs sp).*2 ∧ map_Forall (λ _ l, Forall (made s) l.*2) (privateTs sp).

Lemma split_made_ext s s' sp : ext R s s' → split_made s sp → split_made s' sp.
Proof.
  intros He [? Hp]. split; [by eapply ext_made_all|]. intros k l Hk.
  eapply ext_made_all; [done|]. by eapply Hp.
Qed.
Lemma split_made_empty s : split_made s (mkSplit [] ∅).
Proof. split; [by constructor|apply map_Forall_empty]. Qed.
Lemma add_share_made s id t sp : made s t → split_made s sp → split_made s (add_share id t sp).
Proof. intros Ht [Hs Hp]. split; [|done]. simpl. rewrite fmap_app. simpl. holds. Qed.
Lemma add_private_made s p id t sp :
  made s t → split_made s sp → split_made s (add_private p id t sp).
Proof.
  intros Ht [Hs Hp]. split; [done|]. apply map_Forall_insert_2; [|done].
  rewrite fmap_app. apply Forall_app. split; [|simpl; holds].
  destruct (privateTs sp !! p) as [l|] eqn:Hl; [by apply (Hp p)|by constructor].
Qed.

Lemma runs_filter_group f ps g m b :
  inv (plan b) b → made (plan b) f → Forall (made (plan b)) g.*2 → made_map (plan b) m →
  runs (plan b) (filter_group f ps g m) (λ m b', made_map (plan b') m) b.
Proof. intros. unfold filter_group. pl. Qed.
Local Hint Resolve runs_filter_group : ops.

Lemma runs_addFilterNode f m b :
  inv (plan b) b → made (plan b) f → made_ptrs (plan b) m →
  runs (plan b) (addFilterNode f m) (λ m b', made_map (plan b') m) b.
Proof.
  intros Hi Hf Hm. unfold addFilterNode. apply runs_bind. eapply runs_conseq.
  { apply (runs_foldlM (S:=statusConverter) R (plan b) (λ sp b', split_made (plan b') sp));
      [done|apply split_made_empty|].
    intros sp [id o] b1 Ho%elem_of_SortedMap He Hi1 Hsp.
    assert (Forall (made (plan b1)) (option_list o)) by (eapply ext_made_all; [done|by eapply Hm]).
    pl1. pl1. destruct o as [t|]; [|done]. simplify_eq/=. settle.
    pl; auto using add_share_made, add_private_made. }
  intros sp b1 ? ? Hsp. settle. apply runs_bind.
  apply (runs_conseq _ _ _ (λ m b', made_map (plan b') m)).
  { destruct Hsp as [Hs _]. pl; apply made_map_empty. }
  intros r b2 ? ? Hr. apply (split_made_ext _ (plan b2)) in Hsp; [|done]. settle.
  destruct Hsp as [_ Hp].
  apply (runs_foldlM (S:=statusConverter) R (plan b) (λ m b', made_map (plan b') m)); [done..|].
  intros r' [p g] b3 Hg%elem_of_SortedMap ? ? ?.
  assert (Forall (made (plan b2)) g.*2) by (by eapply Hp). settle. pl.
Qed.
Local Hint Resolve runs_addFilterNode : ops.

(** ** Groups, sorts, unions *)
Lemma runs_new_as_many l b :
  inv (plan b) b →
  runs (plan b) (mapM (λ t, on_plan (AddTensorAs t)) l)
    (λ os b', Forall (new_output (plan b) (plan b')) os ∧ length os = length l) b.
Proof. intros Hi. apply runs_mapM_new; [done|]. intros x b1 _ _ Hi1. pl. Qed.
Local Hint Resolve runs_new_as_many : ops.

Lemma runs_addGroupAggNode name op gid gnum l p attr b :
  inv (plan b) b → op ∉ special → made (plan b) gid → made (plan b) gnum →
  Forall (made (plan b)) l → makes b (addGroupAggNode name op gid gnum l p attr).
Proof.
  intros. unfold addGroupAggNode. do 9 pl1. apply runs_bind.
  eapply runs_call; [by eapply inv_frame|apply runs_mapM_new|].
  - by eapply inv_here.
  - intros x b1 _ _ Hi1. pl.
  - intros os b1 ? _ ? ? ?. settle. pl.
Qed.

Lemma runs_addUniqueNode name i p b :
  inv (plan b) b → made (plan b) i → makes_one b (addUniqueNode name i p).
Proof. intros. unfold addUniqueNode. pl. Qed.

Lemma runs_addSortNode name key l rev b :
  inv (plan b) b → Forall (made (plan b)) key → Forall (made (plan b)) l →
  makes b (addSortNode name key l rev).
Proof.
  intros Hi Hk Hl. unfold addSortNode. pl1. pl1. destruct (needShare ∅ a) as [share owners].
  apply runs_bind, (runs_conseq _ _ _ (λ l b', Forall (made (plan b')) l)); [pl|]. result.
  apply runs_bind, (runs_conseq _ _ _ (λ l b', Forall (made (plan b')) l)); [pl|]. result. pl.
Qed.

Lemma runs_addObliviousGroupMarkNode name key b :
  inv (plan b) b → Forall (made (plan b)) key → makes_one b (addObliviousGroupMarkNode name key).
Proof. intros. unfold addObliviousGroupMarkNode. pl. Qed.

Lemma runs_addObliviousGroupAggNode f g i attr b :
  inv (plan b) b → made (plan b) g → made (plan b) i →
  makes_one b (addObliviousGroupAggNode f g i attr).
Proof.
  intros. unfold addObliviousGroupAggNode.
  destruct (ObliviousGroupAggOp !! f) as [op|] eqn:Hop; [|pl].
  assert (op ∉ special) by (revert Hop; by apply table_plain). pl.
Qed.

Lemma runs_addShuffleNode name l b :
  inv (plan b) b → Forall (made (plan b)) l → makes b (addShuffleNode name l).
Proof.
  intros Hi Hl. unfold addShuffleNode. apply runs_bind, runs_wrapErr.
  eapply runs_conseq; [apply runs_mapM_made; [done|]|].
  - intros x b1 Hx ? ?. pose proof (made_in _ _ _ Hl Hx). settle. pl.
  - intros os b1 ? ? [? _]. settle. pl.
Qed.

Lemma runs_addConcatNode l b :
  inv (plan b) b → Forall (made (plan b)) l → makes_one b (addConcatNode l).
Proof.
  intros Hi Hl. unfold addConcatNode. pl1. pl1. pl1. pl1. cbv zeta. pl1; [pl|].
  do 7 pl1.
  match goal with Ho : new_output _ _ ?o |- _ => apply runs_bind,
    (runs_conseq _ _ _ (λ _ b', new_output (plan b) (plan b') o)) end.
  { apply (runs_forM (S:=statusConverter) R (plan b)); [done..|].
    intros x b1 _ _ Hi1 Ho. unfold concat_owners. pl. }
  result. pl.
Qed.

Lemma runs_addGroupNode name l p b :
  inv (plan b) b → Forall (made (plan b)) l →
  runs (plan b) (addGroupNode name l p) (λ '(x, y) b', made (plan b') x ∧ made (plan b') y) b.
Proof. intros. unfold addGroupNode. by pl. Qed.

Lemma runs_addWindowNode p0 name key pid pnum o attr p b :
  inv p0 b → name ∉ special → Forall (made (plan b)) key → made (plan b) pid →
  made (plan b) pnum → new_output p0 (plan b) o →
  runs p0 (addWindowNode name key pid pnum o attr p) (λ _ b', made (plan b') o) b.
Proof. intros. unfold addWindowNode. pl. Qed.

Lemma runs_addGroupHeSumNode name gid gnum i gp ip b :
  inv (plan b) b → made (plan b) gid → made (plan b) gnum → made (plan b) i →
  makes_one b (addGroupHeSumNode name gid gnum i gp ip).
Proof. intros. unfold addGroupHeSumNode. pl. Qed.

(** ** Cross joins *)
Lemma runs_cross_side p0 ln m outs b :
  inv p0 b → map_Forall (λ _ t, t ∈ outs) m →
  runs p0 (cross_side ln m) (λ '(os, m') b', Forall (new_output p0 (plan b')) os
    ∧ keeps p0 (plan b) (plan b') ∧ map_Forall (λ _ t, t ∈ outs ++ os) m') b.
Proof.
  intros Hi Hm. unfold cross_side. do 4 pl1. pl1. split_and!; [done..|].
  eapply (assign_all_values (λ t, t ∈ outs ++ _)); [done| |].
  - apply Forall_forall. intros t Ht. apply elem_of_app. by right.
  - intros k t Hk. apply elem_of_app. left. by eapply Hm.
Qed.

Lemma runs_buildCrossJoin l r b :
  inv (plan b) b → Forall (made (plan b)) (ResultTable l) → Forall (made (plan b)) (ResultTable r) →
  runs (plan b) (buildCrossJoin l r) (λ m b', made_map (plan b') m) b.
Proof.
  intros Hi Hl Hr. unfold buildCrossJoin. apply runs_bind.
  eapply runs_conseq; [apply (runs_cross_side _ _ _ []); [done|apply map_Forall_empty]|].
  intros [lo m] b1 ? ? (? & ? & Hm). settle. do 4 pl1. apply runs_bind.
  eapply runs_conseq; [by apply (runs_cross_side _ _ _ lo)|].
  intros [ro m'] b2 ? ? (? & ? & Hm'). settle. do 4 pl1. cbv zeta. do 4 pl1.
  intros k t Hk. specialize (Hm' k t Hk). apply elem_of_app in Hm' as [?|?];
    [by apply (made_in lo)|by apply (made_in ro)].
Qed.
End nodes.

#[export] Hint Resolve runs_setResultTable runs_SetResultTable runs_extractResultTable
  runs_buildRunSQL runs_addBucketNode runs_addFilterByIndexNode runs_toShare runs_toPrivate
  runs_addConstantNode runs_broadcast runs_addInNode runs_buildExpression
  runs_getTensorFromExpression runs_addFilterNode runs_addGroupAggNode runs_addUniqueNode
  runs_addSortNode runs_addObliviousGroupMarkNode runs_addObliviousGroupAggNode
  runs_addShuffleNode runs_addConcatNode runs_addGroupNode runs_addWindowNode
  runs_addGroupHeSumNode runs_buildCrossJoin runs_addBinaryNode runs_new_as_many
  runs_filter_group : ops.
