(* ===== verification/PlanBuild.v ===== *)
(** * Logical nodes in the logic of plans

    One specification per [build...] operation of [BuildNode]: if the tables of the
    children are made, the table of the node is.  The walk through the logical plan and
    the nodes that deliver the result follow. *)
From Stdlib Require Import SpecFloat.
From S2P Require Import Prelude GoInt Sliceutil Expression Operator Ccl Graph GraphBuilder.
From S2P Require Import BuilderSpec Algorithm StatusConverter Dag LogicalNode BuildCcl Translator.
From S2P Require Import BuildNode PlanLogic PlanOps PlanNodes.
#[local] Open Scope nat_scope.

Section build.
Context `{GoRange} {cfg : config} {ex : externals}.
Context (R : relation GraphBuilder).
Context (HR : ∀ s s', plan_step TypeName SerializeOptions s s' → R s s').
Local Notation runs := (runs R).
Implicit Types b : statusConverter.
Local Notation makes b m := (runs (plan b) m (λ os b', Forall (made (plan b')) os) b).
Local Notation makes_one b m := (runs (plan b) m (λ o b', made (plan b') o) b).
Local Notation tables children := (mbind ResultTable (children : list logicalNode)).

Lemma pointers_to_made s m : made_map s m → made_ptrs s (Some <$> m).
Proof.
  intros Hm k o. rewrite lookup_fmap. destruct (m !! k) as [t|] eqn:Ht; [|done].
  intros [= <-]. simpl. constructor; [by eapply Hm|done].
Qed.
Local Hint Resolve pointers_to_made : ops.

Lemma runs_setTable n m b : inv (plan b) b → made_map (plan b) m → makes b (setTable n m).
Proof. intros. unfold setTable. pl. Qed.
Local Hint Resolve runs_setTable : ops.

Lemma point_made s cols m acc :
  made_map s m → made_ptrs s acc →
  made_ptrs s (foldl (λ acc c, <[UniqueID c := m !! UniqueID c]> acc) acc cols).
Proof.
  intros Hm. revert acc. induction cols as [|c cols IH]; intros acc Ha; [done|].
  simpl. apply IH. apply map_Forall_insert_2; [|done].
  destruct (m !! UniqueID c) as [t|] eqn:Ht; simpl; [|by constructor].
  constructor; [by eapply Hm|done].
Qed.
Lemma pointers_made s cols m : made_map s m → made_ptrs s (pointers cols m).
Proof. intros. apply point_made; [done|apply made_ptrs_empty]. Qed.
Local Hint Resolve pointers_made : ops.

(** ** Subqueries *)
Lemma runs_reverseFilter t b : inv (plan b) b → made (plan b) t → makes_one b (reverseFilter t).
Proof. intros. unfold reverseFilter. pl. Qed.
Local Hint Resolve runs_reverseFilter : ops.

Lemma made_ptrs_insert s id t m : made s t → made_ptrs s m → made_ptrs s (<[id:=Some t]> m).
Proof. intros. apply map_Forall_insert_2; [|done]. simpl. holds. Qed.

Lemma runs_selectIn n m t rev b :
  inv (plan b) b → made_ptrs (plan b) m → made (plan b) t →
  runs (plan b) (selectIn n m t rev) (λ m b', made_ptrs (plan b') m) b.
Proof.
  intros. unfold selectIn. apply runs_bind, (runs_conseq _ _ _ (λ f b', made (plan b') f)); [pl|].
  result. pl. by apply made_ptrs_insert.
Qed.

Lemma runs_whereIn cols m t rev b :
  inv (plan b) b → made_ptrs (plan b) m → made (plan b) t →
  runs (plan b) (whereIn cols m t rev) (λ m b', made_ptrs (plan b') m) b.
Proof.
  intros. unfold whereIn. apply runs_bind, (runs_conseq _ _ _ (λ f b', made (plan b') f)); [pl|].
  result. pl. by apply point_made.
Qed.
Local Hint Resolve runs_selectIn runs_whereIn : ops.

Lemma replace_columns_made s cols ts m m' :
  replace_columns cols ts m = Ok m' → Forall (made s) ts → made_ptrs s m → made_ptrs s m'.
Proof.
  revert ts m. induction cols as [|c cols IH]; intros ts m; simpl; [by intros [= <-]|].
  intros Hr Hts Hm. destruct (m !! UniqueID c); [|eapply IH; [done| |done]; by destruct Hts].
  destruct Hts; [done|]. eapply IH; [done..|]. by apply made_ptrs_insert.
Qed.

Lemma runs_apply_buckets l r lk rk m b :
  inv (plan b) b → Forall (made (plan b)) (ResultTable l) → Forall (made (plan b)) (ResultTable r) →
  made (plan b) lk → made (plan b) rk → made_ptrs (plan b) m →
  runs (plan b) (apply_buckets l r lk rk m)
    (λ '(x, y, m) b', made (plan b') x ∧ made (plan b') y ∧ made_ptrs (plan b') m) b.
Proof.
  intros. unfold apply_buckets. pl; [|done]. split_and!; [done..|]. by eapply replace_columns_made.
Qed.
Local Hint Resolve runs_apply_buckets : ops.

Lemma runs_buildApply n children tp eqs ls rs others b :
  inv (plan b) b → Forall (made (plan b)) (tables children) →
  makes b (buildApply n children tp eqs ls rs others).
Proof.
  intros Hi Hc. unfold buildApply. destruct children as [|l [|r [|? ?]]]; [pl..| |pl].
  simpl in Hc. settle. pl1; [pl|]. pl1; [pl|]. do 4 pl1. cbv zeta.
  match goal with |- context [pointers ?c ?m] => assert (made_ptrs (plan b) (pointers c m))
    by (by apply pointers_made); generalize dependent (pointers c m); intros ptrs Hp end.
  pl.
Qed.
Local Hint Resolve runs_buildApply : ops.

(** ** Joins *)
Lemma runs_buildSecretEQJoin n tp lk rk lt rt lc rc b :
  inv (plan b) b → Forall (made (plan b)) lk → Forall (made (plan b)) rk →
  Forall (made (plan b)) lt → Forall (made (plan b)) rt →
  makes b (buildSecretEQJoin n tp lk rk lt rt lc rc).
Proof. intros. unfold buildSecretEQJoin. pl. Qed.
Local Hint Resolve runs_buildSecretEQJoin : ops.

Lemma runs_apply_index i cc ts cols m b :
  inv (plan b) b → Forall (made (plan b)) (option_list i) → Forall (made (plan b)) ts →
  made_map (plan b) m →
  runs (plan b) (apply_index i cc ts cols m) (λ m b', made_map (plan b') m) b.
Proof.
  intros. unfold apply_index. pl1; [pl|]. pl1. pl1. destruct i; [|done]. simplify_eq/=. settle. pl.
Qed.
Local Hint Resolve runs_apply_index : ops.

Lemma find_column_made s cols rt id r :
  find_column cols rt id = Some (Ok r) → Forall (made s) rt → made s r.
Proof.
  revert rt. induction cols as [|c cols IH]; intros rt; simpl; [done|]. intros Hf Hrt.
  case_bool_decide; [|eapply IH; [done|]; by destruct Hrt].
  destruct Hrt; simplify_eq/=. done.
Qed.
Lemma FindTensor_made s n id t :
  FindTensorByColumnId n id = Ok t → Forall (made s) (ResultTable n) → made s t.
Proof.
  unfold FindTensorByColumnId. case_bool_decide; [done|].
  destruct (find_column _ _ _) as [r|] eqn:Hf; [|done]. simpl. intros ->. by eapply find_column_made.
Qed.

Definition key_made (s : GraphBuilder) (k : nat * nat * bool) : Prop := made s k.1.1 ∧ made s k.1.2.

Lemma join_key_made s l r e b b' k :
  join_key l r e b = (b', Ok k) → Forall (made s) (ResultTable l) →
  Forall (made s) (ResultTable r) → key_made s k.
Proof.
  unfold join_key. intros Hk Hl Hr.
  apply M_bind_Ok in Hk as ([lc rc] & b1 & _ & Hk).
  apply M_bind_Ok in Hk as (lt & b2 & Hlt%wrapErr_Ok & Hk).
  apply M_bind_Ok in Hk as (rt & b3 & Hrt%wrapErr_Ok & Hk).
  apply M_bind_Ok in Hk as (x & b4 & _ & Hk). apply M_bind_Ok in Hk as (y & b5 & _ & Hk).
  injection Hk as _ <-. injection Hlt as _ Hlt. injection Hrt as _ Hrt.
  split; simpl; [by apply (FindTensor_made s l (UniqueID lc))|].
  by apply (FindTensor_made s r (UniqueID rc)).
Qed.

Lemma runs_buildEQJoin n l r tp eqs b :
  inv (plan b) b → Forall (made (plan b)) (ResultTable l) → Forall (made (plan b)) (ResultTable r) →
  makes b (buildEQJoin n l r tp eqs).
Proof.
  intros Hi Hl Hr. unfold buildEQJoin. apply runs_bind, runs_reads; [unfold join_key; reading|done|].
  intros keys Hkeys. eapply (mapM_all (key_made (plan b))) in Hkeys;
    [|intros; by eapply join_key_made]. intros _ _. cbv zeta.
  assert (Forall (made (plan b)) keys.*1.*1).
  { rewrite !Forall_fmap. eapply Forall_impl; [done|]. by intros k []. }
  assert (Forall (made (plan b)) keys.*1.*2).
  { rewrite !Forall_fmap. eapply Forall_impl; [done|]. by intros k []. }
  do 8 pl1. pl1; [pl|]. do 6 pl1. apply runs_bind.
  apply (runs_conseq _ _ _ (λ '(x, y) b', Forall (made (plan b')) x ∧ Forall (made (plan b')) y)).
  { by pl. }
  intros [lk lt] b1 ? ? [? ?]. settle. apply runs_bind.
  apply (runs_conseq _ _ _ (λ '(x, y) b', Forall (made (plan b')) x ∧ Forall (made (plan b')) y)).
  { by pl. }
  intros [rk rt] b2 ? ? [? ?]. settle. cbv zeta. pl.
Qed.
Local Hint Resolve runs_buildEQJoin : ops.

Lemma runs_buildJoin n children tp eqs ls rs others b :
  inv (plan b) b → Forall (made (plan b)) (tables children) →
  makes b (buildJoin n children tp eqs ls rs others).
Proof.
  intros Hi Hc. unfold buildJoin. destruct children as [|l [|r [|? ?]]]; [pl..| |pl].
  simpl in Hc. settle. pl.
Qed.

(** ** Selections *)
Lemma runs_split_visible sp id t b :
  inv (plan b) b → made (plan b) t → split_made (plan b) sp →
  runs (plan b) (split_visible sp id t) (λ sp b', split_made (plan b') sp) b.
Proof. intros. unfold split_visible. pl; auto using add_share_made, add_private_made. Qed.

Lemma runs_split_hidden cc sp id t b :
  inv (plan b) b → made (plan b) t → split_made (plan b) sp →
  runs (plan b) (split_hidden cc sp id t) (λ sp b', split_made (plan b') sp) b.
Proof.
  intros Hi Ht Hsp. unfold split_hidden. pl1. pl1. pl1; [pl; by apply add_private_made|].
  destruct (Filter _ _) as [|p ps]; [pl|]. pl1. pl1. pl1.
  apply add_private_made; [done|]. by eapply split_made_ext.
Qed.

Local Hint Resolve runs_split_visible runs_split_hidden : ops.

Lemma runs_split_columns f m b :
  inv (plan b) b → made (plan b) f → made_ptrs (plan b) m →
  runs (plan b) (split_columns f m) (λ sp b', split_made (plan b') sp) b.
Proof.
  intros Hi Hf Hm. unfold split_columns.
  apply (runs_foldlM (S:=statusConverter) R (plan b) (λ sp b', split_made (plan b') sp));
    [done|apply split_made_empty|].
  intros sp [id o] b1 Ho%elem_of_SortedMap He Hi1 Hsp.
  assert (Forall (made (plan b1)) (option_list o)) by (eapply ext_made_all; [done|by eapply Hm]).
  pl1. pl1. pl1. pl1. destruct o as [t|]; [|done]. simplify_eq/=. settle.
  pl.
Qed.
Local Hint Resolve runs_split_columns : ops.

Lemma runs_groups (step : string → list (Z * nat) → gmap Z nat → MC (gmap Z nat)) p0 sp m b :
  inv p0 b → made_map (plan b) m → split_made (plan b) sp →
  (∀ p g m b1, ext R (plan b) (plan b1) → inv (plan b1) b1 → Forall (made (plan b1)) g.*2 →
     made_map (plan b1) m → runs (plan b1) (step p g m) (λ m b', made_map (plan b') m) b1) →
  runs p0 (foldlM (λ m '(p, g), step p g m) m (SortedMap (privateTs sp)))
    (λ m b', made_map (plan b') m) b.
Proof.
  intros Hi Hm [_ Hsp] Hstep.
  apply (runs_foldlM (S:=statusConverter) R p0 (λ m b', made_map (plan b') m)); [done..|].
  intros m' [p g] b1 Hg%elem_of_SortedMap He Hi1 Hm'.
  eapply runs_call; [by eapply inv_frame|apply Hstep; [done|by eapply inv_here| |done]|by intros].
  eapply ext_made_all; [done|]. by eapply Hsp.
Qed.

Lemma runs_filter_split f sp b :
  inv (plan b) b → made (plan b) f → split_made (plan b) sp →
  runs (plan b) (filter_split f sp) (λ m b', made_map (plan b') m) b.
Proof.
  intros Hi Hf Hsp. unfold filter_split. apply runs_bind.
  apply (runs_conseq _ _ _ (λ m b', made_map (plan b') m)).
  { destruct Hsp as [? _]. pl; apply made_map_empty. }
  intros r b1 He Hi1 Hr. apply (split_made_ext R _ (plan b1)) in Hsp; [|done]. settle.
  apply runs_groups; [done..|]. intros p g m b2 ? ? ? ?. settle. pl.
Qed.
Local Hint Resolve runs_filter_split : ops.

(** ** Projections *)
Lemma runs_expressions {A} (f : A → Expr) (l : list A) m b :
  inv (plan b) b → made_map (plan b) m →
  makes b (mapM (λ x, getTensorFromExpression m (f x)) l).
Proof.
  intros Hi Hm. eapply runs_conseq; [apply runs_mapM_made; [done|]|by intros ? ? _ _ [? _]].
  intros e b1 _ ? ?. settle. pl.
Qed.
Local Hint Resolve runs_expressions : ops.

Lemma runs_buildProjection n children es b :
  inv (plan b) b → Forall (made (plan b)) (tables children) → makes b (buildProjection n children es).
Proof.
  intros Hi Hc. unfold buildProjection. destruct children as [|c [|? ?]]; [pl| |pl].
  simpl in Hc. settle. pl.
Qed.

Lemma runs_buildSelection n children conds b :
  inv (plan b) b → Forall (made (plan b)) (tables children) →
  makes b (buildSelection n children conds).
Proof.
  intros Hi Hc. unfold buildSelection. destruct children as [|c [|? ?]]; [pl| |pl].
  simpl in Hc. settle. pl1. pl1. pl1; [pl|]. cbv zeta.
  match goal with |- context [pointers ?c ?m] => assert (made_ptrs (plan b) (pointers c m))
    by (by apply pointers_made); generalize dependent (pointers c m); intros ptrs Hp end.
  apply runs_bind. eapply runs_conseq; [apply runs_mapM_made; [done|]|].
  { intros e b1 _ ? ?. settle. pl. }
  intros fs b1 ? ? [? _]. settle. pl1. pl1. apply runs_bind.
  eapply runs_conseq; [apply (runs_foldlM (S:=statusConverter) R (plan b) (λ f b', made (plan b') f))|].
  - done.
  - done.
  - intros f x b2 Hx ? ? ?. assert (made (plan b1) x).
    { eapply made_in; [done|]. destruct fs; [by apply not_elem_of_nil in Hx|by right]. }
    settle. pl.
  - result. pl.
Qed.

(** ** Aggregations *)
Lemma reads_percent_attr e x : reads (percent_attr e x).
Proof. unfold percent_attr. reading. Qed.
Local Hint Resolve reads_percent_attr : reads.

Lemma runs_count_distinct t b : inv (plan b) b → made (plan b) t → makes_one b (count_distinct t).
Proof. intros. unfold count_distinct. pl. Qed.
Lemma runs_count_rows c b :
  inv (plan b) b → Forall (made (plan b)) (ResultTable c) → makes_one b (count_rows c).
Proof.
  intros. unfold count_rows. do 4 pl1. apply runs_bind.
  apply (runs_conseq _ _ _ (λ _ b', b' = b)); [by pl|]. intros p b' _ _ -> _ _. pl.
Qed.
Lemma runs_reduce m agg e b : inv (plan b) b → made_map (plan b) m → makes_one b (reduce m agg e).
Proof. intros. unfold reduce. pl. Qed.
Local Hint Resolve runs_count_distinct runs_count_rows runs_reduce : ops.

Lemma runs_buildAggFunc c m agg b :
  inv (plan b) b → Forall (made (plan b)) (ResultTable c) → made_map (plan b) m →
  makes_one b (buildAggFunc c m agg).
Proof. intros. unfold buildAggFunc. pl. Qed.
Local Hint Resolve runs_buildAggFunc : ops.

Lemma runs_for_agg_funcs n aggs f b :
  inv (plan b) b → (∀ agg, arg_ok R b (f agg)) →
  runs (plan b) (for_agg_funcs n aggs f) (λ m b', made_map (plan b') m) b.
Proof.
  intros Hi Hf. unfold for_agg_funcs.
  apply (runs_foldlM (S:=statusConverter) R (plan b) (λ m b', made_map (plan b') m));
    [done|apply made_map_empty|].
  intros m [i agg] b1 _ He Hi1 Hm. apply runs_bind.
  eapply runs_call; [by eapply inv_frame|apply Hf; [done|by eapply inv_here]|].
  intros o b2 ? _ ? ? ?. settle. pl. by apply made_map_insert.
Qed.

Lemma runs_buildGroupId c es p b :
  inv (plan b) b → Forall (made (plan b)) (ResultTable c) →
  runs (plan b) (buildGroupId c es p) (λ '(x, y) b', made (plan b') x ∧ made (plan b') y) b.
Proof.
  intros. unfold buildGroupId. do 3 pl1. pl1.
  eapply runs_call; [by eapply inv_frame|by apply (runs_expressions id)|].
  intros ks b1 ? _ ? ? ?. settle. by pl.
Qed.

Lemma GroupAggOp_plain name : default "" (GroupAggOp !! name) ∉ special.
Proof.
  destruct (GroupAggOp !! name) as [op|] eqn:Hop; [|plain]. revert Hop. by apply table_plain.
Qed.
Local Hint Resolve GroupAggOp_plain : ops.

Lemma runs_private_agg gid gnum m p agg b :
  inv (plan b) b → made (plan b) gid → made (plan b) gnum → made_map (plan b) m →
  makes_one b (private_agg gid gnum m p agg).
Proof.
  intros. unfold private_agg. cbv zeta. pl1; [pl|]. pl1; [pl|].
  pl.
Qed.

Lemma runs_buildPrivateGroupAggregation n c aggs es p b :
  inv (plan b) b → Forall (made (plan b)) (ResultTable c) →
  makes b (buildPrivateGroupAggregation n c aggs es p).
Proof.
  intros. unfold buildPrivateGroupAggregation. pl1. pl1.
  eapply runs_conseq; [by apply runs_buildGroupId|]. intros [gid gnum] b1 ? ? ?. settle.
  pl1. pl1. apply runs_bind.
  eapply runs_call; [by eapply inv_frame|apply runs_for_agg_funcs; [by eapply inv_here|]|].
  - intros agg b2 ? ?. settle. by apply runs_private_agg.
  - intros m b2 ? _ ? ? ?. settle. pl.
Qed.

Lemma Forall_take_drop {A} (P : A → Prop) k l :
  Forall P l → Forall P (take k l) ∧ Forall P (drop k l).
Proof. intros. split; [by apply Forall_take|by apply Forall_drop]. Qed.

Lemma runs_shuffle_keys ks payload p b :
  inv (plan b) b → Forall (made (plan b)) ks → Forall (made (plan b)) payload →
  runs (plan b) (shuffle_keys ks payload p)
    (λ '(x, y) b', Forall (made (plan b')) x ∧ Forall (made (plan b')) y) b.
Proof.
  intros. unfold shuffle_keys. do 3 pl1.
  match goal with Hl : Forall _ a |- _ =>
    pose proof (Forall_take_drop _ (length ks) _ Hl) as [Ht ?] end.
  apply runs_bind. eapply runs_call; [by eapply inv_frame|apply runs_mapM_made|].
  - by eapply inv_here.
  - intros k b1 Hk ? ?. pose proof (made_in _ _ _ Ht Hk). settle. pl.
  - intros xs b1 ? _ ? ? ?. settle. by pl.
Qed.

Lemma runs_oblivious_count g ks m agg e b :
  inv (plan b) b → made (plan b) g → Forall (made (plan b)) ks → made_map (plan b) m →
  makes_one b (oblivious_count g ks m agg e).
Proof. intros. unfold oblivious_count. cbv zeta. pl. Qed.
Local Hint Resolve runs_oblivious_count : ops.

Lemma runs_oblivious_agg g ks m agg b :
  inv (plan b) b → made (plan b) g → Forall (made (plan b)) ks → made_map (plan b) m →
  makes_one b (oblivious_agg g ks m agg).
Proof. intros. unfold oblivious_agg. cbv zeta. pl. Qed.

Lemma runs_shuffle_result rt g b :
  inv (plan b) b → Forall (made (plan b)) rt → made (plan b) g →
  runs (plan b) (shuffle_result rt g) (λ '(rt, g) b', Forall (made (plan b')) rt ∧ made (plan b') g) b.
Proof.
  intros. unfold shuffle_result. pl; [|done]. split; [by apply Forall_take|done].
Qed.

Local Hint Resolve runs_shuffle_keys runs_shuffle_result : ops.

Lemma runs_reveal_mark g ps p0 b :
  inv p0 b → made (plan b) g →
  runs p0 (forM (λ p, upd g (λ g, set_CC (SetLevelForParty (CC g) p Plain) g)) ps)
    (λ _ b', keeps p0 (plan b) (plan b')) b.
Proof.
  intros Hi Hg.
  apply (runs_forM (S:=statusConverter) R p0 (λ b', keeps p0 (plan b) (plan b')));
    [done|by intros ?|]. intros p b1 _ ? ? ?. settle. pl.
Qed.
Local Hint Resolve runs_reveal_mark : ops.

Lemma runs_buildObliviousGroupAggregation n c aggs es b :
  inv (plan b) b → Forall (made (plan b)) (ResultTable c) →
  makes b (buildObliviousGroupAggregation n c aggs es).
Proof.
  intros. unfold buildObliviousGroupAggregation. cbv zeta. do 4 pl1.
  eapply runs_call; [by eapply inv_frame|by apply (runs_expressions id)|].
  intros ks b1 ? _ ? ? ?. settle. do 2 pl1. apply runs_bind.
  apply (runs_conseq _ _ _ (λ '(x, y) b', Forall (made (plan b')) x ∧ Forall (made (plan b')) y)).
  { by pl. }
  intros [keys payload] b2 ? ? [? ?]. settle. do 3 pl1.
  match goal with Hl : Forall _ a1 |- _ =>
    pose proof (Forall_take_drop _ (length keys) _ Hl) as [? ?] end.
  do 5 pl1. apply runs_bind.
  eapply runs_call; [by eapply inv_frame|apply runs_for_agg_funcs; [by eapply inv_here|]|].
  - intros agg b3 ? ?. settle. by apply runs_oblivious_agg.
  - intros m b3 ? _ ? ? ?. settle. pl.
Qed.
Local Hint Resolve runs_buildPrivateGroupAggregation runs_buildObliviousGroupAggregation : ops.

Lemma runs_buildAggregation n children aggs es b :
  inv (plan b) b → Forall (made (plan b)) (tables children) →
  makes b (buildAggregation n children aggs es).
Proof.
  intros Hi Hc. unfold buildAggregation. destruct children as [|c [|? ?]]; [pl| |pl].
  simpl in Hc. settle. unfold buildGroupAggregation. pl1; [pl|]. pl1. pl1. apply runs_bind.
  eapply runs_call; [by eapply inv_frame|apply runs_for_agg_funcs; [done|]|].
  - intros agg b3 ? ?. settle. pl.
  - intros m b3 ? _ ? ? ?. settle. pl.
Qed.

(** ** Unions, limits, sorts *)
Lemma tables_made s children c :
  Forall (made s) (tables children) → c ∈ children → Forall (made s) (ResultTable c).
Proof.
  intros Ht Hc. rewrite Forall_forall in *. intros t Hin. apply Ht. apply list_elem_of_bind.
  by exists c.
Qed.

Lemma runs_buildUnion n children b :
  inv (plan b) b → Forall (made (plan b)) (tables children) → makes b (buildUnion n children).
Proof.
  intros Hi Hc. unfold buildUnion. apply runs_bind. eapply runs_conseq.
  - apply (runs_foldlM (S:=statusConverter) R (plan b) (λ m b', made_map (plan b') m));
      [done|apply made_map_empty|].
    intros m [i c] b1 _ ? ? ?. settle. apply runs_bind, runs_reads; [reading|done|].
    intros ts Hts. eapply (mapM_all (made (plan b1))) in Hts.
    { settle. pl. by apply made_map_insert. }
    intros child ? ? t Hin Ht%index_Ok. eapply Forall_lookup_1; [|exact Ht].
    by eapply tables_made.
  - result. pl.
Qed.

Lemma runs_limit_group off cnt ps g m b :
  inv (plan b) b → Forall (made (plan b)) g.*2 → made_map (plan b) m →
  runs (plan b) (limit_group off cnt ps g m) (λ m b', made_map (plan b') m) b.
Proof. intros. unfold limit_group. pl. Qed.
Local Hint Resolve runs_limit_group : ops.

Lemma runs_buildLimit n children off cnt b :
  inv (plan b) b → Forall (made (plan b)) (tables children) → makes b (buildLimit n children off cnt).
Proof.
  intros Hi Hc. unfold buildLimit. destruct children as [|c [|? ?]]; [pl| |pl].
  simpl in Hc. settle. pl1. pl1. apply runs_bind. eapply runs_conseq.
  { apply (runs_foldlM (S:=statusConverter) R (plan b) (λ sp b', split_made (plan b') sp));
      [done|apply split_made_empty|].
    intros sp [id t] b1 Ht%elem_of_SortedMap ? Hi1 Hsp. settle.
    assert (made (plan b1) t) by (match goal with Hm : made_map _ a |- _ => by eapply Hm end).
    pl; auto using add_share_made, add_private_made. }
  intros sp b1 ? ? Hsp. settle. apply runs_bind.
  apply (runs_conseq _ _ _ (λ m b', made_map (plan b') m)).
  { destruct Hsp as [? _]. pl; apply made_map_empty. }
  intros m b2 He2 ? ?. apply (split_made_ext R _ (plan b2)) in Hsp; [|done]. settle. apply runs_bind.
  eapply runs_conseq; [apply runs_groups; [done..|]|result; pl].
  intros p g m' b3 ? ? ? ?. settle. pl.
Qed.

Lemma runs_columns {A} (f : A → Column) l m b :
  inv (plan b) b → made_map (plan b) m → makes b (mapM (λ x, lift (getTensorFromColumn (f x) m)) l).
Proof.
  intros Hi Hm. apply runs_reads; [reading|done|]. intros ts Hts. eapply mapM_all; [done|].
  intros x ? ? t _ [_ Ht]%lift_Ok. by eapply getTensorFromColumn_made.
Qed.

Lemma runs_sort_key m desc item b :
  inv (plan b) b → made_map (plan b) m → makes_one b (sort_key m desc item).
Proof. intros. unfold sort_key. pl. Qed.
Local Hint Resolve runs_sort_key : ops.

Lemma runs_buildSort n children items b :
  inv (plan b) b → Forall (made (plan b)) (tables children) → makes b (buildSort n children items).
Proof.
  intros Hi Hc. unfold buildSort. apply runs_bind, runs_index0; [done|]. intros c Hhd _ _.
  pose proof (tables_made _ _ _ Hc (head_Some_elem_of _ _ Hhd)). do 2 pl1.
  destruct items as [|item items]; [pl|]. cbv zeta. apply runs_bind.
  eapply runs_conseq; [apply runs_mapM_made; [done|]|].
  { intros x b1 _ ? ?. settle. pl. }
  intros ks b1 ? ? [? _]. settle. apply runs_bind, runs_wrapErr.
  eapply runs_call; [by eapply inv_frame|apply runs_columns; [by eapply inv_here|done]|].
  intros payload b2 ? _ ? ? ?. settle. apply runs_bind.
  eapply runs_call; [by eapply inv_frame| |].
  { apply runs_attempt. eapply runs_addSortNode; [done|by eapply inv_here|done|done]. }
  intros o b3 ? _ ? ? Ho. settle.
  assert (Forall (made (plan b3)) (default [] o)) by (destruct o; simpl; holds). pl.
Qed.

(** ** Windows *)
Lemma runs_buildPartitionId items p m b :
  inv (plan b) b → made_map (plan b) m →
  runs (plan b) (buildPartitionId items p m) (λ '(x, y) b', made (plan b') x ∧ made (plan b') y) b.
Proof.
  intros. unfold buildPartitionId. pl1. pl1.
  eapply runs_conseq; [by apply runs_columns|]. result. by pl.
Qed.
Local Hint Resolve runs_buildPartitionId : ops.

Lemma runs_extractOrderByBlock items m p b :
  inv (plan b) b → made_map (plan b) m →
  runs (plan b) (extractOrderByBlock items m p) (λ '(ks, _) b', Forall (made (plan b')) ks) b.
Proof.
  intros Hi Hm. unfold extractOrderByBlock. apply runs_bind.
  eapply runs_conseq; [apply runs_mapM_made; [done|]|].
  - intros x b1 _ ? ?. settle. pl.
  - intros ks b1 ? ? [? _]. settle. by pl.
Qed.

Lemma rank_window_plain name op tp : rank_window name = Some (op, tp) → op ∉ special.
Proof. unfold rank_window. repeat case_bool_decide; intros [= <- <-]; plain. Qed.

Lemma runs_buildPrivateRankWindow n desc part order p m b :
  inv (plan b) b → made_map (plan b) m →
  makes b (buildPrivateRankWindow n desc part order p m).
Proof.
  intros Hi Hm. unfold buildPrivateRankWindow. do 3 pl1. pl1. do 5 pl1.
  apply runs_reads; [reading|done|]. intros cc _. settle. do 3 pl1.
  eapply runs_call; [by eapply inv_frame| |].
  { apply runs_attempt, runs_extractOrderByBlock; [by eapply inv_here|done]. }
  intros block b1 ? _ ? ? Hblock. settle.
  assert (Forall (made (plan b1)) (default ([], []) block).1).
  { destruct block as [[ks rev]|]; simpl; holds. }
  destruct (default ([], []) block) as [ks rev].
  destruct (rank_window desc) as [[op tp]|] eqn:Hop; [|pl]. apply rank_window_plain in Hop.
  pl.
Qed.

Lemma runs_window_payload n m b :
  inv (plan b) b → made_map (plan b) m → makes b (window_payload n m).
Proof.
  intros. unfold window_payload. pl1; [pl|]. pl1. by apply (runs_columns id).
Qed.

Lemma runs_rank_marks f g ks b :
  inv (plan b) b → made (plan b) g → Forall (made (plan b)) ks → makes_one b (rank_marks f g ks).
Proof. intros. unfold rank_marks. pl. Qed.
Local Hint Resolve runs_window_payload runs_rank_marks : ops.

Lemma runs_buildObliviousRankWindow n c desc part order b :
  inv (plan b) b → Forall (made (plan b)) (ResultTable c) →
  makes b (buildObliviousRankWindow n c desc part order).
Proof.
  intros. unfold buildObliviousRankWindow. do 4 pl1.
  eapply runs_conseq; [by apply runs_columns|]. result. apply runs_bind.
  eapply runs_call; [by eapply inv_frame|apply runs_mapM_made|].
  - by eapply inv_here.
  - intros x b1 _ ? ?. settle. pl.
  - intros oks b1 ? _ ? ? ?. settle. do 2 pl1. cbv zeta. do 3 pl1.
    match goal with Hl : Forall _ a2 |- _ =>
      pose proof (Forall_take_drop _ (length a0) _ Hl) as [? _];
      pose proof (Forall_take_drop _ (length (a0 ++ oks)) _ Hl) as [? ?] end.
    do 3 pl1. apply runs_bind.
    apply (runs_conseq _ _ _ (λ o b', made (plan b') o)); [pl|]. result. pl.
Qed.

Local Hint Resolve runs_buildPrivateRankWindow runs_buildObliviousRankWindow : ops.

Lemma runs_buildWindow n children descs part order b :
  inv (plan b) b → Forall (made (plan b)) (tables children) →
  makes b (buildWindow n children descs part order).
Proof.
  intros Hi Hc. unfold buildWindow. destruct descs as [|desc [|? ?]]; [pl| |pl].
  pl1; [|unfold buildAggWindow; pl]. unfold buildRankWindow.
  apply runs_bind, runs_index0; [done|]. intros c Hhd _ _.
  pose proof (tables_made _ _ _ Hc (head_Some_elem_of _ _ Hhd)). pl.
Qed.

Lemma runs_buildMaxOneRow n children b :
  inv (plan b) b → Forall (made (plan b)) (tables children) → makes b (buildMaxOneRow n children).
Proof.
  intros Hi Hc. unfold buildMaxOneRow. apply runs_bind, runs_index0; [done|]. intros c Hhd _ _.
  pose proof (tables_made _ _ _ Hc (head_Some_elem_of _ _ Hhd)). pl.
Qed.
Local Hint Resolve runs_buildProjection runs_buildSelection runs_buildJoin runs_buildApply
  runs_buildAggregation runs_buildUnion runs_buildLimit runs_buildSort runs_buildWindow
  runs_buildMaxOneRow : ops.

(** ** The walk *)
#[local] Instance Planned_translator : Planned translator :=
  {| the_plan t := plan (converter t); mem t := remembers (converter t) |}.
Local Notation plan_of t := (plan (converter t)).
Implicit Types t : translator.

Lemma runs_on_converter {A} p0 (m : MC A) Q t :
  runs p0 m Q (converter t) → runs p0 (on_converter m) (λ a t', Q a (converter t')) t.
Proof.
  unfold PlanLogic.runs, on_converter. destruct (m (converter t)) as [c r]. done.
Qed.

Lemma runs_buildNode n children t :
  inv (plan_of t) t → Forall (made (plan_of t)) (tables children) →
  runs (plan_of t) (buildNode n children) (λ rt t', Forall (made (plan_of t')) rt) t.
Proof.
  intros Hi Hc.
  assert (∀ f m, (∀ c, inv (plan c) c → Forall (made (plan c)) (tables children) → makes c m) →
    runs (plan_of t) (on_converter m) (λ rt t', Forall (made (plan_of t')) rt)
      (mkTranslator (converter t) f)) as Hcase.
  { intros f m Hm. by apply (runs_on_converter _ _ (λ rt c, Forall (made (plan c)) rt)), Hm. }
  destruct t as [c f]. simpl in *. unfold buildNode.
  destruct (lp n); try (by apply Hcase; eauto with ops); try by apply runs_fail.
  apply runs_bind. unfold PlanLogic.runs, modify. simpl. destruct Hi as (? & ? & ?).
  split_and!; [done..|apply ext_refl|done|]. intros _ _. apply Hcase; eauto with ops.
Qed.

Lemma runs_translateInternal ln t :
  inv (plan_of t) t →
  runs (plan_of t) (translateInternal ln) (λ ln' t', Forall (made (plan_of t')) (ResultTable ln')) t.
Proof.
  revert t. induction ln as [n children IH] using logicalNode_nested_ind. intros t Hi.
  assert (runs (plan_of t)
    (children ← mapM translateInternal children; rt ← buildNode n children;
     mret (Node (set_rt n rt) children))
    (λ ln' t', Forall (made (plan_of t')) (ResultTable ln')) t) as Hwalk.
  { apply runs_bind. eapply runs_conseq.
    { refine (runs_mapM (S:=translator) R (λ ln p, Forall (made p) (ResultTable ln))
        translateInternal children t _ Hi _).
      - intros ln p p' _ He _. by eapply ext_made_all.
      - intros ln t1 Hln _ _ Hi1. rewrite Forall_forall in IH. by apply IH. }
    intros cs t1 _ _ [Hcs _] _ Hi1. apply runs_bind.
    eapply runs_call; [apply Hi1|apply runs_buildNode|].
    - exact (inv_start _ _ Hi1).
    - clear -Hcs. induction Hcs; simpl; [done|]. by apply Forall_app.
    - intros rt t2 _ _ ? _ ? _ ?. by apply runs_ret. }
  cbn [translateInternal]. destruct (dataSourceParties n) as [|p [|? ?]]; [done| |done].
  apply runs_bind. eapply runs_conseq.
  { apply (runs_on_converter _ _ (λ rt c, Forall (made (plan c)) rt)). by apply runs_buildRunSQL. }
  intros rt t1 _ _ ? _ ?. by apply runs_ret.
Qed.

(** ** Deliveries *)
Definition io_ready (p0 : GraphBuilder) (party : string) (io : nat * nat) (p : GraphBuilder) : Prop :=
  (made p io.1 ∧ placed p io.1 (privatePlacement party)) ∧ new_output p0 p io.2.

Lemma runs_prepareResultNodeIo ln names party b :
  inv (plan b) b → Forall (made (plan b)) (ResultTable ln) →
  runs (plan b) (prepareResultNodeIoForParty ln names party) (λ '(ins, outs) b',
    Forall (λ i : nat, made (plan b') i ∧ placed (plan b') i (privatePlacement party)) ins
    ∧ Forall (new_output (plan b) (plan b')) outs) b.
Proof.
  intros Hi Hrt. unfold prepareResultNodeIoForParty. apply runs_bind. eapply runs_conseq.
  - refine (runs_mapM (S:=statusConverter) R (io_ready (plan b) party) _ _ b _ Hi _).
    { intros io p p' Hg He Hf [Hin Hout]. split; [by eapply (stable_placed R)|].
      by eapply (stable_new_output R). }
    intros [i it] b1 Hin%elem_of_lookup_imap ? Hf ?.
    destruct Hin as (j & y & [= -> ->] & Hy). apply (Forall_lookup_1 _ _ _ _ Hrt) in Hy. settle.
    do 4 pl1. apply runs_bind, runs_reads; [reading|done|]. intros name _. settle.
    apply runs_bind, runs_reads; [reading|done|]. intros col _. settle. do 3 pl1.
    split; [done|]. simpl. eapply new_output_weaken; [|done]. apply Hf.
  - intros ios b1 _ ? [Hios _] _ _. apply runs_ret; [done|]. split; apply Forall_fmap;
      (eapply Forall_impl; [exact Hios|]); intros io [? ?]; done.
Qed.

Lemma runs_output names p0 (s : GraphBuilder) :
  inv p0 s → runs p0 (modify (λ p, set_OutputName (names p) p)) (λ _ s', keeps p0 s s') s.
Proof.
  intros [Hg Hf]%inv_builder. unfold PlanLogic.runs, modify.
  assert (sealed s (set_OutputName (names s) s)) as Hs by (intros t x _ Hx; by exists x).
  split_and!; [done|by apply (good_same_nodes s); try apply Hg| |done|by intros ?].
  split; [done..|]. apply rtc_once, HR, step_output.
Qed.

Lemma placed_split s pm l :
  Forall (λ i : nat, made s i ∧ placed s i pm) l ↔ Forall (made s) l ∧ Forall (λ i : nat, placed s i pm) l.
Proof. apply Forall_and. Qed.

Section deliver.
Context (ln : logicalNode).

Lemma runs_addPublishNode names b :
  inv (plan b) b → Forall (made (plan b)) (ResultTable ln) →
  runs (plan b) (addPublishNode ln names) (λ _ _, True) b.
Proof.
  intros Hi Hrt. unfold addPublishNode. apply runs_bind, runs_wrapErr.
  eapply runs_conseq; [by apply runs_prepareResultNodeIo|].
  intros [ins outs] b1 ? ? [? ?]. settle. do 2 pl1. apply runs_bind.
  eapply runs_conseq; [apply runs_on_plan; [done|]|].
  { apply (runs_output (λ p, OutputName p ++ _)). by apply inv_plan. }
  result. rewrite placed_split in *. settle.
  eapply runs_conseq; [apply runs_on_plan; [done|]|done].
  eapply runs_Publish; [done|by apply inv_plan|done..].
Qed.

Lemma runs_addInsertTableNode names opt b :
  inv (plan b) b → Forall (made (plan b)) (ResultTable ln) →
  runs (plan b) (addInsertTableNode ln names opt) (λ _ _, True) b.
Proof.
  intros Hi Hrt. unfold addInsertTableNode. apply runs_bind, runs_wrapErr.
  eapply runs_conseq; [by apply runs_prepareResultNodeIo|].
  intros [ins outs] b1 ? ? [? ?]. rewrite placed_split in *. settle.
  eapply runs_conseq; [apply runs_on_plan; [done|]|done].
  eapply runs_InsertTable; [done|by apply inv_plan|done..].
Qed.

Lemma runs_addDumpFileNode names into files b :
  inv (plan b) b → Forall (made (plan b)) (ResultTable ln) →
  runs (plan b) (addDumpFileNode ln names into files) (λ _ _, True) b.
Proof.
  intros Hi Hrt. unfold addDumpFileNode.
  apply (runs_forM (S:=statusConverter) R (plan b) (λ _, True)); [done..|].
  intros [f p] b1 _ ? Hi1 _. settle.
  apply (runs_call R _ _ (λ _ _, True)); [by eapply inv_frame| |by intros].
  apply inv_here in Hi1. apply runs_bind, runs_wrapErr.
  eapply runs_conseq; [by apply runs_prepareResultNodeIo|].
  intros [ins outs] b2 ? ? [? ?]. rewrite placed_split in *. settle. pl1.
  eapply runs_conseq; [apply runs_on_plan; [done|]|done].
  eapply runs_DumpFile; [done|by apply inv_plan|done..].
Qed.

Lemma runs_addResultNode opts b :
  inv (plan b) b → Forall (made (plan b)) (ResultTable ln) →
  runs (plan b) (addResultNode ln opts) (λ _ _, True) b.
Proof.
  intros Hi Hrt. unfold addResultNode.
  destruct (IntoOpt opts) as [[into files]|]; [by apply runs_addDumpFileNode|].
  destruct (InsertTableOpt opts); [by apply runs_addInsertTableNode|by apply runs_addPublishNode].
Qed.
End deliver.

(** ** The whole translation *)
Definition emit (ln : logicalNode) (opts : resultOptions) : M translator () :=
  ln ← translateInternal ln; on_converter (addResultNode ln opts).

Lemma runs_emit ln opts t :
  inv (plan_of t) t → runs (plan_of t) (emit ln opts) (λ _ _, True) t.
Proof.
  intros Hi. unfold emit. apply runs_bind.
  eapply runs_conseq; [by apply runs_translateInternal|]. intros ln' t1 _ Hi1 ? _ _.
  apply (runs_call R _ _ (λ _ _, True)); [apply Hi1| |by intros].
  apply (runs_on_converter _ _ (λ _ _, True)). apply runs_addResultNode; [|done].
  exact (inv_start _ _ Hi1).
Qed.

Lemma translate_emit ln opts t :
  translate ln opts t =
    let '(t', r) := emit ln opts t in (t', _ ← r; Build (plan_of t')).
Proof.
  unfold translate, emit, mbind, M_bind. destruct (translateInternal ln t) as [t1 [ln'| |]]; [|done..].
  by destruct (on_converter (addResultNode ln' opts) t1) as [t2 [[]| |]].
Qed.
End build.
