(* ===== verification/TranslateSpec.v ===== *)
(** * What the translation guarantees

    The theorems on the whole translation: whatever the logical plan, the CCLs and the
    options, the plan under construction is reached by steps of the machine of
    [BuilderSpec], its nodes take only what earlier nodes make, values are handed to
    parties the CCLs admit, and results are delivered from tensors that are private to
    their receivers; [Build] and the topological sort then succeed, and so does the
    scheduling of the graph for the participants. *)
From Stdlib Require Import SpecFloat.
From S2P Require Import Prelude GoInt Sliceutil Expression Operator Ccl Graph GraphBuilder.
From S2P Require Import BuilderSpec Algorithm StatusConverter Dag DagSpec LogicalNode BuildCcl.
From S2P Require Import BuildCclSpec Translator BuildNode Schedule ScheduleSpec.
From S2P Require Import PlanLogic PlanOps PlanNodes PlanBuild.
#[local] Open Scope nat_scope.

(** ** Good plans in the terms of [DagSpec] *)
Section good_plans.
Context `{GoRange}.

Lemma elem_of_arg_tensors (m : tensor_args) t :
  t ∈ arg_tensors m ↔ ∃ k l, m !! k = Some l ∧ t ∈ l.
Proof.
  unfold arg_tensors. rewrite list_elem_of_join. split.
  - intros (l & Ht & Hl). apply list_elem_of_fmap in Hl as ([k l'] & -> & Hl).
    apply elem_of_go_range in Hl. eauto.
  - intros (k & l & Hk & Ht). exists l. split; [done|]. apply list_elem_of_fmap.
    exists (k, l). split; [done|]. by apply elem_of_go_range.
Qed.

Lemma consumes_takes p v t : consumes p v t ↔ ∃ n, all_nodes p !! v = Some n ∧ node_takes n t.
Proof. unfold consumes. setoid_rewrite elem_of_arg_tensors. done. Qed.
Lemma produces_makes p u t : produces p u t ↔ ∃ n, all_nodes p !! u = Some n ∧ node_makes n t.
Proof. unfold produces. setoid_rewrite elem_of_arg_tensors. done. Qed.

Lemma good_single p : good p → single_producer p.
Proof.
  intros Hg u v t. rewrite !produces_makes. intros (n & Hn & Hnt) (m & Hm & Hmt).
  by eapply (good_once _ Hg u v n m t).
Qed.

Lemma good_closed p : good p → plan_closed p.
Proof.
  intros Hg v t. rewrite consumes_takes. intros (n & Hn & Ht).
  destruct (good_takes _ Hg v n t Hn Ht) as (u & m & _ & Hu & Hm). exists u.
  apply produces_makes. eauto.
Qed.

Lemma good_sequenced p : good p → sequenced p.
Proof.
  intros Hg u v t Hu. rewrite consumes_takes. intros (n & Hn & Ht).
  destruct (good_takes _ Hg v n t Hn Ht) as (u' & m & Hlt & Hu' & Hm).
  rewrite (good_single p Hg u u' t); [done..|]. apply produces_makes. eauto.
Qed.

Lemma good_args p : good p → args_known p.
Proof.
  intros Hg v t Hvt. assert (made p t) as Hm.
  { destruct Hvt as [(n & Hn & Ht)%consumes_takes|(n & Hn & Ht)%produces_makes].
    - apply (node_takes_made p n); [done| |done]. by eapply list_elem_of_lookup_2.
    - exists n. split; [|done]. by eapply list_elem_of_lookup_2. }
  destruct (made_lookup p t Hg Hm) as [x Hx]. by exists x.
Qed.

Lemma good_new pi b : good (NewGraphBuilder pi b).
Proof.
  split; simpl.
  - split; [done|]. set_solver.
  - intros t (n & Hn & _). by apply elem_of_nil in Hn.
  - intros n Hn. by apply elem_of_nil in Hn.
  - done.
  - done.
Qed.

(** *** The graph of a good plan *)
Lemma pipelines_from_nodes cnt pls i q :
  pipelines_from cnt pls !! i = Some q →
  ∃ x, pls !! i = Some x ∧ pl_Batched q = Batched x ∧ (ExecutionNodes x ≠ [] → Nodes q ≠ ∅).
Proof.
  revert cnt i. induction pls as [|x pls IH]; intros cnt [|i] Hq; simpl in Hq; [done..| |].
  - injection Hq as <-. exists x. split_and!; [done..|]. simpl.
    destruct (ExecutionNodes x) as [|n l]; [done|]. intros _. simpl. unfold node_map. simpl.
    apply insert_non_empty.
  - destruct (IH _ _ Hq) as (y & ? & ?). by exists y.
Qed.

Lemma pipelines_nonempty p x :
  pipelines_ok p → x ∈ PipelineExeNodes p →
  ExecutionNodes x ≠ [] ∧ (batched p = false → Batched x = false).
Proof.
  unfold pipelines_ok. intros Hok Hx. destruct (batched p).
  - destruct Hok as (sts & Hall & _). apply list_elem_of_lookup_1 in Hx as [i Hi].
    destruct (Forall2_lookup_r _ _ _ _ _ Hall Hi) as (st & _ & Hne & _). by split.
  - destruct Hok as [Hnil|(nodes & Heq & Hne)]; [rewrite Hnil in Hx; set_solver|].
    rewrite Heq, list_elem_of_singleton in Hx. by subst x.
Qed.

Lemma graph_batched p g i q :
  Build p = Ok g → pipelines_ok p → Pipelines g !! i = Some q → Nodes q ≠ ∅ ∧
  (batched p = false → pl_Batched q = false).
Proof.
  intros Hb Hok Hq. pose proof Hb as (_ & _ & _ & w & edges & _ & _ & Hf)%Build_Ok.
  destruct (graph_pipelines _ _ Hb) as (w' & edges' & _ & _ & _ & Hps).
  destruct (Hps _ _ Hq) as (q0 & Hq0 & Hn).
  destruct (pipelines_from_nodes _ _ _ _ Hq0) as (x & Hx & Hbx & Hne).
  destruct (pipelines_nonempty p x Hok) as [Hnx Hbx']; [by eapply list_elem_of_lookup_2|].
  split.
  - rewrite Hn. intros He. apply (Hne Hnx). by apply fmap_empty_iff in He.
  - intros Hnb. rewrite Hnb in Hf. rewrite Hf in Hq. unfold attached in Hq.
    apply list_lookup_fmap_Some in Hq as (q1 & -> & Hq1). rewrite Hq0 in Hq1.
    injection Hq1 as <-. simpl. rewrite Hbx. by apply Hbx'.
Qed.

(** Nodes run at participants, who own the private tensors. *)
Definition participants_only (g : Graph) : Prop :=
  (∀ p u n, p ∈ Pipelines g → Nodes p !! u = Some n → Parties n ⊆ GetParties (graph_PartyInfo g)) ∧
  (∀ t x, graph_Tensors g !! t = Some x → tensor_status x = TENSORSTATUS_PRIVATE →
     OwnerPartyCode x ∈ GetParties (graph_PartyInfo g)).

Lemma good_graph_ok p g :
  Build p = Ok g → good p → pipelines_ok p → Pipelines g ≠ [] → participants_only g → graph_ok g.
Proof.
  intros Hb Hg Hok Hne [Hps Hown]. pose proof Hb as (_ & Hcnt & Hts & _)%Build_Ok. split.
  - done.
  - intros q Hq. apply list_elem_of_lookup_1 in Hq as [i Hq].
    by destruct (graph_batched _ _ _ _ Hb Hok Hq).
  - intros q u n Hq Hn. destruct (graph_node _ _ _ _ _ Hb Hq Hn) as (m & w & _ & Heq & _).
    by rewrite Heq.
  - done.
  - intros q u n t Hq Hn Ht. destruct (graph_node _ _ _ _ _ Hb Hq Hn) as (m & w & Hm & Heq & _).
    rewrite Hts. apply (good_args p Hg u). rewrite Heq in Ht. apply elem_of_app in Ht as [Ht|Ht];
      [left|right]; by exists m.
  - intros q t Hq Hbq Ht. apply list_elem_of_lookup_1 in Hq as [i Hq].
    destruct (batched p) eqn:Hbp.
    2: { destruct (graph_batched _ _ _ _ Hb Hok Hq) as [_ Hf]. rewrite Hf in Hbq by done. done. }
    destruct (batched_filled _ _ _ _ Hb Hbp Hq) as (Hin & Hout & Hpriv).
    destruct (Hpriv Hbq t) as (x & Hx & Hst).
    { apply elem_of_app in Ht as [[? _]%Hin|[? _]%Hout]; apply elem_of_app; auto. }
    exists x. split; [done|]. by eapply Hown.
Qed.
End good_plans.

(** ** The plan of a translation *)
Section translation.
Context `{GoRange} {cfg : config} {ex : externals}.
Local Notation R := (BuilderSpec.plan_step TypeName SerializeOptions).
Local Notation info := (partyInfo t_enginesInfo).

Lemma emit_ext ln opts t r :
  emit ln opts newTranslator = (t, r) →
  good (plan (converter t)) ∧ ext R (NewGraphBuilder info ep_Batched) (plan (converter t)).
Proof.
  intros Hrun. pose proof (runs_emit R (λ _ _ Hs, Hs) ln opts newTranslator) as Hs.
  unfold runs in Hs. rewrite Hrun in Hs. destruct Hs as (_ & Hg & He & _ & _); [|done].
  split_and!; [intros i k o; cbn; by rewrite lookup_empty|apply good_new|apply frame_refl].
Qed.

Lemma translate_ext ln opts t r :
  translate ln opts newTranslator = (t, r) →
  good (plan (converter t)) ∧ ext R (NewGraphBuilder info ep_Batched) (plan (converter t)).
Proof.
  rewrite translate_emit. destruct (emit ln opts newTranslator) as [t' r'] eqn:Hrun.
  intros [= -> _]. by eapply emit_ext.
Qed.

Lemma translate_spec ln opts t r :
  translate ln opts newTranslator = (t, r) →
  good (plan (converter t)) ∧ rtc R (NewGraphBuilder info ep_Batched) (plan (converter t)).
Proof. intros [Hg He]%translate_ext. split; [done|apply He]. Qed.

Lemma rtc_reachable pi b p p' :
  reachable TypeName SerializeOptions pi b p → rtc R p p' →
  reachable TypeName SerializeOptions pi b p'.
Proof. intros Hp Hs. induction Hs as [|p p1 p' Hs _ IH]; [done|]. apply IH. by eapply reachable_step. Qed.

Lemma translate_reachable ln opts t r :
  translate ln opts newTranslator = (t, r) →
  reachable TypeName SerializeOptions info ep_Batched (plan (converter t)).
Proof. intros [_ Hs]%translate_spec. eapply rtc_reachable; [apply reachable_new|done]. Qed.

(** What is needed of the graph of a successful translation. *)
Lemma translate_graph ln opts t g :
  translate ln opts newTranslator = (t, Ok g) →
  ∃ orders, Build (plan (converter t)) = Ok g ∧ good (plan (converter t))
    ∧ pipelines_ok (plan (converter t)) ∧ TopologicalSort g = Ok orders
    ∧ length orders = length (Pipelines g).
Proof.
  intros Hrun. destruct (translate_spec _ _ _ _ Hrun) as [Hg _].
  pose proof (reachable_inv _ _ _ _ _ (translate_reachable _ _ _ _ Hrun)) as [_ Hok _].
  rewrite translate_emit in Hrun. destruct (emit ln opts newTranslator) as [t' r] eqn:He.
  injection Hrun as -> Hr. apply res_bind_Ok in Hr as ([] & _ & Hb).
  destruct (Build_sorts _ (good_args _ Hg) (good_closed _ Hg) (good_sequenced _ Hg))
    as (g' & orders & Hb' & Hs & Hlen).
  rewrite Hb in Hb'. injection Hb' as <-. by exists orders.
Qed.

(** ** Theorems *)

(** C5: whatever the logical plan, the CCLs and the options, and whether or not the
    translation succeeds: the plan it leaves is reached by steps of the builder's
    machine, every tensor a node takes is made by an earlier node, no tensor is made
    twice, and nodes refer to tensors of the plan. *)
Theorem translate_plan_sound ln opts :
  let p := plan (converter (translate ln opts newTranslator).1) in
  reachable TypeName SerializeOptions info ep_Batched p
  ∧ plan_closed p ∧ sequenced p ∧ single_producer p ∧ args_known p.
Proof.
  intros p. destruct (translate ln opts newTranslator) as [t r] eqn:Hrun. simpl in p.
  destruct (translate_spec _ _ _ _ Hrun) as [Hg _].
  split; [by eapply translate_reachable|].
  split_and!; [by apply good_closed|by apply good_sequenced|by apply good_single|by apply good_args].
Qed.


(** C4: results leave the engines only at their receiver: a Publish, DumpFile or
    InsertTable node of a translated plan runs at one party, and every tensor it takes
    is private and owned by that party. *)
Theorem translate_delivers_privately ln opts n k l i :
  let p := plan (converter (translate ln opts newTranslator).1) in
  n ∈ all_nodes p → OpType n ∈ [OpNamePublish; OpNameDumpFile; OpNameInsertTable] →
  Inputs n !! k = Some l → i ∈ l →
  ∃ x, Tensors p !! i = Some x ∧ tensor_status x = TENSORSTATUS_PRIVATE
       ∧ Parties n = [OwnerPartyCode x].
Proof.
  intros p. destruct (translate ln opts newTranslator) as [t r] eqn:Hrun. simpl in p.
  destruct (translate_spec _ _ _ _ Hrun) as [Hg _]. intros Hn Hop Hk Hi.
  destruct (good_delivers _ Hg n Hn Hop) as (party & Hps & Hin).
  destruct (args_are_lookup _ _ _ _ _ Hin Hk Hi) as (x & Hx & Hst & Ho).
  exists x. split_and!; [done..|]. by rewrite (Ho party).
Qed.

(** C12: if the nodes can be emitted, the translation succeeds: [Build] finds a producer
    for every tensor and the graph can be sorted.  Otherwise it fails the way the
    emission failed. *)
Theorem translate_builds ln opts :
  let '(t, r) := (ln ← translateInternal ln; on_converter (addResultNode ln opts)) newTranslator in
  match r with
  | Ok _ => ∃ g orders, translate ln opts newTranslator = (t, Ok g)
              ∧ TopologicalSort g = Ok orders ∧ length orders = length (Pipelines g)
  | Err e => translate ln opts newTranslator = (t, Err e)
  | Panic => translate ln opts newTranslator = (t, Panic)
  end.
Proof.
  fold (emit ln opts). rewrite translate_emit.
  destruct (emit ln opts newTranslator) as [t r] eqn:He. destruct r as [[]| |]; [|done..].
  destruct (emit_ext _ _ _ _ He) as [Hg _].
  destruct (Build_sorts _ (good_args _ Hg) (good_closed _ Hg) (good_sequenced _ Hg))
    as (g & orders & Hb & Hs & Hlen).
  exists g, orders. simpl. by rewrite Hb.
Qed.
End translation.

Lemma Translate_Ok `{GoRange} c ex sc threshold opts lp g f :
  Translate c ex sc threshold opts lp = Ok (g, f) →
  ∃ cfg ln opts t, translate (cfg := cfg) (ext := ex) ln opts newTranslator = (t, Ok g)
    ∧ f = AffectedByGroupThreshold t ∧ @t_enginesInfo cfg = @t_enginesInfo c
    ∧ @ep_Batched cfg = @ep_Batched c ∧ @opt_Batched cfg = @opt_Batched c.
Proof.
  unfold Translate. cbv zeta.
  match goal with |- (let '(_, _) := ?m in _) = _ → _ =>
    destruct m as [s [[ln issuer]| |]]; simpl; [|done..] end.
  destruct (translate _ _ _) as [t [g'| |]] eqn:Hrun; simpl; [|done..].
  intros [= <- <-].
  match type of Hrun with @translate _ ?cf _ _ ?o _ = _ => by exists cf, ln, o, t end.
Qed.


(** ** Examples *)
Lemma participants_onlyb_ok g :
  forallb (λ p, forallb (λ '(_, n), forallb (λ q, bool_decide (q ∈ GetParties (graph_PartyInfo g)))
    (Parties n)) (map_to_list (Nodes p))) (Pipelines g) = true →
  forallb (λ x, negb (bool_decide (tensor_status x = TENSORSTATUS_PRIVATE))
    || bool_decide (OwnerPartyCode x ∈ GetParties (graph_PartyInfo g))) (graph_Tensors g) = true →
  participants_only g.
Proof.
  rewrite !forallb_forall. intros Hn Ht. split.
  - intros p u n Hp%list_elem_of_In Hu q Hq%list_elem_of_In. specialize (Hn p Hp).
    rewrite forallb_forall in Hn.
    specialize (Hn (u, n) ltac:(by apply list_elem_of_In, elem_of_map_to_list)).
    simpl in Hn. rewrite forallb_forall in Hn. by apply Hn, bool_decide_eq_true in Hq.
  - intros t x Hx Hst. specialize (Ht x). rewrite Hst in Ht. simpl in Ht.
    eapply bool_decide_eq_true_1, Ht, list_elem_of_In, (list_elem_of_lookup_2 _ t), Hx.
Qed.

Module Example.
Import BuildCclSpec.Demo.
#[local] Existing Instance go_range_list.

(** [SELECT ta.id, tb.pay FROM ta JOIN tb ON ta.id = tb.id] *)
Definition scan_b : LogicalPlan := Plan (DataSource "db" "tb" 2) [b_id; b_pay] [].
Definition query : LogicalPlan :=
  Plan (LogicalProjection [EColumn a_id; EColumn b_pay]) [a_id; b_pay]
    [Plan (LogicalJoin core.InnerJoin [keys_eq] [] [] []) [a_id; b_pay; b_id] [scan_a; scan_b]].
Definition opts : resultOptions := mkResultOptions ["id"; "pay"] None None.

#[export] Instance ex : externals :=
  mkExternals (λ _ _ _, Ok ("SELECT", [])) (λ _, Ok []) (λ _, Ok None) (λ _ _, Err "")
    (λ _, Err "") 0 0.
Definition checked : store * res logicalNode :=
  Translate_check info controls "alice" [] 4 0 query (mkStore [] NewColumnTracer).
Definition ln : logicalNode :=
  match checked.2 with Ok n => n | _ => newNode (LogicalOther "") [] [] [] [] end.
Definition options (batched : bool) (h : list CCL) : config :=
  mkConfig info "alice" batched batched false false 0 h.
#[export] Instance cfg : config := options false (heap checked.1).
Definition p : GraphBuilder := plan (converter (translate ln opts newTranslator).1).

Definition compiled (batched : bool) : res (Graph * bool) :=
  Translate (options batched []) ex controls 4 opts query.
Definition graph (batched : bool) : Graph :=
  match compiled batched with Ok (g, _) => g | _ => mkGraph [] 0 [] (mkPartyInfo []) [] end.
End Example.

(** ** Witnesses *)
Import Example.
#[local] Existing Instance go_range_list.


Lemma translate_delivers_privately_witness :
  ∃ n x, all_nodes p !! 6 = Some n ∧ OpType n = OpNamePublish ∧ Tensors p !! 9 = Some x
    ∧ tensor_status x = TENSORSTATUS_PRIVATE ∧ Parties n = [OwnerPartyCode x].
Proof.
  destruct (all_nodes p !! 6) as [n|] eqn:Hn; [|vm_compute in Hn; discriminate].
  pose proof (translate_delivers_privately ln opts n "In" [5; 9] 9) as Hd.
  change (plan _) with p in Hd. cbv zeta in Hd.
  specialize (Hd (list_elem_of_lookup_2 _ _ _ Hn)). vm_compute in Hn. injection Hn as <-.
  destruct Hd as (x & Hx & Hst & Hps); [left|reflexivity|right; left|].
  eexists _, x. split; [vm_compute; reflexivity|]. split; [reflexivity|]. split; [exact Hx|]. by split.
Defined.

