(* ===== verification/Optimizer.v ===== *)
(** * The optimizer of graphs (graph_optimizer.go)

    The one rule of the optimizer folds a cast into the constant it is applied to: in a
    path Constant, BroadcastTo, Cast the value of the constant is cast at compile time,
    the consumers of the cast take the broadcast tensor instead, and the cast is removed
    from the pipeline.

    A node is named by its ID.  An edge is an object that the sets of edges of several
    nodes can share: [redirect] changes it in all of them. *)
From Stdlib Require Import Ascii SpecFloat.
From S2P Require Import Prelude GoInt Sliceutil Operator Ccl Graph GraphBuilder Dag Strconv.
#[local] Open Scope nat_scope.

(** ** Casting a constant *)

(** What of the standard library is left open: [time.Parse] as Unix seconds and
    [strconv.ParseFloat], where [None] is an error, and [int64] of a float that does not
    fit. *)
Class literals := mkLiterals {
  lit_time_Parse : string → string → option Z;
  lit_ParseFloat : string → option spec_float;
  int64_overflow : spec_float → Z;
}.

(** [`^\d{4}-\d{2}-\d{2}(\s\d{2}:\d{2}:\d{2})?$`] *)
Inductive date_char := Digit | Space | Exactly (c : ascii).
Definition date_char_matches (d : date_char) (c : ascii) : bool :=
  match d with
  | Digit => bool_decide (48 ≤ nat_of_ascii c ≤ 57)
  | Space => bool_decide (nat_of_ascii c ∈ [9; 10; 12; 13; 32])
  | Exactly c' => bool_decide (c = c')
  end.
Fixpoint date_matches (ds : list date_char) (s : string) : bool :=
  match ds, s with
  | [], EmptyString => true
  | d :: ds, String c s => date_char_matches d c && date_matches ds s
  | _, _ => false
  end.
Definition date_pattern : list date_char :=
  replicate 4 Digit ++ [Exactly "-"%char] ++ replicate 2 Digit ++ [Exactly "-"%char]
    ++ replicate 2 Digit.
Definition clock_pattern : list date_char :=
  [Space] ++ replicate 2 Digit ++ [Exactly ":"%char] ++ replicate 2 Digit
    ++ [Exactly ":"%char] ++ replicate 2 Digit.
Definition IsDateString (s : string) : bool :=
  date_matches date_pattern s || date_matches (date_pattern ++ clock_pattern) s.

Section optimizer.
Context `{GoRange} {lit : literals}.

(** The first of several layouts that parses. *)
Fixpoint parse_first (layouts : list string) (s : string) (e : string) : res Z :=
  match layouts with
  | [] => Err e
  | layout :: layouts =>
      match lit_time_Parse layout s with
      | Some t => Ok t
      | None => parse_first layouts s e
      end
  end.

Definition StringToUnixSec (s : string) : res Z :=
  parse_first (filter (λ layout, String.length s = String.length layout)
                 ["2006-01-02 15:04:05"; "2006-01-02"])
    s "unsupported datetime format".

Definition StringToUnixSecWithTimezone (s : string) : res Z :=
  parse_first ["2006-01-02T15:04:05Z07:00"; "2006-01-02T15:04:05Z0700";
               "2006-01-02 15:04:05Z07:00"; "2006-01-02 15:04:05Z0700"]
    s "unsupported timestamp format or missing timezone".

Definition validCasts (originType : PrimitiveDataType) : option (list PrimitiveDataType) :=
  match originType with
  | STRING => Some [INT64; FLOAT64; DATETIME; TIMESTAMP]
  | INT32 | INT64 => Some [FLOAT32; FLOAT64; STRING]
  | FLOAT32 | FLOAT64 => Some [INT64; STRING]
  | BOOL => Some [INT32; STRING]
  | _ => None
  end.

Definition isValidCast (originType castType : PrimitiveDataType) : bool :=
  match validCasts originType with
  | Some validCastMap => bool_decide (castType ∈ validCastMap)
  | None => bool_decide (originType = castType)
  end.

Definition castString (strVal : string) (castType : PrimitiveDataType) : res Attribute :=
  match castType with
  | INT64 => n ← ParseInt strVal; Ok (SetInt64 n)
  | FLOAT64 =>
      f ← res_of_option (Err "strconv.ParseFloat: invalid syntax") (lit_ParseFloat strVal);
      Ok (SetDouble f)
  | DATETIME =>
      if IsDateString strVal then
        match StringToUnixSec strVal with
        | Err e => Err ("failed to parse datetime constant: " +:+ e)
        | r => n ← r; Ok (SetInt64 n)
        end
      else Err "datetime constant format should be 'YYYY-MM-DD hh:mm:ss'"
  | TIMESTAMP =>
      match StringToUnixSecWithTimezone strVal with
      | Err e => Err ("failed to parse timestamp constant: " +:+ e)
      | r => n ← r; Ok (SetInt64 n)
      end
  | _ => Err "invalid cast"
  end.

Definition castInt (intVal : Z) (castType : PrimitiveDataType) : res Attribute :=
  match castType with
  | FLOAT64 => Ok (SetDouble (float64_of_int intVal))
  | STRING => Ok (SetString (FormatInt intVal))
  | _ => Err "invalid cast"
  end.

Definition castFloat (floatVal : spec_float) (castType : PrimitiveDataType) : res Attribute :=
  match castType with
  | INT64 => Ok (SetInt64 (int64_of_float int64_overflow floatVal))
  | STRING => Ok (SetString (Sprintf_f floatVal))
  | _ => Err "invalid cast"
  end.

Definition castBool (boolVal : bool) (castType : PrimitiveDataType) : res Attribute :=
  match castType with
  | INT32 => Ok (SetInt (if boolVal then 1 else 0))
  | STRING => Ok (SetString (FormatBool boolVal))
  | _ => Err "invalid cast"
  end.

(** The value the attribute gets. *)
Definition castValue (scalarAttr : option Attribute) (originType castType : PrimitiveDataType)
    : res Attribute :=
  match scalarAttr with
  | None => Err "constant node doesn't have scalar attribute"
  | Some attr =>
      match GetAttrValue attr with
      | AVnil => Err "constant node doesn't have value"
      | originalValue =>
          match originType with
          | STRING =>
              match originalValue with
              | AVstring strVal => castString strVal castType
              | _ => Err "expected string value"
              end
          | INT32 | INT64 =>
              match originalValue with
              | AVint64 intVal => castInt intVal castType
              | _ => Err "expected int64 value"
              end
          | FLOAT32 | FLOAT64 =>
              match originalValue with
              | AVdouble floatVal => castFloat floatVal castType
              | _ => Err "expected float64 value"
              end
          | BOOL =>
              match originalValue with
              | AVbool boolVal => castBool boolVal castType
              | _ => Err "expected bool value"
              end
          | _ => Err "invalid cast"
          end
      end
  end.

(** ** The nodes of a graph *)

(** The node a pointer leads to.  An edge of a built graph leads to a node of the graph,
    and a node is removed only together with the edge that leads to it. *)
Definition node_at (g : Graph) (id : nat) : res ExecutionNode :=
  match head (omap (λ p, Nodes p !! id) (Pipelines g)) with
  | Some n => Ok n
  | None => Panic
  end.

Definition set_pipelines (ps : list Pipeline) (g : Graph) : Graph :=
  mkGraph ps (NodeCnt g) (OutputNames g) (graph_PartyInfo g) (graph_Tensors g).
Definition set_graph_tensors (ts : list Tensor) (g : Graph) : Graph :=
  mkGraph (Pipelines g) (NodeCnt g) (OutputNames g) (graph_PartyInfo g) ts.
Definition map_Nodes (f : gmap nat ExecutionNode → gmap nat ExecutionNode) (p : Pipeline)
    : Pipeline :=
  mkPipeline (pl_Batched p) (InputTensors p) (OutputTensors p) (f (Nodes p)).
Definition upd_node (id : nat) (f : ExecutionNode → ExecutionNode) (g : Graph) : Graph :=
  set_pipelines (map_Nodes (alter f id) <$> Pipelines g) g.

Definition set_Attributes (v : gmap string Attribute) (n : ExecutionNode) : ExecutionNode :=
  mkExecutionNode (node_ID n) (node_Name n) (OpType n) (Inputs n) (Outputs n) v (Edges n)
    (Parties n).
Definition set_Inputs (v : tensor_args) (n : ExecutionNode) : ExecutionNode :=
  mkExecutionNode (node_ID n) (node_Name n) (OpType n) v (Outputs n) (Attributes n) (Edges n)
    (Parties n).

(** [node.Outputs["Out"][0]] *)
Definition out_tensor (n : ExecutionNode) : res nat :=
  match Outputs n !! Out with Some (t :: _) => Ok t | _ => Panic end.
Definition graph_tensor (g : Graph) (t : nat) : res Tensor :=
  match graph_Tensors g !! t with Some x => Ok x | None => Panic end.

(** ** The rule *)

(** [edge.From = broadCastNode; edge.Value = broadCastNode.Outputs["Out"][0]] *)
Definition redirect (bto value : nat) (e : Edge) : Edge := mkEdge bto (To e) value.

(** Every occurrence of the tensor of the cast among the inputs of a consumer. *)
Definition replace_input (old new : nat) (n : ExecutionNode) : ExecutionNode :=
  set_Inputs ((λ l : list nat, (λ i, if bool_decide (i = old) then new else i) <$> l) <$> Inputs n) n.

(** The type of a folded constant: times become seconds. *)
Definition folded_type (castType : PrimitiveDataType) : PrimitiveDataType :=
  match castType with DATETIME | TIMESTAMP => INT64 | _ => castType end.

(** The changes of one iteration, once the path is found: [c], [b] and [d] are the
    tensors of the constant, the broadcast and the cast. *)
Definition fold_path (i node bto cast c b d : nat) (attr : Attribute)
    (castType : PrimitiveDataType) (g : Graph) : res Graph :=
  castNode ← node_at g cast;
  let edges := redirect bto b <$> Edges castNode in
  let retype := set_DType (folded_type castType) in
  let g := set_graph_tensors (alter retype b (alter retype c (graph_Tensors g))) g in
  let g := upd_node node (λ n, set_Attributes (<[ScalarAttr := attr]> (Attributes n)) n) g in
  let g := upd_node bto (set_Edges edges) (upd_node cast (set_Edges edges) g) in
  let g := foldl (λ g e, upd_node (To e) (replace_input d b) g) g edges in
  Ok (set_pipelines (alter (map_Nodes (delete cast)) i (Pipelines g)) g).

(** How an iteration of the loop over the nodes ends: with the next node, or with the
    [return nil] that ends the rule. *)
Inductive flow := Next | Done.

(** One iteration of the loop over the nodes of pipeline [i]. *)
Definition fold_constant (i id : nat) (g : Graph) : res (flow * Graph) :=
  match Pipelines g !! i ≫= λ p, Nodes p !! id with
  | None => Ok (Next, g)
  | Some node =>
      if negb (bool_decide (OpType node = OpNameConstant)) then Ok (Next, g)
      else match Edges node with
      | [e] =>
          broadCastNode ← node_at g (To e);
          if negb (bool_decide (OpType broadCastNode = OpNameBroadcastTo)) then Ok (Next, g)
          else match Edges broadCastNode with
          | [e'] =>
              castNode ← node_at g (To e');
              if negb (bool_decide (OpType castNode = OpNameCast)) then Ok (Next, g)
              else
                c ← out_tensor node; d ← out_tensor castNode;
                cT ← graph_tensor g c; dT ← graph_tensor g d;
                if negb (isValidCast (DType cT) (DType dT)) then
                  Err "GraphOptimizer: invalid cast"
                else
                  attr ← match castValue (Attributes node !! ScalarAttr) (DType cT) (DType dT) with
                         | Err e => Err ("GraphOptimizer: failed to cast value: " +:+ e)
                         | r => r
                         end;
                  b ← out_tensor broadCastNode;
                  g ← fold_path i id (To e) (To e') c b d attr (DType dT) g;
                  Ok (Next, g)
          | _ => Ok (Done, g)
          end
      | _ => Ok (Done, g)
      end
  end.

(** The loop over the nodes; a node that has been removed is not visited any more. *)
Fixpoint fold_nodes (i : nat) (ids : list nat) (g : Graph) : res (flow * Graph) :=
  match ids with
  | [] => Ok (Next, g)
  | id :: ids =>
      '(f, g) ← fold_constant i id g;
      match f with Done => Ok (Done, g) | Next => fold_nodes i ids g end
  end.

Definition pipeline_ids (g : Graph) (i : nat) : list nat :=
  match Pipelines g !! i with Some p => (go_range (Nodes p)).*1 | None => [] end.

Fixpoint fold_pipelines (js : list nat) (g : Graph) : res Graph :=
  match js with
  | [] => Ok g
  | i :: js =>
      '(f, g) ← fold_nodes i (pipeline_ids g i) g;
      match f with Done => Ok g | Next => fold_pipelines js g end
  end.

(** [optConstantCast.optimize] *)
Definition optimize (g : Graph) : res Graph := fold_pipelines (seq 0 (length (Pipelines g))) g.

(** [NewGraphOptimizer] has this one rule. *)
Definition Optimize (g : Graph) : res Graph := optimize g.
End optimizer.
