(* ===== verification/OptimizerSpec.v ===== *)
(** * What the optimizer of graphs does

    On graphs with one pipeline, which is what plans that are not batched give, the
    optimizer keeps the graph well connected and keeps what every node computes, given
    that the engine casts a constant to the value [castValue] computes.  On graphs of
    batched plans it removes no node at all, and leaves the casts it has folded behind
    without their input ([OptimizerBatched]); and what it folds depends on the order of a map. *)
From Stdlib Require Import SpecFloat.
From S2P Require Import Prelude GoInt Sliceutil Expression Operator Ccl Graph GraphBuilder.
From S2P Require Import BuilderSpec StatusConverter Dag DagSpec LogicalNode BuildCcl BuildCclSpec.
From S2P Require Import Translator BuildNode Strconv Optimizer PlanLogic TranslateSpec.
#[local] Open Scope nat_scope.

(** ** The loops of the rule *)
Section loops.
Context `{GoRange} {lit : literals} (Q : Graph → Prop).
Context (HQ : ∀ i id g f g', Q g → fold_constant i id g = Ok (f, g') → Q g').

Lemma fold_nodes_ind i ids g f g' : Q g → fold_nodes i ids g = Ok (f, g') → Q g'.
Proof.
  revert g. induction ids as [|id ids IH]; intros g Hg Hf; simpl in Hf; [by injection Hf as _ <-|].
  apply res_bind_Ok in Hf as ([f1 g1] & Hc & Hf). apply (HQ _ _ _ _ _ Hg) in Hc.
  destruct f1; [by eapply IH|]. by injection Hf as _ <-.
Qed.
Lemma fold_pipelines_ind js g g' : Q g → fold_pipelines js g = Ok g' → Q g'.
Proof.
  revert g. induction js as [|i js IH]; intros g Hg Hf; simpl in Hf; [by injection Hf as <-|].
  apply res_bind_Ok in Hf as ([f1 g1] & Hc & Hf). apply (fold_nodes_ind _ _ _ _ _ Hg) in Hc.
  destruct f1; [by eapply IH|]. by injection Hf as <-.
Qed.
(** What every iteration keeps, the optimizer keeps. *)
Lemma Optimize_ind g g' : Q g → Optimize g = Ok g' → Q g'.
Proof. apply fold_pipelines_ind. Qed.
End loops.

(** ** Well connected nodes

    The edges lead exactly from producers to consumers, and to later nodes. *)
Definition shape_ref (n : ExecutionNode) (r : nat) : Prop :=
  Inputs n !! "ShapeRefTensor" = Some [r].

Record linked (M : gmap nat ExecutionNode) (ts : list Tensor) : Prop := {
  linked_edge u n e : M !! u = Some n → e ∈ Edges n →
    u < To e ∧ node_makes n (edge_Value e)
    ∧ ∃ m, M !! To e = Some m ∧ node_takes m (edge_Value e);
  linked_wired u n v m t : M !! u = Some n → M !! v = Some m →
    node_makes n t → node_takes m t → ∃ e, e ∈ Edges n ∧ To e = v ∧ edge_Value e = t;
  linked_once u n v m t : M !! u = Some n → M !! v = Some m →
    node_makes n t → node_makes m t → u = v;
  linked_closed v m t : M !! v = Some m → node_takes m t →
    ∃ u n, M !! u = Some n ∧ node_makes n t;
  linked_shape u n : M !! u = Some n → shape_ok n;
  linked_known u n t : M !! u = Some n → node_takes n t ∨ node_makes n t → is_Some (ts !! t);
  linked_single u n : M !! u = Some n → OpType n = OpNameBroadcastTo →
    length (Edges n) = 1 → ∃ o, Outputs n = {[ Out := [o] ]};
  linked_ref u n r v m : M !! u = Some n → OpType n = OpNameBroadcastTo → shape_ref n r →
    M !! v = Some m → OpType m = OpNameConstant → ¬ node_makes m r;
  linked_id u n : M !! u = Some n → node_ID n = u;
}.

(** The part of this that does not follow from the way plans are built: a broadcast that
    has a single consumer broadcasts a single tensor, and it does not take its shape from
    a constant. *)
Definition broadcasts_plain (g : Graph) : Prop :=
  ∀ p u n, p ∈ Pipelines g → Nodes p !! u = Some n → OpType n = OpNameBroadcastTo →
    (length (Edges n) = 1 → ∃ o, Outputs n = {[ Out := [o] ]})
    ∧ ∀ r v m, shape_ref n r → Nodes p !! v = Some m → OpType m = OpNameConstant →
        ¬ node_makes m r.

Lemma node_takes_single n k l t : Inputs n = {[ k := l ]} → node_takes n t ↔ t ∈ l.
Proof.
  intros Hn. unfold node_takes. rewrite Hn. split.
  - by intros (k' & l' & [<- <-]%lookup_singleton_Some & ?).
  - intros Ht. exists k, l. by rewrite lookup_singleton_eq.
Qed.
Lemma node_makes_single n k l t : Outputs n = {[ k := l ]} → node_makes n t ↔ t ∈ l.
Proof.
  intros Hn. unfold node_makes. rewrite Hn. split.
  - by intros (k' & l' & [<- <-]%lookup_singleton_Some & ?).
  - intros Ht. exists k, l. by rewrite lookup_singleton_eq.
Qed.
Lemma makes_out n o : Outputs n = {[ Out := [o] ]} → node_makes n o.
Proof. intros Ho. apply (node_makes_single _ _ _ _ Ho). set_solver. Qed.
Lemma node_takes_broadcast n ins r t :
  Inputs n = {[ In := ins; "ShapeRefTensor" := [r] ]} → node_takes n t ↔ t ∈ ins ∨ t = r.
Proof.
  intros Hn. unfold node_takes. rewrite Hn. split.
  - intros (k & l & Hk & Ht). rewrite lookup_insert in Hk. case_decide; simplify_eq; [by left|].
    apply lookup_singleton_Some in Hk as [_ <-]. right. set_solver.
  - intros [Ht| ->].
    + exists In, ins. by rewrite lookup_insert_eq.
    + exists "ShapeRefTensor", [r]. split; [|set_solver].
      rewrite lookup_insert_ne by done. by rewrite lookup_singleton_eq.
Qed.

(** *** The path that is folded *)
Record path (M : gmap nat ExecutionNode) (u w x : nat) (n bn cn : ExecutionNode)
    (c b d r : nat) : Prop := {
  path_u : M !! u = Some n; path_w : M !! w = Some bn; path_x : M !! x = Some cn;
  path_constant : OpType n = OpNameConstant;
  path_broadcast : OpType bn = OpNameBroadcastTo;
  path_cast : OpType cn = OpNameCast;
  path_n : Inputs n = ∅ ∧ Outputs n = {[ Out := [c] ]};
  path_bn : Inputs bn = {[ In := [c]; "ShapeRefTensor" := [r] ]} ∧ Outputs bn = {[ Out := [b] ]};
  path_cn : Inputs cn = {[ In := [b] ]} ∧ Outputs cn = {[ Out := [d] ]};
  path_c v m : M !! v = Some m → node_takes m c → v = w;
  path_b v m : M !! v = Some m → node_takes m b → v = x;
  path_order : u < w < x;
  path_r : r ≠ c ∧ r ≠ b ∧ r ≠ d;
}.

Lemma linked_path M ts u w x n bn cn e e' :
  linked M ts → M !! u = Some n → OpType n = OpNameConstant → Edges n = [e] → To e = w →
  M !! w = Some bn → OpType bn = OpNameBroadcastTo → Edges bn = [e'] → To e' = x →
  M !! x = Some cn → OpType cn = OpNameCast →
  ∃ c b d r, path M u w x n bn cn c b d r.
Proof.
  intros HL Hu Hn Hen Hw Hbn Hob Heb Hx Hcn Hoc.
  destruct (linked_shape _ _ HL _ _ Hu) as [Hs _]. destruct (Hs Hn) as (Hni & c & Hno).
  destruct (linked_shape _ _ HL _ _ Hcn) as (_ & Hs' & _).
  destruct (Hs' Hoc) as (i & d & Hci & Hco).
  destruct (linked_shape _ _ HL _ _ Hbn) as (_ & _ & Hs'').
  destruct (Hs'' Hob) as (ins & r & outs & Hlen & Hbi & Hbo).
  destruct (linked_single _ _ HL _ _ Hbn Hob) as [b Hb]; [by rewrite Heb|].
  rewrite Hb in Hbo. apply map_singleton_inj in Hbo as [_ <-].
  destruct ins as [|a [|? ?]]; [done| |done].
  destruct (linked_edge _ _ HL _ _ e Hu) as (Huw & Hmk & m & Hm & Htk); [rewrite Hen; set_solver|].
  rewrite Hw in *. rewrite Hbn in Hm. injection Hm as <-.
  apply (node_makes_single _ _ _ _ Hno), list_elem_of_singleton in Hmk.
  destruct (linked_edge _ _ HL _ _ e' Hbn) as (Hwx & Hmk' & m & Hm & Htk'); [rewrite Heb; set_solver|].
  rewrite Hx in *. rewrite Hcn in Hm. injection Hm as <-.
  apply (node_makes_single _ _ _ _ Hb), list_elem_of_singleton in Hmk'.
  apply (node_takes_single _ _ _ _ Hci), list_elem_of_singleton in Htk'.
  rewrite Hmk in Htk. rewrite <- Htk', Hmk' in Hci. clear Htk'.
  assert (shape_ref bn r) as Href.
  { unfold shape_ref. rewrite Hbi, lookup_insert_ne by done. by rewrite lookup_singleton_eq. }
  assert (r ≠ c) as Hrc.
  { intros ->. apply (linked_ref _ _ HL _ _ _ _ _ Hbn Hob Href Hu Hn).
    by apply makes_out. }
  apply (node_takes_broadcast _ _ _ _ Hbi) in Htk as [->%list_elem_of_singleton|?]; [|done].
  assert (∀ v m t n' v', M !! v' = Some n' → M !! v = Some m → node_makes n' t → node_takes m t →
            v' < v) as Hlt.
  { intros v m t n' v' Hn' Hm Hmk0 Ht. destruct (linked_wired _ _ HL _ _ _ _ _ Hn' Hm Hmk0 Ht)
      as (e0 & He0 & <- & _). by destruct (linked_edge _ _ HL _ _ _ Hn' He0). }
  assert (node_takes bn r) as Htr by (apply (node_takes_broadcast _ _ _ _ Hbi); by right).
  exists a, b, d, r. split; try done.
  - intros v m Hm Ht. assert (node_makes n a) as Hma by (by apply makes_out).
    destruct (linked_wired _ _ HL _ _ _ _ _ Hu Hm Hma Ht) as (e0 & He0 & <- & _).
    rewrite Hen in He0. apply list_elem_of_singleton in He0 as ->. done.
  - intros v m Hm Ht. assert (node_makes bn b) as Hma by (by apply makes_out).
    destruct (linked_wired _ _ HL _ _ _ _ _ Hbn Hm Hma Ht) as (e0 & He0 & <- & _).
    rewrite Heb in He0. apply list_elem_of_singleton in He0 as ->. done.
  - split_and!; [done|..].
    + intros ->. assert (node_makes bn b) as Hma by (by apply makes_out).
      pose proof (Hlt _ _ _ _ _ Hbn Hbn Hma Htr). lia.
    + intros ->. assert (node_makes cn d) as Hma by (by apply makes_out).
      pose proof (Hlt _ _ _ _ _ Hcn Hbn Hma Htr). lia.
Qed.

(** *** The folded nodes *)
Definition folded_map (u w x b d : nat) (cn : ExecutionNode) (attr : Attribute)
    (M : gmap nat ExecutionNode) : gmap nat ExecutionNode :=
  delete x (alter (set_Edges (redirect w b <$> Edges cn)) w
    (alter (λ n, set_Attributes (<[ScalarAttr := attr]> (Attributes n)) n) u
       (replace_input d b <$> M))).

Definition retyped (tp : PrimitiveDataType) (c b : nat) (ts : list Tensor) : list Tensor :=
  alter (set_DType tp) b (alter (set_DType tp) c ts).

Lemma retyped_lookup tp c b ts t :
  retyped tp c b ts !! t =
    (λ x, if bool_decide (t = c ∨ t = b) then set_DType tp x else x) <$> ts !! t.
Proof.
  unfold retyped. destruct (decide (t = b)) as [->|Hb].
  - rewrite list_lookup_alter_eq, bool_decide_true by auto. destruct (decide (b = c)) as [->|Hc].
    + rewrite list_lookup_alter_eq. by destruct (ts !! c).
    + by rewrite list_lookup_alter_ne.
  - rewrite list_lookup_alter_ne by done. destruct (decide (t = c)) as [->|Hc].
    + by rewrite list_lookup_alter_eq, bool_decide_true by auto.
    + rewrite list_lookup_alter_ne, bool_decide_false by naive_solver. by destruct (ts !! t).
Qed.

(** What a folded node keeps of the node it was. *)
Lemma replace_input_takes old new n t :
  node_takes (replace_input old new n) t ↔
    (t ≠ old ∧ node_takes n t) ∨ (t = new ∧ node_takes n old).
Proof.
  unfold node_takes. simpl. setoid_rewrite lookup_fmap_Some. split.
  - intros (k & l & (l' & <- & Hk) & Ht). apply list_elem_of_fmap in Ht as (i & -> & Hi).
    case_bool_decide as Hd; subst; eauto 6.
  - intros [(Ht & k & l & Hk & Hl)|(-> & k & l & Hk & Hl)]; eexists k, _; (split; [eauto|]);
      apply list_elem_of_fmap; [exists t|exists old]; (split; [|done]);
      [by rewrite bool_decide_false|by rewrite bool_decide_true].
Qed.
Lemma replace_input_id old new n : ¬ node_takes n old → replace_input old new n = n.
Proof.
  intros Hn. destruct n as [id nm op ins outs attrs es ps]. unfold replace_input, set_Inputs. simpl.
  f_equal. apply map_eq. intros k. rewrite lookup_fmap. destruct (ins !! k) as [l|] eqn:Hk; [|done].
  simpl. f_equal. rewrite <- (list_fmap_id l) at 2. apply list_fmap_ext. intros j i Hi.
  case_bool_decide as Hd; [|done]. subst. destruct Hn. exists k, l. split; [done|].
  by eapply list_elem_of_lookup_2.
Qed.

Section fold.
Context (M : gmap nat ExecutionNode) (ts : list Tensor) (HL : linked M ts).
Context (u w x : nat) (n bn cn : ExecutionNode) (c b d r : nat).
Context (HP : path M u w x n bn cn c b d r) (attr : Attribute) (tp : PrimitiveDataType).
Local Notation M' := (folded_map u w x b d cn attr M).
Local Notation ts' := (retyped tp c b ts).

Lemma path_makes : node_makes n c ∧ node_makes bn b ∧ node_makes cn d.
Proof. split_and!; apply makes_out; [apply (path_n _ _ _ _ _ _ _ _ _ _ _ HP)|apply (path_bn _ _ _ _ _ _ _ _ _ _ _ HP)|apply (path_cn _ _ _ _ _ _ _ _ _ _ _ HP)]. Qed.

Lemma path_maker v m t :
  M !! v = Some m → node_makes m t → (t = c → v = u) ∧ (t = b → v = w) ∧ (t = d → v = x).
Proof.
  destruct path_makes as (Hc & Hb & Hd). destruct HP as [Hu Hw Hx _ _ _ _ _ _ _ _ _ _].
  intros Hm Ht. split_and!; intros ->; by eapply (linked_once _ _ HL).
Qed.

Lemma path_ne : c ≠ b ∧ b ≠ d ∧ c ≠ d ∧ u ≠ w ∧ w ≠ x ∧ u ≠ x.
Proof.
  destruct path_makes as (Hc & Hb & Hd). pose proof HP as [Hu Hw Hx _ _ _ _ _ _ _ _ Hlt _].
  destruct (path_maker _ _ _ Hu Hc) as (_ & ? & ?). destruct (path_maker _ _ _ Hw Hb) as (_ & _ & ?).
  split_and!; [..|lia|lia|lia]; intros Heq; lia.
Qed.

(** A node after folding is a node from before, with other edges or attributes where the
    rule changes them. *)
Definition fold_node (v : nat) (m : ExecutionNode) : ExecutionNode :=
  let m := replace_input d b m in
  let m := if bool_decide (v = u)
           then set_Attributes (<[ScalarAttr := attr]> (Attributes m)) m else m in
  if bool_decide (v = w) then set_Edges (redirect w b <$> Edges cn) m else m.

Lemma folded_lookup v : M' !! v = if bool_decide (v = x) then None else fold_node v <$> M !! v.
Proof.
  unfold folded_map, fold_node. case_bool_decide as Hx; [subst; apply lookup_delete_eq|].
  rewrite lookup_delete_ne by done. destruct path_ne as (_ & _ & _ & Hne & _).
  destruct (decide (v = w)) as [->|Hw].
  - rewrite lookup_alter_eq, lookup_alter_ne, lookup_fmap by done.
    rewrite (bool_decide_false (w = u)), (bool_decide_true (w = w)) by done. by destruct (M !! w).
  - rewrite lookup_alter_ne, (bool_decide_false (v = w)) by done.
    destruct (decide (v = u)) as [->|Hu].
    + rewrite lookup_alter_eq, lookup_fmap, (bool_decide_true (u = u)) by done. by destruct (M !! u).
    + rewrite lookup_alter_ne, lookup_fmap, (bool_decide_false (v = u)) by done. by destruct (M !! v).
Qed.

Lemma fold_node_takes v m t :
  node_takes (fold_node v m) t ↔ (t ≠ d ∧ node_takes m t) ∨ (t = b ∧ node_takes m d).
Proof. rewrite <- replace_input_takes. unfold fold_node. by repeat case_bool_decide. Qed.
Lemma fold_node_makes v m t : node_makes (fold_node v m) t ↔ node_makes m t.
Proof. unfold fold_node. by repeat case_bool_decide. Qed.
Lemma fold_node_op v m : OpType (fold_node v m) = OpType m.
Proof. unfold fold_node. by repeat case_bool_decide. Qed.
Lemma fold_node_Outputs v m : Outputs (fold_node v m) = Outputs m.
Proof. unfold fold_node. by repeat case_bool_decide. Qed.
Lemma fold_node_Edges v m : v ≠ w → Edges (fold_node v m) = Edges m.
Proof. intros Hv. unfold fold_node. rewrite (bool_decide_false (v = w)) by done. by case_bool_decide. Qed.

Lemma folded_inv v m' :
  M' !! v = Some m' → v ≠ x ∧ ∃ m, M !! v = Some m ∧ m' = fold_node v m.
Proof.
  rewrite folded_lookup. case_bool_decide; [done|].
  intros (m & Hm & ->)%fmap_Some. eauto.
Qed.
Lemma folded_intro v m : M !! v = Some m → v ≠ x → M' !! v = Some (fold_node v m).
Proof. intros Hm Hv. by rewrite folded_lookup, bool_decide_false, Hm. Qed.

Lemma folded_takes v m t :
  M !! v = Some m → v ≠ x → node_takes (fold_node v m) t → t ≠ d ∧
    (t = b ∧ node_takes m d ∨ t ≠ b ∧ node_takes m t).
Proof.
  intros Hm Hv [[Ht Hmt]|[-> Hd]]%fold_node_takes.
  - split; [done|]. right. split; [|done]. intros ->. by apply Hv, (path_b _ _ _ _ _ _ _ _ _ _ _ HP v m).
  - pose proof path_ne. naive_solver.
Qed.

Lemma folded_edge v m e :
  M !! v = Some m → v ≠ x → e ∈ Edges (fold_node v m) →
  v < To e ∧ node_makes m (edge_Value e) ∧ ∃ m1, M' !! To e = Some m1 ∧ node_takes m1 (edge_Value e).
Proof.
  destruct path_makes as (Hc & Hb & Hd). pose proof path_ne as (Hcb & Hbd & Hcd & Huw & Hwx & Hux).
  pose proof HP as [Hu Hw Hx _ _ _ _ _ [Hci Hco] _ _ Hlt _]. intros Hm Hv He.
  destruct (decide (v = w)) as [->|Hvw].
  - unfold fold_node in He. rewrite (bool_decide_true (w = w)) in He by done. simpl in He.
    apply list_elem_of_fmap in He as (e0 & -> & He0). simpl.
    destruct (linked_edge _ _ HL _ _ _ Hx He0) as (Hlt0 & Hmk & m1 & Hm1 & Ht1).
    apply (node_makes_single _ _ _ _ Hco), list_elem_of_singleton in Hmk. rewrite Hmk in Ht1.
    rewrite Hw in Hm. injection Hm as <-. split_and!; [lia|done|]. eexists.
    split; [apply folded_intro; [done|lia]|]. apply fold_node_takes. by right.
  - rewrite fold_node_Edges in He by done.
    destruct (linked_edge _ _ HL _ _ _ Hm He) as (Hlt0 & Hmk & m1 & Hm1 & Ht1).
    destruct (path_maker _ _ _ Hm Hmk) as (_ & Hmb & Hmd). split_and!; [done..|]. eexists.
    split; [apply folded_intro; [done|]|].
    + intros Heq. rewrite Heq, Hx in Hm1. injection Hm1 as <-.
      apply (node_takes_single _ _ _ _ Hci), list_elem_of_singleton in Ht1. auto.
    + apply fold_node_takes. left. split; [|done]. intros Heq. auto.
Qed.

Lemma folded_wired v m y m1 t :
  M !! v = Some m → v ≠ x → M !! y = Some m1 → y ≠ x → node_makes m t →
  node_takes (fold_node y m1) t → ∃ e, e ∈ Edges (fold_node v m) ∧ To e = y ∧ edge_Value e = t.
Proof.
  destruct path_makes as (Hc & Hb & Hd). pose proof HP as [Hu Hw Hx _ _ _ _ [_ Hbo] _ _ _ _ _].
  intros Hm Hv Hm1 Hy Hmk Ht. destruct (folded_takes _ _ _ Hm1 Hy Ht) as [Htd [[-> Htk]|[Htb Htk]]].
  - destruct (path_maker _ _ _ Hm Hmk) as (_ & Hvw & _). rewrite Hvw in * by done.
    destruct (linked_wired _ _ HL _ _ _ _ _ Hx Hm1 Hd Htk) as (e & He & <- & _).
    exists (redirect w b e). split; [|done]. unfold fold_node.
    rewrite (bool_decide_true (w = w)) by done. simpl. by apply list_elem_of_fmap_2.
  - assert (v ≠ w) as Hvw.
    { intros ->. rewrite Hw in Hm. injection Hm as <-.
      apply (node_makes_single _ _ _ _ Hbo), list_elem_of_singleton in Hmk. done. }
    rewrite fold_node_Edges by done. by apply (linked_wired _ _ HL v m y m1 t).
Qed.

Lemma replace_shape m : shape_ok m → shape_ok (replace_input d b m).
Proof.
  intros (Hc & Hx & Hb). unfold shape_ok. simpl. split_and!; intros Hop.
  - destruct (Hc Hop) as [-> ?]. by rewrite fmap_empty.
  - destruct (Hx Hop) as (i & o & -> & ?). rewrite map_fmap_singleton. eauto.
  - destruct (Hb Hop) as (ins & r' & outs & ? & -> & ?). rewrite fmap_insert, map_fmap_singleton.
    eexists (_ <$> ins), _, outs. split_and!; [by rewrite length_fmap|done..].
Qed.
Lemma fold_node_shape v m : shape_ok m → shape_ok (fold_node v m).
Proof. intros Hm%replace_shape. unfold fold_node. by repeat case_bool_decide. Qed.

Lemma fold_node_ref v m i : shape_ref (fold_node v m) i → shape_ref m i ∨ i = b.
Proof.
  assert (Inputs (fold_node v m) = Inputs (replace_input d b m)) as Heq
    by (unfold fold_node; by repeat case_bool_decide).
  unfold shape_ref. rewrite Heq. simpl. intros (l & Hl & Hk)%lookup_fmap_Some.
  destruct l as [|j [|? ?]]; simplify_eq/=. case_bool_decide; auto.
Qed.

Lemma folded_linked : linked M' ts'.
Proof.
  pose proof HP as [Hu Hw Hx _ Hob _ _ [_ Hbo] _ _ _ _ _]. pose proof path_ne. split.
  - intros v m' e (Hv & m & Hm & ->)%folded_inv He. rewrite fold_node_makes. by apply folded_edge.
  - intros v m' y m1' t (Hv & m & Hm & ->)%folded_inv (Hy & m1 & Hm1 & ->)%folded_inv.
    rewrite fold_node_makes. by apply folded_wired.
  - intros v m' y m1' t (Hv & m & Hm & ->)%folded_inv (Hy & m1 & Hm1 & ->)%folded_inv.
    rewrite !fold_node_makes. by apply (linked_once _ _ HL).
  - intros v m' t (Hv & m & Hm & ->)%folded_inv Ht.
    destruct (folded_takes _ _ _ Hm Hv Ht) as [Htd [[-> Htk]|[Htb Htk]]].
    + exists w. eexists. split; [apply folded_intro; naive_solver|]. by apply fold_node_makes, makes_out.
    + destruct (linked_closed _ _ HL _ _ _ Hm Htk) as (y & m1 & Hm1 & Hmk). exists y. eexists.
      split; [apply folded_intro; [done|]|by apply fold_node_makes].
      intros ->. apply Htd. rewrite Hx in Hm1. injection Hm1 as <-.
      pose proof (path_cn _ _ _ _ _ _ _ _ _ _ _ HP) as [_ Hco].
      by apply (node_makes_single _ _ _ _ Hco), list_elem_of_singleton in Hmk.
  - intros v m' (Hv & m & Hm & ->)%folded_inv. by eapply fold_node_shape, linked_shape.
  - intros v m' t (Hv & m & Hm & ->)%folded_inv Ht. rewrite retyped_lookup, fmap_is_Some.
    rewrite fold_node_makes in Ht. destruct Ht as [Ht|Ht]; [|by apply (linked_known _ _ HL v m); auto].
    destruct (folded_takes _ _ _ Hm Hv Ht) as [Htd [[-> Htk]|[Htb Htk]]];
      [apply (linked_known _ _ HL w bn); [done|right; by apply makes_out]
      |apply (linked_known _ _ HL v m); auto].
  - intros v m' (Hv & m & Hm & ->)%folded_inv. rewrite fold_node_op, fold_node_Outputs.
    intros Hop Hlen. destruct (decide (v = w)) as [->|Hvw].
    + rewrite Hw in Hm. injection Hm as <-. eauto.
    + rewrite fold_node_Edges in Hlen by done. by apply (linked_single _ _ HL v).
  - intros v m' i y m1' (Hv & m & Hm & ->)%folded_inv Hop Hi (Hy & m1 & Hm1 & ->)%folded_inv.
    rewrite fold_node_op in *. rewrite fold_node_makes. intros Hop1 Hmk.
    apply fold_node_ref in Hi as [Hi| ->].
    + by apply (linked_ref _ _ HL _ _ _ _ _ Hm Hop Hi Hm1 Hop1).
    + destruct (path_maker _ _ _ Hm1 Hmk) as (_ & Hyw & _). rewrite Hyw, Hw in Hm1 by done.
      injection Hm1 as <-. by rewrite Hob in Hop1.
  - intros v m' (Hv & m & Hm & ->)%folded_inv. unfold fold_node. rewrite <- (linked_id _ _ HL v m) by done.
    by repeat case_bool_decide.
Qed.

(** *** The rule computes the folded nodes *)
Lemma replace_input_idem m : replace_input d b (replace_input d b m) = replace_input d b m.
Proof.
  apply replace_input_id. rewrite replace_input_takes. pose proof path_ne. naive_solver.
Qed.

Lemma foldl_alter_lookup (f : ExecutionNode → ExecutionNode) es (N : gmap nat ExecutionNode) v :
  (∀ m, f (f m) = f m) →
  foldl (λ N e, alter f (To e) N) N es !! v =
    (λ m, if bool_decide (v ∈ To <$> es) then f m else m) <$> N !! v.
Proof.
  intros Hf. revert N. induction es as [|e es IH]; intros N; simpl.
  { by destruct (N !! v). }
  rewrite IH. destruct (decide (To e = v)) as [<-|Hv].
  - rewrite lookup_alter_eq. destruct (N !! To e); simpl; [|done].
    rewrite (bool_decide_true (To e ∈ To e :: _)) by set_solver. case_bool_decide; by rewrite ?Hf.
  - rewrite lookup_alter_ne by done. destruct (N !! v); simpl; [|done]. f_equal.
    repeat case_bool_decide; try done; set_solver.
Qed.

Lemma folded_nodes es :
  es = redirect w b <$> Edges cn →
  delete x (foldl (λ N e, alter (replace_input d b) (To e) N)
    (alter (set_Edges es) w (alter (set_Edges es) x
       (alter (λ n, set_Attributes (<[ScalarAttr := attr]> (Attributes n)) n) u M))) es) = M'.
Proof.
  intros ->. pose proof path_ne as (_ & _ & _ & Huw & Hwx & Hux). apply map_eq. intros v.
  rewrite folded_lookup. case_bool_decide as Hv; [subst; apply lookup_delete_eq|].
  rewrite lookup_delete_ne, foldl_alter_lookup by (done || apply replace_input_idem).
  assert (∀ m, M !! v = Some m → replace_input d b m =
    if bool_decide (v ∈ To <$> (redirect w b <$> Edges cn)) then replace_input d b m else m) as Hr.
  { intros m Hm. case_bool_decide as Hin; [done|]. apply replace_input_id. intros Ht. apply Hin.
    destruct (linked_wired _ _ HL _ _ _ _ _ (path_x _ _ _ _ _ _ _ _ _ _ _ HP) Hm
                (proj2 (proj2 path_makes)) Ht) as (e & He & <- & _).
    apply list_elem_of_fmap. exists (redirect w b e). split; [done|]. by apply list_elem_of_fmap_2. }
  destruct (decide (v = w)) as [->|Hvw]; [|destruct (decide (v = u)) as [->|Hvu]].
  - rewrite lookup_alter_eq, !lookup_alter_ne by done.
    destruct (M !! w) as [m|] eqn:Hm; simpl; [|done]. f_equal. unfold fold_node.
    rewrite (bool_decide_false (w = u)), (bool_decide_true (w = w)), (Hr _ eq_refl) by done.
    by case_bool_decide.
  - rewrite !lookup_alter_ne, lookup_alter_eq by done.
    destruct (M !! u) as [m|] eqn:Hm; simpl; [|done]. f_equal. unfold fold_node.
    rewrite (bool_decide_true (u = u)), (bool_decide_false (u = w)), (Hr _ eq_refl) by done.
    by case_bool_decide.
  - rewrite !lookup_alter_ne by done. destruct (M !! v) as [m|] eqn:Hm; simpl; [|done]. f_equal.
    unfold fold_node. rewrite (bool_decide_false (v = w)), (bool_decide_false (v = u)) by done.
    by rewrite <- (Hr _ eq_refl).
Qed.
End fold.

(** ** What nodes compute

    The engine is a relation between the operator, the attributes, the inputs and the
    outputs of a node.  A value comes with a type: an output has the type of its tensor,
    an input the type in which the tensor is stored, where times are seconds. *)
Definition dtype (ts : list Tensor) (t : nat) : PrimitiveDataType :=
  match ts !! t with Some x => DType x | None => UNDEFINED end.

Definition typed {V} (f : PrimitiveDataType → PrimitiveDataType) (ts : list Tensor)
    (ρ : nat → V) (t : nat) : PrimitiveDataType * V := (f (dtype ts t), ρ t).
Definition values {V} (f : PrimitiveDataType → PrimitiveDataType) (ts : list Tensor)
    (ρ : nat → V) (m : tensor_args) : gmap string (list (PrimitiveDataType * V)) :=
  (λ l : list nat, typed f ts ρ <$> l) <$> m.

Section engine.
Context `{GoRange} {lit : literals} {V : Type}.
Context (run : string → gmap string Attribute → gmap string (list (PrimitiveDataType * V)) →
               gmap string (list (PrimitiveDataType * V)) → Prop).

Implicit Types (ρ : nat → V).

(** [ρ] gives every tensor a value that the node made from its inputs. *)
Definition satisfies (ts : list Tensor) (ρ : nat → V) (n : ExecutionNode) : Prop :=
  run (OpType n) (Attributes n) (values folded_type ts ρ (Inputs n)) (values id ts ρ (Outputs n)).

Definition computes (M : gmap nat ExecutionNode) (ts : list Tensor) (ρ : nat → V) : Prop :=
  ∀ v m, M !! v = Some m → satisfies ts ρ m.

(** The engine casts a broadcast constant to what it broadcasts of the constant that
    [castValue] gives. *)
Definition casts_constants : Prop :=
  ∀ attrs a ot ct a' c bt b d battrs r cattrs,
    attrs !! ScalarAttr = Some a → castValue (Some a) ot ct = Ok a' →
    run OpNameConstant attrs ∅ {[ Out := [(ot, c)] ]} →
    run OpNameBroadcastTo battrs {[ In := [(folded_type ot, c)]; "ShapeRefTensor" := [r] ]}
      {[ Out := [(bt, b)] ]} →
    run OpNameCast cattrs {[ In := [(folded_type bt, b)] ]} {[ Out := [(ct, d)] ]} →
    ∃ c', run OpNameConstant (<[ScalarAttr := a']> attrs) ∅ {[ Out := [(folded_type ct, c')] ]}
      ∧ run OpNameBroadcastTo battrs
          {[ In := [(folded_type ct, c')]; "ShapeRefTensor" := [r] ]}
          {[ Out := [(folded_type ct, d)] ]}.

(** Every node but the constants and their broadcasts was there before, and takes and
    makes the same values. *)
Definition same_values (M : gmap nat ExecutionNode) (ts : list Tensor) (ρ : nat → V)
    (M' : gmap nat ExecutionNode) (ts' : list Tensor) (ρ' : nat → V) : Prop :=
  ∀ v m', M' !! v = Some m' → OpType m' ∉ [OpNameConstant; OpNameBroadcastTo] →
    ∃ m, M !! v = Some m ∧ OpType m = OpType m'
      ∧ values folded_type ts ρ (Inputs m) = values folded_type ts' ρ' (Inputs m')
      ∧ values id ts ρ (Outputs m) = values id ts' ρ' (Outputs m').

Lemma values_ext f ts ρ ts' ρ' (g : nat → nat) (m : tensor_args) :
  (∀ k l t, m !! k = Some l → t ∈ l → typed f ts ρ t = typed f ts' ρ' (g t)) →
  values f ts ρ m = values f ts' ρ' ((λ l : list nat, g <$> l) <$> m).
Proof.
  intros Hext. unfold values. rewrite <- map_fmap_compose. apply map_fmap_ext. intros k l Hk. simpl.
  rewrite <- list_fmap_compose. apply list_fmap_ext. intros i t Hi. simpl.
  eapply Hext; [done|]. by eapply list_elem_of_lookup_2.
Qed.
Lemma values_ext_id f ts ρ ts' ρ' (m : tensor_args) :
  (∀ k l t, m !! k = Some l → t ∈ l → typed f ts ρ t = typed f ts' ρ' t) →
  values f ts ρ m = values f ts' ρ' m.
Proof.
  intros Hext. rewrite (values_ext f ts ρ ts' ρ' id) by done. f_equal.
  rewrite <- (map_fmap_id m) at 2. apply map_fmap_ext. intros. apply list_fmap_id.
Qed.

(** *** Folding keeps the values *)
Section simulation.
Context (M : gmap nat ExecutionNode) (ts : list Tensor) (HL : linked M ts).
Context (u w x : nat) (n bn cn : ExecutionNode) (c b d r : nat).
Context (HP : path M u w x n bn cn c b d r) (a attr : Attribute).
Context (Ha : Attributes n !! ScalarAttr = Some a).
Context (Hcast : castValue (Some a) (dtype ts c) (dtype ts d) = Ok attr).
Context (Hrun : casts_constants) (ρ : nat → V) (Hρ : computes M ts ρ).
Local Notation tp := (folded_type (dtype ts d)).
Local Notation M' := (folded_map u w x b d cn attr M).
Local Notation ts' := (retyped tp c b ts).

Lemma folded_type_idem t : folded_type (folded_type t) = folded_type t.
Proof. by destruct t. Qed.

Lemma retyped_dtype t :
  is_Some (ts !! t) → dtype ts' t = if bool_decide (t = c ∨ t = b) then tp else dtype ts t.
Proof.
  intros [y Hy]. unfold dtype at 1. rewrite retyped_lookup, Hy. simpl.
  case_bool_decide; [done|]. unfold dtype. by rewrite Hy.
Qed.

Definition revalued (c' : V) (t : nat) : V :=
  if bool_decide (t = c) then c' else if bool_decide (t = b) then ρ d else ρ t.

Lemma revalued_other c' f t :
  is_Some (ts !! t) → t ≠ c → t ≠ b → typed f ts' (revalued c') t = typed f ts ρ t.
Proof.
  intros Ht Hc Hb. unfold typed, revalued. rewrite retyped_dtype by done.
  by rewrite !bool_decide_false by naive_solver.
Qed.
Lemma revalued_b c' f : typed f ts' (revalued c') b = (f tp, ρ d).
Proof.
  destruct (path_ne M ts HL _ _ _ _ _ _ _ _ _ _ HP) as (Hcb & _).
  assert (is_Some (ts !! b)) as Hb.
  { apply (linked_known _ _ HL w bn); [apply HP|]. right. apply makes_out, HP. }
  unfold typed, revalued. rewrite (retyped_dtype b Hb), (bool_decide_true (b = c ∨ b = b)),
    (bool_decide_false (b = c)), (bool_decide_true (b = b)) by auto. done.
Qed.
Lemma revalued_c c' f : typed f ts' (revalued c') c = (f tp, c').
Proof.
  assert (is_Some (ts !! c)) as Hc.
  { apply (linked_known _ _ HL u n); [apply HP|]. right. apply makes_out, HP. }
  unfold typed, revalued. rewrite (retyped_dtype c Hc), (bool_decide_true (c = c ∨ c = b)),
    (bool_decide_true (c = c)) by auto. done.
Qed.

(** Nodes off the path take the value of the cast where they took it before. *)
Lemma off_path_inputs c' v m :
  M !! v = Some m → v ≠ w → v ≠ x →
  values folded_type ts ρ (Inputs m) = values folded_type ts' (revalued c') (Inputs (replace_input d b m)).
Proof.
  intros Hm Hw Hx. apply values_ext. intros k l t Hk Ht.
  assert (node_takes m t) as Htk by (by exists k, l). case_bool_decide as Hd.
  - subst t. rewrite revalued_b, folded_type_idem. done.
  - rewrite revalued_other; [done|apply (linked_known _ _ HL v m); auto|..]; intros ->.
    + by apply Hw, (path_c _ _ _ _ _ _ _ _ _ _ _ HP v m).
    + by apply Hx, (path_b _ _ _ _ _ _ _ _ _ _ _ HP v m).
Qed.
Lemma off_path_outputs c' v m :
  M !! v = Some m → v ≠ u → v ≠ w →
  values id ts ρ (Outputs m) = values id ts' (revalued c') (Outputs m).
Proof.
  intros Hm Hu Hw. apply values_ext_id. intros k l t Hk Ht.
  assert (node_makes m t) as Hmk by (by exists k, l).
  destruct (path_maker _ _ HL _ _ _ _ _ _ _ _ _ _ HP _ _ _ Hm Hmk) as (Hc & Hb & _).
  rewrite revalued_other; [done|apply (linked_known _ _ HL v m); auto|..]; intros ->; auto.
Qed.

(** The three nodes of the path, in the terms of the engine. *)
Lemma path_values :
  ∃ c', run OpNameConstant (<[ScalarAttr := attr]> (Attributes n)) ∅ {[ Out := [(tp, c')] ]}
    ∧ run OpNameBroadcastTo (Attributes bn)
        {[ In := [(tp, c')]; "ShapeRefTensor" := [typed folded_type ts ρ r] ]}
        {[ Out := [(tp, ρ d)] ]}.
Proof.
  destruct HP as [Hu Hw Hx Hn Hbn Hcn [Hni Hno] [Hbi Hbo] [Hci Hco] _ _ _ _].
  pose proof (Hρ _ _ Hu) as Su. pose proof (Hρ _ _ Hw) as Sw. pose proof (Hρ _ _ Hx) as Sx.
  unfold satisfies, values in *. rewrite Hn, Hni, Hno, fmap_empty, map_fmap_singleton in Su.
  rewrite Hbn, Hbi, Hbo, fmap_insert, !map_fmap_singleton in Sw.
  rewrite Hcn, Hci, Hco, !map_fmap_singleton in Sx.
  by eapply (Hrun (Attributes n) a _ _ attr (ρ c) _ (ρ b)).
Qed.

Lemma folded_constant c' :
  run OpNameConstant (<[ScalarAttr := attr]> (Attributes n)) ∅ {[ Out := [(tp, c')] ]} →
  satisfies ts' (revalued c') (fold_node u w cn b d attr u n).
Proof.
  intros Hc'. destruct (path_ne _ _ HL _ _ _ _ _ _ _ _ _ _ HP) as (_ & _ & _ & Huw & _).
  destruct (path_n _ _ _ _ _ _ _ _ _ _ _ HP) as [Hni Hno]. unfold satisfies, fold_node.
  rewrite (bool_decide_true (u = u)), (bool_decide_false (u = w)) by done. simpl. unfold values.
  rewrite Hni, Hno, !fmap_empty, map_fmap_singleton, (path_constant _ _ _ _ _ _ _ _ _ _ _ HP).
  simpl. by rewrite revalued_c.
Qed.

Lemma folded_broadcast c' :
  run OpNameBroadcastTo (Attributes bn)
    {[ In := [(tp, c')]; "ShapeRefTensor" := [typed folded_type ts ρ r] ]}
    {[ Out := [(tp, ρ d)] ]} →
  satisfies ts' (revalued c') (fold_node u w cn b d attr w bn).
Proof.
  intros Hb'. destruct (path_ne _ _ HL _ _ _ _ _ _ _ _ _ _ HP) as (_ & _ & Hcd & Huw & _).
  destruct (path_bn _ _ _ _ _ _ _ _ _ _ _ HP) as [Hbi Hbo].
  destruct (path_r _ _ _ _ _ _ _ _ _ _ _ HP) as (Hrc & Hrb & Hrd). unfold satisfies, fold_node.
  rewrite (bool_decide_true (w = w)), (bool_decide_false (w = u)) by done. simpl. unfold values.
  rewrite Hbi, Hbo, (path_broadcast _ _ _ _ _ _ _ _ _ _ _ HP), !fmap_insert, !map_fmap_singleton. simpl.
  rewrite (bool_decide_false (c = d)), (bool_decide_false (r = d)) by done.
  rewrite revalued_b, revalued_c, folded_type_idem, revalued_other; [done| |done..].
  apply (linked_known _ _ HL w bn); [apply HP|]. left.
  apply (node_takes_broadcast _ _ _ _ Hbi). by right.
Qed.

Lemma off_path_node v m :
  v ≠ w → Inputs (fold_node u w cn b d attr v m) = Inputs (replace_input d b m)
    ∧ (v ≠ u → Attributes (fold_node u w cn b d attr v m) = Attributes m).
Proof.
  intros Hw. unfold fold_node. rewrite (bool_decide_false (v = w)) by done.
  by case_bool_decide.
Qed.

Lemma fold_simulates : ∃ ρ', computes M' ts' ρ' ∧ same_values M ts ρ M' ts' ρ'.
Proof.
  destruct path_values as (c' & Hc' & Hb'). exists (revalued c').
  pose proof HP as [Hu Hw _ Hn Hbn _ _ _ _ _ _ _ _].
  assert (∀ v m, M !! v = Some m → v ≠ x → v ≠ u → v ≠ w →
    values folded_type ts' (revalued c') (Inputs (fold_node u w cn b d attr v m))
      = values folded_type ts ρ (Inputs m)
    ∧ values id ts' (revalued c') (Outputs (fold_node u w cn b d attr v m))
      = values id ts ρ (Outputs m)) as Hoff.
  { intros v m Hm Hvx Hvu Hvw. destruct (off_path_node v m Hvw) as [-> _].
    rewrite fold_node_Outputs. by rewrite <- (off_path_inputs c' v m), <- (off_path_outputs c' v m). }
  split.
  - intros v m' (Hv & m & Hm & ->)%(folded_inv M ts HL _ _ _ n bn cn c b d r HP).
    destruct (decide (v = u)) as [->|Hvu]; [|destruct (decide (v = w)) as [->|Hvw]].
    + rewrite Hu in Hm. injection Hm as <-. by apply folded_constant.
    + rewrite Hw in Hm. injection Hm as <-. by apply folded_broadcast.
    + destruct (Hoff v m) as [Hi Ho]; [done..|]. unfold satisfies. rewrite Hi, Ho, fold_node_op.
      destruct (off_path_node v m Hvw) as [_ Hat]. rewrite Hat by done. by eapply Hρ.
  - intros v m' (Hv & m & Hm & ->)%(folded_inv M ts HL _ _ _ n bn cn c b d r HP) Hop.
    rewrite fold_node_op in Hop. destruct (Hoff v m) as [Hi Ho]; [done|done|..].
    + intros ->. rewrite Hu in Hm. injection Hm as <-. rewrite Hn in Hop. set_solver.
    + intros ->. rewrite Hw in Hm. injection Hm as <-. rewrite Hbn in Hop. set_solver.
    + exists m. by rewrite fold_node_op, Hi, Ho.
Qed.
End simulation.
End engine.

(** ** The rule on a graph with one pipeline *)
Section single.
Context `{GoRange} {lit : literals}.

Lemma castValue_total a ot ct : castValue a ot ct ≠ Panic.
Proof.
  assert (∀ ls s e, parse_first ls s e ≠ Panic) as Hp.
  { intros ls s e. induction ls as [|l ls IH]; simpl; [done|]. by destruct (lit_time_Parse l s). }
  destruct a as [a|]; [|done]. unfold castValue. destruct (GetAttrValue a); try done;
    destruct ot; try done; destruct ct; try done; unfold castString.
  - pose proof (ParseInt_total v). by destruct (ParseInt v).
  - by destruct (lit_ParseFloat v).
  - destruct (IsDateString v); [|done]. unfold StringToUnixSec.
    destruct (parse_first _ _ _) eqn:Hf; try done. by apply Hp in Hf.
  - unfold StringToUnixSecWithTimezone.
    destruct (parse_first _ _ _) eqn:Hf; try done. by apply Hp in Hf.
Qed.

(** The graph after one fold. *)
Definition folded_graph (g : Graph) (q : Pipeline) (u w x c b d : nat) (cn : ExecutionNode)
    (attr : Attribute) : Graph :=
  mkGraph [map_Nodes (folded_map u w x b d cn attr) q] (NodeCnt g) (OutputNames g)
    (graph_PartyInfo g)
    (retyped (folded_type (dtype (graph_Tensors g) d)) c b (graph_Tensors g)).

(** A fold happened between two graphs. *)
Definition folds (g g' : Graph) : Prop :=
  ∃ q u w x n bn cn c b d r a attr,
    Pipelines g = [q] ∧ path (Nodes q) u w x n bn cn c b d r
    ∧ Attributes n !! ScalarAttr = Some a
    ∧ castValue (Some a) (dtype (graph_Tensors g) c) (dtype (graph_Tensors g) d) = Ok attr
    ∧ g' = folded_graph g q u w x c b d cn attr.

Lemma upd_nodes_single g q f es :
  Pipelines g = [q] →
  foldl (λ g e, upd_node (To e) f g) g es =
    set_pipelines [map_Nodes (λ N, foldl (λ N e, alter f (To e) N) N es) q] g.
Proof.
  intros Hg. revert g q Hg. induction es as [|e es IH]; intros g q Hg; simpl.
  - destruct g, q. unfold set_pipelines. simpl in *. by subst.
  - by rewrite (IH _ (map_Nodes (alter f (To e)) q)) by (unfold upd_node; simpl; by rewrite Hg).
Qed.

Lemma node_at_single g q v : Pipelines g = [q] →
  node_at g v = match Nodes q !! v with Some n => Ok n | None => Panic end.
Proof. intros Hg. unfold node_at. rewrite Hg. simpl. by destruct (Nodes q !! v). Qed.

Lemma fold_path_single g q u w x n bn cn c b d r attr ct :
  Pipelines g = [q] → linked (Nodes q) (graph_Tensors g) →
  path (Nodes q) u w x n bn cn c b d r → ct = dtype (graph_Tensors g) d →
  fold_path 0 u w x c b d attr ct g = Ok (folded_graph g q u w x c b d cn attr).
Proof.
  intros Hg HL HP ->. unfold fold_path. rewrite (node_at_single _ _ _ Hg), (path_x _ _ _ _ _ _ _ _ _ _ _ HP).
  simpl. set (g1 := upd_node w _ _). set (es := redirect w b <$> Edges cn).
  rewrite (upd_nodes_single g1 (map_Nodes (λ N, alter (set_Edges es) w (alter (set_Edges es) x
    (alter (λ n, set_Attributes (<[ScalarAttr := attr]> (Attributes n)) n) u N))) q))
    by (unfold g1, upd_node; simpl; by rewrite Hg).
  simpl. unfold folded_graph. f_equal. unfold set_pipelines, map_Nodes. simpl. f_equal. f_equal. f_equal.
  by eapply folded_nodes.
Qed.

(** A graph with one pipeline whose nodes are well connected. *)
Definition single (g : Graph) : Prop :=
  ∃ q, Pipelines g = [q] ∧ linked (Nodes q) (graph_Tensors g).

Lemma folds_single g g' : single g → folds g g' → single g'.
Proof.
  intros (q & Hq & HL) (q' & u & w & x & n & bn & cn & c & b & d & r & a & attr & Hq' & HP & _ & _ & ->).
  rewrite Hq in Hq'. injection Hq' as <-. eexists. split; [done|]. simpl. by eapply folded_linked.
Qed.

Lemma out_tensor_single n o : Outputs n = {[ Out := [o] ]} → out_tensor n = Ok o.
Proof. intros Ho. unfold out_tensor. by rewrite Ho, lookup_singleton_eq. Qed.
Lemma graph_tensor_known g t : is_Some (graph_Tensors g !! t) →
  ∃ x, graph_tensor g t = Ok x ∧ DType x = dtype (graph_Tensors g) t.
Proof. intros [x Hx]. exists x. unfold graph_tensor, dtype. by rewrite Hx. Qed.

(** One iteration leaves the graph, folds a path, or stops the compilation. *)
Lemma fold_constant_single g id :
  single g →
  match fold_constant 0 id g with
  | Ok (_, g') => g' = g ∨ folds g g'
  | Err _ => True
  | Panic => False
  end.
Proof.
  intros (q & Hq & HL). unfold fold_constant. rewrite Hq. simpl.
  destruct (Nodes q !! id) as [n|] eqn:Hn; [|by left].
  case_bool_decide as Hop; [|by left]. simpl. destruct (Edges n) as [|e [|? ?]] eqn:Hen; [by left| |by left].
  destruct (linked_edge _ _ HL _ _ e Hn) as (_ & _ & bn & Hbn & _); [rewrite Hen; set_solver|].
  rewrite (node_at_single _ _ _ Hq), Hbn. simpl. case_bool_decide as Hopb; [|by left]. simpl.
  destruct (Edges bn) as [|e' [|? ?]] eqn:Heb; [by left| |by left].
  destruct (linked_edge _ _ HL _ _ e' Hbn) as (_ & _ & cn & Hcn & _); [rewrite Heb; set_solver|].
  rewrite (node_at_single _ _ _ Hq), Hcn. simpl. case_bool_decide as Hopc; [|by left]. simpl.
  destruct (linked_path _ _ _ _ _ _ _ _ _ _ HL Hn Hop Hen eq_refl Hbn Hopb Heb eq_refl Hcn Hopc)
    as (c & b & d & r & HP).
  pose proof HP as [_ _ _ _ _ _ [_ Hno] [_ Hbo] [_ Hco] _ _ _ _].
  rewrite (out_tensor_single _ _ Hno), (out_tensor_single _ _ Hco), (out_tensor_single _ _ Hbo). simpl.
  destruct (graph_tensor_known g c) as (cT & -> & HcT).
  { apply (linked_known _ _ HL id n); [done|]. right. by apply makes_out. }
  destruct (graph_tensor_known g d) as (dT & -> & HdT).
  { apply (linked_known _ _ HL (To e') cn); [done|]. right. by apply makes_out. }
  simpl. destruct (isValidCast _ _); [|done]. simpl. rewrite HcT, HdT.
  destruct (Attributes n !! ScalarAttr) as [a|] eqn:Ha; [|done].
  pose proof (castValue_total (Some a) (dtype (graph_Tensors g) c) (dtype (graph_Tensors g) d)).
  destruct (castValue _ _ _) as [attr| |] eqn:Hc; [|done..]. simpl.
  rewrite (fold_path_single _ _ _ _ _ _ _ _ _ _ _ _ _ _ Hq HL HP eq_refl). simpl. right.
  by exists q, id, (To e), (To e'), n, bn, cn, c, b, d, r, a, attr.
Qed.

Lemma fold_nodes_single g ids :
  single g →
  match fold_nodes 0 ids g with
  | Ok (_, g') => rtc folds g g'
  | Err _ => True
  | Panic => False
  end.
Proof.
  revert g. induction ids as [|id ids IH]; intros g Hg; simpl; [done|].
  pose proof (fold_constant_single g id Hg) as Hs.
  destruct (fold_constant 0 id g) as [[f g1]| |]; simpl; [|done..].
  assert (rtc folds g g1 ∧ single g1) as [Hr Hg1].
  { destruct Hs as [->|Hf]; [done|]. split; [by apply rtc_once|by eapply folds_single]. }
  destruct f; [|done]. specialize (IH g1 Hg1).
  destruct (fold_nodes 0 ids g1) as [[f g2]| |]; [|done..]. by etrans.
Qed.

Lemma Optimize_single g :
  single g →
  match Optimize g with
  | Ok g' => rtc folds g g'
  | Err _ => True
  | Panic => False
  end.
Proof.
  intros Hg. pose proof Hg as (q & Hq & _). unfold Optimize, optimize. rewrite Hq. simpl.
  pose proof (fold_nodes_single g (pipeline_ids g 0) Hg) as Hs.
  destruct (fold_nodes 0 _ g) as [[[] g1]| |]; done.
Qed.

(** *** Built graphs *)
Lemma built_linked p g q :
  Build p = Ok g → good p → Forall shape_ok (all_nodes p) → broadcasts_plain g →
  Pipelines g = [q] → linked (Nodes q) (graph_Tensors g).
Proof.
  intros Hb Hg Hsh Hbr Hq. pose proof (good_single _ Hg) as Hone.
  assert (q ∈ Pipelines g) as Hin by (rewrite Hq; set_solver).
  pose proof Hb as (_ & Hcnt & Hts & _)%Build_Ok.
  assert (∀ u n, Nodes q !! u = Some n → ∃ m, all_nodes p !! u = Some m
    ∧ n = set_Edges (Edges n) (set_node_ID u m)
    ∧ ∀ e, e ∈ Edges n ↔ From e = u ∧ produces p u (edge_Value e) ∧ consumes p (To e) (edge_Value e))
    as Hnode by (intros u n; by apply (graph_wires p g)).
  assert (∀ u m, all_nodes p !! u = Some m → ∃ n, Nodes q !! u = Some n) as Hall.
  { intros u m Hm. destruct (graph_complete p g u Hb) as (q' & Hq' & n & Hn).
    - rewrite Hcnt. by eapply lookup_lt_Some.
    - rewrite Hq, list_elem_of_singleton in Hq'. subst q'. eauto. }
  assert (∀ u n t, Nodes q !! u = Some n → node_makes n t ↔ produces p u t) as Hmk.
  { intros u n t Hn. rewrite produces_makes. destruct (Hnode _ _ Hn) as (m & Hm & -> & _).
    setoid_rewrite Hm. naive_solver. }
  assert (∀ u n t, Nodes q !! u = Some n → node_takes n t ↔ consumes p u t) as Htk.
  { intros u n t Hn. rewrite consumes_takes. destruct (Hnode _ _ Hn) as (m & Hm & -> & _).
    setoid_rewrite Hm. naive_solver. }
  split.
  - intros u n e Hn He. destruct (Hnode _ _ Hn) as (m & Hm & _ & Hes).
    apply Hes in He as (_ & Hpr & Hco). split_and!; [by eapply (good_sequenced _ Hg)|by eapply Hmk|].
    pose proof Hco as (m' & Hm' & _)%consumes_takes. destruct (Hall _ _ Hm') as [n' Hn'].
    exists n'. split; [done|]. by eapply Htk.
  - intros u n v m t Hn Hm Hmt Htt. destruct (Hnode _ _ Hn) as (_ & _ & _ & Hes).
    exists (mkEdge u v t). split; [|done]. apply Hes. split_and!; [done|by eapply Hmk|by eapply Htk].
  - intros u n v m t Hn Hm Hnt Hmt. apply (Hone u v t); by eapply Hmk.
  - intros v m t Hm Ht. eapply Htk in Ht; [|done]. destruct (good_closed _ Hg _ _ Ht) as [u Hu].
    pose proof Hu as (m' & Hm' & _)%produces_makes. destruct (Hall _ _ Hm') as [n' Hn'].
    exists u, n'. split; [done|]. by eapply Hmk.
  - intros u n Hn. destruct (Hnode _ _ Hn) as (m & Hm & -> & _). rewrite Forall_lookup in Hsh.
    by apply (Hsh u m).
  - intros u n t Hn Ht. rewrite Hts. apply (good_args _ Hg u).
    destruct Ht; [left; by eapply Htk|right; by eapply Hmk].
  - intros u n Hn Hop. by apply (Hbr q u n).
  - intros u n r v m Hn Hop Hr Hm Hopm. by eapply (proj2 (Hbr q u n Hin Hn Hop)).
  - intros u n Hn. by destruct (Hnode _ _ Hn) as (m & _ & -> & _).
Qed.

(** *** Any number of folds *)
Lemma single_sorts g : single g → ∃ orders, TopologicalSort g = Ok orders.
Proof.
  intros (q & Hq & HL). unfold TopologicalSort. rewrite Hq. simpl.
  pose proof (sort_pipeline_spec q) as Hs. destruct (sort_pipeline q) as [o|err|]; [by eexists| |done].
  destruct Hs as [_ []]. exists id. intros u v [Hu (e & He & <-)] _.
  apply elem_of_keys in Hu as [n Hn]. unfold edges_of in He. rewrite Hn in He.
  by destruct (linked_edge _ _ HL _ _ _ Hn He).
Qed.

Definition nodes_in (g : Graph) (v : nat) (n : ExecutionNode) : Prop :=
  ∃ q, q ∈ Pipelines g ∧ Nodes q !! v = Some n.

(** Only casts are removed. *)
Definition keeps_others (g g' : Graph) : Prop :=
  ∀ v m, nodes_in g v m → OpType m ≠ OpNameCast →
    ∃ m', nodes_in g' v m' ∧ OpType m' = OpType m ∧ Outputs m' = Outputs m ∧ Parties m' = Parties m.

Lemma folds_others g g' : single g → folds g g' → keeps_others g g'.
Proof.
  intros (q & Hq & HL) (q' & u & w & x & n & bn & cn & c & b & d & r & a & attr & Hq' & HP & _ & _ & ->).
  rewrite Hq in Hq'. injection Hq' as <-. intros v m (q' & Hq' & Hm) Hop.
  rewrite Hq, list_elem_of_singleton in Hq'. subst q'.
  exists (fold_node u w cn b d attr v m). split_and!.
  - eexists. split; [by apply list_elem_of_singleton|]. simpl. eapply folded_intro; [done..|].
    intros ->. rewrite (path_x _ _ _ _ _ _ _ _ _ _ _ HP) in Hm. injection Hm as <-.
    by rewrite (path_cast _ _ _ _ _ _ _ _ _ _ _ HP) in Hop.
  - apply fold_node_op.
  - apply fold_node_Outputs.
  - unfold fold_node. by repeat case_bool_decide.
Qed.

Lemma rtc_folds g g' : rtc folds g g' → single g → single g' ∧ keeps_others g g'.
Proof.
  induction 1 as [g|g g1 g' Hf _ IH]; intros Hg; [by split; [|intros v m; eauto]|].
  destruct (IH (folds_single _ _ Hg Hf)) as [Hs Hk]. split; [done|].
  intros v m Hm Hop. destruct (folds_others _ _ Hg Hf v m Hm Hop) as (m1 & Hm1 & Ho1 & Hp1 & Hq1).
  destruct (Hk v m1 Hm1) as (m' & ? & ? & ? & ?); [by rewrite Ho1|]. exists m'. split_and!; [done|congruence..].
Qed.

Section values.
Context {V : Type}.
Context (run : string → gmap string Attribute → gmap string (list (PrimitiveDataType * V)) →
               gmap string (list (PrimitiveDataType * V)) → Prop).
Context (Hrun : casts_constants run).
Implicit Types (ρ : nat → V).

(** All nodes of a graph. *)
Definition graph_computes (g : Graph) (ρ : nat → V) : Prop :=
  ∀ q, q ∈ Pipelines g → computes run (Nodes q) (graph_Tensors g) ρ.

Definition graph_same (g : Graph) ρ (g' : Graph) ρ' : Prop :=
  ∀ v m', nodes_in g' v m' → OpType m' ∉ [OpNameConstant; OpNameBroadcastTo] →
    ∃ m, nodes_in g v m ∧ OpType m = OpType m'
      ∧ values folded_type (graph_Tensors g) ρ (Inputs m)
        = values folded_type (graph_Tensors g') ρ' (Inputs m')
      ∧ values id (graph_Tensors g) ρ (Outputs m) = values id (graph_Tensors g') ρ' (Outputs m').

Lemma folds_values g g' ρ :
  single g → folds g g' → graph_computes g ρ → ∃ ρ', graph_computes g' ρ' ∧ graph_same g ρ g' ρ'.
Proof.
  intros (q & Hq & HL) (q' & u & w & x & n & bn & cn & c & b & d & r & a & attr & Hq' & HP & Ha & Hc & ->) Hρ.
  rewrite Hq in Hq'. injection Hq' as <-.
  destruct (fold_simulates run _ _ HL _ _ _ _ _ _ _ _ _ _ HP _ _ Ha Hc Hrun ρ) as (ρ' & Hρ' & Hs).
  { apply Hρ. rewrite Hq. set_solver. }
  exists ρ'. split.
  - intros q' ->%list_elem_of_singleton. exact Hρ'.
  - intros v m' (q' & ->%list_elem_of_singleton & Hm') Hop.
    destruct (Hs v m' Hm' Hop) as (m & Hm & ? & ? & ?). exists m. split_and!; [|done..].
    exists q. split; [rewrite Hq; set_solver|done].
Qed.

Lemma rtc_folds_values g g' ρ :
  rtc folds g g' → single g → graph_computes g ρ →
  ∃ ρ', graph_computes g' ρ' ∧ graph_same g ρ g' ρ'.
Proof.
  intros Hr. revert ρ. induction Hr as [g|g g1 g' Hf _ IH]; intros ρ Hg Hρ.
  - exists ρ. split; [done|]. intros v m Hm _. by exists m.
  - destruct (folds_values _ _ _ Hg Hf Hρ) as (ρ1 & Hρ1 & Hs1).
    destruct (IH ρ1 (folds_single _ _ Hg Hf) Hρ1) as (ρ' & Hρ' & Hs'). exists ρ'. split; [done|].
    intros v m' Hm' Hop. destruct (Hs' v m' Hm' Hop) as (m1 & Hm1 & Ho1 & Hi1 & Hu1).
    destruct (Hs1 v m1 Hm1) as (m & Hm & Ho & Hi & Hu); [by rewrite Ho1|].
    exists m. split_and!; [done|congruence..].
Qed.
End values.
End single.

(** ** The optimizer on translated plans *)
Section translated.
Context `{GoRange} {cfg : config} {ex : externals} {lit : literals}.

(** Without batches there is one pipeline, or none. *)
Lemma unbatched_single ln opts t g :
  translate ln opts newTranslator = (t, Ok g) → ep_Batched = false → broadcasts_plain g →
  Pipelines g = [] ∨ single g.
Proof.
  intros Hrun Hnb Hbr. pose proof (translate_reachable _ _ _ _ Hrun) as Hre.
  destruct (translate_graph _ _ _ _ Hrun) as (_ & Hb & Hg & Hok & _).
  assert (batched (plan (converter t)) = false) as Hp.
  { destruct (translate_ext _ _ _ _ Hrun) as [_ He]. by rewrite (ext_batched _ _ _ He). }
  unfold pipelines_ok in Hok. rewrite Hp in Hok.
  pose proof Hb as (w & es & _ & _ & Hlen & _)%graph_pipelines.
  destruct Hok as [E|(nodes & E & _)]; rewrite E in Hlen; simpl in Hlen.
  - left. by apply nil_length_inv.
  - right. destruct (Pipelines g) as [|q [|? ?]] eqn:Hq; [done| |done]. exists q. split; [done|].
    eapply built_linked; [done..|by eapply reachable_shapes|done|done].
Qed.

End translated.

(** ** Examples *)
Module Query.
Import BuildCclSpec.Demo.
#[local] Existing Instance go_range_list.

(** The table [ta] of Alice with a date in every row, joined with [tb] of Bob. *)
Definition a_at : Column := mkColumn (mkFieldType mysql.TypeDatetime 0) 7 "db.ta.at" false.
Definition join : LogicalPlan :=
  Plan (LogicalJoin core.InnerJoin [keys_eq] [] [] []) [a_id; a_at; b_id]
    [Plan (DataSource "db" "ta" 2) [a_id; a_at] []; Plan (DataSource "db" "tb" 1) [b_id] []].
Definition acl : list ColumnControl := mkColumnControl "db" "ta" "at" "alice" Plain :: controls.

Definition day : string := "2025-05-08".
#[export] Instance dates : literals :=
  mkLiterals (λ layout s, if bool_decide (layout = "2006-01-02" ∧ s = day)
                          then Some 1746662400%Z else None)
    (λ _, None) (λ _, 0%Z).
Definition on_day : Expr :=
  EConstant (mkDatum types.KindString 0 day XNone) (mkFieldType mysql.TypeVarString 0).
Definition number (n : Z) : Expr :=
  EConstant (NewIntDatum n) (mkFieldType mysql.TypeLonglong 0).
Definition flag : FieldType := mkFieldType mysql.TypeTiny 0.
Definition out (tp : FieldType) (id : Z) : Column := mkColumn tp id "" false.

(** [SELECT ta.at > '2025-05-08' FROM ta JOIN tb ON ta.id = tb.id] *)
Definition later : LogicalPlan :=
  Plan (LogicalProjection [EScalarFunction ast.GT [EColumn a_at; on_day] flag]) [out flag 8] [join].
(** [SELECT ta.at > '2025-05-08', 1, 2 FROM ...] *)
Definition numbers : LogicalPlan :=
  let tp := mkFieldType mysql.TypeLonglong 0 in
  Plan (LogicalProjection [EScalarFunction ast.GT [EColumn a_at; on_day] flag; number 1; number 2])
    [out flag 8; out tp 9; out tp 10] [join].
(** [SELECT '2025-05-08' < ta.at + 1 FROM ...] *)
Definition shifted : LogicalPlan :=
  Plan (LogicalProjection [EScalarFunction ast.LT
          [on_day; EScalarFunction ast.Plus [EColumn a_at; number 1]
                     (mkFieldType mysql.TypeDatetime 0)] flag]) [out flag 8] [join].

Definition opts (lp : LogicalPlan) : resultOptions :=
  mkResultOptions (match lp with Plan _ cols _ => replicate (length cols) "c" end) None None.
Definition checked (lp : LogicalPlan) : store * res logicalNode :=
  Translate_check info acl "alice" [] 4 0 lp (mkStore [] NewColumnTracer).
Definition ln (lp : LogicalPlan) : logicalNode :=
  match (checked lp).2 with Ok n => n | _ => newNode (LogicalOther "") [] [] [] [] end.
Definition setting (b : bool) (lp : LogicalPlan) : config :=
  mkConfig info "alice" b b false false 0 (heap (checked lp).1).
Definition run (b : bool) (lp : LogicalPlan) : translator * res Graph :=
  let c := setting b lp in
  translate (cfg := c) (ext := TranslateSpec.Example.ex) (ln lp) (opts lp) newTranslator.
Definition graph (b : bool) (lp : LogicalPlan) : Graph :=
  match (run b lp).2 with Ok g => g | _ => mkGraph [] 0 [] (mkPartyInfo []) [] end.
Definition later_graph : Graph := Eval vm_compute in graph false later.
Definition optimized (r : res Graph) : Graph :=
  match r with Ok g => g | _ => mkGraph [] 0 [] (mkPartyInfo []) [] end.
Definition cast_ids (g : Graph) : list nat :=
  Pipelines g ≫= λ p, (filter (λ x, OpType x.2 = OpNameCast) (map_to_list (Nodes p))).*1.

(** An engine on constants: a value is an attribute with its type. *)
Definition engine (op : string) (attrs : gmap string Attribute)
    (ins outs : gmap string (list (PrimitiveDataType * (PrimitiveDataType * Attribute)))) : Prop :=
  (op = OpNameConstant → ∃ a t, attrs !! ScalarAttr = Some a ∧ outs = {[ Out := [(t, (t, a))] ]})
  ∧ (op = OpNameBroadcastTo → ∃ t v r t',
       ins = {[ In := [(t, v)]; "ShapeRefTensor" := [r] ]} ∧ outs = {[ Out := [(t', v)] ]})
  ∧ (op = OpNameCast → ∃ t ot a ct a', ins = {[ In := [(t, (ot, a))] ]}
       ∧ castValue (Some a) ot ct = Ok a' ∧ outs = {[ Out := [(ct, (folded_type ct, a'))] ]}).
Definition tensor_values (t : nat) : PrimitiveDataType * Attribute :=
  if bool_decide (t = 10) then (INT64, SetInt64 1746662400) else (STRING, SetString day).
End Query.
Import Query.


(** ** Witnesses *)
#[local] Existing Instance go_range_list.

Lemma engine_casts : casts_constants engine.
Proof.
  intros attrs a ot ct a' c bt b d battrs r cattrs Ha Hc (Hcst & _) (_ & Hbr & _) (_ & _ & Hca).
  destruct (Hcst eq_refl) as (a1 & t1 & Ha1 & E1). rewrite Ha in Ha1. injection Ha1 as <-.
  apply map_singleton_inj in E1 as [_ [= -> ->]].
  destruct (Hbr eq_refl) as (t2 & v2 & r2 & t2' & Ei & Eo).
  apply map_singleton_inj in Eo as [_ [= -> ->]].
  assert (v2 = (t1, a)) as ->.
  { apply (f_equal (lookup In)) in Ei. rewrite !lookup_insert_eq in Ei. by injection Ei. }
  destruct (Hca eq_refl) as (t3 & ot3 & a3 & ct3 & a3' & Ei3 & Hc3 & Eo3).
  apply map_singleton_inj in Ei3 as [_ [= _ <- <-]]. apply map_singleton_inj in Eo3 as [_ [= <- ->]].
  rewrite Hc in Hc3. injection Hc3 as <-.
  exists (folded_type ct, a'). split.
  - split_and!; [|discriminate..]. intros _. exists a', (folded_type ct).
    by rewrite lookup_insert_eq.
  - split_and!; [discriminate| |discriminate]. intros _. by eexists _, _, _, _.
Qed.

Lemma later_nodes q v m :
  q ∈ Pipelines later_graph → Nodes q !! v = Some m →
  OpType m ∉ folded ∨ v ∈ [5; 6; 7] ∧ node_at later_graph v = Ok m.
Proof.
  intros Hq Hm. assert (∃ q0, Pipelines later_graph = [q0]) as [q0 Hq0].
  { eexists. vm_compute. reflexivity. }
  rewrite Hq0, list_elem_of_singleton in Hq. subst q0.
  assert (forallb (λ q, forallb (λ x, bool_decide (OpType x.2 ∉ folded) || bool_decide (x.1 ∈ [5; 6; 7]))
    (map_to_list (Nodes q))) (Pipelines later_graph) = true) as Hall by (vm_compute; reflexivity).
  rewrite Hq0 in Hall. simpl in Hall. rewrite andb_true_r, forallb_forall in Hall.
  pose proof Hm as Hin. apply elem_of_map_to_list, list_elem_of_In, Hall, orb_true_iff in Hin.
  rewrite !bool_decide_eq_true in Hin. destruct Hin as [?|Hv]; [by left|right].
  split; [done|]. unfold node_at. rewrite Hq0. simpl. by rewrite Hm.
Qed.

Definition later_node (v : nat) : ExecutionNode :=
  match node_at later_graph v with Ok n => n | _ => mkExecutionNode 0 "" "" ∅ ∅ ∅ [] [] end.

Lemma later_computes : graph_computes engine later_graph tensor_values.
Proof.
  intros q Hq v m Hm. destruct (later_nodes q v m Hq Hm) as [Ho|[Hv Hat]].
  { unfold folded in Ho. rewrite !not_elem_of_cons in Ho. split_and!; tauto. }
  assert (m = later_node v) as -> by (unfold later_node; by rewrite Hat). clear q Hq Hm Hat.
  rewrite !elem_of_cons, elem_of_nil in Hv. destruct Hv as [-> | [-> | [-> | []]]].
  - split_and!; [|intros E; vm_compute in E; discriminate E..]. intros _.
    exists (SetString day), STRING. split; vm_compute; reflexivity.
  - split_and!; [intros E; vm_compute in E; discriminate E| |intros E; vm_compute in E; discriminate E].
    intros _. eexists STRING, (STRING, SetString day), _, STRING. split; vm_compute; reflexivity.
  - split_and!; [intros E; vm_compute in E; discriminate E..|]. intros _.
    exists STRING, STRING, (SetString day), DATETIME, (SetInt64 1746662400).
    split_and!; vm_compute; reflexivity.
Qed.

Lemma later_plain : broadcasts_plain later_graph.
Proof.
  intros q v m Hq Hm Hop. destruct (later_nodes q v m Hq Hm) as [Ho|[Hv Hat]].
  { destruct Ho. rewrite Hop. right. left. }
  assert (m = later_node v) as Em by (unfold later_node; by rewrite Hat).
  assert (v = 6) as ->.
  { rewrite !elem_of_cons, elem_of_nil in Hv. destruct Hv as [-> | [-> | [-> | []]]]; [|reflexivity|];
      rewrite Em in Hop; vm_compute in Hop; discriminate Hop. }
  rewrite Em. split; [intros _; exists 9; vm_compute; reflexivity|]. intros r v' m' Hr Hm' Hop' Hmk.
  assert (r = 6) as -> by (vm_compute in Hr; by injection Hr).
  destruct (later_nodes q v' m' Hq Hm') as [Ho|[Hv' Hat']]; [destruct Ho; rewrite Hop'; left|].
  assert (m' = later_node v') as Em' by (unfold later_node; by rewrite Hat').
  rewrite !elem_of_cons, elem_of_nil in Hv'. destruct Hv' as [-> | [-> | [-> | []]]];
    rewrite Em' in Hop', Hmk; [|vm_compute in Hop'; discriminate Hop'..].
  assert (Outputs (later_node 5) = {[ Out := [8] ]}) as Ho by (vm_compute; reflexivity).
  apply (node_makes_single _ _ _ _ Ho), list_elem_of_singleton in Hmk. discriminate Hmk.
Qed.

