(* ===== verification/OptimizerBatched.v ===== *)
(** * The optimizer on graphs of batched plans

    In a batched plan a pipeline has nodes of one streaming type: a constant is never in
    the pipeline of a cast.  The rule of the optimizer removes a cast from the pipeline
    of the constant, where it is not, so that nothing is removed: the cast stays in its
    pipeline without the edge that leads to it. *)
From Stdlib Require Import SpecFloat.
From S2P Require Import Prelude GoInt Sliceutil Operator Ccl Graph GraphBuilder BuilderSpec.
From S2P Require Import StatusConverter Dag DagSpec LogicalNode Translator BuildNode.
From S2P Require Import Strconv Optimizer PlanLogic TranslateSpec OptimizerSpec.
#[local] Open Scope nat_scope.

(** ** One component of all nodes *)
Section project.
Context {A : Type} (π : ExecutionNode → A).

Definition project (g : Graph) : list (gmap nat A) := (λ p, π <$> Nodes p) <$> Pipelines g.

Lemma project_upd f h v g :
  (∀ n, π (f n) = h (π n)) → project (upd_node v f g) = alter h v <$> project g.
Proof.
  intros Hf. unfold project, upd_node. simpl. rewrite <- !list_fmap_compose.
  apply list_fmap_ext. intros i p _. simpl. apply map_eq. intros k. rewrite lookup_fmap.
  destruct (decide (k = v)) as [->|Hk].
  - rewrite !lookup_alter_eq, lookup_fmap. destruct (Nodes p !! v); simpl; [|done]. by rewrite Hf.
  - by rewrite !lookup_alter_ne, lookup_fmap.
Qed.
Lemma alter_same v (ms : list (gmap nat A)) : alter id v <$> ms = ms.
Proof.
  rewrite <- (list_fmap_id ms) at 2. apply list_fmap_ext. intros i m _. apply map_eq. intros k.
  change (id m) with m. destruct (decide (k = v)) as [->|Hk].
  - rewrite lookup_alter_eq. by destruct (m !! v).
  - by rewrite lookup_alter_ne.
Qed.
Lemma project_keep f v g : (∀ n, π (f n) = π n) → project (upd_node v f g) = project g.
Proof. intros Hf. by rewrite (project_upd f id) by done; apply alter_same. Qed.
Lemma project_keep_all f es g :
  (∀ n, π (f n) = π n) → project (foldl (λ g e, upd_node (To e) f g) g es) = project g.
Proof.
  intros Hf. revert g. induction es as [|e es IH]; intros g; simpl; [done|].
  by rewrite IH, project_keep.
Qed.
Lemma project_delete i x g :
  project (set_pipelines (alter (map_Nodes (delete x)) i (Pipelines g)) g)
  = alter (delete x) i (project g).
Proof.
  unfold project. simpl. revert i. induction (Pipelines g) as [|p ps IH]; intros i; [done|].
  destruct i as [|i]; simpl.
  - f_equal. simpl. by rewrite fmap_delete.
  - f_equal. apply IH.
Qed.
Lemma project_tensors ts g : project (set_graph_tensors ts g) = project g.
Proof. done. Qed.

Lemma project_lookup g i m : project g !! i = Some m ↔ ∃ p, Pipelines g !! i = Some p ∧ m = π <$> Nodes p.
Proof. unfold project. rewrite list_lookup_fmap_Some. naive_solver. Qed.
End project.

Section batched.
Context `{GoRange} {lit : literals}.

(** The operator of a node and how many tensors it takes under each name. *)
Definition signature (n : ExecutionNode) : string * gmap string nat :=
  (OpType n, (λ l : list nat, length l) <$> Inputs n).

Lemma signature_replace old new n : signature (replace_input old new n) = signature n.
Proof.
  unfold signature, replace_input. simpl. f_equal. rewrite <- map_fmap_compose.
  apply map_fmap_ext. intros k l _. apply length_fmap.
Qed.

(** What a fold does to the operators and to the edges. *)
Lemma fold_path_project i u w x c b d attr ct g g' :
  fold_path i u w x c b d attr ct g = Ok g' →
  ∃ cn, node_at g x = Ok cn
    ∧ project signature g' = alter (delete x) i (project signature g)
    ∧ project Edges g' = alter (delete x) i
        (alter (λ _, redirect w b <$> Edges cn) w <$>
           (alter (λ _, redirect w b <$> Edges cn) x <$> project Edges g)).
Proof.
  unfold fold_path. intros (cn & Hcn & Hg)%res_bind_Ok. exists cn. split; [done|].
  injection Hg as <-. rewrite !project_delete. split; f_equal.
  - rewrite project_keep_all by apply signature_replace. by rewrite !project_keep.
  - rewrite project_keep_all by done.
    rewrite (project_upd Edges _ (λ _, redirect w b <$> Edges cn)) by done.
    rewrite (project_upd Edges _ (λ _, redirect w b <$> Edges cn)) by done.
    by rewrite project_keep.
Qed.

(** A node is in one pipeline, and no pipeline has both constants and casts. *)
Definition apart (g : Graph) : Prop :=
  (∀ i j m m' v, project signature g !! i = Some m → project signature g !! j = Some m' →
     is_Some (m !! v) → is_Some (m' !! v) → i = j)
  ∧ (∀ i m u x s s', project signature g !! i = Some m → m !! u = Some s → m !! x = Some s' →
       s.1 = OpNameConstant → s'.1 ≠ OpNameCast).

Lemma node_at_project {A} (π : ExecutionNode → A) g v n :
  node_at g v = Ok n → ∃ j m, project π g !! j = Some m ∧ m !! v = Some (π n).
Proof.
  unfold node_at. destruct (head _) as [n'|] eqn:Hh; [|done]. intros [= ->].
  apply head_Some_elem_of, list_elem_of_omap in Hh as (p & Hp & Hn).
  apply list_elem_of_lookup_1 in Hp as [j Hj]. exists j. eexists.
  split; [apply project_lookup; eauto|]. by rewrite lookup_fmap, Hn.
Qed.

(** A fold in a graph whose constants and casts are apart. *)
Definition fold_leaves (g g' : Graph) : Prop :=
  ∃ w x b bn cn e, node_at g w = Ok bn ∧ node_at g x = Ok cn
    ∧ Edges bn = [e] ∧ To e = x ∧ OpType cn = OpNameCast
    ∧ project signature g' = project signature g
    ∧ project Edges g' = alter (λ _, redirect w b <$> Edges cn) w <$>
           (alter (λ _, redirect w b <$> Edges cn) x <$> project Edges g).

Lemma project_absent {A} (π : ExecutionNode → A) g i v :
  (∀ m, project signature g !! i = Some m → m !! v = None) →
  ∀ m, project π g !! i = Some m → m !! v = None.
Proof.
  intros Hs m (p & Hp & ->)%project_lookup.
  assert (project signature g !! i = Some (signature <$> Nodes p)) as Hm%Hs
    by (apply project_lookup; eauto).
  rewrite lookup_fmap, fmap_None. by rewrite lookup_fmap, fmap_None in Hm.
Qed.

Lemma alter_delete_absent {A} (ms : list (gmap nat A)) i x :
  (∀ m, ms !! i = Some m → m !! x = None) → alter (delete x) i ms = ms.
Proof.
  intros Hm. apply list_eq. intros j. destruct (decide (j = i)) as [->|Hj].
  - rewrite list_lookup_alter_eq. destruct (ms !! i) as [m|] eqn:Hi; simpl; [|done].
    by rewrite delete_id by auto.
  - by rewrite list_lookup_alter_ne.
Qed.

Lemma fold_constant_apart i id g f g' :
  apart g → fold_constant i id g = Ok (f, g') → g' = g ∨ fold_leaves g g'.
Proof.
  intros [Hone Hap] Hf. unfold fold_constant in Hf.
  destruct (Pipelines g !! i) as [p|] eqn:Hp; simpl in Hf; [|injection Hf; auto].
  destruct (Nodes p !! id) as [n|] eqn:Hn; [|injection Hf; auto].
  case_bool_decide as Hop; simpl in Hf; [|injection Hf; auto].
  destruct (Edges n) as [|e [|? ?]]; [injection Hf; auto| |injection Hf; auto].
  apply res_bind_Ok in Hf as (bn & Hbn & Hf). case_bool_decide; simpl in Hf; [|injection Hf; auto].
  destruct (Edges bn) as [|e' [|? ?]] eqn:Heb; [injection Hf; auto| |injection Hf; auto].
  apply res_bind_Ok in Hf as (cn & Hcn & Hf). case_bool_decide as Hopc; simpl in Hf; [|injection Hf; auto].
  apply res_bind_Ok in Hf as (c & _ & Hf). apply res_bind_Ok in Hf as (d & _ & Hf).
  apply res_bind_Ok in Hf as (cT & _ & Hf). apply res_bind_Ok in Hf as (dT & _ & Hf).
  destruct (isValidCast _ _); [|done]. simpl in Hf.
  apply res_bind_Ok in Hf as (attr & _ & Hf). apply res_bind_Ok in Hf as (b & _ & Hf).
  apply res_bind_Ok in Hf as (g1 & Hg1 & Hf). injection Hf as _ <-. right.
  apply fold_path_project in Hg1 as (cn' & Hcn' & Hs & He). rewrite Hcn in Hcn'. injection Hcn' as <-.
  assert (∀ m, project signature g !! i = Some m → m !! To e' = None) as Habs.
  { intros m Hm. destruct (m !! To e') as [s|] eqn:Hx; [|done]. exfalso.
    destruct (node_at_project signature _ _ _ Hcn) as (j & m' & Hm' & Hx').
    assert (i = j) as <- by (eapply (Hone i j m m' (To e')); eauto).
    rewrite Hm in Hm'. injection Hm' as <-. pose proof Hm as (p' & Hp' & ->)%project_lookup.
    rewrite Hp in Hp'. injection Hp' as <-.
    by eapply (Hap i _ id (To e') (signature n)); [done|by rewrite lookup_fmap, Hn|done|..]. }
  exists (To e), (To e'), b, bn, cn, e'. split_and!; [done..| |].
  - by rewrite Hs, alter_delete_absent.
  - rewrite He, alter_delete_absent; [done|]. intros m Hm.
    apply list_lookup_fmap_Some in Hm as (m1 & -> & Hm).
    apply list_lookup_fmap_Some in Hm as (m2 & -> & Hm).
    rewrite !lookup_alter_None. by eapply project_absent.
Qed.

(** *** Casts without their input *)

(** No edge leads to [x]. *)
Definition orphan (x : nat) (g : Graph) : Prop :=
  ∀ m v l e, m ∈ project Edges g → m !! v = Some l → e ∈ l → To e ≠ x.

(** The edges of a node after a fold. *)
Lemma fold_leaves_edges w x b (es : list Edge) (ms : list (gmap nat (list Edge))) m v l :
  m ∈ alter (λ _, redirect w b <$> es) w <$> (alter (λ _, redirect w b <$> es) x <$> ms) →
  m !! v = Some l →
  l = redirect w b <$> es ∨ (v ≠ w ∧ ∃ m0, m0 ∈ ms ∧ m0 !! v = Some l).
Proof.
  intros Hm Hv. apply list_elem_of_fmap in Hm as (m1 & -> & Hm).
  apply list_elem_of_fmap in Hm as (m0 & -> & Hm). destruct (decide (v = w)) as [->|Hw].
  - rewrite lookup_alter_eq in Hv. apply fmap_Some in Hv as (? & _ & ->). by left.
  - rewrite lookup_alter_ne in Hv by done. destruct (decide (v = x)) as [->|Hx].
    + rewrite lookup_alter_eq in Hv. apply fmap_Some in Hv as (? & _ & ->). by left.
    + rewrite lookup_alter_ne in Hv by done. right. eauto.
Qed.

Lemma redirect_To w b (es : list Edge) e : e ∈ redirect w b <$> es → ∃ e0, e0 ∈ es ∧ To e = To e0.
Proof. intros (e0 & -> & He0)%list_elem_of_fmap. by exists e0. Qed.

Lemma orphan_fold y g g' : fold_leaves g g' → orphan y g → orphan y g'.
Proof.
  intros (w & x & b & bn & cn & e & _ & Hcn & _ & _ & _ & _ & He) Ho m v l e0 Hm Hv He0.
  rewrite He in Hm. apply (fold_leaves_edges _ _ _ _ _ _ _ _ Hm) in Hv as [->|(_ & m0 & Hm0 & Hv)].
  - apply redirect_To in He0 as (e1 & He1 & ->).
    destruct (node_at_project Edges _ _ _ Hcn) as (j & m1 & Hm1 & Hx).
    eapply Ho; [by eapply list_elem_of_lookup_2|done|done].
  - by eapply Ho.
Qed.

(** A cast has edges from one node only, and none to itself. *)
Definition casts_fed (g : Graph) : Prop :=
  ∀ w bn x cn e, node_at g w = Ok bn → e ∈ Edges bn → To e = x → node_at g x = Ok cn →
    OpType cn = OpNameCast →
    (∀ m v l e, m ∈ project Edges g → m !! v = Some l → e ∈ l → To e = x → v = w)
    ∧ ∀ e, e ∈ Edges cn → To e ≠ x.

Definition has_cast (x : nat) (g : Graph) : Prop :=
  ∃ m s, m ∈ project signature g ∧ m !! x = Some s ∧ s.1 = OpNameCast.

Lemma first_fold g g' : casts_fed g → fold_leaves g g' → ∃ x, has_cast x g' ∧ orphan x g'.
Proof.
  intros Hfed (w & x & b & bn & cn & e & Hbn & Hcn & Heb & HT & Hop & Hs & He).
  destruct (Hfed w bn x cn e) as [Hw Hx]; [done|rewrite Heb; set_solver|done..|]. exists x. split.
  - destruct (node_at_project signature _ _ _ Hcn) as (j & m & Hm & Hxm). exists m, (signature cn).
    rewrite Hs. split_and!; [by eapply list_elem_of_lookup_2|done..].
  - intros m v l e0 Hm Hv He0. rewrite He in Hm.
    apply (fold_leaves_edges _ _ _ _ _ _ _ _ Hm) in Hv as [->|(Hvw & m0 & Hm0 & Hv)].
    + apply redirect_To in He0 as (e1 & He1 & ->). by apply Hx.
    + intros HT0. by apply Hvw, (Hw m0 v l e0).
Qed.

(** *** All folds *)
Definition left_behind (g g' : Graph) : Prop :=
  project signature g' = project signature g
  ∧ (g' = g ∨ ∃ x, has_cast x g' ∧ orphan x g').

Lemma left_behind_fold g0 g g' :
  apart g0 → casts_fed g0 → left_behind g0 g → (g' = g ∨ fold_leaves g g') → left_behind g0 g'.
Proof.
  intros Hap Hfed [Hs Hl] [->|Hf]; [done|].
  assert (project signature g' = project signature g) as Hs'
    by (destruct Hf as (? & ? & ? & ? & ? & ? & _ & _ & _ & _ & _ & ? & _); done).
  split; [by rewrite Hs'|]. right. destruct Hl as [->|(x & (m & s & Hm & Hx & Hop) & Ho)].
  - by apply (first_fold g0).
  - exists x. split; [|by eapply orphan_fold]. exists m, s. by rewrite Hs'.
Qed.

Lemma apart_eq g g' : project signature g' = project signature g → apart g → apart g'.
Proof. unfold apart. by intros ->. Qed.

Lemma Optimize_left g g' : apart g → casts_fed g → Optimize g = Ok g' → left_behind g g'.
Proof.
  intros Hap Hfed. apply (Optimize_ind (left_behind g)); [|by split; [|left]].
  intros i id g1 f g2 Hl Hc. eapply left_behind_fold; [done..|].
  eapply fold_constant_apart; [|exact Hc]. eapply apart_eq; [apply Hl|done].
Qed.

(** *** Built graphs of batched plans *)
Lemma pipelines_from_node cnt pls i q v n :
  pipelines_from cnt pls !! i = Some q → Nodes q !! v = Some n →
  ∃ pl m, pls !! i = Some pl ∧ m ∈ ExecutionNodes pl ∧ n = set_Edges [] (set_node_ID v m).
Proof.
  revert cnt i. induction pls as [|pl pls IH]; intros cnt [|i] Hq Hv; simpl in *; [done|done| |by eapply IH].
  injection Hq as <-. apply node_map_lookup, elem_of_by_id in Hv as (j & m & Hm & -> & ->).
  exists pl, m. split_and!; [done|by eapply list_elem_of_lookup_2|done].
Qed.

Lemma project_node {A} (π : ExecutionNode → A) g i m v a :
  project π g !! i = Some m → m !! v = Some a →
  ∃ q n, Pipelines g !! i = Some q ∧ Nodes q !! v = Some n ∧ a = π n.
Proof.
  intros (q & Hq & ->)%project_lookup Hv. rewrite lookup_fmap in Hv.
  apply fmap_Some in Hv as (n & Hn & ->). eauto.
Qed.

Lemma built_pipeline_type p g i q :
  Build p = Ok g → batched p = true → pipelines_ok p → Pipelines g !! i = Some q →
  ∃ st, ∀ v n, Nodes q !! v = Some n → node_streaming st n.
Proof.
  intros (w & edges & _ & _ & _ & Hps)%graph_pipelines Hbp Hok Hq. unfold pipelines_ok in Hok.
  rewrite Hbp in Hok. destruct Hok as (sts & Hf & _). destruct (Hps _ _ Hq) as (q0 & Hq0 & Hn0).
  destruct (decide (Nodes q0 = ∅)) as [Hemp|(v0 & n0 & Hv0)%map_choose].
  { exists StreamingOp. intros v n Hv. rewrite Hn0, Hemp, fmap_empty, lookup_empty in Hv. done. }
  destruct (pipelines_from_node _ _ _ _ _ _ Hq0 Hv0) as (pl & _ & Hpl & _).
  destruct (Forall2_lookup_r _ _ _ _ _ Hf Hpl) as (st & _ & _ & Hall & _). exists st.
  intros v n Hv. rewrite Hn0, lookup_fmap in Hv. apply fmap_Some in Hv as (n1 & Hn1 & ->).
  destruct (pipelines_from_node _ _ _ _ _ _ Hq0 Hn1) as (pl' & m & Hpl' & Hm & ->).
  rewrite Hpl in Hpl'. injection Hpl' as <-. rewrite Forall_forall in Hall. by apply Hall in Hm.
Qed.

Lemma built_apart p g : Build p = Ok g → batched p = true → pipelines_ok p → apart g.
Proof.
  intros Hb Hbp Hok. split.
  - intros i j m m' v Hm Hm' [s Hs] [s' Hs'].
    destruct (project_node _ _ _ _ _ _ Hm Hs) as (q & n & Hq & Hn & _).
    destruct (project_node _ _ _ _ _ _ Hm' Hs') as (q' & n' & Hq' & Hn' & _).
    apply graph_pipelines in Hb as (w & edges & _ & _ & _ & Hps).
    destruct (Hps _ _ Hq) as (r & Hr & Er), (Hps _ _ Hq') as (r' & Hr' & Er').
    assert (is_Some (Nodes r !! v)) as Hv by (rewrite Er, lookup_fmap in Hn; by destruct (Nodes r !! v)).
    assert (is_Some (Nodes r' !! v)) as Hv' by (rewrite Er', lookup_fmap in Hn'; by destruct (Nodes r' !! v)).
    destruct (Nat.lt_trichotomy i j) as [Hlt|[?|Hlt]]; [|done|].
    + pose proof (pipelines_from_order _ _ _ _ _ _ _ _ Hr Hr' Hv Hv' Hlt). lia.
    + pose proof (pipelines_from_order _ _ _ _ _ _ _ _ Hr' Hr Hv' Hv Hlt). lia.
  - intros i m u x s s' Hm Hs Hs' Hc Hcast.
    destruct (project_node _ _ _ _ _ _ Hm Hs) as (q & n & Hq & Hn & ->).
    destruct (project_node _ _ _ _ _ _ Hm Hs') as (q' & n' & Hq' & Hn' & ->).
    rewrite Hq in Hq'. injection Hq' as <-.
    destruct (built_pipeline_type _ _ _ _ Hb Hbp Hok Hq) as [st Hst].
    destruct (Hst _ _ Hn) as (d & Hd & Ed), (Hst _ _ Hn') as (d' & Hd' & Ed').
    simpl in Hc, Hcast. rewrite Hc in Hd. rewrite Hcast in Hd'.
    assert (∃ c c', FindOpDef OpNameConstant = Ok c ∧ FindOpDef OpNameCast = Ok c'
      ∧ opStreamingType c ≠ opStreamingType c') as (c & c' & Ec & Ec' & Hne).
    { do 2 eexists. split_and!; [vm_compute; reflexivity..|done]. }
    congruence.
Qed.

Lemma node_at_node g v n : node_at g v = Ok n → ∃ q, q ∈ Pipelines g ∧ Nodes q !! v = Some n.
Proof.
  unfold node_at. destruct (head _) as [n'|] eqn:Hh; [|done]. intros [= ->].
  apply head_Some_elem_of, list_elem_of_omap in Hh as (p & Hp & Hn). eauto.
Qed.

Lemma built_fed p g :
  Build p = Ok g → good p → Forall shape_ok (all_nodes p) → casts_fed g.
Proof.
  intros Hb Hg Hsh w bn x cn e Hbn He HT Hcn Hop. pose proof (good_single _ Hg) as Hone.
  apply node_at_node in Hbn as (q & Hq & Hbn). apply node_at_node in Hcn as (q' & Hq' & Hcn).
  destruct (graph_wires _ _ _ _ _ Hb Hone Hq Hbn) as (_ & _ & _ & Hes).
  destruct (graph_wires _ _ _ _ _ Hb Hone Hq' Hcn) as (m' & Hm' & Hcn' & Hes').
  rewrite Forall_lookup in Hsh. destruct (Hsh x m' Hm') as (_ & Hcast & _).
  destruct Hcast as (i & o & Hin & _); [rewrite <- Hop, Hcn'; done|].
  assert (∀ t, consumes p x t → t = i) as Hi.
  { intros t (m & Hm & Ht)%consumes_takes. rewrite Hm' in Hm. injection Hm as <-.
    by apply (node_takes_single _ _ _ _ Hin), list_elem_of_singleton in Ht. }
  apply Hes in He as (_ & Hpr & Hco). rewrite HT in Hco. apply Hi in Hco. split.
  - intros m v l e0 (j & Hj)%list_elem_of_lookup_1 Hv He0 HT0.
    destruct (project_node _ _ _ _ _ _ Hj Hv) as (q0 & n0 & Hq0 & Hn0 & ->).
    apply list_elem_of_lookup_2 in Hq0.
    destruct (graph_wires _ _ _ _ _ Hb Hone Hq0 Hn0) as (_ & _ & _ & Hes0).
    apply Hes0 in He0 as (_ & Hpr0 & Hco0). rewrite HT0 in Hco0. apply Hi in Hco0.
    apply (Hone v w (edge_Value e)); congruence.
  - intros e0 He0 HT0. apply Hes' in He0 as (_ & Hpr0 & Hco0).
    pose proof (good_sequenced _ Hg _ _ _ Hpr0 Hco0). lia.
Qed.

Lemma built_left p g g' :
  Build p = Ok g → batched p = true → pipelines_ok p → good p → Forall shape_ok (all_nodes p) →
  Optimize g = Ok g' → left_behind g g'.
Proof.
  intros Hb Hbp Hok Hg Hsh. apply Optimize_left; [by eapply built_apart|by eapply built_fed].
Qed.

Lemma project_fst {A B} (π : ExecutionNode → B) (σ : ExecutionNode → A) (f : A → B) g :
  (∀ n, π n = f (σ n)) → project π g = (λ m : gmap nat A, f <$> m) <$> project σ g.
Proof.
  intros Hf. unfold project. rewrite <- list_fmap_compose. apply list_fmap_ext. intros i p _. simpl.
  rewrite <- map_fmap_compose. by apply map_fmap_ext.
Qed.

Lemma singleton_args (m : tensor_args) k :
  length <$> m = {[ k := 1 ]} → ∃ t, arg_tensors m = [t].
Proof.
  intros E. assert (∃ l, m = {[ k := l ]} ∧ length l = 1) as (l & -> & Hl).
  { pose proof E as Ek. apply (f_equal (lookup k)) in Ek. rewrite lookup_fmap, lookup_singleton_eq in Ek.
    apply fmap_Some in Ek as (l & Hl & Hlen). exists l. split; [|done]. apply map_eq. intros k'.
    destruct (decide (k' = k)) as [->|Hk]; [by rewrite lookup_singleton_eq|].
    rewrite lookup_singleton_ne by done. apply (f_equal (lookup k')) in E.
    rewrite lookup_fmap, lookup_singleton_ne in E by done. by apply fmap_None in E. }
  destruct l as [|t [|? ?]]; [done| |done]. exists t. unfold arg_tensors.
  assert (go_range ({[ k := [t] ]} : tensor_args) = [(k, [t])]) as ->; [|done].
  apply Permutation_singleton_r. by rewrite go_range_perm, map_to_list_singleton.
Qed.

(** The cast that is left behind still takes its tensor. *)
Lemma cast_node p g g' x :
  Build p = Ok g → Forall shape_ok (all_nodes p) → project signature g' = project signature g →
  has_cast x g' →
  ∃ n, nodes_in g' x n ∧ OpType n = OpNameCast ∧ ∃ i, arg_tensors (Inputs n) = [i].
Proof.
  intros Hb Hsh Hs (m & s & (i & Hm)%list_elem_of_lookup_1 & Hx & Hop).
  destruct (project_node _ _ _ _ _ _ Hm Hx) as (q & n & Hq & Hn & ->). exists n.
  split_and!; [exists q; split; [by eapply list_elem_of_lookup_2|done]|done|].
  rewrite Hs in Hm. destruct (project_node _ _ _ _ _ _ Hm Hx) as (q0 & n0 & Hq0 & Hn0 & E).
  apply list_elem_of_lookup_2 in Hq0.
  destruct (graph_node _ _ _ _ _ Hb Hq0 Hn0) as (m0 & w & Hm0 & E0 & _).
  rewrite Forall_lookup in Hsh. destruct (Hsh _ _ Hm0) as (_ & Hc & _).
  assert (OpType n = OpType n0 ∧ length <$> Inputs n = length <$> Inputs n0) as [Eop Ein]
    by (by injection E).
  destruct Hc as (t & o & Hin & _); [rewrite <- Hop; simpl; by rewrite Eop, E0|].
  rewrite E0 in Ein. simpl in Ein. rewrite Hin, map_fmap_singleton in Ein.
  by apply singleton_args in Ein.
Qed.
End batched.

(** ** Translated plans *)
Section translated.
Context `{GoRange} {cfg : config} {ex : externals} {lit : literals}.

(** C36: on the graph of a batched plan the optimizer removes no node; and when it
    changes the graph at all, some cast, which takes a tensor, is left with no edge
    leading to it, so that nothing makes it wait for its input. *)
Theorem optimize_batched_strands_casts ln opts t g g' :
  translate ln opts newTranslator = (t, Ok g) → ep_Batched = true → Optimize g = Ok g' →
  project OpType g' = project OpType g
  ∧ (g' = g ∨ ∃ x n, nodes_in g' x n ∧ OpType n = OpNameCast
       ∧ (∃ i, arg_tensors (Inputs n) = [i])
       ∧ ∀ v m e, nodes_in g' v m → e ∈ Edges m → To e ≠ x).
Proof.
  intros Hrun Hbt Ho. pose proof (translate_reachable _ _ _ _ Hrun) as Hre%reachable_shapes.
  destruct (translate_graph _ _ _ _ Hrun) as (_ & Hb & Hg & Hok & _).
  destruct (translate_ext _ _ _ _ Hrun) as [_ He]. apply ext_batched in He. simpl in He.
  rewrite Hbt in He. destruct (built_left _ _ _ Hb He Hok Hg Hre Ho) as [Hs Hl]. split.
  - by rewrite !(project_fst OpType signature fst), Hs.
  - destruct Hl as [->|(x & Hc & Hor)]; [by left|right]. exists x.
    destruct (cast_node _ _ _ _ Hb Hre Hs Hc) as (n & Hn & Hop & Hi). exists n.
    split_and!; [done..|]. intros v m e (q & Hq & Hv) He' HT.
    apply list_elem_of_lookup_1 in Hq as [j Hj].
    eapply (Hor (Edges <$> Nodes q) v (Edges m) e); [|by rewrite lookup_fmap, Hv|done..].
    eapply list_elem_of_lookup_2, project_lookup. eauto.
Qed.
End translated.

(** ** Witness *)
Import OptimizerSpec.Query.
#[local] Existing Instance go_range_list.

Definition shifted_graph : Graph := Eval vm_compute in graph true shifted.
Definition shifted_optimized : Graph := Eval vm_compute in optimized (Optimize shifted_graph).

(** In [SELECT '2025-05-08' < ta.at + 1 FROM ...] the cast 12 is scheduled before the
    broadcast 11 that makes its input. *)
Lemma optimize_batched_strands_casts_witness :
  Optimize shifted_graph = Ok shifted_optimized
  ∧ (λ p, Inputs <$> Nodes p !! 12) <$> Pipelines shifted_optimized !! 3
    = Some (Some {[ In := [15] ]})
  ∧ (λ p, Outputs <$> Nodes p !! 11) <$> Pipelines shifted_optimized !! 3
    = Some (Some {[ Out := [15] ]})
  ∧ (match TopologicalSort shifted_optimized with Ok o => o !! 3 | _ => None end)
    = Some [9; 12; 10; 11; 13]
  ∧ ∃ x n, nodes_in shifted_optimized x n ∧ OpType n = OpNameCast
       ∧ (∃ i, arg_tensors (Inputs n) = [i])
       ∧ ∀ v m e, nodes_in shifted_optimized v m → e ∈ Edges m → To e ≠ x.
Proof.
  pose proof (optimize_batched_strands_casts (cfg := setting true shifted)
    (ex := TranslateSpec.Example.ex) (ln shifted) (opts shifted) (run true shifted).1
    shifted_graph shifted_optimized) as Hs.
  assert (Optimize shifted_graph = Ok shifted_optimized) as Ho by (vm_compute; reflexivity).
  destruct Hs as [_ [E|Hs]].
  - vm_compute. reflexivity.
  - reflexivity.
  - exact Ho.
  - exfalso. apply (f_equal (λ g, (λ p, Edges <$> Nodes p !! 12) <$> Pipelines g !! 3)) in E.
    vm_compute in E. discriminate E.
  - split; [exact Ho|]. split; [vm_compute; reflexivity|]. split; [vm_compute; reflexivity|].
    split; [vm_compute; reflexivity|exact Hs].
Defined.
