(* ===== verification/Graphviz.v ===== *)
(** * Printing graphs (execution_node.go, tensor.go, attribute.go, graph.go)

    [DumpGraphviz] prints a graph; the checksum of a compiled plan is taken of this
    text, so that the parties of a query compare what they have compiled.  The text
    does not depend on the order in which Go visits maps, nor on the order of edges.

    A tensor is named by its position, which is its ID; [print_float32] and
    [print_float64] are the shortest decimal forms that [fmt] prints. *)
From Stdlib Require Import SpecFloat.
From S2P Require Import Prelude Sliceutil Operator Ccl Graph GraphBuilder BuilderSpec Dag DagSpec.
From S2P Require Import Strconv.
#[local] Open Scope nat_scope.

Class printing := mkPrinting {
  print_float32 : spec_float → string;
  print_float64 : spec_float → string;
}.

Definition Concat (l : list string) : string := Join l EmptyString.
Definition quote : string := String (Ascii.ascii_of_nat 34) EmptyString.
Definition newline : string := String (Ascii.ascii_of_nat 10) EmptyString.
Definition Itoa (n : nat) : string := FormatInt (Z.of_nat n).

Section graphviz.
Context `{GoRange} {pr : printing}.

(** *** [fmt.Fprint] of the value of an attribute; a slice is printed in brackets *)
Definition Fprint_slice {A} (f : A → string) (l : list A) : string :=
  "[" +:+ Join (f <$> l) " " +:+ "]".
Definition Fprint (v : AttrValue) : string :=
  match v with
  | AVnil => "<nil>"
  | AVstring v => v
  | AVstrings v => Fprint_slice id v
  | AVbool v => FormatBool v
  | AVbools v => Fprint_slice FormatBool v
  | AVint32 v | AVint64 v => FormatInt v
  | AVint32s v | AVint64s v => Fprint_slice FormatInt v
  | AVfloat v => print_float32 v
  | AVfloats v => Fprint_slice print_float32 v
  | AVdouble v => print_float64 v
  | AVdoubles v => Fprint_slice print_float64 v
  end.

Definition Attribute_ToString (attr : Attribute) : string := Fprint (GetAttrValue attr).

(** [TensorStatus_name] and [PrimitiveDataType_name] *)
Definition TensorStatus_name (s : TensorStatus) : string :=
  match s with
  | TENSORSTATUS_UNKNOWN => "TENSORSTATUS_UNKNOWN"
  | TENSORSTATUS_PRIVATE => "TENSORSTATUS_PRIVATE"
  | TENSORSTATUS_SECRET => "TENSORSTATUS_SECRET"
  | TENSORSTATUS_CIPHER => "TENSORSTATUS_CIPHER"
  | TENSORSTATUS_PUBLIC => "TENSORSTATUS_PUBLIC"
  end.
Definition PrimitiveDataType_name (t : PrimitiveDataType) : string :=
  match t with
  | UNDEFINED => "PrimitiveDataType_UNDEFINED"
  | INT8 => "INT8"
  | INT16 => "INT16"
  | INT32 => "INT32"
  | INT64 => "INT64"
  | FLOAT32 => "FLOAT32"
  | FLOAT64 => "FLOAT64"
  | BOOL => "BOOL"
  | STRING => "STRING"
  | DATETIME => "DATETIME"
  | TIMESTAMP => "TIMESTAMP"
  end.

Definition ToBriefString (t : Tensor) : string :=
  "t_" +:+ Itoa (ID t) +:+ ":{" +:+ shortName (tensor_Name t) +:+ ":"
    +:+ ShortStatus (TensorStatus_name (tensor_status t)) +:+ ":"
    +:+ PrimitiveDataType_name (DType t) +:+ "}".
Definition Tensor_ToString (t : Tensor) : string := ToBriefString t.

(** *** Nodes *)

(** The keys of a map are collected and sorted, and the values are looked up. *)
Definition args_ToString (m : tensor_args) : string :=
  Concat ((λ k, k +:+ ":{"
             +:+ Concat ((λ t, "t_" +:+ Itoa t +:+ ",") <$> default [] (m !! k)) +:+ "},")
          <$> go_sort (go_range m).*1).
Definition attrs_ToString (m : gmap string Attribute) : string :=
  Concat ((λ k, if bool_decide (k = FuncOptAttr) then EmptyString
                else k +:+ ":" +:+ Attribute_ToString (default (mkAttribute None) (m !! k)) +:+ ",")
          <$> go_sort (go_range m).*1).

Definition ToString (node : ExecutionNode) : string :=
  node_Name node +:+ ":{" +:+ "in:[" +:+ args_ToString (Inputs node) +:+ "],"
    +:+ "out:[" +:+ args_ToString (Outputs node) +:+ "],"
    +:+ "attr:[" +:+ attrs_ToString (Attributes node) +:+ "],"
    +:+ "party:[" +:+ Concat ((λ p, p +:+ ",") <$> Parties node) +:+ "]" +:+ "}".

(** The label of a graph holds a backslash and an l. *)
Definition backslash : string := String (Ascii.ascii_of_nat 92) EmptyString.
Definition Node_ToBriefString (node : ExecutionNode) : string :=
  node_Name node +:+ backslash +:+ "l[" +:+ Concat ((λ p, p +:+ ",") <$> Parties node) +:+ "]".

(** *** Graphs *)
Fixpoint convertToSingleQuote (s : string) : string :=
  match s with
  | EmptyString => EmptyString
  | String c s =>
      String (if Ascii.eqb c (Ascii.ascii_of_nat 34) then Ascii.ascii_of_nat 39 else c)
        (convertToSingleQuote s)
  end.

(** [sort.Slice] by ID *)
Definition before (n m : ExecutionNode) : Prop := node_ID n ≤ node_ID m.
#[global] Instance before_dec : RelDecision before.
Proof. unfold before. solve_decision. Defined.
Definition sorted_graph_nodes (g : Graph) : list ExecutionNode :=
  merge_sort before (Pipelines g ≫= λ p, (go_range (Nodes p)).*2).

Definition edge_line (edgeValueLabeler : Tensor → string) (g : Graph) (e : Edge) : string :=
  Itoa (From e) +:+ " -> " +:+ Itoa (To e) +:+ " [label = " +:+ quote
    +:+ convertToSingleQuote (from_option edgeValueLabeler EmptyString (graph_Tensors g !! edge_Value e))
    +:+ quote +:+ "]" +:+ newline.

Definition DumpGraphvizBase (nodeLabeler : ExecutionNode → string)
    (edgeValueLabeler : Tensor → string) (g : Graph) : string :=
  let nodes := sorted_graph_nodes g in
  let all := edge_line edgeValueLabeler g <$> (nodes ≫= Edges) in
  "digraph G {" +:+ newline
    +:+ Concat ((λ n, Itoa (node_ID n) +:+ " [label=" +:+ quote
                        +:+ convertToSingleQuote (nodeLabeler n) +:+ quote +:+ "]" +:+ newline) <$> nodes)
    +:+ Concat (go_sort all) +:+ "}".

Definition DumpGraphviz (g : Graph) : string := DumpGraphvizBase ToString Tensor_ToString g.
Definition DumpBriefGraphviz (g : Graph) : string :=
  DumpGraphvizBase Node_ToBriefString ToBriefString g.

(** *** Pipelines and plans *)
Definition tensor_ids (ts : list nat) : list string := go_sort ((λ t, "t_" +:+ Itoa t) <$> ts).
Definition pipeline_text (i : nat) (p : Pipeline) : string :=
  let nodes := merge_sort before (go_range (Nodes p)).*2 in
  "pipeline " +:+ Itoa i +:+ " {" +:+ newline
    +:+ "Batched: " +:+ FormatBool (pl_Batched p) +:+ newline
    +:+ "node: " +:+ Fprint_slice (λ n, node_Name n +:+ "_" +:+ Itoa (node_ID n)) nodes +:+ newline
    +:+ "Inputs: " +:+ Fprint_slice id (tensor_ids (InputTensors p)) +:+ newline
    +:+ "Outputs: " +:+ Fprint_slice id (tensor_ids (OutputTensors p)) +:+ newline
    +:+ "}" +:+ newline.
Definition DumpBriefPipeline (g : Graph) : string :=
  newline +:+ Concat (imap pipeline_text (Pipelines g)).

Definition GraphBuilder_ToString (plan : GraphBuilder) : string :=
  "execution plan:{"
    +:+ Concat ((λ n, ToString n +:+ ",") <$> (PipelineExeNodes plan ≫= ExecutionNodes))
    +:+ Concat ((λ t, Tensor_ToString t +:+ ",") <$> Tensors plan) +:+ "}".
End graphviz.

(** ** The text does not depend on the order of maps and edges *)
Definition bare (n : ExecutionNode) : ExecutionNode := set_Edges [] n.
Definition node_eq (n n' : ExecutionNode) : Prop := bare n = bare n' ∧ Edges n ≡ₚ Edges n'.
Definition pipeline_eq (p p' : Pipeline) : Prop :=
  ∀ k, option_Forall2 node_eq (Nodes p !! k) (Nodes p' !! k).

(** The same graph, but for the order of the edges of a node. *)
Definition graph_eq (g g' : Graph) : Prop :=
  Forall2 pipeline_eq (Pipelines g) (Pipelines g') ∧ graph_Tensors g = graph_Tensors g'.

(** No ID is given twice. *)
Definition graph_nodes_of (g : Graph) : list ExecutionNode :=
  Pipelines g ≫= λ p, (map_to_list (Nodes p)).*2.
Definition ids_unique (g : Graph) : Prop := NoDup (node_ID <$> graph_nodes_of g).

Lemma go_sort_keys (r r' : GoRange) {A} (m : gmap string A) :
  go_sort (go_range (GoRange := r) m).*1 = go_sort (go_range (GoRange := r') m).*1.
Proof. apply go_sort_proper. by rewrite !go_range_perm. Qed.

Lemma ToString_order (r r' : GoRange) {pr : printing} n :
  ToString (H := r) n = ToString (H := r') n.
Proof.
  unfold ToString, args_ToString, attrs_ToString.
  by rewrite !(go_sort_keys r r' (A := list nat)), (go_sort_keys r r' (Attributes n)).
Qed.

Lemma ToString_bare `{GoRange} {pr : printing} n : ToString (bare n) = ToString n.
Proof. done. Qed.

Lemma pipeline_eq_nodes p p' :
  pipeline_eq p p' →
  ∃ l, Forall2 node_eq (map_to_list (Nodes p)).*2 l ∧ l ≡ₚ (map_to_list (Nodes p')).*2.
Proof.
  intros Hp. set (f := λ x : nat * ExecutionNode, pair x.1 <$> Nodes p' !! x.1).
  exists (omap f (map_to_list (Nodes p))).*2. split.
  - assert (∀ x, x ∈ map_to_list (Nodes p) → Nodes p !! x.1 = Some x.2) as Hin.
    { intros [k n]. by rewrite elem_of_map_to_list. }
    revert Hin. generalize (map_to_list (Nodes p)) as l. induction l as [|[k n] l IH]; intros Hin; [constructor|].
    pose proof (Hin (k, n) ltac:(left)) as Hk. simpl in Hk. specialize (Hp k). rewrite Hk in Hp.
    inversion Hp as [? n' Hn|]; subst. simpl. unfold f at 1. simpl.
    replace (Nodes p' !! k) with (Some n'). simpl. constructor; [done|].
    apply IH. intros x Hx. apply Hin. by right.
  - apply fmap_Permutation, NoDup_Permutation; [|apply NoDup_map_to_list|].
    + pose proof (NoDup_fst_map_to_list (Nodes p)) as Hnd. revert Hnd.
      generalize (map_to_list (Nodes p)) as l. induction l as [|[k n] l IH]; simpl; [constructor|].
      intros [Hk Hnd]%NoDup_cons. unfold f at 1. simpl. destruct (Nodes p' !! k) as [n'|]; simpl; [|by apply IH].
      constructor; [|by apply IH]. intros ([k0 n0] & Hin & E)%list_elem_of_omap. unfold f in E. simpl in E.
      apply fmap_Some in E as (? & _ & [= -> _]). apply Hk. by eapply (list_elem_of_fmap_2 fst l (k0, n0)).
    + intros [k n']. rewrite list_elem_of_omap, elem_of_map_to_list. split.
      * intros ([k0 n0] & _ & E). unfold f in E. simpl in E. by apply fmap_Some in E as (? & ? & [= -> ->]).
      * intros Hk. specialize (Hp k). rewrite Hk in Hp. inversion Hp as [n ? Hn E|]; subst.
        exists (k, n). rewrite elem_of_map_to_list. split; [done|]. unfold f. simpl. by rewrite Hk.
Qed.

Lemma graph_eq_nodes g g' :
  graph_eq g g' → ∃ l, Forall2 node_eq (graph_nodes_of g) l ∧ l ≡ₚ graph_nodes_of g'.
Proof.
  intros [Hps _]. unfold graph_nodes_of. induction Hps as [|p p' ps ps' Hp _ (l & Hl & Hl')]; [by exists []|].
  destruct (pipeline_eq_nodes p p' Hp) as (k & Hk & Hk'). exists (k ++ l). simpl.
  split; [by apply Forall2_app|]. by rewrite Hk', Hl'.
Qed.

Lemma sorted_nodes_perm `{GoRange} g : sorted_graph_nodes g ≡ₚ graph_nodes_of g.
Proof.
  unfold sorted_graph_nodes, graph_nodes_of. rewrite merge_sort_Permutation.
  induction (Pipelines g) as [|p ps IH]; simpl; [done|]. by rewrite IH, go_range_perm.
Qed.

#[local] Instance before_trans : Transitive before.
Proof. intros a b c. unfold before. lia. Qed.
#[local] Instance before_total : Total before.
Proof. intros a b. unfold before. lia. Qed.

(** Sorting by unique IDs leaves no choice. *)
Lemma bare_sorted (l l' : list ExecutionNode) :
  StronglySorted before l → StronglySorted before l' →
  NoDup (node_ID <$> l) → (bare <$> l) ≡ₚ (bare <$> l') → bare <$> l = bare <$> l'.
Proof.
  intros Hl Hl' Hnd Hp.
  assert (∀ k, StronglySorted before k → StronglySorted before (bare <$> k)) as Hb.
  { induction 1 as [|n k Hk IH Hn]; simpl; constructor; [done|]. by apply Forall_fmap. }
  apply (StronglySorted_unique_strong before); [|by apply Hb..|done].
  intros x y Hx Hy Hxy Hyx. assert (node_ID x = node_ID y) as E by (unfold before in *; lia).
  rewrite <- Hp in Hy. apply list_elem_of_fmap in Hx as (n & -> & (i & Hi)%list_elem_of_lookup_1).
  apply list_elem_of_fmap in Hy as (m & -> & (j & Hj)%list_elem_of_lookup_1).
  enough (i = j) as -> by (rewrite Hi in Hj; by injection Hj as ->).
  apply (NoDup_lookup (node_ID <$> l) i j (node_ID n)); [done|by rewrite list_lookup_fmap, Hi|].
  rewrite list_lookup_fmap, Hj. simpl. f_equal. symmetry. exact E.
Qed.

Lemma node_eq_bare l l' : Forall2 node_eq l l' → bare <$> l = bare <$> l'.
Proof. induction 1 as [|n n' l l' [E _] _ IH]; [done|]. by rewrite !fmap_cons, E, IH. Qed.
Lemma node_eq_edges l l' : Forall2 node_eq l l' → l ≫= Edges ≡ₚ l' ≫= Edges.
Proof. induction 1 as [|n n' l l' [_ E] _ IH]; simpl; [done|]. by rewrite E, IH. Qed.

Lemma dump_base (r r' : GoRange) label label' elabel g g' :
  graph_eq g g' → ids_unique g →
  (∀ n, label (bare n) = label n) → (∀ n, label' (bare n) = label n) → (∀ n, label' (bare n) = label' n) →
  DumpGraphvizBase (H := r) label elabel g = DumpGraphvizBase (H := r') label' elabel g'.
Proof.
  intros Hg Hu Hb Hb' Hb''. destruct (graph_eq_nodes g g' Hg) as (l & Hl & Hl').
  assert (bare <$> sorted_graph_nodes (H := r) g = bare <$> sorted_graph_nodes (H := r') g') as E.
  { apply bare_sorted; [apply (StronglySorted_merge_sort _)..| |].
    - unfold ids_unique in Hu. by rewrite (sorted_nodes_perm (H := r) g).
    - rewrite (sorted_nodes_perm (H := r) g), (sorted_nodes_perm (H := r') g'), <- Hl'.
      by rewrite (node_eq_bare _ _ Hl). }
  unfold DumpGraphvizBase. f_equal. f_equal. f_equal; [f_equal|].
  - transitivity ((λ n, Itoa (node_ID n) +:+ " [label=" +:+ quote +:+ convertToSingleQuote (label n)
      +:+ quote +:+ "]" +:+ newline) <$> (bare <$> sorted_graph_nodes (H := r) g)).
    + rewrite <- list_fmap_compose. apply list_fmap_ext. intros i n _. simpl. by rewrite Hb.
    + rewrite E, <- list_fmap_compose. apply list_fmap_ext. intros i n _. simpl.
      by rewrite Hb, <- Hb', Hb''.
  - f_equal. f_equal. apply go_sort_proper. destruct Hg as [_ Ht]. unfold edge_line. rewrite Ht.
    apply fmap_Permutation. rewrite (sorted_nodes_perm (H := r) g), (sorted_nodes_perm (H := r') g').
    by rewrite (node_eq_edges _ _ Hl), Hl'.
Qed.

(** ** The text of a built graph *)
Section built.
Context `{GoRange}.

(** One entry of the consumers of [t] for every time a node takes it. *)
Definition takers (t : nat) (x : nat * ExecutionNode) : list nat :=
  (λ _, x.1) <$> filter (λ t', t' = t) (arg_tensors (Inputs x.2)).

Lemma add_inputs_takers id ts w t :
  default [] (inputTensorTo (foldl (add_input id) w ts) !! t)
  = default [] (inputTensorTo w !! t) ++ ((λ _, id) <$> filter (λ t', t' = t) ts).
Proof.
  revert w. induction ts as [|t' ts IH]; intros w; simpl; [by rewrite app_nil_r|].
  rewrite IH, filter_cons. simpl. destruct (decide (t' = t)) as [->|Hne].
  - rewrite lookup_insert_eq. simpl. by rewrite <- app_assoc.
  - by rewrite lookup_insert_ne.
Qed.

Lemma wire_nodes_takers ns w t :
  default [] (inputTensorTo (foldl wire_node w ns) !! t)
  = default [] (inputTensorTo w !! t) ++ (ns ≫= takers t).
Proof.
  revert w. induction ns as [|[id n] ns IH]; intros w; simpl; [by rewrite app_nil_r|].
  rewrite IH. destruct (add_outputs_spec id (arg_tensors (Outputs n))
    (foldl (add_input id) w (arg_tensors (Inputs n)))) as (-> & _).
  by rewrite add_inputs_takers, <- app_assoc.
Qed.

Definition build_wiring (plan : GraphBuilder) : wiring :=
  (foldl build_pipeline (0, [], mkWiring ∅ ∅ ∅) (PipelineExeNodes plan)).2.

Lemma pipelines_takers pls cnt ps w t :
  default [] (inputTensorTo (foldl build_pipeline (cnt, ps, w) pls).2 !! t)
  ≡ₚ default [] (inputTensorTo w !! t)
     ++ (by_id (number_nodes cnt (pls ≫= ExecutionNodes)) ≫= takers t).
Proof.
  revert cnt ps w. induction pls as [|p pls IH]; intros cnt ps w; simpl; [by rewrite app_nil_r|].
  rewrite IH, wire_nodes_takers. unfold by_id. rewrite number_nodes_app, fmap_app, bind_app.
  rewrite <- app_assoc. apply Permutation_app_head, Permutation_app; [|done].
  fold (by_id (number_nodes cnt (ExecutionNodes p))). by rewrite go_range_node_map.
Qed.

Lemma Build_edges plan g :
  Build plan = Ok g →
  let w := build_wiring plan in
  plan_wiring plan w
  ∧ (∀ t, default [] (inputTensorTo w !! t) ≡ₚ by_id (number_nodes 0 (all_nodes plan)) ≫= takers t)
  ∧ ∃ edges, mapM (tensor_edges w) (go_range (tensorId2Tensor w)).*1 = Ok edges
    ∧ Nodes <$> Pipelines g
      = (λ p, attach_edges (mjoin edges) <$> Nodes p) <$> pipelines_from 0 (PipelineExeNodes plan).
Proof.
  intros Hb w. pose proof (build_fold (PipelineExeNodes plan) 0 [] _ _ wired_nil) as Hf.
  pose proof (pipelines_takers (PipelineExeNodes plan) 0 [] (mkWiring ∅ ∅ ∅)) as Ht.
  unfold w, build_wiring in *. unfold Build in Hb.
  destruct (foldl build_pipeline _ _) as [[cnt ps] w']. simpl in *.
  destruct Hf as (-> & -> & Hw). split; [exact Hw|]. split; [exact Ht|].
  apply res_bind_Ok in Hb as (edges & He & Hb). exists edges. split; [done|].
  apply res_bind_Ok in Hb as (ps & Hps & [= <-]). simpl.
  destruct (batched plan); [|injection Hps as <-; by rewrite <- list_fmap_compose].
  apply FillPipeline_Ok in Hps as [Hl Hps]. apply list_eq. intros i. rewrite !list_lookup_fmap.
  destruct (ps !! i) as [q|] eqn:Hq.
  - destruct (Hps i q Hq) as (p & Hp & Hn & _). rewrite list_lookup_fmap in Hp.
    destruct (pipelines_from 0 _ !! i) as [p0|]; [|done]. simpl in *. injection Hp as <-. by rewrite Hn.
  - apply lookup_ge_None in Hq. rewrite Hl, length_fmap in Hq.
    by rewrite (proj2 (lookup_ge_None _ i)).
Qed.

(** The edges of one tensor. *)
Definition edges_for (w : wiring) (t : nat) : list Edge :=
  match outputTensorFrom w !! t with
  | Some from => (λ to, mkEdge from to t) <$> default [] (inputTensorTo w !! t)
  | None => []
  end.

Lemma tensor_edges_for w t es :
  tensor_edges w t = Ok es →
  es = edges_for w t ∧ (default [] (inputTensorTo w !! t) ≠ [] → is_Some (outputTensorFrom w !! t)).
Proof.
  unfold tensor_edges, edges_for.
  destruct (default [] (inputTensorTo w !! t)), (outputTensorFrom w !! t); by intros [= <-].
Qed.

Lemma mapM_edges w ts edges :
  mapM (tensor_edges w) ts = Ok edges →
  mjoin edges = ts ≫= edges_for w
  ∧ ∀ t, t ∈ ts → default [] (inputTensorTo w !! t) ≠ [] → is_Some (outputTensorFrom w !! t).
Proof.
  intros Hm%mapM_res_Ok. induction Hm as [|t es ts edges Ht _ [IH IH']]; [set_solver|].
  apply tensor_edges_for in Ht as [-> Ht]. simpl. rewrite IH. split; [done|].
  intros t' [->|Hin]%elem_of_cons; auto.
Qed.
End built.

Lemma bind_support {A B} `{EqDecision B} (K K' : list A) (E E' : A → list B) :
  NoDup K → NoDup K' → (∀ t, E t ≠ [] → t ∈ K ∧ t ∈ K') → (∀ t, E t ≡ₚ E' t) →
  K ≫= E ≡ₚ K' ≫= E'.
Proof.
  intros HK HK' Hs HE.
  assert (∀ l, l ≫= E = filter (λ t, E t ≠ []) l ≫= E) as Hfil.
  { induction l as [|t l IH]; [done|]. rewrite filter_cons. destruct (decide (E t ≠ [])) as [Hd|Hd]; csimpl.
    - by rewrite IH.
    - apply dec_stable in Hd. by rewrite Hd. }
  assert (K' ≫= E' ≡ₚ K' ≫= E) as ->.
  { clear -HE. induction K' as [|t K' IH]; [done|]. csimpl. by rewrite IH, HE. }
  rewrite (Hfil K), (Hfil K').
  assert (filter (λ t, E t ≠ []) K ≡ₚ filter (λ t, E t ≠ []) K') as ->; [|done].
  apply NoDup_Permutation; [by apply NoDup_filter..|]. intros t. rewrite !list_elem_of_filter. naive_solver.
Qed.

Section two_orders.
Context (r r' : GoRange).

Lemma arg_tensors_order m : arg_tensors (H := r) m ≡ₚ arg_tensors (H := r') m.
Proof. unfold arg_tensors. by rewrite !go_range_perm. Qed.
Lemma takers_order t x : takers (H := r) t x ≡ₚ takers (H := r') t x.
Proof. unfold takers. by rewrite arg_tensors_order. Qed.
Lemma produces_order plan u t : produces (H := r) plan u t ↔ produces (H := r') plan u t.
Proof. unfold produces. by setoid_rewrite arg_tensors_order. Qed.

Lemma all_takers_order (l : list (nat * ExecutionNode)) t :
  l ≫= takers (H := r) t ≡ₚ l ≫= takers (H := r') t.
Proof. induction l as [|x l IH]; [done|]. csimpl. by rewrite IH, takers_order. Qed.

Lemma built_edges_order plan edges edges' :
  let w := build_wiring (H := r) plan in
  let w' := build_wiring (H := r') plan in
  single_producer (H := r) plan → plan_wiring (H := r) plan w → plan_wiring (H := r') plan w' →
  (∀ t, default [] (inputTensorTo w !! t) ≡ₚ default [] (inputTensorTo w' !! t)) →
  mapM (tensor_edges w) (go_range (GoRange := r) (tensorId2Tensor w)).*1 = Ok edges →
  mapM (tensor_edges w') (go_range (GoRange := r') (tensorId2Tensor w')).*1 = Ok edges' →
  mjoin edges ≡ₚ mjoin edges'.
Proof.
  intros w w' Hone Hw Hw' Hto [-> Hf]%mapM_edges [-> Hf']%mapM_edges.
  assert (∀ t, default [] (inputTensorTo w !! t) ≠ [] →
    t ∈ (go_range (GoRange := r) (tensorId2Tensor w)).*1
    ∧ t ∈ (go_range (GoRange := r') (tensorId2Tensor w')).*1) as Hk.
  { intros t Hne. split; apply elem_of_keys_go_range.
    - destruct (default [] (inputTensorTo w !! t)) as [|v l] eqn:E; [done|].
      apply (wired_known _ _ Hw t v). rewrite E. left.
    - destruct (default [] (inputTensorTo w' !! t)) as [|v l] eqn:E.
      { destruct Hne. apply Permutation_nil_r. by rewrite Hto, E. }
      apply (wired_known _ _ Hw' t v). rewrite E. left. }
  apply bind_support; [apply NoDup_fst_go_range..| |].
  - intros t Ht. apply Hk. intros E. apply Ht. unfold edges_for. rewrite E. by destruct (outputTensorFrom w !! t).
  - intros t. unfold edges_for.
    destruct (decide (default [] (inputTensorTo w !! t) = [])) as [E|Hne].
    + assert (default [] (inputTensorTo w' !! t) = []) as E' by (apply Permutation_nil_r; by rewrite <- Hto, E).
      rewrite E, E'. by destruct (outputTensorFrom w !! t), (outputTensorFrom w' !! t).
    + destruct (Hk t Hne) as [H1 H2].
      destruct (Hf t H1 Hne) as [u Hu]. destruct (Hf' t H2) as [u' Hu'].
      { intros E'. apply Hne, Permutation_nil_r. by rewrite Hto, E'. }
      rewrite Hu, Hu'. apply (wiring_produces _ _ _ _ Hw) in Hu. apply (wiring_produces _ _ _ _ Hw') in Hu'.
      rewrite <- produces_order in Hu'. rewrite (Hone _ _ _ Hu Hu'). by rewrite Hto.
Qed.

Lemma attach_edges_eq es es' n : es ≡ₚ es' → node_eq (attach_edges es n) (attach_edges es' n).
Proof. intros He. split; [done|]. simpl. by rewrite He. Qed.

Lemma built_graph_eq plan g g' :
  Build (H := r) plan = Ok g → Build (H := r') plan = Ok g' → single_producer (H := r) plan →
  graph_eq g g'.
Proof.
  intros Hb Hb' Hone. pose proof Hb as (_ & _ & Ht & _)%Build_Ok. pose proof Hb' as (_ & _ & Ht' & _)%Build_Ok.
  split; [|by rewrite Ht, Ht'].
  destruct (Build_edges _ _ Hb) as (Hw & Hto & es & Hes & Hps).
  destruct (Build_edges _ _ Hb') as (Hw' & Hto' & es' & Hes' & Hps').
  assert (mjoin es ≡ₚ mjoin es') as He.
  { eapply built_edges_order; [done..| |done|done]. intros t.
    rewrite Hto, Hto'. apply all_takers_order. }
  apply Forall2_same_length_lookup. split.
  { by rewrite <- (length_fmap Nodes (Pipelines g)), Hps, <- (length_fmap Nodes (Pipelines g')), Hps', !length_fmap. }
  intros i p p' Hp Hp' k. apply (f_equal (lookup i)) in Hps, Hps'.
  rewrite !list_lookup_fmap in Hps, Hps'. rewrite Hp in Hps. rewrite Hp' in Hps'.
  destruct (pipelines_from 0 (PipelineExeNodes plan) !! i) as [q|]; [|done].
  simpl in Hps, Hps'. injection Hps as ->. injection Hps' as ->. rewrite !lookup_fmap.
  destruct (Nodes q !! k) as [n|]; simpl; constructor. by apply attach_edges_eq.
Qed.
End two_orders.

(** IDs are given once. *)
Lemma pipelines_from_nodes_of cnt pls :
  pipelines_from cnt pls ≫= (λ p, (map_to_list (Nodes p)).*2) ≡ₚ number_nodes cnt (pls ≫= ExecutionNodes).
Proof.
  revert cnt. induction pls as [|p pls IH]; intros cnt; csimpl; [done|].
  rewrite IH, number_nodes_app. apply Permutation_app; [|done]. unfold node_map. simpl.
  fold (by_id (number_nodes cnt (ExecutionNodes p))).
  rewrite map_to_list_to_map by apply NoDup_number_nodes. unfold by_id.
  rewrite <- list_fmap_compose. apply reflexive_eq, list_fmap_id.
Qed.

Lemma built_ids_unique `{GoRange} plan g : Build plan = Ok g → ids_unique g.
Proof.
  intros Hb. destruct (Build_edges _ _ Hb) as (_ & _ & es & _ & Hps). unfold ids_unique, graph_nodes_of.
  assert (node_ID <$> (Pipelines g ≫= λ p, (map_to_list (Nodes p)).*2)
    ≡ₚ node_ID <$> (pipelines_from 0 (PipelineExeNodes plan) ≫= λ p, (map_to_list (Nodes p)).*2)) as ->.
  { revert Hps. generalize (Pipelines g) as ps, (pipelines_from 0 (PipelineExeNodes plan)) as qs.
    induction ps as [|p ps IH]; intros [|q qs] Hps; simplify_eq/=; [done|].
    rewrite !fmap_app, IH by done. apply Permutation_app; [|done].
    match goal with E : Nodes p = _ |- _ => rewrite E end.
    rewrite map_to_list_fmap, <- !list_fmap_compose. done. }
  rewrite pipelines_from_nodes_of. pose proof (NoDup_number_nodes 0 (all_nodes plan)) as Hnd.
  unfold by_id in Hnd. by rewrite <- list_fmap_compose in Hnd.
Qed.

(** ** Theorems *)


(** ** Witness: the plan of a column that is copied and shared *)
Module Example.
Definition plan : GraphBuilder := BuilderSpec.Demo.plan5 true.
#[export] Instance no_floats : printing := mkPrinting (λ _, EmptyString) (λ _, EmptyString).
Definition text (r : GoRange) : string :=
  match Build (H := r) plan with Ok g => DumpGraphviz (H := r) g | _ => EmptyString end.
End Example.

