(* ===== verification/Interpreter.v ===== *)
(** * The interpreter (pkg/interpreter/interpreter.go)

    [Compile] finds the participants of a query ([buildEngineInfo]), and [compileCore]
    composes the parts of the compiler: the preprocessor, the translator, the optimizer,
    the checker, the scheduler, the printer, and [buildCompiledPlan], which writes the
    plans of the parties as messages.

    The parser, the information schema and the planner are one function
    [plan_query], from the text of a query, the catalog and the current database to a
    logical plan and what is to be done with its result; [sha256_hex] is the hash of a
    text in hexadecimal and [SubGraph_String] the text protobuf prints for a message.
    A first attempt to compile changes the logical plan in place: [retried] is what it
    leaves to the second attempt, and every theorem holds for any such function. *)
From Stdlib Require Import SpecFloat.
From S2P Require Import Prelude Sliceutil Expression Operator Ccl Graph GraphBuilder Dag Schedule.
From S2P Require Import Strconv LogicalNode Preprocess BuildCcl Translator BuildNode Optimizer.
From S2P Require Import Graphviz.
#[local] Open Scope nat_scope.

(** ** Requests *)
Record TableEntry := mkTableEntry {
  TableName : string;
  RefTable : string;
  DbType : string;
  OwnerCode : string;
}.

Record CompileOptions := mkCompileOptions {
  co_Batched : bool;
  co_RevealGroupMark : bool;
  co_RevealGroupCount : bool;
  co_GroupByThreshold : N;
  co_PsiAlgorithmType : Z;
  co_DumpExeGraph : bool;
}.

Record CompileQueryRequest := mkCompileQueryRequest {
  Query : string;
  DbName : string;
  IssuerCode : string;
  IssuerAsParticipant : bool;
  SecurityConf : option (list ColumnControl);
  Catalog : list TableEntry;
  CompileOpts : option CompileOptions;
}.

(** ** The participants *)
Fixpoint collectDataSourceNode (lp : LogicalPlan) : list (string * string) :=
  let '(Plan op _ children) := lp in
  match children, op with
  | [], DataSource db table _ => [(db, table)]
  | _, _ => children ≫= collectDataSourceNode
  end.

(** Database types (planner/core/database_dialect.go), as numbers *)
Definition ParseDBType (tp : string) : res nat :=
  let tp := ToLower tp in
  if bool_decide (tp = "mysql") then Ok 1
  else if bool_decide (tp = "sqlite") then Ok 2
  else if bool_decide (tp = "postgresql") then Ok 3
  else if bool_decide (tp = "csvdb") then Ok 4
  else if bool_decide (tp = "odps") then Ok 5
  else Err "unknown db type".

Definition SetDBTypeFromString (dbStr : string) (dt : DbTable) : res DbTable :=
  if bool_decide (dbStr = "") then Ok dt
  else tp ← ParseDBType dbStr; Ok (mkDbTable (dbName dt) (tableName dt) tp).

Definition add_table (m : gmap string TableEntry) (table : TableEntry) : res (gmap string TableEntry) :=
  match m !! TableName table with
  | Some _ => Err "duplicate table exists in catalog"
  | None => Ok (<[TableName table := table]> m)
  end.

Definition source_table (currentDb : string) (ds : string * string) : DbTable :=
  NewDbTable (if bool_decide (ds.1 = "") then currentDb else ds.1) ds.2.

(** One data source: its owner gets the table, and the table its reference. *)
Definition add_source (catalogMap : gmap string TableEntry) (currentDb : string)
    (acc : gmap string (list DbTable) * gmap DbTable DbTable) (ds : string * string)
    : res (gmap string (list DbTable) * gmap DbTable DbTable) :=
  let '(party2Tables, tableToRefs) := acc in
  let dbTable := source_table currentDb ds in
  match catalogMap !! DbTable_String dbTable with
  | None => Err "table not found in catalog"
  | Some tblEntry =>
      let tblOwner := OwnerCode tblEntry in
      let refTblName := if bool_decide (RefTable tblEntry = "") then TableName tblEntry
                        else RefTable tblEntry in
      refDbTable ← NewDbTableFromString refTblName;
      refDbTable ← SetDBTypeFromString (DbType tblEntry) refDbTable;
      Ok (<[tblOwner := default [] (party2Tables !! tblOwner) ++ [dbTable]]> party2Tables,
          <[dbTable := refDbTable]> tableToRefs)
  end.

(** [slices.CompactFunc] on sorted codes *)
Fixpoint compact (l : list string) : list string :=
  match l with
  | x :: ((y :: _) as l) => if bool_decide (x = y) then compact l else x :: compact l
  | _ => l
  end.

Definition participant (code : string) : Participant := mkParticipant code [] "" "".

Section engine_info.
Context `{GoRange}.

Definition party_codes (party2Tables : gmap string (list DbTable)) (queryIssuer : string)
    (issuerAsParticipant : bool) (intoPartyCodes : list string) : list string :=
  (go_range party2Tables).*1
    ++ (match party2Tables !! queryIssuer with
        | None => if issuerAsParticipant then [queryIssuer] else []
        | Some _ => []
        end)
    ++ intoPartyCodes.

Definition buildEngineInfo (lp : LogicalPlan) (catalog : list TableEntry) (currentDb queryIssuer : string)
    (issuerAsParticipant : bool) (intoPartyCodes : list string) : res EnginesInfo :=
  catalogMap ← foldlM add_table ∅ catalog;
  let dsList := collectDataSourceNode lp in
  if bool_decide (dsList = []) then Err "no data source in query"
  else
    '(party2Tables, tableToRefs) ← foldlM (add_source catalogMap currentDb) (∅, ∅) dsList;
    let parties := compact (go_sort (party_codes party2Tables queryIssuer issuerAsParticipant intoPartyCodes)) in
    let partyInfo := mkPartyInfo (participant <$> parties) in
    Ok (UpdateTableToRefs tableToRefs (NewEnginesInfo partyInfo party2Tables)).
End engine_info.

(** ** Messages *)
Record pbExecNode := mkpbExecNode {
  NodeName : string;
  pbOpType : string;
  pbInputs : gmap string (list pbTensor);
  pbOutputs : gmap string (list pbTensor);
  pbAttributes : gmap string pbTensor;
}.
Record pbSubDAG := mkpbSubDAG {
  pbJobs : list (Z * list string);
  pbNeedCallBarrierAfterJobs : bool;
}.
Record pbPipeline := mkpbPipeline {
  pbBatched : bool;
  pbPipelineInputs : list pbTensor;
  pbPipelineOutputs : list pbTensor;
  Subdags : list pbSubDAG;
}.
Record SubGraph := mkSubGraph {
  sg_Nodes : gmap string pbExecNode;
  sg_WorkerNum : Z;
  sg_Pipelines : list pbPipeline;
  SubGraphChecksum : string;
}.
Record CompiledPlan := mkCompiledPlan {
  SchemaColumns : list string;
  plan_Parties : list string;
  SubGraphs : gmap string SubGraph;
  ExeGraphDot : option string;
  WholeGraphChecksum : string;
  MayAffectedByGroupThreshold : bool;
}.

Class hashing := mkHashing {
  sha256_hex : string → string;
  SubGraph_String : SubGraph → string;
}.

Section compile.
Context `{GoRange}.

(** A new map with the image of every value; the keys are mapped as well. *)
Definition range_map {K A B} `{Countable K} (key : K → string) (f : A → res B) (m : gmap K A)
    : res (gmap string B) :=
  foldlM (λ acc '(k, v), b ← f v; Ok (<[key k := b]> acc)) ∅ (go_range m).

Definition tensors_ToProto (ts : list Tensor) (l : list nat) : res (list pbTensor) :=
  mapM (λ t, x ← res_of_option Panic (ts !! t); Ok (ToProto x)) l.

(** [ExecutionNode.ToProto] *)
Definition Node_ToProto (ts : list Tensor) (node : ExecutionNode) : res pbExecNode :=
  inputs ← range_map id (tensors_ToProto ts) (Inputs node);
  outputs ← range_map id (tensors_ToProto ts) (Outputs node);
  attributes ← range_map id Attribute_ToProto (Attributes node);
  Ok (mkpbExecNode (node_Name node +:+ "." +:+ Itoa (node_ID node)) (OpType node)
        inputs outputs attributes).

Definition subdag_ToProto (job : ParallelJobs) : pbSubDAG :=
  mkpbSubDAG ((λ x : nat * list nat, (to_int32 (Z.of_nat x.1), Itoa <$> x.2)) <$> go_range (Jobs job))
    (NeedCallBarrierAfterJobs job).

Definition pipeline_ToProto (ts : list Tensor) (pj : PipelineJobs) : res pbPipeline :=
  let subdags := subdag_ToProto <$> pj_Jobs pj in
  if pj_Batched pj then
    inputs ← tensors_ToProto ts (pj_InputTensors pj);
    outputs ← tensors_ToProto ts (pj_OutputTensors pj);
    Ok (mkpbPipeline true inputs outputs subdags)
  else Ok (mkpbPipeline false [] [] subdags).

Context {pr : printing} {hs : hashing}.

(** One iteration of the loop over the plans of the parties; the checksum is taken of
    the message without it. *)
Definition subGraph_ToProto (ts : list Tensor) (subGraph : ExecutionPlan) : res SubGraph :=
  nodes ← range_map Itoa (Node_ToProto ts) (plan_Nodes subGraph);
  pipelines ← mapM (pipeline_ToProto ts) (plan_Pipelines subGraph);
  let workers := to_int32 (Z.of_nat (WorkerNumber subGraph)) in
  let text := SubGraph_String (mkSubGraph nodes workers pipelines "") in
  Ok (mkSubGraph nodes workers pipelines (sha256_hex text)).

Definition buildCompiledPlan (eGraph : Graph) (execPlans : gmap string ExecutionPlan)
    : res (list string * list string * gmap string SubGraph) :=
  subGraphs ← range_map id (subGraph_ToProto (graph_Tensors eGraph)) execPlans;
  Ok (OutputNames eGraph, GetParties (graph_PartyInfo eGraph), subGraphs).

Context {ext : externals} {lit : literals}.

(** The options of the translator: the builder has read [Batched] before
    [forceToUnBatched] clears it. *)
Definition compile_config (enginesInfo : EnginesInfo) (req : CompileQueryRequest) (co : CompileOptions)
    (forceToUnBatched : bool) : config :=
  mkConfig enginesInfo (IssuerCode req) (co_Batched co)
    (if forceToUnBatched then false else co_Batched co) (co_RevealGroupMark co)
    (co_RevealGroupCount co) (co_PsiAlgorithmType co) [].

(** A request without options is a nil dereference. *)
Definition compileCore (enginesInfo : EnginesInfo) (req : CompileQueryRequest) (lp : LogicalPlan)
    (opts : resultOptions) (forceToUnBatched : bool) : res CompiledPlan :=
  sc ← res_of_option (Err "translate: empty CCL") (SecurityConf req);
  co ← res_of_option Panic (CompileOpts req);
  lp ← process lp;
  '(ep, affected) ← Translate (compile_config enginesInfo req co forceToUnBatched) ext sc
                      (co_GroupByThreshold co) opts lp;
  ep ← Optimize ep;
  _ ← Check ep;
  codes ← schedule ep;
  let ep := UpdateTensorRefNum ep in
  let graphvizOutput := DumpGraphviz ep in
  '(columns, parties, subGraphs) ← buildCompiledPlan ep codes;
  Ok (mkCompiledPlan columns parties subGraphs
        (if co_DumpExeGraph co then Some graphvizOutput else None)
        (sha256_hex graphvizOutput) affected).

Context (plan_query : string → list TableEntry → string → res (LogicalPlan * resultOptions)).
Context (retried : LogicalPlan → LogicalPlan).

Definition intoPartyCodes (issuer : string) (opts : resultOptions) : list string :=
  (λ p, if bool_decide (p = "") then issuer else p) <$> file_parties opts.

Definition Compile (req : CompileQueryRequest) : res CompiledPlan :=
  '(lp, opts) ← plan_query (Query req) (Catalog req) (DbName req);
  enginesInfo ← buildEngineInfo lp (Catalog req) (DbName req) (IssuerCode req)
                  (IssuerAsParticipant req) (intoPartyCodes (IssuerCode req) opts);
  match compileCore enginesInfo req lp opts false with
  | Err _ => compileCore enginesInfo req (retried lp) opts true
  | r => r
  end.
End compile.
