(* ===== verification/InterpreterSpec.v ===== *)
(** * What the compiler guarantees

    The participants of a query are the owners of its tables, the parties that receive
    its result and the issuer, if it is to take part.  The optimizer keeps graphs fit to
    be scheduled, and what [compileCore] returns is, for every participant, exactly its
    part of the optimized graph. *)
From Stdlib Require Import SpecFloat DecimalString DecimalZ.
From S2P Require Import Prelude GoInt Sliceutil Expression Operator Ccl Graph GraphBuilder.
From S2P Require Import BuilderSpec StatusConverter Dag DagSpec Schedule ScheduleSpec Strconv.
From S2P Require Import LogicalNode Preprocess BuildCcl BuildCclSpec Translator BuildNode PlanLogic.
From S2P Require Import TranslateSpec Optimizer OptimizerSpec OptimizerBatched Graphviz Interpreter.
#[local] Open Scope nat_scope.

(** ** The optimizer keeps graphs fit to be scheduled *)
Section optimized.
Context `{GoRange} {lit : literals}.

(** A property of all nodes and their IDs. *)
Definition node_all (P : nat → ExecutionNode → Prop) (g : Graph) : Prop :=
  ∀ q v n, q ∈ Pipelines g → Nodes q !! v = Some n → P v n.

Lemma node_all_upd P v f g :
  node_all P g → (∀ n, P v n → P v (f n)) → node_all P (upd_node v f g).
Proof.
  intros Hg Hf q v' n' Hq Hn. simpl in Hq. apply list_elem_of_fmap in Hq as (q0 & -> & Hq0). simpl in Hn.
  destruct (decide (v' = v)) as [->|Hv].
  - rewrite lookup_alter_eq in Hn. apply fmap_Some in Hn as (n & Hn & ->). by eapply Hf, Hg.
  - rewrite lookup_alter_ne in Hn by done. by eapply Hg.
Qed.
Lemma node_all_upds P f es g :
  node_all P g → (∀ v n, P v n → P v (f n)) →
  node_all P (foldl (λ g e, upd_node (To e) f g) g es).
Proof.
  intros Hg Hf. revert g Hg. induction es as [|e es IH]; intros g Hg; simpl; [done|].
  apply IH. apply node_all_upd; auto.
Qed.
Lemma node_all_delete P i x g :
  node_all P g → node_all P (set_pipelines (alter (map_Nodes (delete x)) i (Pipelines g)) g).
Proof.
  intros Hg q v n (j & Hj)%list_elem_of_lookup_1 Hn. simpl in Hj. destruct (decide (j = i)) as [->|Hne].
  - rewrite list_lookup_alter_eq in Hj. apply fmap_Some in Hj as (q0 & Hq0 & ->). simpl in Hn.
    apply lookup_delete_Some in Hn as [_ Hn]. by eapply Hg; [eapply list_elem_of_lookup_2|].
  - rewrite list_lookup_alter_ne in Hj by done. by eapply Hg; [eapply list_elem_of_lookup_2|].
Qed.

Definition attributes_set (n : ExecutionNode) : Prop :=
  ∀ k a, Attributes n !! k = Some a → is_Some (TensorValue a).

(** What a node has to satisfy: it runs at participants, it refers to known tensors,
    its edges lead to larger IDs, and its attributes have values. *)
Definition node_fit (parties : list string) (num v : nat) (n : ExecutionNode) : Prop :=
  node_ID n = v ∧ Parties n ⊆ parties
  ∧ (∀ t, t ∈ arg_tensors (Inputs n) ++ arg_tensors (Outputs n) → t < num)
  ∧ (∀ e, e ∈ Edges n → v < To e) ∧ attributes_set n.

Record fit (g : Graph) : Prop := {
  fit_pipes : Pipelines g ≠ [];
  fit_nodes p : p ∈ Pipelines g → Nodes p ≠ ∅;
  fit_all : node_all (node_fit (GetParties (graph_PartyInfo g)) (length (graph_Tensors g))) g;
  fit_owners p t : p ∈ Pipelines g → pl_Batched p = true →
    t ∈ InputTensors p ++ OutputTensors p →
    ∃ x, graph_Tensors g !! t = Some x ∧ OwnerPartyCode x ∈ GetParties (graph_PartyInfo g);
}.

Lemma fit_graph_ok g : fit g → graph_ok g.
Proof.
  intros [Hp Hn Ha Ho]. split; [done|done| | | |done].
  - intros q id n Hq Hid. apply (Ha q id n Hq Hid).
  - intros q id n Hq Hid. apply (Ha q id n Hq Hid).
  - intros q id n t Hq Hid Ht. apply lookup_lt_is_Some. by apply (Ha q id n Hq Hid).
Qed.

Lemma fit_sorts g : fit g → ∃ orders, TopologicalSort g = Ok orders.
Proof.
  intros Hg. unfold TopologicalSort.
  assert (Forall (λ p, ∃ o, sort_pipeline p = Ok o) (Pipelines g)) as Hall.
  { apply Forall_forall. intros q Hq. pose proof (sort_pipeline_spec q) as Hs.
    destruct (sort_pipeline q) as [o|err|]; [by eexists| |done]. destruct Hs as [_ []].
    exists id. intros u v [Hu (e & He & <-)] _. apply elem_of_keys in Hu as [n Hn].
    unfold edges_of in He. rewrite Hn in He. by apply (fit_all _ Hg q u n Hq Hn). }
  induction Hall as [|p ps [o Ho] _ [os Hos]]; [by exists []|]. exists (o :: os). simpl. by rewrite Ho, Hos.
Qed.

Lemma castValue_set a ot ct a' : castValue a ot ct = Ok a' → is_Some (TensorValue a').
Proof.
  unfold castValue, castString, castInt, castFloat, castBool. intros Hc.
  repeat (case_match; try done; simplify_eq/=; eauto).
  all: repeat match goal with E : _ ≫= _ = Ok _ |- _ => apply res_bind_Ok in E as (? & _ & E) end.
  all: simplify_eq/=; eauto.
Qed.

(** The pipelines keep what is not their nodes, and the tensors their owners. *)
Definition outline (p : Pipeline) : bool * list nat * list nat :=
  (pl_Batched p, InputTensors p, OutputTensors p).

Lemma outline_upd v f g : outline <$> Pipelines (upd_node v f g) = outline <$> Pipelines g.
Proof. simpl. rewrite <- list_fmap_compose. by apply list_fmap_ext. Qed.
Lemma outline_upds f es g :
  outline <$> Pipelines (foldl (λ g e, upd_node (To e) f g) g es) = outline <$> Pipelines g.
Proof.
  revert g. induction es as [|e es IH]; intros g; simpl; [done|]. by rewrite IH, outline_upd.
Qed.
Lemma outline_delete i x (ps : list Pipeline) :
  outline <$> alter (map_Nodes (delete x)) i ps = outline <$> ps.
Proof.
  revert i. induction ps as [|p ps IH]; intros [|i]; [done..|]. simpl. f_equal. apply IH.
Qed.

Lemma upds_rest f es g :
  let g' := foldl (λ g e, upd_node (To e) f g) g es in
  graph_PartyInfo g' = graph_PartyInfo g ∧ graph_Tensors g' = graph_Tensors g
  ∧ OutputNames g' = OutputNames g.
Proof. revert g. induction es as [|e es IH]; intros g; simpl; [done|]. by destruct (IH (upd_node (To e) f g)) as (-> & -> & ->). Qed.

Lemma arg_tensors_replace d b (m : tensor_args) t :
  t ∈ arg_tensors ((λ l : list nat, (λ i, if bool_decide (i = d) then b else i) <$> l) <$> m) →
  t ∈ arg_tensors m ∨ t = b.
Proof.
  rewrite !elem_of_arg_tensors. intros (k & l & Hk & Ht). rewrite lookup_fmap in Hk.
  apply fmap_Some in Hk as (l0 & Hl0 & ->). apply list_elem_of_fmap in Ht as (i & -> & Hi).
  case_bool_decide; [by right|left; eauto].
Qed.

(** What a fold leaves as it was. *)
Lemma fold_path_rest i u w x c b d attr ct g g' :
  fold_path i u w x c b d attr ct g = Ok g' →
  outline <$> Pipelines g' = outline <$> Pipelines g
  ∧ graph_PartyInfo g' = graph_PartyInfo g ∧ OutputNames g' = OutputNames g
  ∧ OwnerPartyCode <$> graph_Tensors g' = OwnerPartyCode <$> graph_Tensors g.
Proof.
  unfold fold_path. intros (cn & _ & [= <-])%res_bind_Ok. simpl.
  destruct (upds_rest (replace_input d b) (redirect w b <$> Edges cn)
    (upd_node w (set_Edges (redirect w b <$> Edges cn)) (upd_node x (set_Edges (redirect w b <$> Edges cn))
      (upd_node u (λ n, set_Attributes (<[ScalarAttr := attr]> (Attributes n)) n)
        (set_graph_tensors (alter (set_DType (folded_type ct)) b
           (alter (set_DType (folded_type ct)) c (graph_Tensors g))) g))))) as (-> & -> & ->).
  split_and!; [|done|done|].
  - by rewrite outline_delete, outline_upds, !outline_upd.
  - simpl. assert (∀ j (ts : list Tensor), OwnerPartyCode <$> alter (set_DType (folded_type ct)) j ts
      = OwnerPartyCode <$> ts) as Ho; [|by rewrite !Ho].
    intros j ts. revert j. induction ts as [|y ts IH]; intros [|j]; [done..|]. simpl. f_equal. apply IH.
Qed.

Lemma fold_path_all ps num i u w x c b d attr ct g g' cn :
  node_all (node_fit ps num) g → fold_path i u w x c b d attr ct g = Ok g' → node_at g x = Ok cn →
  b < num → w < x → is_Some (TensorValue attr) → node_all (node_fit ps num) g'.
Proof.
  intros Hg Hf Hcn Hb Hwx Ha. unfold fold_path in Hf. rewrite Hcn in Hf. injection Hf as <-.
  assert (∀ e, e ∈ redirect w b <$> Edges cn → x < To e) as Hes.
  { intros e (e0 & -> & He0)%list_elem_of_fmap. apply node_at_node in Hcn as (q & Hq & Hcn).
    destruct (Hg q x cn Hq Hcn) as (_ & _ & _ & Hed & _). exact (Hed e0 He0). }
  apply node_all_delete, node_all_upds; [repeat apply node_all_upd|].
  - exact Hg.
  - intros n (Hid & Hps & Hts & Hed & Hat). split_and!; [done..|].
    intros k a. simpl. intros [[_ <-]|[_ Hk]]%lookup_insert_Some; [done|by apply (Hat k)].
  - intros n (Hid & Hps & Hts & Hed & Hat). split_and!; [done..|exact Hes|done].
  - intros n (Hid & Hps & Hts & Hed & Hat). split_and!; [done..| |done].
    intros e He. apply Hes in He. lia.
  - intros v n (Hid & Hps & Hts & Hed & Hat). split_and!; [done..| |done|done].
    intros t Ht. simpl in Ht. apply elem_of_app in Ht as [Ht|Ht].
    + apply arg_tensors_replace in Ht as [Ht| ->]; [|done]. apply Hts, elem_of_app. by left.
    + apply Hts, elem_of_app. by right.
Qed.

(** A step of the loop: nothing, or a fold of a path of increasing IDs. *)
Lemma fold_constant_inv i id g f g' :
  fold_constant i id g = Ok (f, g') →
  g' = g ∨ ∃ p n e e' bn cn c b d attr ct, Pipelines g !! i = Some p ∧ Nodes p !! id = Some n
    ∧ e ∈ Edges n ∧ node_at g (To e) = Ok bn ∧ e' ∈ Edges bn ∧ node_at g (To e') = Ok cn
    ∧ out_tensor bn = Ok b ∧ is_Some (TensorValue attr)
    ∧ fold_path i id (To e) (To e') c b d attr ct g = Ok g'.
Proof.
  intros Hf. unfold fold_constant in Hf.
  destruct (Pipelines g !! i) as [p|] eqn:Hp; simpl in Hf; [|injection Hf; auto].
  destruct (Nodes p !! id) as [n|] eqn:Hn; [|injection Hf; auto].
  case_bool_decide as Hop; simpl in Hf; [|injection Hf; auto].
  destruct (Edges n) as [|e [|? ?]] eqn:Hen; [injection Hf; auto| |injection Hf; auto].
  apply res_bind_Ok in Hf as (bn & Hbn & Hf). case_bool_decide; simpl in Hf; [|injection Hf; auto].
  destruct (Edges bn) as [|e' [|? ?]] eqn:Heb; [injection Hf; auto| |injection Hf; auto].
  apply res_bind_Ok in Hf as (cn & Hcn & Hf). case_bool_decide as Hopc; simpl in Hf; [|injection Hf; auto].
  apply res_bind_Ok in Hf as (c & _ & Hf). apply res_bind_Ok in Hf as (d & _ & Hf).
  apply res_bind_Ok in Hf as (cT & _ & Hf). apply res_bind_Ok in Hf as (dT & _ & Hf).
  destruct (isValidCast _ _); [|done]. simpl in Hf.
  apply res_bind_Ok in Hf as (attr & Ha & Hf). apply res_bind_Ok in Hf as (b & Hb & Hf).
  apply res_bind_Ok in Hf as (g1 & Hg1 & Hf). injection Hf as _ <-. right.
  exists p, n, e, e', bn, cn, c, b, d, attr, (DType dT). rewrite Hen, Heb.
  split_and!; [done|done|set_solver|done|set_solver|done|done| |done].
  destruct (castValue _ _ _) as [a| |] eqn:Hc; [|done..]. injection Ha as <-. by eapply castValue_set.
Qed.

Lemma out_tensor_arg n b : out_tensor n = Ok b → b ∈ arg_tensors (Outputs n).
Proof.
  unfold out_tensor. intros Hb. apply elem_of_arg_tensors.
  destruct (Outputs n !! Out) as [[|t l]|] eqn:Ho; simplify_eq. exists Out, (b :: l). split; [done|left].
Qed.

(** What stays the same in a graph that is optimized. *)
Definition same_frame (g g' : Graph) : Prop :=
  graph_PartyInfo g' = graph_PartyInfo g ∧ OutputNames g' = OutputNames g.

Lemma fold_constant_fit i id g f g' :
  fit g → fold_constant i id g = Ok (f, g') → fit g'.
Proof.
  intros Hg [->|(p & n & e & e' & bn & cn & c & b & d & attr & ct & Hp & Hn & He & Hbn & He' & Hcn & Hb & Ha & Hf)]%fold_constant_inv;
    [done|].
  destruct (fold_path_rest _ _ _ _ _ _ _ _ _ _ _ Hf) as (Hout & Hpi & Hnames & Hown).
  destruct Hg as [Hne Hnodes Hall Hos]. pose proof Hbn as (q & Hq & Hbq)%node_at_node.
  destruct (Hall q (To e) bn Hq Hbq) as (_ & _ & Hbt & Hbe & _).
  destruct (Hall p id n (list_elem_of_lookup_2 _ _ _ Hp) Hn) as (_ & _ & _ & Hne' & _).
  assert (length (graph_Tensors g') = length (graph_Tensors g)) as Hlen
    by (by rewrite <- (length_fmap OwnerPartyCode), Hown, length_fmap).
  split.
  - intros E. rewrite E in Hout. simpl in Hout. by destruct (Pipelines g).
  - pose proof Hf as (_ & _ & Hs & _)%fold_path_project.
    intros p' (j & Hj)%list_elem_of_lookup_1 Hemp.
    assert (project signature g' !! j = Some ∅) as Hj'.
    { apply project_lookup. exists p'. split; [done|]. by rewrite Hemp, fmap_empty. }
    rewrite Hs in Hj'. destruct (decide (j = i)) as [->|Hji].
    + rewrite list_lookup_alter_eq in Hj'. apply fmap_Some in Hj' as (m & Hm & Hd).
      apply project_lookup in Hm as (p0 & Hp0 & ->). rewrite Hp in Hp0. injection Hp0 as <-.
      apply (f_equal (lookup id)) in Hd. rewrite lookup_empty, lookup_delete_ne, lookup_fmap, Hn in Hd; [done|].
      pose proof (Hne' e He). pose proof (Hbe e' He'). lia.
    + rewrite list_lookup_alter_ne in Hj' by done. apply project_lookup in Hj' as (p0 & Hp0 & Hm).
      apply (Hnodes p0); [by eapply list_elem_of_lookup_2|]. symmetry in Hm. by apply fmap_empty_inv in Hm.
  - rewrite Hpi, Hlen. eapply fold_path_all; [exact Hall|exact Hf|exact Hcn| |by apply Hbe|done].
    apply Hbt, elem_of_app. right. by apply out_tensor_arg.
  - intros p' t (j & Hj)%list_elem_of_lookup_1 Hbat Ht. rewrite Hpi.
    assert (outline <$> Pipelines g !! j = Some (outline p')) as Ho.
    { by rewrite <- list_lookup_fmap, <- Hout, list_lookup_fmap, Hj. }
    apply fmap_Some in Ho as (p0 & Hp0 & E). injection E as E1 E2 E3. rewrite E1 in Hbat. rewrite E2, E3 in Ht.
    destruct (Hos p0 t (list_elem_of_lookup_2 _ _ _ Hp0) Hbat Ht) as (y & Hy & Hyo).
    apply (f_equal (lookup t)) in Hown. rewrite !list_lookup_fmap, Hy in Hown.
    apply fmap_Some in Hown as (y' & Hy' & E). exists y'. by rewrite <- E.
Qed.

Lemma Optimize_fit g g' : fit g → Optimize g = Ok g' → fit g'.
Proof. apply Optimize_ind. apply fold_constant_fit. Qed.

Lemma Optimize_frame g g' : Optimize g = Ok g' → same_frame g g'.
Proof.
  apply (Optimize_ind (same_frame g)); [|done]. intros i id g1 f g2 [E1 E2] Hc.
  destruct (fold_constant_inv _ _ _ _ _ Hc) as [->|(? & ? & ? & ? & ? & ? & ? & ? & ? & ? & ? & _ & _ & _ & _ & _ & _ & _ & _ & Hf)];
    [done|].
  destruct (fold_path_rest _ _ _ _ _ _ _ _ _ _ _ Hf) as (_ & F1 & F2 & _).
  split; [by rewrite F1|by rewrite F2].
Qed.
End optimized.

(** ** Messages *)
Section messages.
Context `{GoRange}.

Lemma Itoa_parse n : parse_digits (Itoa n) = Ok (Z.of_nat n).
Proof.
  unfold Itoa, FormatInt, NilZero.string_of_int.
  assert (Z.of_int (Z.to_int (Z.of_nat n)) = Z.of_nat n) as Hof by apply DecimalZ.of_to.
  destruct (Z.to_int (Z.of_nat n)) as [d|d] eqn:E.
  - rewrite parse_digits_of_uint. f_equal. exact Hof.
  - by destruct n.
Qed.
#[global] Instance Itoa_inj : Inj (=) (=) Itoa.
Proof.
  intros n m E. apply (f_equal parse_digits) in E. rewrite !Itoa_parse in E.
  injection E as E. lia.
Qed.

Lemma range_map_from {K A B} `{Countable K} (key : K → string) `{!Inj (=) (=) key} (f : A → res B)
    (l : list (K * A)) (acc : gmap string B) :
  NoDup l.*1 → (∀ k v, (k, v) ∈ l → ∃ b, f v = Ok b) →
  ∃ m', foldlM (λ acc '(k, v), b ← f v; Ok (<[key k := b]> acc)) acc l = Ok m'
    ∧ (∀ k v, (k, v) ∈ l → ∃ b, f v = Ok b ∧ m' !! key k = Some b)
    ∧ (∀ s, (∀ k, k ∈ l.*1 → s ≠ key k) → m' !! s = acc !! s).
Proof.
  revert acc. induction l as [|[k v] l IH]; intros acc Hnd Hf; [exists acc; set_solver|].
  apply NoDup_cons in Hnd as [Hk Hnd]. destruct (Hf k v) as [b Hb]; [left|].
  destruct (IH (<[key k := b]> acc) Hnd) as (m' & Hm' & Hin & Hout); [intros; eapply Hf; by right|].
  exists m'. simpl. rewrite Hb. simpl. split_and!; [done| |].
  - intros k' v' [[= -> ->]|Hin']%elem_of_cons; [|by apply Hin]. exists b. split; [done|].
    rewrite Hout, lookup_insert_eq; [done|]. intros k0 Hk0 E. apply (inj key) in E. by subst k0.
  - intros s Hs. rewrite Hout, lookup_insert_ne; [done| |].
    + intros E. by apply (Hs k); [left|].
    + intros k0 Hk0. apply Hs. by right.
Qed.

(** Every value is mapped, and nothing else is in the new map. *)
Lemma range_map_spec {K A B} `{Countable K} (key : K → string) `{!Inj (=) (=) key} (f : A → res B)
    (m : gmap K A) :
  (∀ k v, m !! k = Some v → ∃ b, f v = Ok b) →
  ∃ m', range_map key f m = Ok m'
    ∧ (∀ k v, m !! k = Some v → ∃ b, f v = Ok b ∧ m' !! key k = Some b)
    ∧ (∀ s, (∀ k, is_Some (m !! k) → s ≠ key k) → m' !! s = None).
Proof.
  intros Hf. destruct (range_map_from key f (go_range m) ∅) as (m' & Hm' & Hin & Hout).
  - apply NoDup_fst_go_range.
  - intros k v Hk. eapply Hf. by apply elem_of_go_range.
  - exists m'. split_and!; [done| |].
    + intros k v Hk. apply Hin. by apply elem_of_go_range.
    + intros s Hs. rewrite Hout; [apply lookup_empty|]. intros k Hk. by apply Hs, elem_of_keys_go_range.
Qed.

(** A node that refers to known tensors and whose attributes have values can be written. *)
Definition writable (ts : list Tensor) (n : ExecutionNode) : Prop :=
  (∀ t, t ∈ arg_tensors (Inputs n) ++ arg_tensors (Outputs n) → t < length ts) ∧ attributes_set n.

Lemma tensors_ToProto_total ts l :
  (∀ t, t ∈ l → t < length ts) → ∃ pbs, tensors_ToProto ts l = Ok pbs.
Proof.
  intros Hl. unfold tensors_ToProto. induction l as [|t l IH]; [by exists []|].
  destruct (lookup_lt_is_Some_2 ts t) as [x Hx]; [apply Hl; left|]. simpl. rewrite Hx. simpl.
  destruct IH as [pbs ->]; [intros; apply Hl; by right|]. by eexists.
Qed.

Lemma args_ToProto_total ts (m : tensor_args) :
  (∀ t, t ∈ arg_tensors m → t < length ts) → ∃ pbs, range_map id (tensors_ToProto ts) m = Ok pbs.
Proof.
  intros Hm. destruct (range_map_spec id (tensors_ToProto ts) m) as (m' & ? & _); [|by eexists].
  intros k l Hk. apply tensors_ToProto_total. intros t Ht. apply Hm, elem_of_arg_tensors. eauto.
Qed.

Lemma Node_ToProto_total ts n : writable ts n → ∃ pb, Node_ToProto ts n = Ok pb.
Proof.
  intros [Ht Ha]. unfold Node_ToProto.
  destruct (args_ToProto_total ts (Inputs n)) as [ins ->]; [intros; apply Ht, elem_of_app; by left|].
  destruct (args_ToProto_total ts (Outputs n)) as [outs ->]; [intros; apply Ht, elem_of_app; by right|].
  destruct (range_map_spec id Attribute_ToProto (Attributes n)) as (attrs & -> & _).
  { intros k a Hk. unfold Attribute_ToProto. destruct (Ha k a Hk) as [x ->]. by eexists. }
  by eexists.
Qed.

Lemma pipeline_ToProto_total ts pj :
  (∀ t, pj_Batched pj = true → t ∈ pj_InputTensors pj ++ pj_OutputTensors pj → t < length ts) →
  ∃ pb, pipeline_ToProto ts pj = Ok pb.
Proof.
  intros Ht. unfold pipeline_ToProto. destruct (pj_Batched pj); [|by eexists].
  destruct (tensors_ToProto_total ts (pj_InputTensors pj)) as [ins ->];
    [intros; apply Ht; [done|apply elem_of_app; by left]|].
  destruct (tensors_ToProto_total ts (pj_OutputTensors pj)) as [outs ->];
    [intros; apply Ht; [done|apply elem_of_app; by right]|]. by eexists.
Qed.

Context {hs : hashing}.

(** The synchronization of symbols does not get into the message. *)
Lemma subGraph_ToProto_erase ts plan : subGraph_ToProto ts (erase plan) = subGraph_ToProto ts plan.
Proof.
  unfold subGraph_ToProto. simpl. destruct (range_map Itoa _ _) as [nodes| |]; simpl; [|done..].
  assert (mapM (pipeline_ToProto ts) (erase_pj <$> plan_Pipelines plan)
    = mapM (pipeline_ToProto ts) (plan_Pipelines plan)) as ->; [|done].
  assert (∀ pj, pipeline_ToProto ts (erase_pj pj) = pipeline_ToProto ts pj) as Hpj.
  { intros pj. unfold pipeline_ToProto. simpl. by rewrite <- list_fmap_compose. }
  induction (plan_Pipelines plan) as [|pj pjs IH]; [done|]. rewrite fmap_cons.
  cbn [mapM]. by rewrite Hpj, IH.
Qed.

Lemma subGraph_ToProto_total ts plan :
  (∀ id n, plan_Nodes plan !! id = Some n → writable ts n) →
  (∀ pj t, pj ∈ plan_Pipelines plan → pj_Batched pj = true →
     t ∈ pj_InputTensors pj ++ pj_OutputTensors pj → t < length ts) →
  ∃ sg, subGraph_ToProto ts plan = Ok sg.
Proof.
  intros Hn Hp. unfold subGraph_ToProto.
  destruct (range_map_spec Itoa (Node_ToProto ts) (plan_Nodes plan)) as (nodes & -> & _).
  { intros id n Hid. by eapply Node_ToProto_total, Hn. }
  assert (∃ pbs, mapM (pipeline_ToProto ts) (plan_Pipelines plan) = Ok pbs) as [pbs ->]; [|by eexists].
  induction (plan_Pipelines plan) as [|pj pjs IH]; [by exists []|]. simpl.
  destruct (pipeline_ToProto_total ts pj) as [pb ->]; [intros; eapply Hp; [by left|done..]|].
  destruct IH as [pbs ->]; [intros; eapply Hp; [by right|done..]|]. by eexists.
Qed.
End messages.

(** ** The plans of the parties *)
Section plans.
Context `{GoRange} {pr : printing} {hs : hashing}.

Lemma spec_nodes_inv k ns (m : gmap nat ExecutionNode) id n :
  foldl (spec_nodes k) m ns !! id = Some n →
  m !! id = Some n ∨ ∃ l n0, l ∈ ns ∧ n0 ∈ l ∧ n = party_node n0.
Proof.
  revert m. induction ns as [|l ns IH]; intros m Hn; simpl in Hn; [by left|].
  apply IH in Hn as [Hn|(l' & n0 & Hl' & Hn0 & ->)]; [|right; exists l', n0; split_and!; [by right|done..]].
  unfold spec_nodes in Hn.
  assert (∀ l0 (m0 : gmap nat ExecutionNode),
    foldl (λ m n, if bool_decide (k ∈ Parties n) then <[node_ID n:=party_node n]> m else m) m0 l0 !! id = Some n →
    m0 !! id = Some n ∨ ∃ n0, n0 ∈ l0 ∧ n = party_node n0) as Hin.
  { clear. induction l0 as [|n0 l0 IH]; intros m0 Hn; simpl in Hn; [by left|].
    apply IH in Hn as [Hn|(n1 & Hn1 & ->)]; [|right; exists n1; split; [by right|done]].
    case_bool_decide; [|by left]. apply lookup_insert_Some in Hn as [[_ <-]|[_ Hn]]; [|by left].
    right. exists n0. split; [left|done]. }
  apply Hin in Hn as [Hn|(n0 & Hn0 & ->)]; [by left|]. right. exists l, n0. split_and!; [left|done..].
Qed.

Lemma RefNum_length g : length (graph_Tensors (UpdateTensorRefNum g)) = length (graph_Tensors g).
Proof.
  unfold UpdateTensorRefNum. simpl. generalize (mjoin (pipeline_inputs <$> Pipelines g)) as l.
  generalize (graph_Tensors g) as ts. intros ts l. revert ts. induction l as [|t l IH]; intros ts; simpl; [done|].
  by rewrite IH, length_alter.
Qed.

(** The plan of a party can be written. *)
Lemma spec_plan_writes g orders k :
  fit g → ∃ sg, subGraph_ToProto (graph_Tensors (UpdateTensorRefNum g)) (spec_plan g orders k) = Ok sg.
Proof.
  intros Hg. apply subGraph_ToProto_total; rewrite ?RefNum_length.
  - intros id n Hn. simpl in Hn. apply spec_nodes_inv in Hn as [Hn|(l & n0 & Hl & Hn0 & ->)];
      [by rewrite lookup_empty in Hn|].
    apply elem_of_zip_with in Hl as (p & order & -> & Hp & _). unfold nodes_of in Hn0.
    apply list_elem_of_omap in Hn0 as (v & _ & Hv).
    destruct (fit_all _ Hg p v n0 Hp Hv) as (_ & _ & Ht & _ & Ha). split; [|exact Ha].
    rewrite RefNum_length. exact Ht.
  - intros pj t Hpj Hb Ht. simpl in Hpj. apply elem_of_zip_with in Hpj as (p & ns & -> & Hp & _).
    simpl in Hb, Ht. rewrite Hb in Ht.
    destruct (fit_owners _ Hg p t Hp Hb) as (x & Hx & _); [|by eapply lookup_lt_Some].
    apply elem_of_app in Ht as [Ht|Ht]; apply elem_of_Filter in Ht as [Ht _]; apply elem_of_app; auto.
Qed.

(** Scheduling and writing succeed, and every participant gets its part. *)
Lemma plans_spec g :
  fit g →
  ∃ orders codes sgs, TopologicalSort g = Ok orders ∧ schedule g = Ok codes
    ∧ buildCompiledPlan (UpdateTensorRefNum g) codes
      = Ok (OutputNames g, GetParties (graph_PartyInfo g), sgs)
    ∧ ∀ k, if bool_decide (k ∈ GetParties (graph_PartyInfo g))
           then ∃ sg, subGraph_ToProto (graph_Tensors (UpdateTensorRefNum g)) (spec_plan g orders k) = Ok sg
                      ∧ sgs !! k = Some sg
           else sgs !! k = None.
Proof.
  intros Hg. destruct (fit_sorts g Hg) as [orders Ho].
  destruct (schedule_plans g orders (fit_graph_ok g Hg) Ho) as (codes & Hc & Hk).
  set (ts := graph_Tensors (UpdateTensorRefNum g)).
  assert (∀ k plan, codes !! k = Some plan →
    k ∈ GetParties (graph_PartyInfo g) ∧ subGraph_ToProto ts plan = subGraph_ToProto ts (spec_plan g orders k)) as Hcode.
  { intros k plan Hp. specialize (Hk k). rewrite Hp in Hk. case_bool_decide; [|done].
    split; [done|]. apply (inj Some) in Hk. by rewrite <- Hk, subGraph_ToProto_erase. }
  destruct (range_map_spec id (subGraph_ToProto ts) codes) as (sgs & Hs & Hin & Hout).
  { intros k plan Hp. destruct (Hcode k plan Hp) as [_ ->]. by apply spec_plan_writes. }
  exists orders, codes, sgs. split_and!; [done|done| |].
  - unfold buildCompiledPlan. fold ts. by rewrite Hs.
  - intros k. specialize (Hk k). case_bool_decide as Hin'.
    + apply fmap_Some in Hk as (plan & Hp & _). destruct (Hin k plan Hp) as (sg & Hsg & Hlk).
      exists sg. destruct (Hcode k plan Hp) as [_ E]. by rewrite <- E.
    + apply Hout. intros k' [plan Hp] ->. by destruct (Hcode k' plan Hp).
Qed.
End plans.

(** ** The participants *)
Section participants.
Context `{GoRange}.

Lemma add_tables_spec catalog (m m' : gmap string TableEntry) :
  foldlM add_table m catalog = Ok m' →
  (∀ k e, m' !! k = Some e ↔ m !! k = Some e ∨ e ∈ catalog ∧ TableName e = k).
Proof.
  revert m. induction catalog as [|t catalog IH]; intros m Hm k e; simpl in Hm; [injection Hm as <-; set_solver|].
  apply res_bind_Ok in Hm as (m1 & H1 & Hm). unfold add_table in H1.
  destruct (m !! TableName t) eqn:Ht; [done|]. injection H1 as <-.
  rewrite (IH _ Hm k e), lookup_insert_Some, elem_of_cons.
  split; [naive_solver|]. intros [Hk|[[->|Hin] <-]]; [|tauto|tauto].
  left. right. split; [|done]. intros E. by rewrite E, Hk in Ht.
Qed.

(** The tables under the owners, for the data sources of [l]. *)
Record owned (catalogMap : gmap string TableEntry) (db : string) (l : list (string * string))
    (acc : gmap string (list DbTable) * gmap DbTable DbTable) : Prop := {
  owned_nonempty q ts : acc.1 !! q = Some ts → ts ≠ [];
  owned_by_entry q ts dt : acc.1 !! q = Some ts → dt ∈ ts →
    ∃ ds e, ds ∈ l ∧ dt = source_table db ds ∧ catalogMap !! DbTable_String dt = Some e
            ∧ OwnerCode e = q;
  owned_all ds : ds ∈ l → ∃ e ts, catalogMap !! DbTable_String (source_table db ds) = Some e
    ∧ acc.1 !! OwnerCode e = Some ts ∧ source_table db ds ∈ ts
    ∧ is_Some (acc.2 !! source_table db ds);
}.

Lemma add_source_owned catalogMap db l acc ds acc' :
  owned catalogMap db l acc → add_source catalogMap db acc ds = Ok acc' →
  owned catalogMap db (l ++ [ds]) acc'.
Proof.
  destruct acc as [p2t refs]. intros [Hne Hby Hall] Hadd. unfold add_source in Hadd.
  destruct (catalogMap !! DbTable_String (source_table db ds)) as [e|] eqn:He; [|done].
  apply res_bind_Ok in Hadd as (r0 & _ & Hadd). apply res_bind_Ok in Hadd as (r1 & _ & [= <-]).
  simpl in *. split; simpl.
  - intros q ts [[_ <-]|[_ Hq]]%lookup_insert_Some; [|by eapply Hne]. by destruct (default _ _).
  - intros q ts dt [[<- <-]|[_ Hq]]%lookup_insert_Some Hdt.
    + apply elem_of_app in Hdt as [Hdt| ->%list_elem_of_singleton].
      * destruct (p2t !! OwnerCode e) as [ts|] eqn:Hts; simpl in Hdt; [|by apply elem_of_nil in Hdt].
        destruct (Hby _ _ _ Hts Hdt) as (ds0 & e0 & ? & ? & ? & ?). exists ds0, e0. set_solver.
      * exists ds, e. set_solver.
    + destruct (Hby _ _ _ Hq Hdt) as (ds0 & e0 & ? & ? & ? & ?). exists ds0, e0. set_solver.
  - intros ds0 [Hds0| ->%list_elem_of_singleton]%elem_of_app.
    + destruct (Hall ds0 Hds0) as (e0 & ts & He0 & Hts & Hin & Hr). exists e0.
      destruct (decide (OwnerCode e0 = OwnerCode e)) as [E|E].
      * rewrite E, lookup_insert_eq. rewrite E in Hts. rewrite Hts. simpl. eexists. split_and!; [done..|set_solver|].
        apply lookup_insert_is_Some'. by right.
      * rewrite lookup_insert_ne by done. exists ts. split_and!; [done..|]. apply lookup_insert_is_Some'. by right.
    + exists e. rewrite lookup_insert_eq. eexists. split_and!; [done..|set_solver|]. by rewrite lookup_insert_eq.
Qed.

Lemma add_sources_owned catalogMap db l l0 acc acc' :
  owned catalogMap db l0 acc → foldlM (add_source catalogMap db) acc l = Ok acc' →
  owned catalogMap db (l0 ++ l) acc'.
Proof.
  revert l0 acc. induction l as [|ds l IH]; intros l0 acc Ho Hf; simpl in Hf; [injection Hf as <-; by rewrite app_nil_r|].
  apply res_bind_Ok in Hf as (acc1 & H1 & Hf). replace (l0 ++ ds :: l) with ((l0 ++ [ds]) ++ l) by by rewrite <- app_assoc.
  eapply IH; [by eapply add_source_owned|done].
Qed.

Lemma compact_cons x y l :
  compact (x :: y :: l) = if bool_decide (x = y) then compact (y :: l) else x :: compact (y :: l).
Proof. done. Qed.
Lemma compact_elem l q : q ∈ compact l ↔ q ∈ l.
Proof.
  induction l as [|x [|y l] IH]; [done..|]. rewrite compact_cons.
  case_bool_decide as E; [subst y|]; set_solver.
Qed.
Lemma compact_sorted l : StronglySorted cmp_le l → StronglySorted cmp_le (compact l) ∧ NoDup (compact l).
Proof.
  induction 1 as [|x l Hl [IHs IHn] Hx]; [by repeat constructor|].
  destruct l as [|y l]; [by split; [repeat constructor|apply NoDup_singleton]|].
  rewrite compact_cons. case_bool_decide as E; [done|].
  assert (∀ q, q ∈ compact (y :: l) → cmp_le x q) as Hle.
  { intros q. rewrite compact_elem. rewrite Forall_forall in Hx. by apply Hx. }
  split; constructor; [done|by apply Forall_forall| |done].
  rewrite compact_elem. intros [->|Hin]%elem_of_cons; [done|].
  inversion Hl as [|? ? _ Hy]; subst. rewrite Forall_forall in Hy, Hx. apply E, (anti_symm cmp_le).
  - by apply Hx; left.
  - by apply Hy.
Qed.

Lemma update_refs_lookup (refs : gmap DbTable DbTable) (h : EnginesInfo) dt :
  is_Some (refs !! dt) → is_Some (tableToRefs (UpdateTableToRefs refs h) !! dt).
Proof.
  intros [r Hr]. simpl. apply elem_of_go_range in Hr. revert Hr. generalize (tableToRefs h) as m.
  induction (go_range refs) as [|[k v] l IH]; intros m Hr; simpl; [by apply elem_of_nil in Hr|].
  assert (∀ (l : list (DbTable * DbTable)) m, is_Some (m !! dt) →
    is_Some (foldl (λ (m : gmap DbTable DbTable) '(table, ref), <[table:=ref]> m) m l !! dt)) as Hkeep.
  { clear. induction l as [|[k v] l IH]; intros m Hm; simpl; [done|]. apply IH, lookup_insert_is_Some'. by right. }
  apply elem_of_cons in Hr as [[= -> ->]|Hr]; [|by apply IH]. apply Hkeep. by rewrite lookup_insert_eq.
Qed.

Lemma engine_info_spec lp catalog db issuer asParticipant into info :
  buildEngineInfo lp catalog db issuer asParticipant into = Ok info →
  let ps := GetParties (partyInfo info) in
  let owner ds q := ∃ e, e ∈ catalog ∧ TableName e = DbTable_String (source_table db ds) ∧ OwnerCode e = q in
  StronglySorted cmp_le ps ∧ NoDup ps
  ∧ (∀ q, q ∈ ps ↔ (∃ ds, ds ∈ collectDataSourceNode lp ∧ owner ds q)
                   ∨ q = issuer ∧ asParticipant = true ∨ q ∈ into)
  ∧ collectDataSourceNode lp ≠ []
  ∧ ∀ ds, ds ∈ collectDataSourceNode lp →
      owner ds (GetPartyByTable info (source_table db ds))
      ∧ GetPartyByTable info (source_table db ds) ∈ ps
      ∧ is_Some (tableToRefs info !! source_table db ds).
Proof.
  intros Hb ps owner. unfold buildEngineInfo in Hb. apply res_bind_Ok in Hb as (cm & Hcm & Hb).
  pose proof (add_tables_spec _ _ _ Hcm) as Hcat.
  case_bool_decide as Hne; [done|]. apply res_bind_Ok in Hb as ([p2t refs] & Hsrc & [= <-]).
  assert (owned cm db [] (∅, ∅)) as H0.
  { split.
    - intros q ts E. simpl in E. by rewrite lookup_empty in E.
    - intros q ts dt E. simpl in E. by rewrite lookup_empty in E.
    - intros ds Hds. by apply elem_of_nil in Hds. }
  apply (add_sources_owned _ _ _ _ _ _ H0) in Hsrc as [Hnon Hby Hall]. simpl in Hnon, Hby, Hall.
  assert (∀ ds q, owner ds q ↔ ∃ e, cm !! DbTable_String (source_table db ds) = Some e ∧ OwnerCode e = q) as Hown.
  { intros ds q. unfold owner. setoid_rewrite Hcat. setoid_rewrite lookup_empty. naive_solver. }
  set (codes := party_codes p2t issuer asParticipant into) in *.
  assert (ps = compact (go_sort codes)) as Hps.
  { unfold ps, GetParties. simpl. rewrite <- list_fmap_compose. apply list_fmap_id. }
  assert (∀ q, q ∈ ps ↔ (∃ ds, ds ∈ collectDataSourceNode lp ∧ owner ds q)
    ∨ q = issuer ∧ asParticipant = true ∨ q ∈ into) as Hin.
  { intros q. rewrite Hps, compact_elem, elem_of_go_sort. unfold codes, party_codes.
    rewrite !elem_of_app, elem_of_keys_go_range.
    assert (is_Some (p2t !! q) ↔ ∃ ds, ds ∈ collectDataSourceNode lp ∧ owner ds q) as Hkey.
    { setoid_rewrite Hown. split.
      - intros [ts Hts]. destruct ts as [|dt ts]; [by destruct (Hnon _ _ Hts)|].
        destruct (Hby _ _ dt Hts) as (ds & e & ? & -> & ? & ?); [left|]. eauto.
      - intros (ds & Hds & e & He & <-). destruct (Hall ds Hds) as (e' & ts & He' & Hts & _).
        rewrite He in He'. injection He' as <-. by exists ts. }
    rewrite Hkey. destruct (p2t !! issuer) eqn:Hi.
    - assert (is_Some (p2t !! issuer)) as Hi' by (by rewrite Hi). split; [set_solver|].
      intros [?|[[-> _]|?]]; [by left| |by right; right]. left. by apply Hkey.
    - destruct asParticipant; set_solver. }
  split_and!; [| |done|done|].
  - rewrite Hps. apply compact_sorted, go_sort_sorted.
  - rewrite Hps. apply compact_sorted, go_sort_sorted.
  - intros ds Hds. destruct (Hall ds Hds) as (e & ts & He & Hts & Hdt & Hr).
    assert (GetPartyByTable (UpdateTableToRefs refs (NewEnginesInfo (mkPartyInfo (participant <$> compact (go_sort codes))) p2t))
      (source_table db ds) = OwnerCode e) as Hparty.
    { unfold GetPartyByTable, UpdateTableToRefs. cbn [tableToParty].
      pose proof (engines_info_owner (mkPartyInfo (participant <$> compact (go_sort codes))) p2t (source_table db ds)) as Ho.
      destruct (tableToParty _ !! _) as [q|]; [|by destruct (Ho _ _ Hts)]. destruct Ho as (ts' & Hts' & Hdt').
      destruct (Hby _ _ _ Hts' Hdt') as (ds' & e' & _ & E & He' & <-). simpl. congruence. }
    rewrite Hparty. split_and!; [apply Hown; by exists e| |by apply update_refs_lookup].
    apply Hin. left. exists ds. split; [done|]. apply Hown. by exists e.
Qed.
End participants.

(** ** The compiler *)
Section compiler.
Context `{GoRange} {pr : printing} {hs : hashing} {ext : externals} {lit : literals}.

(** What the translator gives. *)
Lemma Translate_built c sc threshold opts lp g f :
  Translate c ext sc threshold opts lp = Ok (g, f) →
  ∃ p orders, Build p = Ok g ∧ good p ∧ pipelines_ok p ∧ batched p = @ep_Batched c
    ∧ graph_PartyInfo g = partyInfo (@t_enginesInfo c) ∧ TopologicalSort g = Ok orders.
Proof.
  intros (cfg & ln & opts' & t & Hrun & _ & Hinfo & Hep & _)%Translate_Ok.
  destruct (translate_graph _ _ _ _ Hrun) as (orders & Hb & Hg & Hok & Hs & _).
  destruct (translate_ext _ _ _ _ Hrun) as [_ He]. exists (plan (converter t)), orders.
  split_and!; [done..| | |done].
  - rewrite (ext_batched _ _ _ He). simpl. by rewrite Hep.
  - rewrite <- Hinfo. pose proof (ext_info _ _ _ He) as E. simpl in E. rewrite <- E.
    destruct (Build_unfold (plan (converter t))) as (w & _ & Hbu). rewrite Hb in Hbu.
    symmetry in Hbu. apply res_bind_Ok in Hbu as (es & _ & Hbu).
    by apply res_bind_Ok in Hbu as (ps & _ & [= <-]).
Qed.

Lemma Translate_fit c sc threshold opts lp g f :
  Translate c ext sc threshold opts lp = Ok (g, f) → Pipelines g ≠ [] → participants_only g →
  node_all (λ _ n, attributes_set n) g → fit g.
Proof.
  intros (p & orders & Hb & Hg & Hok & _ & _ & _)%Translate_built Hne Hps Ha.
  destruct (good_graph_ok _ _ Hb Hg Hok Hne Hps) as [_ Hn Hid Hpa Har Hos]. split; [done|done| |done].
  intros q v n Hq Hv. split_and!; [by eapply Hid|by eapply Hpa| | |by eapply Ha].
  - intros t Ht. by eapply lookup_lt_is_Some_1, Har.
  - intros e He. destruct (graph_wires _ _ _ _ _ Hb (good_single _ Hg) Hq Hv) as (_ & _ & _ & Hes).
    apply Hes in He as (_ & Hpr & Hco). by eapply (good_sequenced _ Hg).
Qed.

(** [Check] accepts only private tensors that are plain to their owners. *)
Lemma Check_spec g q v n t x :
  Check g = Ok tt → q ∈ Pipelines g → Nodes q !! v = Some n → t ∈ arg_tensors (Outputs n) →
  graph_Tensors g !! t = Some x → tensor_status x = TENSORSTATUS_PRIVATE →
  LevelFor (CC x) (OwnerPartyCode x) = Plain.
Proof.
  intros Hck Hq Hn Ht Hx Hst. pose proof (Check_exact g) as Hc. rewrite Hck in Hc.
  destruct (Hc t) as (x' & Hx' & Hp); [|rewrite Hx in Hx'; injection Hx' as <-; by apply Hp].
  apply list_elem_of_join. exists (pipeline_outputs q). split; [|by apply list_elem_of_fmap_2].
  apply elem_of_pipeline_outputs. eauto.
Qed.


Lemma compileCore_parties info req lp opts force plan :
  compileCore info req lp opts force = Ok plan → plan_Parties plan = GetParties (partyInfo info).
Proof.
  unfold compileCore. intros (sc & _ & Hc)%res_bind_Ok.
  apply res_bind_Ok in Hc as (co & _ & Hc). apply res_bind_Ok in Hc as (lp' & _ & Hc).
  apply res_bind_Ok in Hc as ([g affected] & Ht & Hc). apply res_bind_Ok in Hc as (g' & Ho & Hc).
  apply res_bind_Ok in Hc as (_ & _ & Hc). apply res_bind_Ok in Hc as (codes & _ & Hc).
  apply res_bind_Ok in Hc as ([[columns parties] sgs] & Hb & [= <-]). simpl.
  unfold buildCompiledPlan in Hb. apply res_bind_Ok in Hb as (sgs' & _ & [= _ <- _]). simpl.
  apply Translate_built in Ht as (_ & _ & _ & _ & _ & _ & Hi & _).
  destruct (Optimize_frame g g' Ho) as [-> _]. by rewrite Hi.
Qed.

Context (plan_query : string → list TableEntry → string → res (LogicalPlan * resultOptions)).
Context (retried : LogicalPlan → LogicalPlan).

(** C9: the parties of a compiled plan are, sorted and without repetition, exactly the
    owners of the tables the query reads, the parties its result is written to, and the
    issuer if it asked to take part. *)
Theorem compile_participants req lp opts plan :
  plan_query (Query req) (Catalog req) (DbName req) = Ok (lp, opts) →
  Compile plan_query retried req = Ok plan →
  let ps := plan_Parties plan in
  let owner ds q := ∃ e, e ∈ Catalog req ∧ TableName e = DbTable_String (source_table (DbName req) ds)
                         ∧ OwnerCode e = q in
  StronglySorted cmp_le ps ∧ NoDup ps
  ∧ (∀ q, q ∈ ps ↔ (∃ ds, ds ∈ collectDataSourceNode lp ∧ owner ds q)
                   ∨ q = IssuerCode req ∧ IssuerAsParticipant req = true
                   ∨ q ∈ intoPartyCodes (IssuerCode req) opts).
Proof.
  intros Hq Hc. unfold Compile in Hc. rewrite Hq in Hc. cbn [mbind res_bind] in Hc.
  apply res_bind_Ok in Hc as (info & Hi & Hc).
  assert (plan_Parties plan = GetParties (partyInfo info)) as ->.
  { destruct (compileCore info req lp opts false) as [p| |] eqn:H1; [|by eapply compileCore_parties|done].
    injection Hc as <-. by eapply compileCore_parties. }
  destruct (engine_info_spec _ _ _ _ _ _ _ Hi) as (Hs & Hn & Hin & _). done.
Qed.

(** C38: the second attempt is not what its comment says: when a request asks for
    batches, the graph of the second attempt, too, is built from a plan that is batched,
    because the builder has read the option before it is cleared. *)
Theorem retry_is_still_batched info req co sc lp opts g affected :
  co_Batched co = true →
  Translate (compile_config info req co true) ext sc (co_GroupByThreshold co) opts lp = Ok (g, affected) →
  ∃ p, Build p = Ok g ∧ batched p = true ∧ pipelines_ok p.
Proof.
  intros Hco (p & _ & Hb & _ & Hok & Hbt & _)%Translate_built. exists p.
  split_and!; [done| |done]. rewrite Hbt. exact Hco.
Qed.
End compiler.

(** ** Examples *)
Module Request.
#[local] Existing Instance go_range_list.
#[export] Instance hashes : hashing := mkHashing (λ s, s) (λ _, EmptyString).
#[local] Existing Instances Query.dates Graphviz.Example.no_floats.

Definition catalog : list TableEntry :=
  [mkTableEntry "db.ta" "shop.orders" "mysql" "alice";
   mkTableEntry "db.tb" "bank.accounts" "sqlite" "bob"].
Definition options : CompileOptions := mkCompileOptions true false false 4 0 true.
Definition request : CompileQueryRequest :=
  mkCompileQueryRequest "SELECT ta.at > '2025-05-08' FROM ta JOIN tb ON ta.id = tb.id" "db" "alice" true
    (Some Query.acl) catalog (Some options).
Definition opts : resultOptions := Query.opts Query.later.
Definition planner (_ : string) (_ : list TableEntry) (_ : string) : res (LogicalPlan * resultOptions) :=
  Ok (Query.later, opts).

Definition info : EnginesInfo :=
  match buildEngineInfo Query.later catalog "db" "alice" true [] with
  | Ok info => info
  | _ => NewEnginesInfo (mkPartyInfo []) ∅
  end.
Definition translated (force : bool) : res (Graph * bool) :=
  Translate (compile_config info request options force) TranslateSpec.Example.ex Query.acl 4 opts
    Query.later.
Definition graph (force : bool) : Graph :=
  match translated force with Ok (g, _) => g | _ => mkGraph [] 0 [] (mkPartyInfo []) [] end.
Definition plan : res CompiledPlan :=
  Compile (ext := TranslateSpec.Example.ex) planner id request.
End Request.

Definition attributes_setb (g : Graph) : bool :=
  forallb (λ q, forallb (λ x, forallb (λ y, bool_decide (is_Some (TensorValue y.2)))
    (map_to_list (Attributes x.2))) (map_to_list (Nodes q))) (Pipelines g).

Lemma attributes_setb_ok g : attributes_setb g = true → node_all (λ _ n, attributes_set n) g.
Proof.
  intros Hg q v n Hq Hn k a Ha. unfold attributes_setb in Hg. rewrite forallb_forall in Hg.
  apply list_elem_of_In, Hg in Hq. rewrite forallb_forall in Hq.
  apply elem_of_map_to_list, list_elem_of_In, Hq in Hn. rewrite forallb_forall in Hn.
  apply elem_of_map_to_list, list_elem_of_In, Hn in Ha. by apply bool_decide_eq_true in Ha.
Qed.

(** ** Witnesses *)
#[local] Existing Instance go_range_list.
#[local] Existing Instances Query.dates Graphviz.Example.no_floats Request.hashes.


Lemma compile_participants_witness :
  ∃ plan, Request.plan = Ok plan ∧ StronglySorted cmp_le (plan_Parties plan)
    ∧ NoDup (plan_Parties plan).
Proof.
  destruct Request.plan as [plan| |] eqn:Hp; [|vm_compute in Hp; discriminate..].
  destruct (compile_participants (ext := TranslateSpec.Example.ex) Request.planner id Request.request
    Query.later Request.opts plan) as (Hs & Hn & _); [reflexivity|exact Hp|].
  exists plan. split; [reflexivity|]. by split.
Defined.

Lemma retry_is_still_batched_witness :
  @opt_Batched (compile_config Request.info Request.request Request.options true) = false
  ∧ ∃ p, Build p = Ok (Request.graph true) ∧ batched p = true ∧ pipelines_ok p.
Proof.
  split; [reflexivity|].
  apply (retry_is_still_batched (ext := TranslateSpec.Example.ex) Request.info Request.request
    Request.options Query.acl Query.later Request.opts (Request.graph true) false);
    vm_compute; reflexivity.
Defined.
